(* ===== verification/_CoqProject ===== *)
-Q . S2P
Prelude.v
Model.v
Reward.v
History.v
World.v
IncarnationDb.v
Access.v
Snapshot.v
Replay.v
ParallelState.v
StateSplit.v
CacheView.v
StateBalances.v
CacheLoads.v
CacheExport.v
Bundle.v
OrderedCommit.v
TxDependency.v
Context.v
Cursor.v
Metrics.v
Scheduler.v
Interleave.v
Progress.v
Liveness.v
Finality.v
Published.v
Control.v
Reserve.v
Pipeline.v
Serial.v
Settlement.v
SerialRun.v
HeadProgress.v
NoPanic.v
EndToEnd.v
EndToEndRun.v
Reread.v
Executor.v
Handler.v
HandlerRun.v
Precompile.v
BuildEvm.v
Collections.v
Text.v
MemoryDb.v
Erc20.v
Uniswap.v
Mainnet.v
FixtureFiles.v
Rpc.v
RpcProps.v
ReplayTool.v
ReplayToolProps.v
ReplayMain.v
FetchTools.v
Reference.v
ReferenceProps.v
Testing.v
TestsBeneficiary.v
TestsScheduling.v
TestsState.v
TestsSafety.v
TestsRun.v
TestsTools.v
