(* ===== verification/Prelude.v ===== *)
(** * A verification library for Grevm

    Grevm (src/src) executes the transactions of an Ethereum block in parallel and commits what
    a sequential execution would have committed. This library translates the crate into
    executable definitions and proves the properties that make it correct. The names of
    definitions follow the source where the language allows it.

    ** The program and its parts

    Worker threads take tasks from the scheduler (scheduler.rs, tx_dependency.rs,
    scheduler/context.rs, scheduler/cursor.rs). An execution task runs revm on one transaction over an
    [IncarnationDb] (incarnation_db.rs), which answers a read from the newest preceding write in
    multi-version memory, from the history of the beneficiary (beneficiary/history.rs,
    beneficiary/reward.rs), or from the block state (parallel_state.rs), and records what it read.
    A validation task compares the recorded reads with what memory holds now. The finality loop
    turns validated transactions final in order; the commit loop commits final results to the
    block state (scheduler/ordered_commit.rs) and publishes their outcomes. When the parallel
    phase cannot go on, the rest of the block is replayed one transaction after the other
    (scheduler/control.rs, scheduler/fallback.rs). bundle.rs extracts the state changes of the block. With delegated
    safety enabled, delegated_safety/ wraps revm's handler to protect the reserve of delegated
    accounts. precompile.rs lets custom precompiles use the journal. The tools (bin/) and the
    test utilities (test_utils/common/) fetch blocks over JSON-RPC, rebuild their opening state
    and compare Grevm with a sequential reference. test_utils/erc20 and test_utils/uniswap generate
    contracts and transactions for tests.

    ** Files

    - Prelude: results, panics ([outcome]: an assertion, an index out of range, an expect),
      machine integers as [Z] with their range, shared tactics and lemmas.
    - Model: model.rs, account.rs, outcome.rs and the fields of revm's data the crate uses; the
      class [Revm] names the functions of revm the crate calls.
    - Reward, History: beneficiary/reward.rs and beneficiary/history.rs.
    - World: the abstract chain state, the effect of committing a result, and the interfaces
      [DatabaseRef] and [DatabaseView] between a database and its readers.
    - IncarnationDb: incarnation_db.rs. Access: the same operations as programs of single accesses
      to shared data. Snapshot: reads are reads of the state of block order. Replay: an execution whose
      reads are valid is a serial execution.
    - ParallelState, CacheView, CacheExport: parallel_state.rs, what the cache represents, and its
      export. StateSplit: the shared view and the commit half of the state. StateBalances: increments and
      drains. CacheLoads: its loads, access by access. Bundle: bundle.rs.
    - OrderedCommit, TxDependency, Context, Metrics: the files of the same names under scheduler/ and
      tx_dependency.rs, with the operations of cursor.rs in Context and wait.rs in Metrics. Cursor: the
      published cursor, and the exchange loop of cursor.rs access by access.
    - Scheduler: the operations of scheduler.rs on the shared state. Interleave: their steps in any
      order. Finality: the safety of finality. Published: memory holds what the last
      executions published. Progress, Liveness: the invariant of cursors, statuses and dependency
      graph under interleaving, and the absence of deadlock.
    - Control: the commit loop, scheduler/control.rs and scheduler/fallback.rs. Pipeline: workers, finality,
      cache reads and commit loop together.
    - Serial, SerialRun, Reread: the whole block with executions interleaved access by access,
      its serializability, an executable form of the steps, and a schedule outside the condition of the
      theorem. HeadProgress: the transaction at the head of the block.
    - Settlement: an execution under the two modes of beneficiary/reward.rs, and the transaction of
      the sequential replay. NoPanic: the panics of the threads, and that none is reached.
      EndToEnd, EndToEndRun: the parallel phase inside the execution lifecycle, and the comparison
      with sequential execution, with a concrete block.
    - Reserve, Handler, HandlerRun: delegated_safety/reserve.rs, handler.rs and instructions.rs. Executor: config.rs,
      delegated_safety/config.rs and scheduler/executor.rs. Precompile: precompile.rs. BuildEvm: the EVM and the
      executor that scheduler/executor.rs assembles.
    - Collections, Text: what the tools use of the collections, strings and numbers of the
      standard library, and the interface of serde_json values.
    - MemoryDb: test_utils/common/storage.rs. Erc20: test_utils/common/account.rs and test_utils/erc20.
      Uniswap: test_utils/uniswap. Mainnet: test_utils/common/mainnet.rs, with its file access in
      FixtureFiles.
    - Rpc, RpcProps: bin/rpc.rs. ReplayTool, ReplayToolProps, ReplayMain: bin/replay_mainnet.rs. FetchTools:
      bin/fetch_block.rs and bin/fetch_continuous.rs.
    - Reference, ReferenceProps: test_utils/common/execute.rs.
    - Testing, TestsBeneficiary, TestsScheduling, TestsState, TestsSafety, TestsRun, TestsTools: the
      unit tests of the source, translated and evaluated. TestsRun also runs the commit loop by itself.

    ** What the theorems show

    - End to end (EndToEnd.execution_is_serial, EndToEnd.parallel_equals_sequential): executing a
      block gives the outcomes and the state of a serial execution of a prefix of it, of the whole block on
      success, and the same as the sequential execution when revm is deterministic. They assume that
      the threads of the parallel phase come to an end ([phase_runs]), after a run in which no call of
      a final execution overwrites a recorded read, and what revm promises of journals ([evm_ok]), of
      the reward ([reward_laws]) and of the sequential configuration ([sequential_revm]). That the
      threads do not end by a panic is proved (EndToEnd.threads_never_panic).
    - Serializability (Serial.committed_serializable): in every interleaving of executions,
      publications, validations, finality and commits, the committed results are those of a
      serial execution, provided that no database call of a final execution overwrites a
      recorded read ([undisturbed]). Reread.overwritten_reset_read shows that the condition is needed: it gives a schedule of
      the code that commits the outcomes of no serial execution.
    - The lemmas under it, as properties of their own: finality is safe, the commit pipeline
      describes one prefix, reads are block-order reads, the cache represents the committed
      world, ordered commit and the lifecycle around the parallel phase are exact on every path.
    - Progress: the scheduler does not get stuck (Liveness.scheduler_never_stuck), the transaction at the
      head of the block is not executed for ever (HeadProgress.head_executes_once), no wakeup of a dependent
      transaction and no notification is lost, and the execution frontier is exact.
    - Atomicity: claims of a cursor are linearizable, loads of the cache act at their last access
      provided that no account is cleared while one of its slots is being fetched
      (CacheLoads.loads_atomic). CacheLoads.stale_slot_after_clear shows
      that the proviso is needed: it gives a schedule that leaves an old database value in a
      cleared account.
    - Functional results on every branch: beneficiary history, reserve planner and violation
      test, reserve-aware handler and its run, precompile facade, the EVM of a block, bundle construction,
      balance changes outside a journal, cache export.
    - The harness: the sequential replay agrees with the independent reference, a passed replay check
      means equal results and bundles, filtered merged blocks execute, fixtures are served as
      databases that meet the interface above and survive the disk, prestates are first seen wins, the trace
      analysis is exact and terminates, the replay program ends with the verdict of a sequential
      replay, every retry loop of the client is bounded, and the generated contracts have the
      storage their code reads.
    - Conformance: the assertions of the unit tests of the source hold of the definitions, under
      every interleaving where the test explores them (Testing.explore_sound).

    ** Granularity, fuel and parameters

    A step of the interleaved models is one critical section or one atomic access of the source: the
    settling of an execution, a validation verdict, a finality iteration, the commit of one
    transaction and one call of the backing database are single steps, while the accesses of a running
    execution to memory, history and block state interleave one by one. Memory is sequentially
    consistent. A load of the block state is one step of Pipeline and Serial; CacheLoads justifies this but
    for the schedules its proviso excludes. Assertions that only debug builds check are modelled in Cursor
    and BuildEvm, and left out elsewhere.

    Loops over ranges and lists are structural. The remaining loops take fuel: trimming and chunking take the
    length of their input, hexadecimal printing sixteen digits (a 64-bit number has no more), the recursion over call
    frames the size of the JSON value, block scans the number of blocks of the range, the commit loop
    of TestsRun one round per transaction; each has a lemma
    that the fuel suffices, or the result of exhaustion is a distinct value that the theorems exclude.

    Code outside the repository is a parameter: revm's functions on accounts and transactions
    ([Revm], [RevmDb], [RevmBundle] and their laws), the run of the EVM and its payment of the reward
    ([reward_laws]), revm's own state ([RevmState]), the backing database, alloy's parsers and hashes ([Alloy], [Specs]), serde_json values and files ([Json], [Serde]), the random
    generator ([Rng]) and the HTTP agent ([Http]). Hypotheses on them state their documented behaviour and are
    instantiated in the examples that end the files.

    ** Not modelled

    Printing, logging, Debug implementations, metrics exporters and durations; the identity hasher of the
    block-hash map; compiled contracts and the random generator, which are parameters; benchmarks and the
    integration tests, which run whole blocks through revm. They hold no logic that the properties
    are about. Of the unit tests, those are left out that compare rewards with the ones revm computes, need
    a live interpreter, count the reports of metrics, or use floating-point
    durations: they test code that is a parameter here. *)

From stdpp Require Export base tactics option list numbers gmap fin_maps sets relations.
From Stdlib Require Export ZArith Lia.

Set Default Goal Selector "!".

(** ** Rust results and panics *)

(** [Result<A, E>] of the source. *)
Inductive result (E A : Type) : Type :=
| Ok (a : A)
| Err (e : E).
Arguments Ok {E A} a.
Arguments Err {E A} e.

(** A computation that may panic: an [assert!], an [expect], an index out of bounds. *)
Inductive outcome (A : Type) : Type :=
| Done (a : A)
| Panic.
Arguments Done {A} a.
Arguments Panic {A}.

Definition result_bind {E A B} (x : result E A) (f : A → result E B) : result E B :=
  match x with Ok a => f a | Err e => Err e end.
Definition result_map {E A B} (f : A → B) (x : result E A) : result E B :=
  match x with Ok a => Ok (f a) | Err e => Err e end.
Definition result_map_err {E E' A} (f : E → E') (x : result E A) : result E' A :=
  match x with Ok a => Ok a | Err e => Err (f e) end.
Definition outcome_bind {A B} (x : outcome A) (f : A → outcome B) : outcome B :=
  match x with Done a => f a | Panic => Panic end.

Declare Scope grevm_scope.
Open Scope grevm_scope.

(** Sequencing of computations that may panic. *)
Notation "'let!' x := e 'in' k" := (outcome_bind e (λ x, k))
  (at level 10, x strict pattern, e at level 200, k at level 200) : grevm_scope.
(** The [?] operator. *)
Notation "'let?' x := e 'in' k" := (result_bind e (λ x, k))
  (at level 10, x strict pattern, e at level 200, k at level 200) : grevm_scope.

(** [v[i]]: an index out of bounds panics. *)
Definition index {A} (l : list A) (i : nat) : outcome A :=
  match l !! i with Some a => Done a | None => Panic end.

(** [assert!(b)]. *)
Definition assert_that (b : bool) : outcome unit := if b then Done tt else Panic.

Definition is_ok {E A} (r : result E A) : bool := match r with Ok _ => true | Err _ => false end.

(** ** Machine integers

    Unsigned machine integers are values of [Z] between zero and the maximum of their width;
    the operations of the source that can leave the range are written out. *)

Definition U64_MAX : Z := 2 ^ 64 - 1.
Definition U128_MAX : Z := 2 ^ 128 - 1.
Definition U256_MAX : Z := 2 ^ 256 - 1.

Definition in_range (max x : Z) : Prop := (0 ≤ x ≤ max)%Z.

Definition checked_add (max x y : Z) : option Z :=
  if decide (x + y ≤ max)%Z then Some (x + y)%Z else None.
Definition saturating_add (max x y : Z) : Z := Z.min (x + y) max.
Definition saturating_sub (x y : Z) : Z := Z.max 0 (x - y).
(** Multiplication of a release build: it wraps around at the width of the type. *)
Definition wrapping_mul (max x y : Z) : Z := (x * y) mod (max + 1).

(** ** Automation *)

Create HintDb grevm.

(** Split every [match] and [if] of the goal and the hypotheses, dropping absurd branches. *)
Ltac split_cases := repeat (case_match || case_decide); simplify_eq/=.

(** ** Shared lemmas *)

Lemma outcome_bind_Done {A B} (x : outcome A) (f : A → outcome B) (b : B) :
  outcome_bind x f = Done b ↔ ∃ a, x = Done a ∧ f a = Done b.
Proof. destruct x; naive_solver. Qed.

Lemma index_Done {A} (l : list A) i a : index l i = Done a ↔ l !! i = Some a.
Proof. unfold index. split_cases; naive_solver. Qed.

Lemma assert_that_Done b u : assert_that b = Done u ↔ b = true.
Proof. destruct b, u; naive_solver. Qed.

Lemma checked_add_range max x y z :
  in_range max x → in_range max y → checked_add max x y = Some z → in_range max z ∧ z = (x + y)%Z.
Proof. unfold in_range, checked_add. intros. case_decide; simplify_eq; lia. Qed.

Lemma saturating_add_range max x y :
  in_range max x → in_range max y → in_range max (saturating_add max x y).
Proof. unfold in_range, saturating_add. lia. Qed.

Lemma saturating_sub_range max x y :
  in_range max x → in_range max y → in_range max (saturating_sub x y).
Proof. unfold in_range, saturating_sub. lia. Qed.

#[export] Hint Resolve saturating_add_range saturating_sub_range : grevm.

(** A vector with the element at an index replaced; out of bounds panics. *)
Definition modify_at {A} (l : list A) (i : nat) (f : A → A) : outcome (list A) :=
  let! a := index l i in Done (<[i := f a]> l).

Lemma modify_at_Done {A} (l l' : list A) i f :
  modify_at l i f = Done l' ↔ ∃ a, l !! i = Some a ∧ l' = <[i := f a]> l.
Proof.
  unfold modify_at. rewrite outcome_bind_Done. setoid_rewrite index_Done. naive_solver.
Qed.

Lemma modify_at_lt {A} (l : list A) i f : i < length l → ∃ l', modify_at l i f = Done l'.
Proof.
  intros [a Ha]%lookup_lt_is_Some_2. exists (<[i := f a]> l). apply modify_at_Done. eauto.
Qed.
