(* ===== verification/Model.v ===== *)
(** Data model shared by every component: src/src/model.rs, src/src/account.rs and
    src/src/outcome.rs, with the parts of revm's data types that the crate reads and writes.

    Functions of revm are not defined here: the class [Revm] names the ones the crate calls,
    and every definition that uses one takes the class as a parameter. *)

From S2P Require Import Prelude.
From stdpp Require Export strings.

(** ** revm data *)

Abbreviation TxId := nat (only parsing).
Abbreviation Address := Z (only parsing).
Abbreviation U256 := Z (only parsing).
Abbreviation B256 := Z (only parsing).

(** revm's [Bytecode], by its raw bytes. *)
Abbreviation Bytecode := (list Z) (only parsing).

(** revm's [AccountInfo]: the fields the crate reads and writes. *)
Record AccountInfo := mkInfo {
  balance : U256;
  nonce : Z;
  code_hash : B256;
  code : option Bytecode
}.

(** revm's [EvmStorageSlot]. *)
Record EvmStorageSlot := mkSlot {
  original_value : U256;
  present_value : U256
}.

(** revm's journal [Account]: the three status bits the crate queries, the account value and
    its storage. *)
Record Account := mkAccount {
  is_touched : bool;
  is_selfdestructed : bool;
  is_created : bool;
  acc_info : AccountInfo;
  acc_storage : gmap U256 EvmStorageSlot
}.

Abbreviation EvmState := (gmap Address Account) (only parsing).

(** revm's [TxKind] and the fields of [TxEnv] the crate reads, with the gas fields its
    cost functions depend on. *)
Inductive TxKind := Call (target : Address) | Create.

Record TxEnv := mkTxEnv {
  caller : Address;
  tx_nonce : Z;
  tx_value : U256;
  tx_kind : TxKind;
  gas_limit : Z;
  gas_price : Z
}.

(** The functions of revm the crate calls on these values, and revm's opaque result types. *)
Class Revm := {
  ExecutionResult : Type;
  InvalidTransaction : Type;
  NonceOverflowInTransaction : InvalidTransaction;
  info_default : AccountInfo;
  is_empty_code_hash : AccountInfo → bool;
  info_is_empty : AccountInfo → bool;
  has_no_code_and_nonce : AccountInfo → bool;
  is_eip7702 : Bytecode → bool;
  max_balance_spending : TxEnv → option U256;
  effective_gas_price : TxEnv → Z → Z
}.

(** [Account::is_empty] forwards to the account value. *)
Definition is_empty `{Revm} (a : Account) : bool := info_is_empty (acc_info a).

(** [EvmStorageSlot::is_changed] and [Account::changed_storage_slots]. *)
Definition is_changed (s : EvmStorageSlot) : bool :=
  negb (bool_decide (original_value s = present_value s)).
Definition changed_storage_slots (a : Account) : gmap U256 EvmStorageSlot :=
  filter (λ kv, is_changed kv.2 = true) (acc_storage a).

(** revm's [EVMError]: the variants the crate names, and one for the variants it does not. *)
Inductive EVMError `{Revm} (DBError : Type) : Type :=
| Transaction (e : InvalidTransaction)
| Database (e : DBError)
| Custom (message : string)
| OtherEVMError (code : Z).
Arguments Transaction {_ DBError} e.
Arguments Database {_ DBError} e.
Arguments Custom {_ DBError} message.
Arguments OtherEVMError {_ DBError} code.

(** ** src/src/model.rs *)

Inductive TransactionStatus :=
| Initial | Executing | Executed | Validating | Unconfirmed | Conflict | Finality.

Record TxState := mkTxState {
  status : TransactionStatus;
  ts_incarnation : nat;
  ts_dependency : option TxId
}.

Definition TxState_default : TxState := mkTxState Initial 0 None.

Record TxVersion := mkTxVersion {
  txid : TxId;
  tv_incarnation : nat
}.

(** The version chain of a beneficiary read, newest contributing write first
    (src/src/beneficiary/history.rs). *)
Record BeneficiaryReadVersion := mkBeneficiaryReadVersion {
  origins : list TxVersion
}.

Inductive ReadVersion :=
| MvMemory (v : TxVersion)
| RVBeneficiary (v : BeneficiaryReadVersion)
| RVStorage.

Record AccountBasic := mkAccountBasic {
  ab_balance : U256;
  ab_nonce : Z;
  ab_code_hash : option B256
}.

Definition AccountBasic_from `{Revm} (i : AccountInfo) : AccountBasic :=
  mkAccountBasic (balance i) (nonce i)
    (if negb (is_empty_code_hash i) then Some (code_hash i) else None).

Inductive MemoryValue :=
| MVBasic (a : option AccountInfo)
| MVCode (c : Bytecode)
| MVStorage (v : U256)
| MVStorageReset.

Record MemoryEntry := mkMemoryEntry {
  me_incarnation : nat;
  data : MemoryValue;
  estimate : bool
}.

Inductive LocationAndType :=
| LBasic (a : Address)
| LStorage (a : Address) (k : U256)
| LStorageReset (a : Address)
| LCode (a : Address).

Inductive Task :=
| Execution (v : TxVersion)
| Validation (v : TxVersion).

#[export] Instance AccountInfo_eq_dec : EqDecision AccountInfo.
Proof. solve_decision. Defined.
#[export] Instance EvmStorageSlot_eq_dec : EqDecision EvmStorageSlot.
Proof. solve_decision. Defined.
#[export] Instance TransactionStatus_eq_dec : EqDecision TransactionStatus.
Proof. solve_decision. Defined.
#[export] Instance TxVersion_eq_dec : EqDecision TxVersion.
Proof. solve_decision. Defined.
#[export] Instance BeneficiaryReadVersion_eq_dec : EqDecision BeneficiaryReadVersion.
Proof. solve_decision. Defined.
#[export] Instance ReadVersion_eq_dec : EqDecision ReadVersion.
Proof. solve_decision. Defined.
#[export] Instance LocationAndType_eq_dec : EqDecision LocationAndType.
Proof. solve_decision. Defined.
#[export] Instance MemoryValue_eq_dec : EqDecision MemoryValue.
Proof. solve_decision. Defined.
#[export] Instance MemoryEntry_eq_dec : EqDecision MemoryEntry.
Proof. solve_decision. Defined.
#[export] Instance Account_eq_dec : EqDecision Account.
Proof. solve_decision. Defined.

Definition location_encode (l : LocationAndType) : (Z + Z * Z) + (Z + Z) :=
  match l with
  | LBasic a => inl (inl a)
  | LStorage a k => inl (inr (a, k))
  | LStorageReset a => inr (inl a)
  | LCode a => inr (inr a)
  end.
Definition location_decode (x : (Z + Z * Z) + (Z + Z)) : LocationAndType :=
  match x with
  | inl (inl a) => LBasic a
  | inl (inr (a, k)) => LStorage a k
  | inr (inl a) => LStorageReset a
  | inr (inr a) => LCode a
  end.
#[export] Instance LocationAndType_countable : Countable LocationAndType.
Proof. apply (inj_countable' location_encode location_decode). by intros []. Defined.

(** Multi-version memory: for every location, the writes of the transactions by index. *)
Abbreviation MVMemory := (gmap LocationAndType (gmap TxId MemoryEntry)) (only parsing).

(** [written.range(..txid).next_back()]: the newest write of a preceding transaction. *)
Fixpoint range_next_back (t : TxId) (written : gmap TxId MemoryEntry) : option (TxId * MemoryEntry) :=
  match t with
  | 0 => None
  | S w =>
    match written !! w with
    | Some e => Some (w, e)
    | None => range_next_back w written
    end
  end.

(** ** src/src/account.rs *)

Inductive FinalizedAccount :=
| Unchanged
| Deleted
| Created (i : AccountInfo)
| Updated (i : AccountInfo).

Definition FinalizedAccount_from `{Revm} (account : Account) : FinalizedAccount :=
  if negb (is_touched account) then Unchanged
  else if is_selfdestructed account then Deleted
  else if is_created account then Created (acc_info account)
  else if is_empty account then Deleted
  else Updated (acc_info account).

(** ** src/src/outcome.rs *)

Inductive TxExecutionOutcome `{Revm} :=
| ExecutedOutcome (r : ExecutionResult)
| Skipped (e : InvalidTransaction).

Record GrevmError `{Revm} (DBError : Type) := mkGrevmError {
  ge_txid : TxId;
  error : EVMError DBError
}.
Arguments mkGrevmError {_ DBError} ge_txid error.
Arguments ge_txid {_ DBError} g.
Arguments error {_ DBError} g.

(** ** A concrete instance of the revm functions, for examples and witnesses *)

Definition revm_example : Revm := {|
  ExecutionResult := Z;
  InvalidTransaction := Z;
  NonceOverflowInTransaction := 7%Z;
  info_default := mkInfo 0 0 0 None;
  is_empty_code_hash i := bool_decide (code_hash i = 0%Z);
  info_is_empty i :=
    bool_decide (code_hash i = 0%Z) && bool_decide (balance i = 0%Z) && bool_decide (nonce i = 0%Z);
  has_no_code_and_nonce i := bool_decide (code_hash i = 0%Z) && bool_decide (nonce i = 0%Z);
  is_eip7702 c := bool_decide (take 3 c = [239; 1; 0]%Z);
  max_balance_spending t :=
    let cost := (tx_value t + gas_limit t * gas_price t)%Z in
    if decide (0 ≤ cost ≤ U256_MAX)%Z then Some cost else None;
  effective_gas_price t _ := gas_price t
|}.

(** ** Lemmas *)

Lemma range_next_back_Some t written w e :
  range_next_back t written = Some (w, e) ↔
  w < t ∧ written !! w = Some e ∧ ∀ k, w < k < t → written !! k = None.
Proof.
  induction t as [|t IH]; simpl; [split; [done|lia]|].
  destruct (written !! t) as [e'|] eqn:Ht; [split|rewrite IH; split].
  - intros [= <- <-]. repeat split; [lia|done|lia].
  - intros (Hw & He & Hnone).
    destruct (decide (w = t)) as [->|]; [by simplify_eq|].
    specialize (Hnone t). rewrite Ht in Hnone. naive_solver lia.
  - intros (Hw & He & Hnone). repeat split; [lia|done|].
    intros k Hk. destruct (decide (k = t)) as [->|]; [done|]. apply Hnone. lia.
  - intros (Hw & He & Hnone).
    destruct (decide (w = t)) as [->|]; [by simplify_eq|].
    repeat split; [lia|done|]. intros k Hk. apply Hnone. lia.
Qed.

Lemma range_next_back_None t written :
  range_next_back t written = None ↔ ∀ k, k < t → written !! k = None.
Proof.
  induction t as [|t IH]; simpl; [split; [lia|done]|].
  destruct (written !! t) as [e'|] eqn:Ht; [|rewrite IH]; split.
  - done.
  - intros Hn. rewrite Hn in Ht by lia. done.
  - intros Hn k Hk. destruct (decide (k = t)) as [->|]; [done|]. apply Hn. lia.
  - intros Hn k Hk. apply Hn. lia.
Qed.

(** Only the writes of preceding transactions matter. *)
Lemma range_next_back_ext t written written' :
  (∀ k, k < t → written !! k = written' !! k) →
  range_next_back t written = range_next_back t written'.
Proof.
  induction t as [|t IH]; simpl; intros Hk; [done|].
  rewrite (Hk t) by lia. case_match; [done|]. apply IH. intros. apply Hk. lia.
Qed.

Lemma range_next_back_app t written w e :
  t ≤ w → range_next_back t (<[w := e]> written) = range_next_back t written.
Proof. intros. apply range_next_back_ext. intros. by rewrite lookup_insert_ne by lia. Qed.
