(* ===== verification/Reward.v ===== *)
(** Beneficiary rewards: src/src/beneficiary/reward.rs and the speculative result of
    src/src/beneficiary.rs that carries a deferred reward to ordered commit. *)

From S2P Require Import Prelude Model.

(** ** Amounts *)

(** A fee reward that may be zero. *)
Record BeneficiaryReward := mkBeneficiaryReward { reward_amount : U256 }.

(** A reward proven non-zero, left for ordered commit. *)
Record DeferredBeneficiaryReward := mkDeferred { deferred_amount : U256 }.

#[export] Instance DeferredBeneficiaryReward_eq_dec : EqDecision DeferredBeneficiaryReward.
Proof. solve_decision. Defined.

(** What [from_gas] reads of the execution context: the fee switch of the configuration, the
    block base fee, whether the active fork includes London, and the gas counters. *)
Record RewardContext := mkRewardContext {
  is_fee_charge_disabled : bool;
  basefee : Z;
  london_enabled : bool;
  rc_tx : TxEnv
}.

Record Gas := mkGas { gas_used : Z; gas_reservoir : Z }.

Section reward.
Context `{Revm}.

Definition from_gas (context : RewardContext) (gas : Gas) : option BeneficiaryReward :=
  if is_fee_charge_disabled context then None
  else
    let effective_gas_price := effective_gas_price (rc_tx context) (basefee context) in
    let beneficiary_gas_price :=
      if london_enabled context then saturating_sub effective_gas_price (basefee context)
      else effective_gas_price in
    let effective_used := saturating_sub (gas_used gas) (gas_reservoir gas) in
    Some (mkBeneficiaryReward (wrapping_mul U128_MAX beneficiary_gas_price effective_used)).

Definition is_zero (r : BeneficiaryReward) : bool := bool_decide (reward_amount r = 0%Z).

Definition defer (r : BeneficiaryReward) : outcome DeferredBeneficiaryReward :=
  let! _ := assert_that (negb (is_zero r)) in
  Done (mkDeferred (reward_amount r)).

(** Apply a deferred reward with revm's checked addition. *)
Definition apply_to (r : DeferredBeneficiaryReward) (account : option AccountInfo) : AccountInfo :=
  let account := default info_default account in
  match checked_add U256_MAX (balance account) (deferred_amount r) with
  | Some balance => mkInfo balance (nonce account) (code_hash account) (code account)
  | None => account
  end.

(** ** Settlement policy *)

Inductive BeneficiaryMode := Deferred | Immediate.

(** The settlement decision of [BeneficiaryMode::apply]. The journal is a type parameter with
    the two functions the code uses: whether it already holds the beneficiary, and revm's
    [post_execution::reward_beneficiary]. *)
Section apply.
Context {Journal E : Type}.
Context (contains_beneficiary : Journal → bool).
Context (reward_beneficiary : Journal → result E Journal).

Definition apply (mode : BeneficiaryMode) (context : RewardContext) (gas : Gas) (evm : Journal)
    (deferred_reward : option DeferredBeneficiaryReward) :
    outcome (result E (Journal * option DeferredBeneficiaryReward)) :=
  match mode with
  | Immediate => Done (let? evm' := reward_beneficiary evm in Ok (evm', deferred_reward))
  | Deferred =>
    match from_gas context gas with
    | None => Done (Ok (evm, deferred_reward))
    | Some reward =>
      if is_zero reward || contains_beneficiary evm then
        Done (let? evm' := reward_beneficiary evm in Ok (evm', deferred_reward))
      else
        let! d := defer reward in
        Done (Ok (evm, Some d))
    end
  end.
End apply.

(** ** Speculative results (src/src/beneficiary.rs) *)

Record SpeculativeResult := mkSpeculativeResult {
  sr_result : ExecutionResult;
  sr_state : EvmState;
  sr_deferred_reward : option DeferredBeneficiaryReward
}.

Definition settled (result : ExecutionResult) (state : EvmState) : SpeculativeResult :=
  mkSpeculativeResult result state None.
Definition deferred (result : ExecutionResult) (state : EvmState)
    (reward : DeferredBeneficiaryReward) : SpeculativeResult :=
  mkSpeculativeResult result state (Some reward).

(** ** Lemmas *)

Lemma apply_to_None r :
  balance info_default = 0%Z → in_range U256_MAX (deferred_amount r) →
  balance (apply_to r None) = deferred_amount r.
Proof.
  unfold apply_to, checked_add, in_range. simpl. intros -> ?. case_decide; simpl; lia.
Qed.

Lemma wrapping_mul_exact max x y :
  (0 ≤ x)%Z → (0 ≤ y)%Z → (x * y ≤ max)%Z → wrapping_mul max x y = (x * y)%Z.
Proof. unfold wrapping_mul. intros. apply Z.mod_small. nia. Qed.

Lemma defer_non_zero r d : defer r = Done d → deferred_amount d ≠ 0%Z ∧ deferred_amount d = reward_amount r.
Proof.
  unfold defer, is_zero. intros (? & Hz & ?)%outcome_bind_Done. simplify_eq/=.
  apply assert_that_Done in Hz. by case_bool_decide.
Qed.

End reward.
