(* ===== verification/History.v ===== *)
(** Beneficiary history: src/src/beneficiary/history.rs and the [Beneficiary] aggregate of
    src/src/beneficiary.rs.

    Every transaction owns one entry. Entries are locked one at a time, so a scan observes the
    entries at different instants: the scan takes the observation as a function of the writer,
    and the theorems relate observations made anywhere along a run of publications. *)

From S2P Require Import Prelude Model Reward.

Section history.
Context `{Revm}.

(** ** Effects and entries *)

Inductive BeneficiaryEffect :=
| EffUnchanged
| EffReward (r : DeferredBeneficiaryReward)
| EffSnapshot (a : option AccountInfo).

Definition from_execution (deferred_reward : option DeferredBeneficiaryReward)
    (account : option Account) : outcome BeneficiaryEffect :=
  match deferred_reward with
  | Some reward =>
    let! _ := assert_that (bool_decide (account = None)) in
    Done (EffReward reward)
  | None =>
    Done (match FinalizedAccount_from <$> account with
          | None | Some Unchanged => EffUnchanged
          | Some Deleted => EffSnapshot None
          | Some (Created i) | Some (Updated i) => EffSnapshot (Some i)
          end)
  end.

Inductive EntryValue :=
| Estimate
| Exact (e : BeneficiaryEffect).

Record EntryState := mkEntryState {
  es_incarnation : nat;
  es_value : EntryValue
}.

(** [HistoryEntry::estimate]. *)
Definition HistoryEntry_estimate : EntryState := mkEntryState 0 Estimate.

(** [HistoryEntry::record], under the entry's write lock. *)
Definition entry_record (inc : nat) (v : EntryValue) (s : EntryState) : bool * EntryState :=
  if inc <=? es_incarnation s then (false, s) else (true, mkEntryState inc v).

(** [HistoryEntry::invalidate], under the entry's write lock. *)
Definition entry_invalidate (inc : nat) (s : EntryState) : bool * EntryState :=
  if negb (es_incarnation s =? inc) then (false, s)
  else
    (true,
     match es_value s with
     | Exact _ => mkEntryState (es_incarnation s) Estimate
     | Estimate => s
     end).

(** ** The history *)

Record BeneficiaryHistory := mkHistory {
  block_anchor : option AccountInfo;
  entries : list EntryState
}.

Definition BeneficiaryHistory_new (anchor : option AccountInfo) (block_size : nat) :=
  mkHistory anchor (replicate block_size HistoryEntry_estimate).

(** Update the entry of [t]; [BeneficiaryHistory::entry] panics outside the block. *)
Definition with_entry (t : TxId) (f : EntryState → bool * EntryState) (h : BeneficiaryHistory) :
    outcome (bool * BeneficiaryHistory) :=
  let! s := index (entries h) t in
  let '(b, s') := f s in
  Done (b, mkHistory (block_anchor h) (<[t := s']> (entries h))).

Definition record_effect (v : TxVersion) (e : BeneficiaryEffect) (h : BeneficiaryHistory) :=
  with_entry (txid v) (entry_record (tv_incarnation v) (Exact e)) h.

Definition record_execution (v : TxVersion) (deferred_reward : option DeferredBeneficiaryReward)
    (account : option Account) (h : BeneficiaryHistory) : outcome (bool * BeneficiaryHistory) :=
  let! e := from_execution deferred_reward account in
  record_effect v e h.

Definition record_estimate (v : TxVersion) (h : BeneficiaryHistory) :=
  with_entry (txid v) (entry_record (tv_incarnation v) Estimate) h.

Definition invalidate (v : TxVersion) (h : BeneficiaryHistory) :=
  with_entry (txid v) (entry_invalidate (tv_incarnation v)) h.

(** ** Reads *)

Record HistoryScan := mkHistoryScan {
  base : option AccountInfo;
  rewards_newest_first : list DeferredBeneficiaryReward;
  scan_version : BeneficiaryReadVersion
}.

Record BeneficiaryRead := mkBeneficiaryRead {
  br_account : option AccountInfo;
  br_version : BeneficiaryReadVersion
}.

(** The loop of [scan_before]: [n] writers are left, newest first; [observe w] is the snapshot
    of the entry of [w]. *)
Fixpoint scan_loop (anchor : option AccountInfo) (observe : nat → option EntryState) (n : nat)
    (acc_origins : list TxVersion) (acc_rewards : list DeferredBeneficiaryReward) :
    outcome (result TxId HistoryScan) :=
  match n with
  | 0 => Done (Ok (mkHistoryScan anchor acc_rewards (mkBeneficiaryReadVersion acc_origins)))
  | S writer =>
    match observe writer with
    | None => Panic
    | Some (mkEntryState inc Estimate) => Done (Err writer)
    | Some (mkEntryState inc (Exact effect)) =>
      let acc_origins := acc_origins ++ [mkTxVersion writer inc] in
      match effect with
      | EffUnchanged => scan_loop anchor observe writer acc_origins acc_rewards
      | EffReward reward => scan_loop anchor observe writer acc_origins (acc_rewards ++ [reward])
      | EffSnapshot account =>
        Done (Ok (mkHistoryScan account acc_rewards (mkBeneficiaryReadVersion acc_origins)))
      end
    end
  end.

(** [scan_before] of a history of [size] entries, observed through [observe]. *)
Definition scan_observed (anchor : option AccountInfo) (size : nat)
    (observe : nat → option EntryState) (t : TxId) : outcome (result TxId HistoryScan) :=
  let! _ := assert_that (t <=? size) in
  scan_loop anchor observe t [] [].

Definition scan_before (h : BeneficiaryHistory) (t : TxId) : outcome (result TxId HistoryScan) :=
  scan_observed (block_anchor h) (length (entries h)) (λ w, entries h !! w) t.

(** [HistoryScan::resolve]: fold the rewards in transaction order. *)
Definition resolve (s : HistoryScan) : BeneficiaryRead :=
  mkBeneficiaryRead
    (foldl (λ account reward, Some (apply_to reward account)) (base s)
       (rev (rewards_newest_first s)))
    (scan_version s).

Definition resolve_before (h : BeneficiaryHistory) (t : TxId) :
    outcome (result TxId BeneficiaryRead) :=
  let! s := scan_before h t in Done (result_map resolve s).

Definition latest_dependency (v : BeneficiaryReadVersion) : option TxId :=
  txid <$> head (origins v).

Record BeneficiaryValidation := mkBeneficiaryValidation {
  valid : bool;
  bv_dependency : option TxId
}.

(** [HistoryScan::validate]. *)
Definition scan_validate (s : HistoryScan) (expected : BeneficiaryReadVersion) :=
  mkBeneficiaryValidation (bool_decide (scan_version s = expected))
    (latest_dependency (scan_version s)).

Definition validate (h : BeneficiaryHistory) (t : TxId) (expected : BeneficiaryReadVersion) :
    outcome BeneficiaryValidation :=
  let! r := scan_before h t in
  Done (match r with
        | Ok scan => scan_validate scan expected
        | Err blocker => mkBeneficiaryValidation false (Some blocker)
        end).

(** ** The aggregate of src/src/beneficiary.rs *)

Record BeneficiaryAccount := mkBeneficiary {
  b_address : Address;
  b_history : BeneficiaryHistory
}.

Definition Beneficiary_new (a : Address) (anchor : option AccountInfo) (block_size : nat) :=
  mkBeneficiary a (BeneficiaryHistory_new anchor block_size).

Definition matches (b : BeneficiaryAccount) (a : Address) : bool := bool_decide (b_address b = a).

(** [Beneficiary::record_execution]: the effect of a whole speculative result. *)
Definition b_record_execution (v : TxVersion) (r : SpeculativeResult) (b : BeneficiaryAccount) :
    outcome (bool * BeneficiaryAccount) :=
  let deferred_reward := sr_deferred_reward r in
  let account := sr_state r !! b_address b in
  let! _ := assert_that (bool_decide (deferred_reward = None) || bool_decide (account = None)) in
  let! (ok, h) := record_execution v deferred_reward account (b_history b) in
  Done (ok, mkBeneficiary (b_address b) h).

Definition b_record_estimate (v : TxVersion) (b : BeneficiaryAccount) :
    outcome (bool * BeneficiaryAccount) :=
  let! (ok, h) := record_estimate v (b_history b) in
  Done (ok, mkBeneficiary (b_address b) h).

Definition b_invalidate (v : TxVersion) (b : BeneficiaryAccount) :
    outcome (bool * BeneficiaryAccount) :=
  let! (ok, h) := invalidate v (b_history b) in
  Done (ok, mkBeneficiary (b_address b) h).

(** ** Specification *)

(** The meaning of one effect on the account value. *)
Definition apply_effect (account : option AccountInfo) (e : BeneficiaryEffect) : option AccountInfo :=
  match e with
  | EffUnchanged => account
  | EffReward r => Some (apply_to r account)
  | EffSnapshot a => a
  end.

(** Effects agreeing with every exact entry observed below [t]: the unresolved entries may
    turn out to be anything. *)
Definition completes (observe : nat → option EntryState) (effects : list BeneficiaryEffect) : Prop :=
  ∀ w e inc, w < length effects → observe w = Some (mkEntryState inc (Exact e)) → effects !! w = Some e.

(** One publication on the history, by any thread. *)
Inductive hstep : relation BeneficiaryHistory :=
| hstep_execution v r a h h' b : record_execution v r a h = Done (b, h') → hstep h h'
| hstep_estimate v h h' b : record_estimate v h = Done (b, h') → hstep h h'
| hstep_invalidate v h h' b : invalidate v h = Done (b, h') → hstep h h'.

(** How one entry may evolve: to a newer incarnation, or from exact to estimate. *)
Definition entry_le (s s' : EntryState) : Prop :=
  es_incarnation s < es_incarnation s' ∨
  (es_incarnation s = es_incarnation s' ∧ (es_value s' = es_value s ∨ es_value s' = Estimate)).

(** Observations taken entry by entry between the states [h] and [h'] of a run. *)
Definition observed_between (h h' : BeneficiaryHistory) (observe : nat → option EntryState) : Prop :=
  ∀ w, ∃ hw, rtc hstep h hw ∧ rtc hstep hw h' ∧ observe w = entries hw !! w.

(** ** Entries *)

#[export] Instance entry_le_preorder : PreOrder entry_le.
Proof.
  split.
  - intros s. right. auto.
  - unfold entry_le. intros s1 s2 s3 [?|(?&[E|E])] [?|(?&[F|F])];
      first [left; lia|right; split; [congruence|]; rewrite ?F, ?E; auto].
Qed.

Lemma entry_record_le inc v s : entry_le s (entry_record inc v s).2.
Proof.
  unfold entry_record. destruct (Nat.leb_spec inc (es_incarnation s)); simpl; [done|]. left. simpl. lia.
Qed.

Lemma entry_invalidate_le inc s : entry_le s (entry_invalidate inc s).2.
Proof.
  unfold entry_invalidate. case_match; simpl; [done|]. case_match; [done|]. right. auto.
Qed.

(** An exact effect is published once per incarnation. *)
Lemma entry_le_exact inc e e' :
  entry_le (mkEntryState inc (Exact e)) (mkEntryState inc (Exact e')) → e = e'.
Proof. unfold entry_le. simpl. intros [?|(_&[?|?])]; [lia|congruence|congruence]. Qed.

Lemma with_entry_Done t f h b h' :
  with_entry t f h = Done (b, h') ↔
  ∃ s, entries h !! t = Some s ∧ b = (f s).1 ∧
       h' = mkHistory (block_anchor h) (<[t := (f s).2]> (entries h)).
Proof.
  unfold with_entry. rewrite outcome_bind_Done. setoid_rewrite index_Done. split.
  - intros (s & ? & Hd). exists s. destruct (f s). naive_solver.
  - intros (s & ? & -> & ->). exists s. destruct (f s). naive_solver.
Qed.

(** Histories evolve entry by entry; the anchor and the size are fixed. *)
Definition history_le (h h' : BeneficiaryHistory) : Prop :=
  block_anchor h' = block_anchor h ∧ Forall2 entry_le (entries h) (entries h').

#[export] Instance history_le_preorder : PreOrder history_le.
Proof.
  split.
  - split; [done|reflexivity].
  - intros h1 h2 h3 [? ?] [? ?]. split; [congruence|]. by etrans.
Qed.

Lemma with_entry_le t f h b h' :
  (∀ s, entry_le s (f s).2) → with_entry t f h = Done (b, h') → history_le h h'.
Proof.
  intros Hf (s & Hs & _ & ->)%with_entry_Done. split; [done|]. simpl.
  rewrite <-(list_insert_id (entries h) t s) at 1 by done.
  apply Forall2_insert; [|apply Hf]. reflexivity.
Qed.

Lemma hstep_le h h' : hstep h h' → history_le h h'.
Proof.
  intros [v r a h1 h1' b Hr|v h1 h1' b Hr|v h1 h1' b Hr].
  - apply outcome_bind_Done in Hr as (e & _ & Hr).
    eapply with_entry_le, Hr. intros. apply entry_record_le.
  - eapply with_entry_le, Hr. intros. apply entry_record_le.
  - eapply with_entry_le, Hr. intros. apply entry_invalidate_le.
Qed.

Lemma hsteps_le h h' : rtc hstep h h' → history_le h h'.
Proof. induction 1 as [|h1 h2 h3 ? _ IH]; [done|]. etrans; [by apply hstep_le|done]. Qed.

Lemma observed_entry_le h h' o w s :
  observed_between h h' o → o w = Some s →
  ∃ s0 s1, entries h !! w = Some s0 ∧ entries h' !! w = Some s1 ∧ entry_le s0 s ∧ entry_le s s1.
Proof.
  intros Ho Hs. destruct (Ho w) as (hw & [_ H0]%hsteps_le & [_ H1]%hsteps_le & Hw).
  rewrite Hs in Hw. symmetry in Hw.
  destruct (Forall2_lookup_r _ _ _ _ _ H0 Hw) as (s0 & ? & ?).
  destruct (Forall2_lookup_l _ _ _ _ _ H1 Hw) as (s1 & ? & ?). eauto 10.
Qed.

(** ** Scans *)

(** The origins and rewards accumulated before a call are a prefix of the result: a scan is
    the scan from empty accumulators, with the prefixes added. *)
Definition scan_prepend (os : list TxVersion) (rs : list DeferredBeneficiaryReward)
    (s : HistoryScan) : HistoryScan :=
  mkHistoryScan (base s) (rs ++ rewards_newest_first s)
    (mkBeneficiaryReadVersion (os ++ origins (scan_version s))).

Lemma scan_loop_prepend anchor o n os rs :
  scan_loop anchor o n os rs =
  outcome_bind (scan_loop anchor o n [] []) (λ r, Done (result_map (scan_prepend os rs) r)).
Proof.
  revert os rs. induction n as [|w IH]; intros os rs; simpl.
  { unfold scan_prepend. simpl. by rewrite !app_nil_r. }
  destruct (o w) as [[inc [|[|r|a]]]|]; simpl; [done| | | |done].
  - rewrite IH, (IH [_]). destruct (scan_loop _ _ _ [] []) as [[s|]|]; simpl; try done.
    unfold scan_prepend. simpl. by rewrite <-app_assoc.
  - rewrite IH, (IH [_]). destruct (scan_loop _ _ _ [] []) as [[s|]|]; simpl; try done.
    unfold scan_prepend. simpl. by rewrite <-!app_assoc.
  - unfold scan_prepend. simpl. by rewrite app_nil_r.
Qed.

(** One unfolding of the scan, from empty accumulators. *)
Lemma scan_loop_S anchor o w :
  scan_loop anchor o (S w) [] [] =
  match o w with
  | None => Panic
  | Some (mkEntryState _ Estimate) => Done (Err w)
  | Some (mkEntryState inc (Exact EffUnchanged)) =>
    let! r := scan_loop anchor o w [] [] in
    Done (result_map (scan_prepend [mkTxVersion w inc] []) r)
  | Some (mkEntryState inc (Exact (EffReward rw))) =>
    let! r := scan_loop anchor o w [] [] in
    Done (result_map (scan_prepend [mkTxVersion w inc] [rw]) r)
  | Some (mkEntryState inc (Exact (EffSnapshot a))) =>
    Done (Ok (mkHistoryScan a [] (mkBeneficiaryReadVersion [mkTxVersion w inc])))
  end.
Proof.
  simpl. destruct (o w) as [[inc [|[|r|a]]]|]; try done; apply scan_loop_prepend.
Qed.

(** The account a scan resolves to, adding the effects of the entries one by one. *)
Lemma resolve_prepend_unchanged os s :
  br_account (resolve (scan_prepend os [] s)) = br_account (resolve s).
Proof. done. Qed.

Lemma resolve_prepend_reward os r s :
  br_account (resolve (scan_prepend os [r] s)) = Some (apply_to r (br_account (resolve s))).
Proof. unfold resolve, scan_prepend. simpl. by rewrite foldl_app. Qed.

Lemma completes_S_inv o effects w :
  length effects = S w → completes o effects →
  ∃ effects' e, effects = effects' ++ [e] ∧ length effects' = w ∧ completes o effects' ∧
    ∀ inc e', o w = Some (mkEntryState inc (Exact e')) → e' = e.
Proof.
  intros Hl Hc. destruct (exists_last (l:=effects)) as (effects' & e & ->); [by intros ->|].
  rewrite length_app in Hl. simpl in Hl. exists effects', e. repeat split; [lia| |].
  - intros w' e' inc Hw' Ho. assert (Hx : (effects' ++ [e]) !! w' = Some e').
    { eapply Hc; [rewrite length_app; simpl; lia|done]. }
    by rewrite lookup_app_l in Hx.
  - intros inc e' Ho. assert (Hx : (effects' ++ [e]) !! w = Some e').
    { eapply Hc; [rewrite length_app; simpl; lia|done]. }
    rewrite lookup_app_r in Hx by lia. by replace (w - length effects') with 0 in Hx by lia; simplify_eq/=.
Qed.

Lemma scan_loop_resolves anchor o t s effects :
  length effects = t → completes o effects →
  scan_loop anchor o t [] [] = Done (Ok s) →
  br_account (resolve s) = foldl apply_effect anchor effects.
Proof.
  revert s effects. induction t as [|w IH]; intros s effects Hl Hc Hs.
  { destruct effects; [|done]. simpl in Hs. by simplify_eq/=. }
  rewrite scan_loop_S in Hs.
  destruct (completes_S_inv _ _ _ Hl Hc) as (effects' & e & -> & Hl' & Hc' & He).
  rewrite foldl_app. cbn [foldl]. pose proof (λ s, IH s effects' Hl' Hc') as IH'. clear IH; rename IH' into IH. clear Hl' Hl.
  destruct (o w) as [[inc [|e']]|] eqn:Ho; [done| |done]. specialize (He inc e' eq_refl). subst e'.
  destruct e as [|r|a]; cbn [apply_effect].
  1,2: apply outcome_bind_Done in Hs as ([s'|] & Hs' & Heq); simpl in Heq; simplify_eq;
    specialize (IH s' Hs').
  - by rewrite resolve_prepend_unchanged.
  - by rewrite resolve_prepend_reward, IH.
  - by simplify_eq/=.
Qed.

Lemma scan_loop_total anchor o t :
  (∀ w, w < t → is_Some (o w)) → ∃ r, scan_loop anchor o t [] [] = Done r.
Proof.
  induction t as [|w IH]; intros Hsome; [by eexists|]. rewrite scan_loop_S.
  destruct IH as [r Hr]; [auto with lia|].
  destruct (Hsome w) as [[inc [|[|rw|a]]] ->]; [lia|rewrite ?Hr; by eexists..].
Qed.

(** The blocker of a failed scan is the newest estimate, and no snapshot hides it. *)
Lemma scan_loop_blocked anchor o t b :
  scan_loop anchor o t [] [] = Done (Err b) ↔
  b < t ∧ (∃ inc, o b = Some (mkEntryState inc Estimate)) ∧
  ∀ w, b < w < t → ∃ inc e, o w = Some (mkEntryState inc (Exact e)) ∧ (∀ a, e ≠ EffSnapshot a).
Proof.
  induction t as [|t IH]; [simpl; split; [done|lia]|].
  rewrite scan_loop_S. split.
  - destruct (o t) as [[inc [|[|rw|a]]]|] eqn:Ho; intros Hs; simplify_eq.
    + split; [lia|]. split; [eauto|lia].
    + apply outcome_bind_Done in Hs as ([s|b'] & Hs & ?); simplify_eq/=.
      apply IH in Hs as (? & ? & Hw). repeat split; [lia|done|]. intros w ?.
      destruct (decide (w = t)) as [->|]; [naive_solver|]. apply Hw. lia.
    + apply outcome_bind_Done in Hs as ([s|b'] & Hs & ?); simplify_eq/=.
      apply IH in Hs as (? & ? & Hw). repeat split; [lia|done|]. intros w ?.
      destruct (decide (w = t)) as [->|]; [naive_solver|]. apply Hw. lia.
  - intros (Hb & [inc Hi] & Hw). destruct (decide (b = t)) as [->|]; [by rewrite Hi|].
    assert (Hs : scan_loop anchor o t [] [] = Done (Err b)).
    { apply IH. repeat split; [lia|eauto|]. intros. apply Hw. lia. }
    destruct (Hw t) as (inc' & e & -> & Hne); [lia|].
    rewrite Hs. destruct e; [done|done|naive_solver].
Qed.

(** Scans of the same entries that return the same versions return the same account, when an
    exact entry keeps its effect within an incarnation. *)
Lemma scan_loop_versions anchor o o' t s s' :
  (∀ w inc e e', o w = Some (mkEntryState inc (Exact e)) →
     o' w = Some (mkEntryState inc (Exact e')) → e = e') →
  scan_loop anchor o t [] [] = Done (Ok s) → scan_loop anchor o' t [] [] = Done (Ok s') →
  scan_version s = scan_version s' → s = s'.
Proof.
  intros Hagree. revert s s'. induction t as [|w IH]; intros s s' Hs Hs' Hv; [simpl in *; congruence|].
  rewrite scan_loop_S in Hs, Hs'.
  destruct (o w) as [[inc [|e]]|] eqn:Ho; [done| |done].
  destruct (o' w) as [[inc' [|e']]|] eqn:Ho'; [done| |done].
  assert (inc = inc') as <-.
  { destruct e, e'; simplify_eq;
      repeat match goal with
      | Hb : outcome_bind _ _ = Done _ |- _ => apply outcome_bind_Done in Hb as ([?|] & _ & ?)
      end; by simplify_eq/=. }
  assert (e = e') as <- by eauto. destruct e as [|r|a]; [| |congruence].
  all: apply outcome_bind_Done in Hs as ([s1|] & Hs & ?), Hs' as ([s1'|] & Hs' & ?); simplify_eq/=.
  all: destruct s1 as [b1 r1 [o1]], s1' as [b2 r2 [o2]]; unfold scan_prepend in *; simpl in *; simplify_eq/=.
  all: assert (Heq : mkHistoryScan b1 r1 (mkBeneficiaryReadVersion o2) =
         mkHistoryScan b2 r2 (mkBeneficiaryReadVersion o2)) by eauto; by simplify_eq.
Qed.

Lemma scan_before_Done h t r :
  scan_before h t = Done r ↔
  t ≤ length (entries h) ∧ scan_loop (block_anchor h) (λ w, entries h !! w) t [] [] = Done r.
Proof.
  unfold scan_before, scan_observed. rewrite outcome_bind_Done. setoid_rewrite assert_that_Done.
  split; [intros (? & ?%Nat.leb_le & ?)|intros (? & ?); exists tt; rewrite Nat.leb_le]; done.
Qed.

Lemma resolve_before_Done h t r :
  resolve_before h t = Done r ↔ ∃ s, scan_before h t = Done s ∧ r = result_map resolve s.
Proof. unfold resolve_before. rewrite outcome_bind_Done. naive_solver. Qed.

(** ** Properties *)

(** C24. A successful beneficiary read is the sequential fold: whatever effects the still
    unresolved older entries turn out to have, the account read for [t] is the block-start
    anchor with the effects of transactions [0 .. t-1] applied in block order. *)
Theorem resolve_before_sequential h t read effects :
  resolve_before h t = Done (Ok read) →
  length effects = t →
  completes (λ w, entries h !! w) effects →
  br_account read = foldl apply_effect (block_anchor h) effects.
Proof.
  intros ([s|] & Hs & ?)%resolve_before_Done Hl Hc; simplify_eq/=.
  apply scan_before_Done in Hs as [_ Hs]. eapply scan_loop_resolves, Hs; done.
Qed.

(** A read inside the block never panics: it either resolves, or names a blocker that is
    an estimate of a preceding transaction with no newer estimate and no newer snapshot in
    front of it; a read outside the block panics. *)
Theorem resolve_before_cases h t :
  match resolve_before h t with
  | Panic => length (entries h) < t
  | Done (Ok read) => t ≤ length (entries h)
  | Done (Err b) =>
    t ≤ length (entries h) ∧ b < t ∧
    (∃ inc, entries h !! b = Some (mkEntryState inc Estimate)) ∧
    ∀ w, b < w < t → ∃ inc e,
      entries h !! w = Some (mkEntryState inc (Exact e)) ∧ ∀ a, e ≠ EffSnapshot a
  end.
Proof.
  destruct (resolve_before h t) as [r|] eqn:Hr.
  - apply resolve_before_Done in Hr as (s & [? Hs]%scan_before_Done & ->).
    destruct s as [s|b]; simpl; [done|]. split; [done|]. by apply scan_loop_blocked in Hs.
  - destruct (decide (t ≤ length (entries h))) as [Hle|]; [|lia].
    destruct (scan_loop_total (block_anchor h) (λ w, entries h !! w) t) as [s Hs].
    { intros. apply lookup_lt_is_Some. lia. }
    assert (Hd : resolve_before h t = Done (result_map resolve s)); [|congruence].
    apply resolve_before_Done. exists s. by rewrite scan_before_Done.
Qed.

(** C25. Validation of a beneficiary read is sound under concurrent publication: entries are
    observed one at a time while other threads publish, and still, when a later scan returns
    the version chain of an earlier one, it resolves to the same account value. *)
Theorem validated_read_unchanged h0 h1 h2 o o' t s s' :
  observed_between h0 h1 o → observed_between h1 h2 o' →
  scan_observed (block_anchor h0) (length (entries h0)) o t = Done (Ok s) →
  scan_observed (block_anchor h2) (length (entries h2)) o' t = Done (Ok s') →
  valid (scan_validate s' (scan_version s)) = true →
  br_account (resolve s') = br_account (resolve s).
Proof.
  intros Ho Ho' (? & _ & Hs)%outcome_bind_Done (? & _ & Hs')%outcome_bind_Done Hv.
  apply bool_decide_eq_true in Hv.
  assert (Ha : block_anchor h2 = block_anchor h0).
  { destruct (Ho 0) as (? & [? _]%hsteps_le & [? _]%hsteps_le & _).
    destruct (Ho' 0) as (? & [? _]%hsteps_le & [? _]%hsteps_le & _). congruence. }
  rewrite Ha in Hs'. erewrite (scan_loop_versions _ o o' t s s'); [done| |done..].
  intros w inc e e' Hw Hw'.
  destruct (observed_entry_le _ _ _ _ _ Ho Hw) as (_ & s1 & _ & H1 & _ & ?).
  destruct (observed_entry_le _ _ _ _ _ Ho' Hw') as (s2 & _ & H2 & _ & ? & _).
  simplify_eq. eapply entry_le_exact. by etrans.
Qed.

(** Along any run of publications and invalidations, an entry never returns to an older
    incarnation, and within an incarnation its exact effect is never replaced by another one:
    it can only become an estimate. *)
Theorem publication_monotone h h' w s :
  rtc hstep h h' → entries h !! w = Some s →
  ∃ s', entries h' !! w = Some s' ∧ es_incarnation s ≤ es_incarnation s' ∧
    (es_incarnation s' = es_incarnation s → es_value s' = es_value s ∨ es_value s' = Estimate).
Proof.
  intros [_ Hle]%hsteps_le Hs. destruct (Forall2_lookup_l _ _ _ _ _ Hle Hs) as (s' & ? & Hs').
  exists s'. split; [done|]. destruct Hs' as [?|[? ?]]; split; [lia|lia|lia|done].
Qed.

End history.

(** ** Witnesses *)

Section examples.
#[local] Existing Instance revm_example.

Definition ex_reward (n : Z) : BeneficiaryEffect := EffReward (mkDeferred n).
Definition ex_history : BeneficiaryHistory :=
  mkHistory (Some (mkInfo 10 0 0 None))
    [mkEntryState 0 Estimate; mkEntryState 1 (Exact (EffSnapshot (Some (mkInfo 20 0 0 None))));
     mkEntryState 2 (Exact (ex_reward 3))].
(** The same history after transaction 2 was invalidated and executed again. *)
Definition ex_history' : BeneficiaryHistory :=
  mkHistory (Some (mkInfo 10 0 0 None))
    [mkEntryState 1 (Exact (ex_reward 5));
     mkEntryState 1 (Exact (EffSnapshot (Some (mkInfo 20 0 0 None))));
     mkEntryState 2 (Exact (ex_reward 3))].

Lemma ex_run : rtc hstep ex_history ex_history'.
Proof.
  apply rtc_once. by eapply (hstep_execution (mkTxVersion 0 1) (Some (mkDeferred 5)) None _ _ true).
Defined.

Lemma resolve_before_sequential_witness :
  ∃ read, resolve_before ex_history 3 = Done (Ok read) ∧
    br_account read = Some (mkInfo 23 0 0 None).
Proof.
  eexists. split; [reflexivity|].
  apply (resolve_before_sequential ex_history 3 _
    [ex_reward 99; EffSnapshot (Some (mkInfo 20 0 0 None)); ex_reward 3]); [reflexivity|reflexivity|].
  intros w e inc Hw. simpl in Hw.
  destruct w as [|[|[|w]]]; simpl; [done|naive_solver|naive_solver|lia].
Defined.

Lemma validated_read_unchanged_witness :
  ∃ s s',
    scan_before ex_history 3 = Done (Ok s) ∧ scan_before ex_history' 3 = Done (Ok s') ∧
    br_account (resolve s') = br_account (resolve s).
Proof.
  eexists _, _. split; [reflexivity|]. split; [reflexivity|].
  eapply (validated_read_unchanged ex_history ex_history ex_history'
    (λ w, entries ex_history !! w) (λ w, entries ex_history' !! w) 3).
  - intros w. exists ex_history. split; [apply rtc_refl|]. split; [apply rtc_refl|done].
  - intros w. exists ex_history'. split; [apply ex_run|]. split; [apply rtc_refl|done].
  - reflexivity.
  - reflexivity.
  - reflexivity.
Defined.

Lemma publication_monotone_witness :
  ∃ s', entries ex_history' !! 0 = Some s' ∧ 0 ≤ es_incarnation s'.
Proof.
  destruct (publication_monotone ex_history ex_history' 0 (mkEntryState 0 Estimate))
    as (s' & Hs' & Hi & _); [apply ex_run|reflexivity|].
  exists s'. split; [exact Hs'|exact Hi].
Defined.

End examples.
