(* ===== verification/World.v ===== *)
(** The abstract chain state and the database interface.

    [World] is what the crate's caches represent: an account value and a storage function per
    address. [commit_result] is the specification of committing one transaction. [DatabaseRef]
    is revm's read trait, and [DatabaseView] states what an implementation promises to the
    speculative executor: the cache of src/src/parallel_state.rs is one such implementation. *)

From S2P Require Import Prelude Model Reward.

(** revm's [DatabaseRef] trait; methods may update interior caches. *)
Class DatabaseRef (DB E : Type) := {
  basic_ref : DB → Address → result E (option AccountInfo) * DB;
  code_by_hash_ref : DB → B256 → result E Bytecode * DB;
  storage_ref : DB → Address → U256 → result E U256 * DB;
  block_hash_ref : DB → Z → result E B256 * DB
}.
#[export] Hint Mode DatabaseRef ! - : typeclass_instances.

Section world.
Context `{Revm}.

(** ** Account values up to loaded code *)

Definition info_eqv (i j : AccountInfo) : Prop :=
  balance i = balance j ∧ nonce i = nonce j ∧ code_hash i = code_hash j.
Definition acct_eqv : relation (option AccountInfo) := option_Forall2 info_eqv.

#[export] Instance info_eqv_dec : RelDecision info_eqv.
Proof. unfold info_eqv. intros i j. apply _. Defined.
#[export] Instance acct_eqv_dec : RelDecision acct_eqv.
Proof.
  intros [i|] [j|]; [destruct (decide (info_eqv i j)) as [Hij|Hij]|right|right|left; constructor].
  - left. by constructor.
  - right. by inversion 1.
  - by inversion 1.
  - by inversion 1.
Defined.

(** Documented behaviour of revm's account predicates used below. *)
Class RevmLaws := {
  is_empty_code_hash_hash i j : code_hash i = code_hash j → is_empty_code_hash i = is_empty_code_hash j;
  empty_code_hash_unique i j : is_empty_code_hash i = true → is_empty_code_hash j = true →
    code_hash i = code_hash j;
  info_is_empty_eqv i j : info_eqv i j → info_is_empty i = info_is_empty j;
  info_is_empty_balance i : info_is_empty i = true → balance i = 0%Z;
  info_default_is_empty : info_is_empty info_default = true;
  info_default_empty_code_hash : is_empty_code_hash info_default = true;
  info_default_balance : balance info_default = 0%Z
}.

(** ** Worlds *)

Record World := mkWorld {
  w_account : Address → option AccountInfo;
  w_storage : Address → U256 → U256
}.

Definition overlay (account : Account) (base : U256 → U256) (k : U256) : U256 :=
  match changed_storage_slots account !! k with
  | Some s => present_value s
  | None => base k
  end.

(** The effect of one finalized journal account on the value and storage of its address. *)
Definition apply_account (account : Account) (cur : option AccountInfo * (U256 → U256)) :
    option AccountInfo * (U256 → U256) :=
  match FinalizedAccount_from account with
  | Unchanged => cur
  | Deleted => (None, λ _, 0%Z)
  | Created i => (Some i, overlay account (λ _, 0%Z))
  | Updated i => (Some i, overlay account cur.2)
  end.

Definition apply_changes (changes : EvmState) (w : World) : World :=
  let cell a :=
    match changes !! a with
    | Some account => apply_account account (w_account w a, w_storage w a)
    | None => (w_account w a, w_storage w a)
    end in
  mkWorld (λ a, (cell a).1) (λ a, (cell a).2).

Definition apply_reward (ben : Address) (r : DeferredBeneficiaryReward) (w : World) : World :=
  mkWorld (λ a, if decide (a = ben) then Some (apply_to r (w_account w ben)) else w_account w a)
    (w_storage w).

(** Committing a speculative result: its state changes, then its deferred reward. *)
Definition commit_result (ben : Address) (w : World) (r : SpeculativeResult) : World :=
  let w := apply_changes (sr_state r) w in
  match sr_deferred_reward r with
  | Some reward => apply_reward ben reward w
  | None => w
  end.

(** The world seen by transaction [t] of a block with results [rs]. *)
Definition world_at (ben : Address) (w0 : World) (rs : list SpeculativeResult) (t : nat) : World :=
  foldl (commit_result ben) w0 (take t rs).

(** Worlds with the same visible content. *)
Definition world_eqv (w w' : World) : Prop :=
  (∀ a, acct_eqv (w_account w a) (w_account w' a)) ∧ ∀ a k, w_storage w a k = w_storage w' a k.

(** ** What a database promises *)

(** Loaded code is the code of its hash. *)
Definition code_ok (code_of : B256 → Bytecode) (v : option AccountInfo) : Prop :=
  ∀ i c, v = Some i → code i = Some c → is_empty_code_hash i = false → c = code_of (code_hash i).

(** [rep db w]: the database holds the world [w]. Reads may fail, but a value they return is
    the one of [w]; code is only promised for the accounts of the block-start world [w0]. *)
Class DatabaseView (DB E : Type) `{DatabaseRef DB E} (code_of : B256 → Bytecode) (w0 : World)
    (rep : DB → World → Prop) := {
  view_basic db w a r db' : rep db w → basic_ref db a = (r, db') →
    rep db' w ∧ ∀ v, r = Ok v → acct_eqv v (w_account w a) ∧ code_ok code_of v;
  view_code db w h r db' : rep db w → code_by_hash_ref db h = (r, db') →
    rep db' w ∧ ∀ c a i, r = Ok c → w_account w0 a = Some i → code_hash i = h →
      is_empty_code_hash i = false → c = code_of h;
  view_storage db w a k r db' : rep db w → storage_ref db a k = (r, db') →
    rep db' w ∧ ∀ v, r = Ok v → v = w_storage w a k;
  view_block_hash db w n r db' : rep db w → block_hash_ref db n = (r, db') → rep db' w
}.

(** ** Lemmas *)

#[export] Instance info_eqv_equiv : Equivalence info_eqv.
Proof. split; unfold info_eqv; red; naive_solver congruence. Qed.

#[export] Instance acct_eqv_equiv : Equivalence acct_eqv.
Proof.
  split.
  - intros [i|]; constructor. reflexivity.
  - intros x y []; constructor. by symmetry.
  - intros x y z Hxy Hyz. destruct Hxy as [i j Hij|]; inversion Hyz as [? k Hjk|]; subst; constructor.
    by etrans.
Qed.

#[export] Instance world_eqv_equiv : Equivalence world_eqv.
Proof.
  split; unfold world_eqv.
  - intros w. split; [intros; reflexivity|done].
  - intros w w' [? ?]. split; [intros; by symmetry|done].
  - intros w w' w'' [Ha Hs] [Ha' Hs']. split; intros; [by rewrite Ha|by rewrite Hs].
Qed.

Lemma info_eqv_without_code b n h c i : info_eqv (mkInfo b n h c) i ↔ b = balance i ∧ n = nonce i ∧ h = code_hash i.
Proof. done. Qed.

#[export] Instance apply_to_proper r : Proper (acct_eqv ==> info_eqv) (apply_to r).
Proof.
  intros x y Hxy. assert (Hd : info_eqv (default info_default x) (default info_default y)).
  { destruct Hxy; [done|reflexivity]. }
  unfold apply_to. destruct Hd as (Hb & ? & ?). rewrite Hb.
  destruct (checked_add _ _ _); done.
Qed.

Lemma apply_changes_None changes w a :
  changes !! a = None → w_account (apply_changes changes w) a = w_account w a ∧
    w_storage (apply_changes changes w) a = w_storage w a.
Proof. unfold apply_changes. simpl. by intros ->. Qed.

Lemma apply_changes_Some changes w a account :
  changes !! a = Some account →
  w_account (apply_changes changes w) a = (apply_account account (w_account w a, w_storage w a)).1 ∧
  w_storage (apply_changes changes w) a = (apply_account account (w_account w a, w_storage w a)).2.
Proof. unfold apply_changes. simpl. by intros ->. Qed.

Lemma commit_result_storage ben w r a :
  w_storage (commit_result ben w r) a = w_storage (apply_changes (sr_state r) w) a.
Proof. unfold commit_result. by destruct (sr_deferred_reward r). Qed.

Lemma commit_result_account ben w r a :
  a ≠ ben → w_account (commit_result ben w r) a = w_account (apply_changes (sr_state r) w) a.
Proof.
  unfold commit_result. intros. destruct (sr_deferred_reward r); [|done]. simpl. by case_decide.
Qed.

Lemma world_at_S ben w0 rs t r :
  rs !! t = Some r → world_at ben w0 rs (S t) = commit_result ben (world_at ben w0 rs t) r.
Proof. intros Hr. unfold world_at. by rewrite (take_S_r _ _ _ Hr), foldl_app. Qed.

(** ** The reference database: a fixed world *)

Definition world_db (code_of : B256 → Bytecode) (w : World) : DatabaseRef unit unit := {|
  basic_ref db a := (Ok (w_account w a), db);
  code_by_hash_ref db h := (Ok (code_of h), db);
  storage_ref db a k := (Ok (w_storage w a k), db);
  block_hash_ref db n := (Err tt, db)
|}.

Lemma world_db_view code_of w :
  (∀ a, code_ok code_of (w_account w a)) →
  @DatabaseView unit unit (world_db code_of w) code_of w (λ _ w', w' = w).
Proof.
  intros Hc. split; simpl.
  - intros db w' a r db' -> [= <- <-]. split; [done|]. intros v [= <-]. by split.
  - intros db w' h r db' -> [= <- <-]. split; [done|]. by intros c a i [= <-].
  - intros db w' a k r db' -> [= <- <-]. split; [done|]. by intros v [= <-].
  - by intros db w' n r db' -> _.
Qed.

End world.

(** The laws hold for the example instance. *)
Lemma revm_example_laws : @RevmLaws revm_example.
Proof.
  split; simpl.
  - by intros i j ->.
  - intros i j ?%bool_decide_eq_true ?%bool_decide_eq_true. congruence.
  - by intros i j (-> & -> & ->).
  - intros i [[_ ?%bool_decide_eq_true]%andb_true_iff _]%andb_true_iff. done.
  - done.
  - done.
  - done.
Qed.

