(* ===== verification/IncarnationDb.v ===== *)
(** The database adapter of one executing incarnation: src/src/incarnation_db.rs.

    The adapter's own fields are the record [IncarnationDb]; the three references it holds
    (beneficiary, multi-version memory, backing database) are arguments of its operations. The
    backing database is any implementation of the interface [DatabaseRef], whose methods may
    update interior caches and therefore return the database with their result. *)

From S2P Require Import Prelude Model Reward History World.

(** The newest write to [location] by a transaction before [t]. *)
Definition mv_latest (mv : MVMemory) (location : LocationAndType) (t : TxId) :
    option (TxId * MemoryEntry) :=
  match mv !! location with
  | Some written => range_next_back t written
  | None => None
  end.

Section incarnation.
Context `{Revm}.

(** ** State *)

Record IncarnationDb := mkIncarnationDb {
  read_set : gmap LocationAndType ReadVersion;
  account_snapshots : gmap Address AccountBasic;
  version : TxVersion;
  blocking_txs : gset TxId;
  blocked_by_beneficiary : bool
}.

Record IncarnationAccesses := mkIncarnationAccesses {
  ia_read_set : gmap LocationAndType ReadVersion;
  ia_write_set : gset LocationAndType;
  ia_blocking_txs : gset TxId;
  ia_blocked_by_beneficiary : bool
}.

Definition is_blocked (a : IncarnationAccesses) : bool := negb (bool_decide (ia_blocking_txs a = ∅)).

Definition IncarnationDb_new : IncarnationDb :=
  mkIncarnationDb ∅ ∅ (mkTxVersion 0 0) ∅ false.

(** The debug assertions of [begin_incarnation] are not part of a release build. *)
Definition begin_incarnation (v : TxVersion) (s : IncarnationDb) : IncarnationDb :=
  mkIncarnationDb ∅ ∅ v ∅ false.

Definition insert_read (location : LocationAndType) (v : ReadVersion) (s : IncarnationDb) :=
  mkIncarnationDb (<[location := v]> (read_set s)) (account_snapshots s) (version s)
    (blocking_txs s) (blocked_by_beneficiary s).
Definition insert_snapshot (a : Address) (b : option AccountBasic) (s : IncarnationDb) :=
  mkIncarnationDb (read_set s)
    (match b with Some b => <[a := b]> (account_snapshots s) | None => account_snapshots s end)
    (version s) (blocking_txs s) (blocked_by_beneficiary s).
Definition insert_blocker (t : TxId) (s : IncarnationDb) :=
  mkIncarnationDb (read_set s) (account_snapshots s) (version s)
    ({[t]} ∪ blocking_txs s) (blocked_by_beneficiary s).
Definition set_blocked_by_beneficiary (s : IncarnationDb) :=
  mkIncarnationDb (read_set s) (account_snapshots s) (version s) (blocking_txs s) true.

(** Reading an entry: note an estimate as a blocker. *)
Definition note_entry (t : TxId) (e : MemoryEntry) (s : IncarnationDb) : IncarnationDb :=
  if estimate e then insert_blocker t s else s.

(** ** Writes *)

Definition publish_value (v : TxVersion) (location : LocationAndType) (value : MemoryValue)
    (est : bool) (st : gset LocationAndType * MVMemory) : gset LocationAndType * MVMemory :=
  let '(write_set, mv) := st in
  ({[location]} ∪ write_set,
   <[location := <[txid v := mkMemoryEntry (tv_incarnation v) value est]>
                   (default ∅ (mv !! location))]> mv).

Definition publish_storage_reset (v : TxVersion) (a : Address) (est : bool)
    (st : gset LocationAndType * MVMemory) : gset LocationAndType * MVMemory :=
  publish_value v (LStorageReset a) MVStorageReset est st.

(** Whether the code entry must be published: the post-state hash is new to this incarnation. *)
Definition code_changed (snapshot : option AccountBasic) (i : AccountInfo) : bool :=
  negb (is_empty_code_hash i) && bool_decide (is_Some (code i)) &&
  match snapshot with
  | None => true
  | Some basic => negb (bool_decide (ab_code_hash basic = Some (code_hash i)))
  end.

Definition basic_changed (snapshot : option AccountBasic) (i : AccountInfo) : bool :=
  code_changed snapshot i ||
  match snapshot with
  | None => true
  | Some basic =>
    negb (bool_decide (ab_nonce basic = nonce i)) || negb (bool_decide (ab_balance basic = balance i))
  end.

Definition without_code (i : AccountInfo) : AccountInfo :=
  mkInfo (balance i) (nonce i) (code_hash i) None.

(** The body of the loop of [publish_writes] for one account. *)
Definition publish_account (ben : BeneficiaryAccount) (v : TxVersion)
    (snapshots : gmap Address AccountBasic) (est : bool)
    (st : gset LocationAndType * MVMemory) (change : Address * Account) :
    gset LocationAndType * MVMemory :=
  let '(address, account) := change in
  let publish_updated (created : bool) (i : AccountInfo) :=
    let st := if created then publish_storage_reset v address est st else st in
    let account_snapshot := snapshots !! address in
    let st :=
      if code_changed account_snapshot i then
        publish_value v (LCode address) (MVCode (default [] (code i))) est st
      else st in
    let st :=
      if negb (matches ben address) && basic_changed account_snapshot i then
        publish_value v (LBasic address) (MVBasic (Some (without_code i))) est st
      else st in
    foldl (λ st kv, publish_value v (LStorage address kv.1) (MVStorage (present_value kv.2)) est st)
      st (map_to_list (changed_storage_slots account)) in
  match FinalizedAccount_from account with
  | Unchanged => st
  | Deleted =>
    let st :=
      if negb (matches ben address) then
        publish_value v (LBasic address) (MVBasic None) est st
      else st in
    publish_storage_reset v address est st
  | Created i => publish_updated true i
  | Updated i => publish_updated false i
  end.

Definition publish_writes (ben : BeneficiaryAccount) (s : IncarnationDb) (changes : EvmState)
    (est : bool) (mv : MVMemory) : gset LocationAndType * MVMemory :=
  foldl (publish_account ben (version s) (account_snapshots s) est) (∅, mv) (map_to_list changes).

Definition finish_incarnation (ben : BeneficiaryAccount) (changes : EvmState) (s : IncarnationDb)
    (mv : MVMemory) : IncarnationAccesses * IncarnationDb * MVMemory :=
  let est := negb (bool_decide (blocking_txs s = ∅)) in
  let '(write_set, mv) := publish_writes ben s changes est mv in
  (mkIncarnationAccesses (read_set s) write_set (blocking_txs s) (blocked_by_beneficiary s),
   mkIncarnationDb ∅ ∅ (version s) ∅ false, mv).

Definition discard_incarnation (s : IncarnationDb) : IncarnationAccesses * IncarnationDb :=
  (mkIncarnationAccesses ∅ ∅ (blocking_txs s) (blocked_by_beneficiary s),
   mkIncarnationDb ∅ ∅ (version s) ∅ false).

(** ** Reads *)

Context {DB E : Type} `{DatabaseRef DB E}.

Definition code_by_address (mv : MVMemory) (a : Address) (hash : B256) (s : IncarnationDb) (db : DB) :
    result E Bytecode * IncarnationDb * DB :=
  let location := LCode a in
  match mv_latest mv location (txid (version s)) with
  | Some (t, mkMemoryEntry inc (MVCode c) est as e) =>
    (Ok c, insert_read location (MvMemory (mkTxVersion t inc)) (note_entry t e s), db)
  | _ =>
    match code_by_hash_ref db hash with
    | (Ok c, db) => (Ok c, insert_read location RVStorage s, db)
    | (Err e, db) => (Err e, s, db)
    end
  end.

(** The account value of [Database::basic], before its code is filled in. *)
Definition basic_account (ben : BeneficiaryAccount) (mv : MVMemory) (a : Address) (s : IncarnationDb)
    (db : DB) : outcome (result E (option AccountInfo) * IncarnationDb * DB) :=
  let location := LBasic a in
  if matches ben a then
    let! r := resolve_before (b_history ben) (txid (version s)) in
    Done (match r with
          | Ok read =>
            (Ok (br_account read),
             insert_snapshot a (AccountBasic_from <$> br_account read)
               (insert_read location (RVBeneficiary (br_version read)) s), db)
          | Err blocker => (Ok None, set_blocked_by_beneficiary (insert_blocker blocker s), db)
          end)
  else
    Done (match mv_latest mv location (txid (version s)) with
          | Some (t, mkMemoryEntry inc (MVBasic account) est as e) =>
            (Ok account,
             insert_read location (MvMemory (mkTxVersion t inc))
               (insert_snapshot a (AccountBasic_from <$> account) (note_entry t e s)), db)
          | _ =>
            match basic_ref db a with
            | (Ok account, db) =>
              (Ok account,
               insert_read location RVStorage
                 (insert_snapshot a (AccountBasic_from <$> account) s), db)
            | (Err e, db) => (Err e, s, db)
            end
          end).

Definition basic (ben : BeneficiaryAccount) (mv : MVMemory) (a : Address) (s : IncarnationDb)
    (db : DB) : outcome (result E (option AccountInfo) * IncarnationDb * DB) :=
  let! (r, s, db) := basic_account ben mv a s db in
  Done (match r with
        | Ok (Some i) =>
          if negb (is_empty_code_hash i) && bool_decide (code i = None) then
            let '(rc, s, db) := code_by_address mv a (code_hash i) s db in
            (let? c := rc in Ok (Some (mkInfo (balance i) (nonce i) (code_hash i) (Some c))), s, db)
          else (Ok (Some i), s, db)
        | _ => (r, s, db)
        end).

Definition code_by_hash (hash : B256) (s : IncarnationDb) (db : DB) :
    result E Bytecode * IncarnationDb * DB :=
  let '(r, db) := code_by_hash_ref db hash in (r, s, db).

Definition storage (mv : MVMemory) (a : Address) (k : U256) (s : IncarnationDb) (db : DB) :
    result E U256 * IncarnationDb * DB :=
  let reset_location := LStorageReset a in
  let '(reset_txid, reset_version, s) :=
    match mv_latest mv reset_location (txid (version s)) with
    | Some (t, mkMemoryEntry inc MVStorageReset est as e) =>
      (Some t, MvMemory (mkTxVersion t inc), note_entry t e s)
    | _ => (None, RVStorage, s)
    end in
  let s := insert_read reset_location reset_version s in
  let location := LStorage a k in
  let '(slot_write, slot_version, s) :=
    match mv_latest mv location (txid (version s)) with
    | Some (t, mkMemoryEntry inc (MVStorage value) est as e) =>
      (Some (t, value), MvMemory (mkTxVersion t inc), note_entry t e s)
    | _ => (None, RVStorage, s)
    end in
  let s := insert_read location slot_version s in
  let from_base :=
    match reset_txid with
    | Some _ => (Ok 0%Z, s, db)
    | None => let '(r, db) := storage_ref db a k in (r, s, db)
    end in
  match slot_write with
  | Some (slot_txid, value) =>
    if match reset_txid with None => true | Some r => r <=? slot_txid end
    then (Ok value, s, db)
    else from_base
  | None => from_base
  end.

Definition block_hash (number : Z) (s : IncarnationDb) (db : DB) :
    result E B256 * IncarnationDb * DB :=
  let '(r, db) := block_hash_ref db number in (r, s, db).

End incarnation.

(** ** Specification of publication *)

Section publication.
Context `{Revm}.

(** The entry of transaction [j] at [location]. *)
Definition mv_entry (mv : MVMemory) (location : LocationAndType) (j : TxId) : option MemoryEntry :=
  default ∅ (mv !! location) !! j.

(** What one incarnation writes to a location, as a function of its journal and of the account
    values it read. *)
Definition written_value (ben : BeneficiaryAccount) (snapshots : gmap Address AccountBasic)
    (changes : EvmState) (location : LocationAndType) : option MemoryValue :=
  let finalized a := FinalizedAccount_from <$> changes !! a in
  match location with
  | LBasic a =>
    if matches ben a then None
    else
      match finalized a with
      | Some Deleted => Some (MVBasic None)
      | Some (Created i) | Some (Updated i) =>
        if basic_changed (snapshots !! a) i then Some (MVBasic (Some (without_code i))) else None
      | _ => None
      end
  | LCode a =>
    match finalized a with
    | Some (Created i) | Some (Updated i) =>
      if code_changed (snapshots !! a) i then Some (MVCode (default [] (code i))) else None
    | _ => None
    end
  | LStorageReset a =>
    match finalized a with
    | Some Deleted | Some (Created _) => Some MVStorageReset
    | _ => None
    end
  | LStorage a k =>
    match finalized a with
    | Some (Created _) | Some (Updated _) =>
      account ← changes !! a;
      slot ← changed_storage_slots account !! k;
      Some (MVStorage (present_value slot))
    | _ => None
    end
  end.

(** The publications of one account, in program order. *)
Definition account_writes (ben : BeneficiaryAccount) (snapshots : gmap Address AccountBasic)
    (change : Address * Account) : list (LocationAndType * MemoryValue) :=
  let '(address, account) := change in
  let updated (created : bool) (i : AccountInfo) :=
    (if created then [(LStorageReset address, MVStorageReset)] else []) ++
    (if code_changed (snapshots !! address) i
     then [(LCode address, MVCode (default [] (code i)))] else []) ++
    (if negb (matches ben address) && basic_changed (snapshots !! address) i
     then [(LBasic address, MVBasic (Some (without_code i)))] else []) ++
    ((λ kv, (LStorage address kv.1, MVStorage (present_value kv.2))) <$>
       map_to_list (changed_storage_slots account)) in
  match FinalizedAccount_from account with
  | Unchanged => []
  | Deleted =>
    (if negb (matches ben address) then [(LBasic address, MVBasic None)] else []) ++
    [(LStorageReset address, MVStorageReset)]
  | Created i => updated true i
  | Updated i => updated false i
  end.

Definition publish_all (v : TxVersion) (est : bool) (st : gset LocationAndType * MVMemory)
    (ps : list (LocationAndType * MemoryValue)) : gset LocationAndType * MVMemory :=
  foldl (λ st p, publish_value v p.1 p.2 est st) st ps.

Lemma publish_account_all ben v snapshots est st change :
  publish_account ben v snapshots est st change =
  publish_all v est st (account_writes ben snapshots change).
Proof.
  destruct change as [address account]. unfold publish_account, account_writes, publish_all.
  destruct (FinalizedAccount_from account); [done|by destruct (matches ben address)|..].
  all: rewrite !foldl_app, foldl_fmap; destruct (code_changed _ i), (negb (matches ben address)),
    (basic_changed _ i); reflexivity.
Qed.

Lemma publish_writes_all ben s changes est mv :
  publish_writes ben s changes est mv =
  publish_all (version s) est (∅, mv)
    (map_to_list changes ≫= account_writes ben (account_snapshots s)).
Proof.
  unfold publish_writes. generalize (∅ : gset LocationAndType, mv).
  induction (map_to_list changes) as [|c cs IH]; intros st; simpl; [done|].
  rewrite IH, publish_account_all. unfold publish_all. by rewrite <-foldl_app.
Qed.

Lemma mv_entry_publish v location value est ws mv l j :
  mv_entry (publish_value v location value est (ws, mv)).2 l j =
  if decide (l = location ∧ j = txid v)
  then Some (mkMemoryEntry (tv_incarnation v) value est) else mv_entry mv l j.
Proof.
  unfold publish_value, mv_entry. simpl. destruct (decide (l = location)) as [->|].
  - rewrite lookup_insert_eq. simpl. destruct (decide (j = txid v)) as [->|].
    + rewrite lookup_insert_eq, decide_True by done. done.
    + rewrite lookup_insert_ne, decide_False by naive_solver. done.
  - rewrite lookup_insert_ne, decide_False by naive_solver. done.
Qed.

(** Publishing a list in which every location has one value. *)
Lemma publish_all_spec v est ws mv ps :
  (∀ l x y, (l, x) ∈ ps → (l, y) ∈ ps → x = y) →
  (∀ l, l ∈ (publish_all v est (ws, mv) ps).1 ↔ l ∈ ws ∨ ∃ x, (l, x) ∈ ps) ∧
  (∀ l x, (l, x) ∈ ps → mv_entry (publish_all v est (ws, mv) ps).2 l (txid v) =
     Some (mkMemoryEntry (tv_incarnation v) x est)) ∧
  (∀ l j, j ≠ txid v ∨ (∀ x, (l, x) ∉ ps) →
     mv_entry (publish_all v est (ws, mv) ps).2 l j = mv_entry mv l j).
Proof.
  induction ps as [|[l0 x0] ps IH] using rev_ind; intros Hf.
  { simpl. set_solver. }
  unfold publish_all in *. rewrite foldl_app. simpl.
  destruct IH as (Hw & Hin & Hout); [set_solver|].
  destruct (foldl _ _ ps) as [ws' mv'] eqn:Hp. cbn [fst snd] in *. split_and!.
  - intros l. unfold publish_value. simpl. set_solver.
  - intros l x Hx. rewrite mv_entry_publish. case_decide as Hd.
    + destruct Hd as [-> _]. rewrite (Hf l0 x x0); set_solver.
    + apply Hin. set_solver.
  - intros l j Hlj. rewrite mv_entry_publish. case_decide as Hd.
    + destruct Hd as [-> ->]. destruct Hlj as [?|Hlj]; [done|]. set_solver.
    + apply Hout. set_solver.
Qed.

Definition location_address (l : LocationAndType) : Address :=
  match l with LBasic a | LCode a | LStorageReset a | LStorage a _ => a end.

Lemma elem_of_if {A} (b : bool) (x y : A) : x ∈ (if b then [y] else []) ↔ b = true ∧ x = y.
Proof. destruct b; set_solver. Qed.

Lemma account_writes_spec ben snapshots changes a account l x :
  changes !! a = Some account →
  (l, x) ∈ account_writes ben snapshots (a, account) ↔
  location_address l = a ∧ written_value ben snapshots changes l = Some x.
Proof.
  intros Ha. unfold account_writes, written_value.
  assert (Hslots : (l, x) ∈ ((λ kv, (LStorage a kv.1, MVStorage (present_value kv.2))) <$>
        map_to_list (changed_storage_slots account)) ↔
      ∃ k s, changed_storage_slots account !! k = Some s ∧ l = LStorage a k ∧
        x = MVStorage (present_value s)).
  { rewrite list_elem_of_fmap. split.
    - intros ([y' s] & ? & ?%elem_of_map_to_list). simplify_eq/=. eauto.
    - intros (k & s & ? & -> & ->). exists (k, s). by rewrite elem_of_map_to_list. }
  destruct (FinalizedAccount_from account) as [| |i|i] eqn:Hfin;
    rewrite ?elem_of_app, ?Hslots, ?elem_of_if, ?list_elem_of_singleton; clear Hslots;
    destruct l as [b|b k|b|b]; simpl;
    (destruct (decide (b = a)) as [->|]; [rewrite Ha; simpl; rewrite Hfin|]).
  all: try (split; [set_solver|naive_solver]).
  all: try destruct (matches ben a); try destruct (basic_changed _ _); try destruct (code_changed _ _);
    simpl; unfold mbind, option_bind; split;
    try (destruct (changed_storage_slots account !! k) eqn:?); first [naive_solver|set_solver].
Qed.

Lemma written_value_None ben snapshots changes l :
  changes !! location_address l = None → written_value ben snapshots changes l = None.
Proof. unfold written_value. destruct l; simpl; intros ->; simpl; by try case_match. Qed.

Lemma publications_spec ben snapshots changes l x :
  (l, x) ∈ (map_to_list changes ≫= account_writes ben snapshots) ↔
  written_value ben snapshots changes l = Some x.
Proof.
  rewrite list_elem_of_bind. split.
  - intros ([a account] & Hin & ?%elem_of_map_to_list).
    eapply account_writes_spec in Hin; naive_solver.
  - intros Hw. destruct (changes !! location_address l) as [account|] eqn:Ha.
    + exists (location_address l, account). rewrite elem_of_map_to_list. split; [|done].
      by eapply account_writes_spec.
    + by rewrite written_value_None in Hw.
Qed.

(** Publication implements [written_value] exactly: the write set names the locations it
    defines, the entry of the incarnation at such a location holds its value, and nothing else
    in memory changes. *)
Lemma publish_writes_spec ben s changes est mv ws mv' :
  publish_writes ben s changes est mv = (ws, mv') →
  (∀ l, l ∈ ws ↔ is_Some (written_value ben (account_snapshots s) changes l)) ∧
  ∀ l j, mv_entry mv' l j =
    match written_value ben (account_snapshots s) changes l with
    | Some x =>
      if decide (j = txid (version s))
      then Some (mkMemoryEntry (tv_incarnation (version s)) x est) else mv_entry mv l j
    | None => mv_entry mv l j
    end.
Proof.
  rewrite publish_writes_all. intros Hp.
  destruct (publish_all_spec (version s) est ∅ mv
    (map_to_list changes ≫= account_writes ben (account_snapshots s))) as (Hw & Hin & Hout).
  { intros l x y. rewrite !publications_spec. congruence. }
  rewrite Hp in *. cbn [fst snd] in *. setoid_rewrite publications_spec in Hw.
  setoid_rewrite publications_spec in Hin. split.
  - intros l. rewrite Hw. unfold is_Some. set_solver.
  - intros l j. destruct (written_value _ _ _ l) as [x|] eqn:Hx.
    + case_decide as Hj; [subst j; by apply Hin|]. apply Hout. by left.
    + apply Hout. right. intros x. rewrite publications_spec. congruence.
Qed.

End publication.
