(* ===== verification/Access.v ===== *)
(** The reads of one execution at the granularity of the shared accesses
    (src/src/incarnation_db.rs, src/src/beneficiary/history.rs).

    A database call of the executing EVM reads multi-version memory, entries of the beneficiary
    history and the backing database, one after the other, while other threads proceed. It is
    written as a program ([prog]) over these accesses. Run without interruption, the programs are
    the operations of IncarnationDb.v. [Evm] is an execution as the database sees it: the calls
    it makes, each depending on the answers before it, and the result. *)

From S2P Require Import Prelude Model Reward History World IncarnationDb.

(** ** Programs *)

(** One access with its answer. *)
Inductive Event (E : Type) :=
| EvMemory (l : LocationAndType) (o : option (TxId * MemoryEntry))
| EvHistory (w : TxId) (o : option EntryState)
| EvBasic (a : Address) (r : result E (option AccountInfo))
| EvCode (h : B256) (r : result E Bytecode)
| EvStorage (a : Address) (k : U256) (r : result E U256)
| EvBlockHash (n : Z) (r : result E B256).
Arguments EvMemory {E} l o.
Arguments EvHistory {E} w o.
Arguments EvBasic {E} a r.
Arguments EvCode {E} h r.
Arguments EvStorage {E} a k r.
Arguments EvBlockHash {E} n r.

Inductive prog (E A : Type) :=
| Ret (a : A)
| GetMemory (l : LocationAndType) (k : option (TxId * MemoryEntry) → prog E A)
| GetHistory (w : TxId) (k : option EntryState → prog E A)
| DbBasic (a : Address) (k : result E (option AccountInfo) → prog E A)
| DbCode (h : B256) (k : result E Bytecode → prog E A)
| DbStorage (a : Address) (key : U256) (k : result E U256 → prog E A)
| DbBlockHash (n : Z) (k : result E B256 → prog E A).
Arguments Ret {E A} a.
Arguments GetMemory {E A} l k.
Arguments GetHistory {E A} w k.
Arguments DbBasic {E A} a k.
Arguments DbCode {E A} h k.
Arguments DbStorage {E A} a key k.
Arguments DbBlockHash {E A} n k.

Fixpoint prog_bind {E A B} (p : prog E A) (f : A → prog E B) : prog E B :=
  match p with
  | Ret a => f a
  | GetMemory l k => GetMemory l (λ o, prog_bind (k o) f)
  | GetHistory w k => GetHistory w (λ o, prog_bind (k o) f)
  | DbBasic a k => DbBasic a (λ r, prog_bind (k r) f)
  | DbCode h k => DbCode h (λ r, prog_bind (k r) f)
  | DbStorage a key k => DbStorage a key (λ r, prog_bind (k r) f)
  | DbBlockHash n k => DbBlockHash n (λ r, prog_bind (k r) f)
  end.

(** The program after one access. *)
Inductive prog_step {E A} : prog E A → Event E → prog E A → Prop :=
| ps_memory l k o : prog_step (GetMemory l k) (EvMemory l o) (k o)
| ps_history w k o : prog_step (GetHistory w k) (EvHistory w o) (k o)
| ps_basic a k r : prog_step (DbBasic a k) (EvBasic a r) (k r)
| ps_code h k r : prog_step (DbCode h k) (EvCode h r) (k r)
| ps_storage a key k r : prog_step (DbStorage a key k) (EvStorage a key r) (k r)
| ps_block_hash n k r : prog_step (DbBlockHash n k) (EvBlockHash n r) (k r).

(** The program after a trace of accesses. *)
Inductive follows {E A} : prog E A → list (Event E) → prog E A → Prop :=
| fo_nil p : follows p [] p
| fo_cons p ev p1 tr p2 : prog_step p ev p1 → follows p1 tr p2 → follows p (ev :: tr) p2.

(** ** The database adapter as programs *)

Section adapter.
Context `{!Revm} {E : Type}.

Definition code_by_address_prog (a : Address) (hash : B256) (s : IncarnationDb) :
    prog E (result E Bytecode * IncarnationDb) :=
  GetMemory (LCode a) (λ o,
    match o with
    | Some (t, mkMemoryEntry inc (MVCode c) est as e) =>
      Ret (Ok c, insert_read (LCode a) (MvMemory (mkTxVersion t inc)) (note_entry t e s))
    | _ =>
      DbCode hash (λ r, Ret (r, if is_ok r then insert_read (LCode a) RVStorage s else s))
    end).

(** The loop of [scan_before], one entry at a time. *)
Fixpoint scan_prog (anchor : option AccountInfo) (n : nat) (acc_origins : list TxVersion)
    (acc_rewards : list DeferredBeneficiaryReward) : prog E (outcome (result TxId HistoryScan)) :=
  match n with
  | 0 => Ret (Done (Ok (mkHistoryScan anchor acc_rewards (mkBeneficiaryReadVersion acc_origins))))
  | S writer =>
    GetHistory writer (λ o,
      match o with
      | None => Ret Panic
      | Some (mkEntryState inc Estimate) => Ret (Done (Err writer))
      | Some (mkEntryState inc (Exact effect)) =>
        let acc_origins := acc_origins ++ [mkTxVersion writer inc] in
        match effect with
        | EffUnchanged => scan_prog anchor writer acc_origins acc_rewards
        | EffReward reward => scan_prog anchor writer acc_origins (acc_rewards ++ [reward])
        | EffSnapshot account =>
          Ret (Done (Ok (mkHistoryScan account acc_rewards (mkBeneficiaryReadVersion acc_origins))))
        end
      end)
  end.

(** The parts of the beneficiary that never change: its address, the account at the start of
    the block and the number of entries. *)
Context (ben : Address) (anchor : option AccountInfo) (size : nat).

Definition basic_account_prog (a : Address) (s : IncarnationDb) :
    prog E (outcome (result E (option AccountInfo) * IncarnationDb)) :=
  let location := LBasic a in
  if bool_decide (ben = a) then
    if txid (version s) <=? size then
      prog_bind (scan_prog anchor (txid (version s)) [] []) (λ o,
        Ret (let! r := o in
             Done (match result_map resolve r with
                   | Ok read =>
                     (Ok (br_account read),
                      insert_snapshot a (AccountBasic_from <$> br_account read)
                        (insert_read location (RVBeneficiary (br_version read)) s))
                   | Err blocker => (Ok None, set_blocked_by_beneficiary (insert_blocker blocker s))
                   end)))
    else Ret Panic
  else
    GetMemory location (λ o,
      match o with
      | Some (t, mkMemoryEntry inc (MVBasic account) est as e) =>
        Ret (Done (Ok account,
                   insert_read location (MvMemory (mkTxVersion t inc))
                     (insert_snapshot a (AccountBasic_from <$> account) (note_entry t e s))))
      | _ =>
        DbBasic a (λ r,
          Ret (Done (r, match r with
                        | Ok account => insert_read location RVStorage
                                          (insert_snapshot a (AccountBasic_from <$> account) s)
                        | Err _ => s
                        end)))
      end).

Definition basic_prog (a : Address) (s : IncarnationDb) :
    prog E (outcome (result E (option AccountInfo) * IncarnationDb)) :=
  prog_bind (basic_account_prog a s) (λ o,
    match o with
    | Panic => Ret Panic
    | Done (r, s) =>
      match r with
      | Ok (Some i) =>
        if negb (is_empty_code_hash i) && bool_decide (code i = None) then
          prog_bind (code_by_address_prog a (code_hash i) s) (λ '(rc, s),
            Ret (Done (let? c := rc in Ok (Some (mkInfo (balance i) (nonce i) (code_hash i) (Some c))), s)))
        else Ret (Done (Ok (Some i), s))
      | _ => Ret (Done (r, s))
      end
    end).

Definition code_by_hash_prog (h : B256) (s : IncarnationDb) : prog E (result E Bytecode * IncarnationDb) :=
  DbCode h (λ r, Ret (r, s)).

Definition storage_prog (a : Address) (k : U256) (s : IncarnationDb) : prog E (result E U256 * IncarnationDb) :=
  GetMemory (LStorageReset a) (λ o,
    let '(reset_txid, reset_version, s) :=
      match o with
      | Some (t, mkMemoryEntry inc MVStorageReset est as e) =>
        (Some t, MvMemory (mkTxVersion t inc), note_entry t e s)
      | _ => (None, RVStorage, s)
      end in
    let s := insert_read (LStorageReset a) reset_version s in
    GetMemory (LStorage a k) (λ o,
      let '(slot_write, slot_version, s) :=
        match o with
        | Some (t, mkMemoryEntry inc (MVStorage value) est as e) =>
          (Some (t, value), MvMemory (mkTxVersion t inc), note_entry t e s)
        | _ => (None, RVStorage, s)
        end in
      let s := insert_read (LStorage a k) slot_version s in
      let from_base :=
        match reset_txid with
        | Some _ => Ret (Ok 0%Z, s)
        | None => DbStorage a k (λ r, Ret (r, s))
        end in
      match slot_write with
      | Some (slot_txid, value) =>
        if match reset_txid with None => true | Some r => r <=? slot_txid end
        then Ret (Ok value, s)
        else from_base
      | None => from_base
      end)).

Definition block_hash_prog (n : Z) (s : IncarnationDb) : prog E (result E B256 * IncarnationDb) :=
  DbBlockHash n (λ r, Ret (r, s)).

End adapter.

(** ** Executions *)

(** An execution of the EVM over a database: its calls, each depending on the answers before
    it, and its result. A database error ends it with that error. *)
Inductive Evm `{Revm} (E : Type) :=
| EvmDone (r : result (EVMError E) SpeculativeResult)
| EvmBasic (a : Address) (k : option AccountInfo → Evm E)
| EvmCode (h : B256) (k : Bytecode → Evm E)
| EvmStorage (a : Address) (key : U256) (k : U256 → Evm E)
| EvmBlockHash (n : Z) (k : B256 → Evm E).
Arguments EvmDone {_ E} r.
Arguments EvmBasic {_ E} a k.
Arguments EvmCode {_ E} h k.
Arguments EvmStorage {_ E} a key k.
Arguments EvmBlockHash {_ E} n k.

Section executions.
Context `{!Revm} {E : Type}.
Context (ben : Address) (anchor : option AccountInfo) (size : nat).

(** The end of an execution: its result and the adapter with what was recorded. *)
Abbreviation Ended := (outcome (result (EVMError E) SpeculativeResult * IncarnationDb)).

(** Continue after a database call. *)
Definition after_call {A} (k : A → IncarnationDb → prog E Ended) (x : result E A * IncarnationDb) : prog E Ended :=
  match x with
  | (Ok v, s) => k v s
  | (Err e, s) => Ret (Done (Err (Database e), s))
  end.

Fixpoint incarnation_prog (m : Evm E) (s : IncarnationDb) : prog E Ended :=
  match m with
  | EvmDone r => Ret (Done (r, s))
  | EvmBasic a k =>
    prog_bind (basic_prog ben anchor size a s) (λ o,
      match o with
      | Panic => Ret Panic
      | Done x => after_call (λ v s, incarnation_prog (k v) s) x
      end)
  | EvmCode h k => prog_bind (code_by_hash_prog h s) (after_call (λ c s, incarnation_prog (k c) s))
  | EvmStorage a key k => prog_bind (storage_prog a key s) (after_call (λ v s, incarnation_prog (k v) s))
  | EvmBlockHash n k => prog_bind (block_hash_prog n s) (after_call (λ v s, incarnation_prog (k v) s))
  end.

(** A successful execution call by call; [P] relates the adapter before and after each call. *)
Inductive calls (P : IncarnationDb → IncarnationDb → Prop) :
    Evm E → IncarnationDb → list (Event E) → SpeculativeResult → IncarnationDb → Prop :=
| ca_done sr s : calls P (EvmDone (Ok sr)) s [] sr s
| ca_basic a k s tr v s1 tr' sr s2 :
    follows (basic_prog ben anchor size a s) tr (Ret (Done (Ok v, s1))) → P s s1 →
    calls P (k v) s1 tr' sr s2 → calls P (EvmBasic a k) s (tr ++ tr') sr s2
| ca_code h k s tr c s1 tr' sr s2 :
    follows (code_by_hash_prog h s) tr (Ret (Ok c, s1)) → P s s1 →
    calls P (k c) s1 tr' sr s2 → calls P (EvmCode h k) s (tr ++ tr') sr s2
| ca_storage a key k s tr v s1 tr' sr s2 :
    follows (storage_prog a key s) tr (Ret (Ok v, s1)) → P s s1 →
    calls P (k v) s1 tr' sr s2 → calls P (EvmStorage a key k) s (tr ++ tr') sr s2
| ca_block_hash n k s tr v s1 tr' sr s2 :
    follows (block_hash_prog n s) tr (Ret (Ok v, s1)) → P s s1 →
    calls P (k v) s1 tr' sr s2 → calls P (EvmBlockHash n k) s (tr ++ tr') sr s2.

End executions.

(** ** Running a program *)

Section run.
Context {DB E : Type} `{!DatabaseRef DB E}.

(** The program run without interruption for transaction [t]. *)
Fixpoint run_prog {A} (mv : MVMemory) (t : TxId) (history : list EntryState) (p : prog E A) (db : DB) : A * DB :=
  match p with
  | Ret a => (a, db)
  | GetMemory l k => run_prog mv t history (k (mv_latest mv l t)) db
  | GetHistory w k => run_prog mv t history (k (history !! w)) db
  | DbBasic a k => let '(r, db) := basic_ref db a in run_prog mv t history (k r) db
  | DbCode h k => let '(r, db) := code_by_hash_ref db h in run_prog mv t history (k r) db
  | DbStorage a key k => let '(r, db) := storage_ref db a key in run_prog mv t history (k r) db
  | DbBlockHash n k => let '(r, db) := block_hash_ref db n in run_prog mv t history (k r) db
  end.

Lemma run_bind {A B} mv t history (p : prog E A) (f : A → prog E B) db :
  run_prog mv t history (prog_bind p f) db =
  let '(a, db) := run_prog mv t history p db in run_prog mv t history (f a) db.
Proof.
  revert db. induction p; intros db; simpl; auto;
    match goal with |- context [let '(r, _) := ?x in _] => by destruct x end.
Qed.

Context `{!Revm}.

Lemma run_scan anchor mv t history n os rs (db : DB) :
  run_prog mv t history (scan_prog anchor n os rs) db = (scan_loop anchor (λ w, history !! w) n os rs, db).
Proof.
  revert os rs. induction n as [|w IH]; intros os rs; simpl; [done|].
  destruct (history !! w) as [[inc [|[| |]]]|]; done || apply IH.
Qed.

Lemma run_code_by_address mv history a h s (db : DB) :
  run_prog mv (txid (version s)) history (code_by_address_prog a h s) db =
  let '(r, s, db) := code_by_address mv a h s db in (r, s, db).
Proof.
  unfold code_by_address_prog, code_by_address. simpl.
  destruct (mv_latest mv (LCode a) _) as [[w [inc [] est]]|]; simpl; try done.
  all: by destruct (code_by_hash_ref db h) as [[]].
Qed.

Lemma note_entry_version t e s : version (note_entry t e s) = version s.
Proof. unfold note_entry. by destruct (estimate e). Qed.

(** The account part of a call keeps the version. *)
Lemma basic_account_version ben mv a s (db : DB) r s' db' :
  basic_account ben mv a s db = Done (r, s', db') → version s' = version s.
Proof.
  unfold basic_account. destruct (matches ben a).
  - intros ([read|b] & _ & [= _ <- _])%outcome_bind_Done; by try destruct (br_account read).
  - intros [= Heq]. destruct (mv_latest mv (LBasic a) _) as [[w [inc [o| | |] est]]|];
      try (destruct (basic_ref db a) as [[? | ?] ?]); simplify_eq/=; rewrite ?note_entry_version; done.
Qed.

Lemma run_basic_account (ben : BeneficiaryAccount) mv a s (db : DB) :
  run_prog mv (txid (version s)) (entries (b_history ben))
    (basic_account_prog (b_address ben) (block_anchor (b_history ben)) (length (entries (b_history ben))) a s) db =
  match basic_account ben mv a s db with
  | Done (r, s, db) => (Done (r, s), db)
  | Panic => (Panic, db)
  end.
Proof.
  unfold basic_account_prog, basic_account, matches. destruct (bool_decide (b_address ben = a)).
  - unfold resolve_before, scan_before, scan_observed.
    destruct (txid (version s) <=? length (entries (b_history ben))); simpl; [|done].
    rewrite run_bind, run_scan. destruct (scan_loop _ _ _ _ _) as [[sc|b]|]; done.
  - simpl. destruct (mv_latest mv (LBasic a) _) as [[w [inc [] est]]|]; simpl; try done.
    all: by destruct (basic_ref db a) as [[]].
Qed.

Lemma run_basic (ben : BeneficiaryAccount) mv a s (db : DB) :
  run_prog mv (txid (version s)) (entries (b_history ben))
    (basic_prog (b_address ben) (block_anchor (b_history ben)) (length (entries (b_history ben))) a s) db =
  match basic ben mv a s db with Done (r, s, db) => (Done (r, s), db) | Panic => (Panic, db) end.
Proof.
  unfold basic_prog, basic. rewrite run_bind, run_basic_account.
  destruct (basic_account ben mv a s db) as [[[r s1] db1]|] eqn:Hb; [|done].
  apply basic_account_version in Hb. rewrite <-Hb. cbn [outcome_bind].
  destruct r as [[i|]|e]; [|done|done]. destruct (negb _ && _); [|done].
  rewrite run_bind, run_code_by_address. by destruct (code_by_address _ _ _ _ _) as [[[c|e] s2] db2].
Qed.

Lemma run_storage mv history a k s (db : DB) :
  run_prog mv (txid (version s)) history (storage_prog a k s) db =
  let '(r, s, db) := storage mv a k s db in (r, s, db).
Proof.
  unfold storage_prog, storage. simpl.
  destruct (match mv_latest mv (LStorageReset a) _ with Some _ => _ | None => _ end) as [[reset rv] s1] eqn:Hreset.
  assert (Hv : version s1 = version s).
  { destruct (mv_latest mv (LStorageReset a) _) as [[w [inc [] est]]|]; simplify_eq; by rewrite ?note_entry_version. }
  simpl. rewrite Hv.
  destruct (match mv_latest mv (LStorage a k) _ with Some _ => _ | None => _ end) as [[slot sv] s2].
  destruct slot as [[w x]|]; [destruct reset as [r|]; [destruct (r <=? w)|]|destruct reset]; simpl; try done.
  all: by destruct (storage_ref db a k).
Qed.

End run.

(** ** Traces *)

Section traces.
Context {E : Type}.

Lemma follows_snoc {A} (p p1 p2 : prog E A) tr ev :
  follows p tr p1 → prog_step p1 ev p2 → follows p (tr ++ [ev]) p2.
Proof. induction 1; intros; simpl; eauto using follows. Qed.

Lemma follows_Ret {A} (a : A) tr (p : prog E A) : follows (Ret a) tr p → tr = [] ∧ p = Ret a.
Proof. inversion 1 as [|? ? ? ? ? Hs]; [done|]. inversion Hs. Qed.

(** A trace through a sequence splits where the first part ends. *)
Lemma follows_bind {A B} (p : prog E A) (f : A → prog E B) tr b :
  follows (prog_bind p f) tr (Ret b) →
  ∃ tr1 tr2 a, tr = tr1 ++ tr2 ∧ follows p tr1 (Ret a) ∧ follows (f a) tr2 (Ret b).
Proof.
  revert tr. induction p as [a|l k IH|w k IH|a k IH|h k IH|a key k IH|n k IH]; intros tr Hf; simpl in Hf;
    [by exists [], tr, a; eauto using follows|..].
  all: inversion Hf as [|? ev p1 tr0 p2 Hs Hf']; subst; inversion Hs; subst.
  all: apply IH in Hf' as (tr1 & tr2 & a1 & -> & H1 & H2).
  all: eexists (_ :: tr1), tr2, a1; split_and!; [done|econstructor; [constructor|done]|done].
Qed.

Context `{!Revm}.
Context (ben : Address) (anchor : option AccountInfo) (size : nat).

(** A successful run of an execution is a sequence of calls. *)
Lemma incarnation_calls (m : Evm E) s tr sr s' :
  follows (incarnation_prog ben anchor size m s) tr (Ret (Done (Ok sr, s'))) →
  calls ben anchor size (λ _ _, True) m s tr sr s'.
Proof.
  revert s tr. induction m as [r|a k IH|h k IH|a key k IH|n k IH]; intros s tr Hf;
    cbn [incarnation_prog] in Hf.
  1: { apply follows_Ret in Hf as [-> [= <- <-]]. constructor. }
  all: apply follows_bind in Hf as (tr1 & tr2 & x & -> & H1 & H2).
  1: destruct x as [x|]; [|by apply follows_Ret in H2 as [_ ?]].
  all: destruct x as [[v|e] s1]; simpl in H2; [|by apply follows_Ret in H2 as [_ ?]].
  all: econstructor; eauto.
Qed.

Lemma calls_impl (P Q : IncarnationDb → IncarnationDb → Prop) (m : Evm E) s tr sr s' :
  (∀ s1 s2, P s1 s2 → Q s1 s2) → calls ben anchor size P m s tr sr s' → calls ben anchor size Q m s tr sr s'.
Proof. intros HPQ. induction 1; econstructor; eauto. Qed.

(** What every call preserves holds of the whole execution. *)
Lemma calls_inv (P : IncarnationDb → IncarnationDb → Prop) `{!PreOrder P} (m : Evm E) s tr sr s' :
  calls ben anchor size P m s tr sr s' → P s s'.
Proof. induction 1; [reflexivity|etrans; eauto..]. Qed.

End traces.

(** ** Fixed answers *)

(** A database that answers as it was told. *)
Record Oracle (E : Type) := mkOracle {
  o_basic : Address → result E (option AccountInfo);
  o_code : B256 → result E Bytecode;
  o_storage : Address → U256 → result E U256;
  o_block_hash : Z → result E B256
}.
Arguments mkOracle {E} _ _ _ _.
Arguments o_basic {E} _ _.
Arguments o_code {E} _ _.
Arguments o_storage {E} _ _ _.
Arguments o_block_hash {E} _ _.

#[export] Instance oracle_db E : DatabaseRef (Oracle E) E := {|
  basic_ref o a := (o_basic o a, o);
  code_by_hash_ref o h := (o_code o h, o);
  storage_ref o a k := (o_storage o a k, o);
  block_hash_ref o n := (o_block_hash o n, o)
|}.

(** The answer of an access is the one of this memory, history and oracle. *)
Definition answered {E} (mv : MVMemory) (t : TxId) (history : list EntryState) (o : Oracle E) (ev : Event E) : Prop :=
  match ev with
  | EvMemory l x => mv_latest mv l t = x
  | EvHistory w x => history !! w = x
  | EvBasic a r => o_basic o a = r
  | EvCode h r => o_code o h = r
  | EvStorage a k r => o_storage o a k = r
  | EvBlockHash n r => o_block_hash o n = r
  end.

(** A trace whose answers are those of one state is an uninterrupted run in that state. *)
Lemma follows_run {E A} mv t history (o : Oracle E) (p : prog E A) tr a :
  follows p tr (Ret a) → Forall (answered mv t history o) tr → run_prog mv t history p o = (a, o).
Proof.
  intros Hf. remember (Ret a) as q eqn:Hq.
  induction Hf as [|p ev p1 tr p2 Hs Hf IH]; intros Hall; [by subst|].
  apply Forall_cons in Hall as [Hev Hall]. specialize (IH Hq Hall).
  destruct Hs; simpl in *; by rewrite Hev.
Qed.

(** The database adapter is its accesses: without interruption, the programs return what the
    operations of the adapter return, with the same recorded reads, snapshots and blockers and
    the same effect on the backing database, on every path, a panic included. *)
Theorem adapter_programs_exact `{!Revm} {DB E : Type} `{!DatabaseRef DB E} (ben : BeneficiaryAccount) mv s (db : DB) :
  let run {A} (p : prog E A) := run_prog mv (txid (version s)) (entries (b_history ben)) p db in
  (∀ a, run (basic_prog (b_address ben) (block_anchor (b_history ben)) (length (entries (b_history ben))) a s) =
     match basic ben mv a s db with Done (r, s, db) => (Done (r, s), db) | Panic => (Panic, db) end) ∧
  (∀ a k, run (storage_prog a k s) = let '(r, s, db) := storage mv a k s db in (r, s, db)) ∧
  (∀ h, run (code_by_hash_prog h s) = let '(r, s, db) := code_by_hash h s db in (r, s, db)) ∧
  (∀ n, run (block_hash_prog n s) = let '(r, s, db) := block_hash n s db in (r, s, db)).
Proof.
  cbv zeta. split_and!.
  - intros a. apply run_basic.
  - intros a k. apply run_storage.
  - intros h. unfold code_by_hash. simpl. by destruct (code_by_hash_ref db h).
  - intros n. unfold block_hash. simpl. by destruct (block_hash_ref db n).
Qed.
