(* ===== verification/Snapshot.v ===== *)
(** What a speculative read returns: the view of src/src/incarnation_db.rs over multi-version
    memory is the world after the preceding transactions.

    A prefix of the block is given by what each transaction published. When the memory holds
    exactly these publications and the backing database holds the world after any committed
    prefix, every successful read of transaction [t] returns the value of the world after
    transactions [0 .. t-1]. *)

From S2P Require Import Prelude Model Reward History World IncarnationDb.

Section snapshot.
Context `{!Revm} `{!RevmLaws}.
Context (ben : BeneficiaryAccount) (code_of : B256 → Bytecode) (w0 : World).

(** One published incarnation: its result, the account values it read, its number. *)
Record Published := mkPublished {
  p_result : SpeculativeResult;
  p_snapshots : gmap Address AccountBasic;
  p_incarnation : nat
}.

Implicit Types (w : World) (p : Published) (ps : list Published).

Definition p_written p : LocationAndType → option MemoryValue :=
  written_value ben (p_snapshots p) (sr_state (p_result p)).

(** What revm guarantees of a finalized journal over the world [w] it was computed from: the
    account values it read are those of [w]; loaded code belongs to its hash; a changed code
    hash comes with its code; removing code also changes the nonce or the balance (EIP-7702
    authorizations increment the nonce of the authority); a deferred reward leaves the
    beneficiary out of the journal. *)
Record journal_ok w p : Prop := {
  jo_snapshots a b : p_snapshots p !! a = Some b →
    ∃ i, w_account w a = Some i ∧ b = AccountBasic_from i;
  jo_code_ok a account i : sr_state (p_result p) !! a = Some account →
    FinalizedAccount_from account = Created i ∨ FinalizedAccount_from account = Updated i →
    code_ok code_of (Some i);
  jo_code_loaded a account i : sr_state (p_result p) !! a = Some account →
    FinalizedAccount_from account = Created i ∨ FinalizedAccount_from account = Updated i →
    is_empty_code_hash i = false → code i = None →
    ∃ j, w_account w a = Some j ∧ code_hash j = code_hash i;
  jo_code_removed a account i j : sr_state (p_result p) !! a = Some account →
    FinalizedAccount_from account = Created i ∨ FinalizedAccount_from account = Updated i →
    is_empty_code_hash i = true → w_account w a = Some j → is_empty_code_hash j = false →
    nonce j ≠ nonce i ∨ balance j ≠ balance i;
  jo_deferred r : sr_deferred_reward (p_result p) = Some r →
    sr_state (p_result p) !! b_address ben = None
}.

Definition world_of ps (t : nat) : World := world_at (b_address ben) w0 (p_result <$> ps) t.

Definition journals_ok ps : Prop := ∀ j p, ps !! j = Some p → journal_ok (world_of ps j) p.

(** Memory below [t] holds exactly what the transactions of [ps] published. *)
Definition mv_rep (mv : MVMemory) ps (t : nat) : Prop :=
  t ≤ length ps ∧
  ∀ j p l, j < t → ps !! j = Some p →
    mv_entry mv l j = (λ x, mkMemoryEntry (p_incarnation p) x false) <$> p_written p l.

(** The history below [t] holds the exact effects of the transactions of [ps]. *)
Definition history_rep (h : BeneficiaryHistory) ps (t : nat) : Prop :=
  t ≤ length (entries h) ∧
  acct_eqv (block_anchor h) (w_account w0 (b_address ben)) ∧
  code_ok code_of (block_anchor h) ∧
  ∀ j p, j < t → ps !! j = Some p → ∃ e,
    entries h !! j = Some (mkEntryState (p_incarnation p) (Exact e)) ∧
    from_execution (sr_deferred_reward (p_result p)) (sr_state (p_result p) !! b_address ben) = Done e.

(** ** One transaction *)

Lemma finalized_account w r a account :
  sr_state r !! a = Some account → a ≠ b_address ben ∨ sr_deferred_reward r = None →
  w_account (commit_result (b_address ben) w r) a =
    (apply_account account (w_account w a, w_storage w a)).1.
Proof.
  intros Ha Hb. rewrite <-(proj1 (apply_changes_Some (sr_state r) w a account Ha)).
  destruct Hb as [Hb|Hb]; [by apply commit_result_account|].
  unfold commit_result. by rewrite Hb.
Qed.

Lemma AccountBasic_from_code i :
  ab_code_hash (AccountBasic_from i) = if is_empty_code_hash i then None else Some (code_hash i).
Proof. unfold AccountBasic_from. simpl. by destruct (is_empty_code_hash i). Qed.

Lemma code_changed_false_hash w p a account i j :
  journal_ok w p → sr_state (p_result p) !! a = Some account →
  FinalizedAccount_from account = Created i ∨ FinalizedAccount_from account = Updated i →
  is_empty_code_hash i = false → code_changed (p_snapshots p !! a) i = false →
  w_account w a = Some j → code_hash j = code_hash i.
Proof.
  intros Hok Ha Hf Hi Hc Hj. unfold code_changed in Hc. rewrite Hi in Hc. simpl in Hc.
  destruct (code i) as [c|] eqn:Hcode; simpl in Hc.
  - destruct (p_snapshots p !! a) as [b|] eqn:Hb; [|done].
    destruct (jo_snapshots _ _ Hok _ _ Hb) as (i' & Hi' & ->). simplify_eq.
    rewrite AccountBasic_from_code in Hc. by case_bool_decide as Hh; destruct (is_empty_code_hash j); simplify_eq.
  - destruct (jo_code_loaded _ _ Hok _ _ _ Ha Hf Hi Hcode) as (j' & ? & ?). by simplify_eq.
Qed.

(** An account the transaction does not write in memory keeps its value. *)
Lemma basic_frame w p a :
  journal_ok w p → a ≠ b_address ben → p_written p (LBasic a) = None →
  acct_eqv (w_account (commit_result (b_address ben) w (p_result p)) a) (w_account w a).
Proof.
  intros Hok Hab. unfold p_written, written_value.
  destruct (matches ben a) eqn:Hm; [unfold matches in Hm; by case_bool_decide|].
  destruct (sr_state (p_result p) !! a) as [account|] eqn:Ha; cbn [fmap option_fmap option_map].
  2: { intros _. rewrite commit_result_account by done.
       by rewrite (proj1 (apply_changes_None _ _ _ Ha)). }
  pose proof (finalized_account w _ _ _ Ha (or_introl Hab)) as Hacc. unfold apply_account in Hacc.
  destruct (FinalizedAccount_from account) as [| |i|i] eqn:Hfin; cbn [fst] in Hacc;
    [by rewrite Hacc|done| |].
  all: destruct (basic_changed _ i) eqn:Hbc; [done|intros _]; rewrite Hacc.
  all: unfold basic_changed in Hbc; apply orb_false_iff in Hbc as [Hcc Hb].
  all: destruct (p_snapshots p !! a) as [b|] eqn:Hsnap; [|done].
  all: destruct (jo_snapshots _ _ Hok _ _ Hsnap) as (j & Hj & ->); rewrite Hj; simpl in Hb.
  all: do 2 case_bool_decide; try done; constructor; split_and!; [done|done|].
  all: destruct (is_empty_code_hash i) eqn:Hi; [destruct (is_empty_code_hash j) eqn:Hj'|].
  all: try by apply empty_code_hash_unique.
  all: try (destruct (jo_code_removed _ _ Hok a account i j); by eauto).
  all: symmetry; eapply code_changed_false_hash; rewrite ?Hsnap; eauto.
Qed.

(** An account value the transaction writes in memory is its committed value. *)
Lemma basic_written w p a x :
  a ≠ b_address ben → p_written p (LBasic a) = Some x →
  ∃ v, x = MVBasic v ∧ code_ok code_of v ∧
    acct_eqv v (w_account (commit_result (b_address ben) w (p_result p)) a).
Proof.
  intros Hab. unfold p_written, written_value. destruct (matches ben a); [done|].
  destruct (sr_state (p_result p) !! a) as [account|] eqn:Ha; cbn [fmap option_fmap option_map]; [|done].
  pose proof (finalized_account w _ _ _ Ha (or_introl Hab)) as Hacc. unfold apply_account in Hacc.
  destruct (FinalizedAccount_from account) as [| |i|i] eqn:Hfin; cbn [fst] in Hacc; [done| | |].
  - intros [= <-]. exists None. rewrite Hacc. split_and!; [done|by intros i c|done].
  - case_match; [|done]. intros [= <-]. eexists. rewrite Hacc. split_and!; [done|by intros i' c [= <-]|by constructor].
  - case_match; [|done]. intros [= <-]. eexists. rewrite Hacc. split_and!; [done|by intros i' c [= <-]|by constructor].
Qed.

(** Storage without a slot write and without a reset keeps its value. *)
Lemma storage_frame w p a k :
  p_written p (LStorage a k) = None → p_written p (LStorageReset a) = None →
  w_storage (commit_result (b_address ben) w (p_result p)) a k = w_storage w a k.
Proof.
  rewrite commit_result_storage. unfold p_written, written_value.
  destruct (sr_state (p_result p) !! a) as [account|] eqn:Ha; cbn [fmap option_fmap option_map].
  2: { by rewrite (proj2 (apply_changes_None _ _ _ Ha)). }
  pose proof (apply_changes_Some _ w _ _ Ha) as [_ Hst]. unfold apply_account in Hst.
  destruct (FinalizedAccount_from account) as [| |i|i] eqn:Hfin; cbn [snd] in Hst; [by rewrite Hst|done|done|].
  rewrite Hst. unfold overlay. simpl. by destruct (changed_storage_slots account !! k).
Qed.

Lemma storage_written w p a k x :
  p_written p (LStorage a k) = Some x →
  x = MVStorage (w_storage (commit_result (b_address ben) w (p_result p)) a k).
Proof.
  rewrite commit_result_storage. unfold p_written, written_value.
  destruct (sr_state (p_result p) !! a) as [account|] eqn:Ha; cbn [fmap option_fmap option_map]; [|done].
  pose proof (apply_changes_Some _ w _ _ Ha) as [_ Hst]. unfold apply_account in Hst.
  destruct (FinalizedAccount_from account) as [| |i|i] eqn:Hfin; cbn [snd] in Hst; [done|done| |].
  all: rewrite Hst; unfold overlay; simpl; destruct (changed_storage_slots account !! k); simpl; congruence.
Qed.

Lemma storage_reset w p a k x :
  p_written p (LStorageReset a) = Some x → p_written p (LStorage a k) = None →
  w_storage (commit_result (b_address ben) w (p_result p)) a k = 0%Z.
Proof.
  rewrite commit_result_storage. unfold p_written, written_value.
  destruct (sr_state (p_result p) !! a) as [account|] eqn:Ha; cbn [fmap option_fmap option_map]; [|done].
  pose proof (apply_changes_Some _ w _ _ Ha) as [_ Hst]. unfold apply_account in Hst.
  destruct (FinalizedAccount_from account) as [| |i|i] eqn:Hfin; cbn [snd] in Hst; [done| | |done].
  - by rewrite Hst.
  - rewrite Hst. unfold overlay. simpl. by destruct (changed_storage_slots account !! k).
Qed.

Lemma reset_value p a x : p_written p (LStorageReset a) = Some x → x = MVStorageReset.
Proof. unfold p_written, written_value. repeat case_match; congruence. Qed.

Lemma code_value p a x : p_written p (LCode a) = Some x → ∃ c, x = MVCode c.
Proof. unfold p_written, written_value. repeat case_match; naive_solver. Qed.

(** The code hash of an account can only become another non-empty one together with a code
    write. *)
Lemma code_frame w p a i :
  journal_ok w p → p_written p (LCode a) = None →
  w_account (commit_result (b_address ben) w (p_result p)) a = Some i →
  is_empty_code_hash i = false →
  ∃ j, w_account w a = Some j ∧ code_hash j = code_hash i.
Proof.
  intros Hok Hw Hi He.
  destruct (decide (a = b_address ben ∧ sr_deferred_reward (p_result p) ≠ None)) as [[-> Hd]|Hnd].
  - destruct (sr_deferred_reward (p_result p)) as [r|] eqn:Hr; [|done].
    unfold commit_result in Hi. rewrite Hr in Hi. simpl in Hi. rewrite decide_True in Hi by done.
    rewrite (jo_deferred _ _ Hok _ Hr) in Hi. simpl in Hi. simplify_eq.
    destruct (w_account w (b_address ben)) as [j|]; unfold apply_to in *; simpl in *.
    + exists j. split; [done|]. by case_match.
    + exfalso. rewrite (is_empty_code_hash_hash _ info_default) in He by (by case_match).
      rewrite info_default_empty_code_hash in He. done.
  - assert (Hb : a ≠ b_address ben ∨ sr_deferred_reward (p_result p) = None).
    { destruct (decide (a = b_address ben)); [|by left].
      destruct (sr_deferred_reward (p_result p)); naive_solver. }
    unfold p_written, written_value in Hw.
    destruct (sr_state (p_result p) !! a) as [account|] eqn:Ha; cbn [fmap option_fmap option_map] in Hw.
    2: { assert (Hsame : w_account (commit_result (b_address ben) w (p_result p)) a = w_account w a).
         { destruct Hb as [Hb|Hb].
           - rewrite commit_result_account by done. by apply apply_changes_None.
           - unfold commit_result. rewrite Hb. by apply apply_changes_None. }
         rewrite Hsame in Hi. eauto. }
    pose proof (finalized_account w _ _ _ Ha Hb) as Hacc. rewrite Hi in Hacc.
    unfold apply_account in Hacc.
    destruct (FinalizedAccount_from account) as [| |i'|i'] eqn:Hfin; cbn [fst] in Hacc; simplify_eq; [eauto| |].
    all: destruct (code_changed _ i') eqn:Hcc; [done|].
    all: destruct (w_account w a) as [j|] eqn:Hj;
      [exists j; split; [done|]; eapply code_changed_false_hash; eauto|].
    all: exfalso; unfold code_changed in Hcc; rewrite He in Hcc; simpl in Hcc.
    all: destruct (code i') eqn:Hc; simpl in Hcc;
      [|destruct (jo_code_loaded _ _ Hok _ _ i' Ha) as (? & ? & ?); eauto; congruence].
    all: destruct (p_snapshots p !! a) as [b|] eqn:Hs; [|done].
    all: destruct (jo_snapshots _ _ Hok _ _ Hs) as (? & ? & ?); congruence.
Qed.

(** A code entry is the code of the committed account. *)
Lemma code_written w p a x :
  journal_ok w p → p_written p (LCode a) = Some x →
  ∃ i, w_account (commit_result (b_address ben) w (p_result p)) a = Some i ∧
    is_empty_code_hash i = false ∧ x = MVCode (code_of (code_hash i)).
Proof.
  intros Hok Hw. unfold p_written, written_value in Hw.
  destruct (sr_state (p_result p) !! a) as [account|] eqn:Ha; cbn [fmap option_fmap option_map] in Hw; [|done].
  assert (Hb : a ≠ b_address ben ∨ sr_deferred_reward (p_result p) = None).
  { destruct (sr_deferred_reward (p_result p)) as [r|] eqn:Hr; [|by right]. left. intros ->.
    by rewrite (jo_deferred _ _ Hok _ Hr) in Ha. }
  pose proof (finalized_account w _ _ _ Ha Hb) as Hacc. unfold apply_account in Hacc.
  destruct (FinalizedAccount_from account) as [| |i|i] eqn:Hfin; cbn [fst] in Hacc; [done|done| |].
  all: destruct (code_changed _ i) eqn:Hcc; [|done]; exists i; split; [done|].
  all: unfold code_changed in Hcc; apply andb_true_iff in Hcc as [[Hi Hc]%andb_true_iff _].
  all: apply negb_true_iff in Hi; apply bool_decide_eq_true in Hc as [c Hc]; split; [done|].
  all: rewrite Hc in Hw; simplify_eq/=; f_equal.
  all: eapply (jo_code_ok _ _ Hok); eauto.
Qed.

(** ** The whole prefix *)

Lemma world_of_S ps j p :
  ps !! j = Some p → world_of ps (S j) = commit_result (b_address ben) (world_of ps j) (p_result p).
Proof. intros Hp. apply world_at_S. by rewrite list_lookup_fmap, Hp. Qed.

(** A relation between a world and the next one, lifted to any interval without writes. *)
Lemma prefix_ind (R : World → World → Prop) ps mv t l m n :
  PreOrder R → mv_rep mv ps t → m ≤ n ≤ t →
  (∀ j p, ps !! j = Some p → p_written p l = None → R (world_of ps (S j)) (world_of ps j)) →
  (∀ j, m ≤ j < n → mv_entry mv l j = None) →
  R (world_of ps n) (world_of ps m).
Proof.
  intros HR [Hlen Hmv] [Hmn Hnt] Hstep Hnone.
  induction n as [|n IH]; [replace m with 0 by lia; reflexivity|].
  destruct (decide (m = S n)) as [->|]; [reflexivity|].
  etrans; [|apply IH; [lia|lia|intros; apply Hnone; lia]].
  destruct (lookup_lt_is_Some_2 ps n) as [p Hp]; [lia|].
  apply (Hstep n p Hp). specialize (Hmv n p l ltac:(lia) Hp). rewrite Hnone in Hmv by lia.
  by destruct (p_written p l).
Qed.

Lemma mv_latest_Some mv ps t l j e :
  mv_rep mv ps t → mv_latest mv l t = Some (j, e) →
  ∃ p x, ps !! j = Some p ∧ j < t ∧ p_written p l = Some x ∧ e = mkMemoryEntry (p_incarnation p) x false ∧
    ∀ k, j < k < t → mv_entry mv l k = None.
Proof.
  intros [Hlen Hmv] Hl. assert (Hr : range_next_back t (default ∅ (mv !! l)) = Some (j, e)).
  { unfold mv_latest in Hl. by destruct (mv !! l). }
  apply range_next_back_Some in Hr as (Hj & He & Hk).
  destruct (lookup_lt_is_Some_2 ps j) as [p Hp]; [lia|].
  pose proof (Hmv j p l Hj Hp) as Hm. unfold mv_entry in Hm at 1. rewrite He in Hm.
  destruct (p_written p l) as [x|] eqn:Hx; simplify_eq/=. eauto 10.
Qed.

Lemma mv_latest_None mv t l : mv_latest mv l t = None ↔ ∀ k, k < t → mv_entry mv l k = None.
Proof.
  unfold mv_latest, mv_entry. destruct (mv !! l); simpl; [apply range_next_back_None|].
  split; [|done]. intros. apply lookup_empty.
Qed.

(** ** Reads *)

Context {DB E : Type} `{!DatabaseRef DB E} (rep : DB → World → Prop)
  `{!DatabaseView DB E code_of w0 rep}.

Lemma basic_account_world mv ps t c a s db r s' db' :
  mv_rep mv ps t → journals_ok ps → c ≤ t → rep db (world_of ps c) → txid (version s) = t →
  a ≠ b_address ben → basic_account ben mv a s db = Done (r, s', db') →
  rep db' (world_of ps c) ∧ version s' = version s ∧ blocking_txs s' = blocking_txs s ∧
  ∀ v, r = Ok v → acct_eqv v (w_account (world_of ps t) a) ∧ code_ok code_of v.
Proof.
  intros Hmv Hok Hc Hrep Ht Hab Hb. subst t. unfold basic_account in Hb.
  destruct (matches ben a) eqn:Hm; [unfold matches in Hm; by case_bool_decide|].
  set (R w w' := acct_eqv (w_account w a) (w_account w' a)).
  assert (HR : PreOrder R).
  { split; [intros w; unfold R; reflexivity|intros w1 w2 w3; unfold R; intros ->; done]. }
  assert (Hstep : ∀ j p, ps !! j = Some p → p_written p (LBasic a) = None →
      R (world_of ps (S j)) (world_of ps j)).
  { intros j p Hp Hw. unfold R. erewrite world_of_S by done. apply basic_frame; eauto. }
  destruct (mv_latest mv (LBasic a) _) as [[j e]|] eqn:Hl.
  - destruct (mv_latest_Some _ _ _ _ _ _ Hmv Hl) as (p & x & Hp & Hj & Hx & -> & Hk).
    destruct (basic_written (world_of ps j) p a x Hab Hx) as (v & -> & Hcode & Hv). simplify_eq/=.
    split_and!; [done|done|done|]. intros v' [= <-]. split; [|done]. rewrite Hv.
    rewrite <-world_of_S by done. symmetry.
    apply (prefix_ind R _ mv _ (LBasic a) (S j) _ _ Hmv); [lia|done|intros; apply Hk; lia].
  - rewrite mv_latest_None in Hl; simpl in Hl. destruct (basic_ref db a) as [[v|err] db1] eqn:Hdb;
      destruct (view_basic _ _ _ _ _ Hrep Hdb) as [Hrep' Hv]; simplify_eq/=; [|by split_and!].
    split_and!; [done|by destruct v|by destruct v|].
    intros v' [= <-]. destruct (Hv v eq_refl) as [Hv' ?]. split; [|done]. rewrite Hv'. symmetry.
    apply (prefix_ind R _ mv _ (LBasic a) c _ _ Hmv); [lia|done|intros; apply Hl; lia].
Qed.

Lemma code_by_address_world mv ps t c a i s db r s' db' :
  mv_rep mv ps t → journals_ok ps → c ≤ t → rep db (world_of ps c) → txid (version s) = t →
  acct_eqv (Some i) (w_account (world_of ps t) a) → is_empty_code_hash i = false →
  code_by_address mv a (code_hash i) s db = (r, s', db') →
  rep db' (world_of ps c) ∧ version s' = version s ∧ blocking_txs s' = blocking_txs s ∧
  ∀ c, r = Ok c → c = code_of (code_hash i).
Proof.
  intros Hmv Hok Hc Hrep Ht Hi He Hcode. subst t. unfold code_by_address in Hcode.
  inversion Hi as [? it (_ & _ & Hh) Hit|]; subst.
  set (R w w' := ∀ i, w_account w a = Some i → is_empty_code_hash i = false →
    ∃ j, w_account w' a = Some j ∧ code_hash j = code_hash i).
  assert (HR : PreOrder R).
  { split; [intros w i'; eauto|]. intros w1 w2 w3 R12 R23 i' Hi' He'.
    destruct (R12 i' Hi' He') as (j & Hj & Hji).
    destruct (R23 j Hj) as (k & ? & ?); [by rewrite (is_empty_code_hash_hash j i')|].
    exists k. split; [done|congruence]. }
  assert (Hstep : ∀ j p, ps !! j = Some p → p_written p (LCode a) = None →
      R (world_of ps (S j)) (world_of ps j)).
  { intros j p Hp Hw i'. erewrite world_of_S by done. apply code_frame; eauto. }
  assert (He' : is_empty_code_hash it = false) by (by rewrite <-(is_empty_code_hash_hash i it)).
  destruct (mv_latest mv (LCode a) _) as [[j e]|] eqn:Hl.
  - destruct (mv_latest_Some _ _ _ _ _ _ Hmv Hl) as (p & x & Hp & Hj & Hx & -> & Hk).
    destruct (code_written (world_of ps j) p a x) as (ij & Hij & Hej & ->); [by eauto|done|].
    simplify_eq/=. split_and!; [done|done|done|]. intros c' [= <-]. f_equal.
    assert (HRj : R (world_of ps (txid (version s))) (world_of ps (S j))).
    { apply (prefix_ind R _ mv _ (LCode a) _ _ _ Hmv); [lia|done|intros; apply Hk; lia]. }
    rewrite <-world_of_S in Hij by done.
    destruct (HRj it) as (j' & ? & ?); [done|done|]. simplify_eq. congruence.
  - rewrite mv_latest_None in Hl; simpl in Hl.
    destruct (code_by_hash_ref db (code_hash i)) as [[v|err] db1] eqn:Hdb;
      destruct (view_code _ _ _ _ _ Hrep Hdb) as [Hrep' Hv]; simplify_eq/=; [|by split_and!].
    split_and!; [done|done|done|]. intros c' [= <-].
    assert (HRj : R (world_of ps (txid (version s))) (world_of ps 0)).
    { apply (prefix_ind R _ mv _ (LCode a) _ _ _ Hmv); [lia|done|intros; apply Hl; lia]. }
    destruct (HRj it) as (j & Hj & Hjh); [done|done|].
    eapply Hv; [done|exact Hj|congruence|]. by rewrite (is_empty_code_hash_hash j it).
Qed.

Lemma storage_world mv ps t c a k s db r s' db' :
  mv_rep mv ps t → c ≤ t → rep db (world_of ps c) → txid (version s) = t →
  storage mv a k s db = (r, s', db') →
  rep db' (world_of ps c) ∧ version s' = version s ∧ blocking_txs s' = blocking_txs s ∧
  ∀ v, r = Ok v → v = w_storage (world_of ps t) a k.
Proof.
  intros Hmv Hc Hrep Ht Hs. subst t. unfold storage in Hs.
  assert (Hframe : ∀ m n, m ≤ n ≤ txid (version s) → (∀ j, m ≤ j < n → mv_entry mv (LStorage a k) j = None) →
      (∀ j, m ≤ j < n → mv_entry mv (LStorageReset a) j = None) →
      w_storage (world_of ps n) a k = w_storage (world_of ps m) a k).
  { intros m n Hmn Hno Hno'. destruct Hmv as [Hlen Hmv].
    induction n as [|n IH]; [by replace m with 0 by lia|].
    destruct (decide (m = S n)) as [->|]; [done|].
    rewrite <-IH; [|lia|intros; apply Hno; lia|intros; apply Hno'; lia].
    destruct (lookup_lt_is_Some_2 ps n) as [p Hp]; [lia|]. erewrite world_of_S by done.
    apply storage_frame.
    - specialize (Hmv n p (LStorage a k) ltac:(lia) Hp). rewrite Hno in Hmv by lia.
      by destruct (p_written p _).
    - specialize (Hmv n p (LStorageReset a) ltac:(lia) Hp). rewrite Hno' in Hmv by lia.
      by destruct (p_written p _). }
  destruct (mv_latest mv (LStorageReset a) _) as [[jr er]|] eqn:Hlr.
  - destruct (mv_latest_Some _ _ _ _ _ _ Hmv Hlr) as (pr & xr & Hpr & Hjr & Hxr & -> & Hkr).
    pose proof (reset_value _ _ _ Hxr) as ->. unfold note_entry in Hs; simpl in Hs.
    destruct (mv_latest mv (LStorage a k) _) as [[j e]|] eqn:Hl; simpl in Hs.
    + destruct (mv_latest_Some _ _ _ _ _ _ Hmv Hl) as (p & x & Hp & Hj & Hx & -> & Hk).
      pose proof (storage_written (world_of ps j) _ _ _ _ Hx) as ->.
      destruct (Nat.leb_spec jr j); simplify_eq/=; (split_and!; [done..|]); intros v [= <-].
      * rewrite <-world_of_S by done. symmetry. apply Hframe; intros; [lia|apply Hk; lia|apply Hkr; lia].
      * rewrite (Hframe (S jr) (txid (version s))); [|lia|intros; apply Hk; lia|intros; apply Hkr; lia].
        erewrite world_of_S by done. symmetry. eapply storage_reset; [done|].
        destruct Hmv as [_ Hmv]. specialize (Hmv jr pr (LStorage a k) Hjr Hpr).
        rewrite Hk in Hmv by lia. by destruct (p_written pr _).
    + rewrite mv_latest_None in Hl; simpl in Hl. simplify_eq/=. split_and!; [done..|]. intros v [= <-].
      rewrite (Hframe (S jr) (txid (version s))); [|lia|intros; apply Hl; lia|intros; apply Hkr; lia].
      erewrite world_of_S by done. symmetry. eapply storage_reset; [done|].
      destruct Hmv as [_ Hmv]. specialize (Hmv jr pr (LStorage a k) Hjr Hpr).
      rewrite Hl in Hmv by lia. by destruct (p_written pr _).
  - rewrite mv_latest_None in Hlr. simpl in Hs.
    destruct (mv_latest mv (LStorage a k) _) as [[j e]|] eqn:Hl; simpl in Hs.
    + destruct (mv_latest_Some _ _ _ _ _ _ Hmv Hl) as (p & x & Hp & Hj & Hx & -> & Hk).
      pose proof (storage_written (world_of ps j) _ _ _ _ Hx) as ->. simplify_eq/=.
      split_and!; [done..|]. intros v [= <-].
      rewrite <-world_of_S by done. symmetry. apply Hframe; intros; [lia|apply Hk; lia|apply Hlr; lia].
    + rewrite mv_latest_None in Hl; simpl in Hl. destruct (storage_ref db a k) as [r1 db1] eqn:Hdb.
      destruct (view_storage _ _ _ _ _ _ Hrep Hdb) as [? Hv]. simplify_eq/=.
      split_and!; [done..|]. intros v ->. rewrite (Hv v eq_refl). symmetry.
      apply Hframe; intros; [lia|apply Hl; lia|apply Hlr; lia].
Qed.

(** The effect recorded for the beneficiary is the one committed. *)
Lemma effect_world w p e v :
  journal_ok w p →
  from_execution (sr_deferred_reward (p_result p)) (sr_state (p_result p) !! b_address ben) = Done e →
  acct_eqv v (w_account w (b_address ben)) → code_ok code_of v →
  acct_eqv (apply_effect v e) (w_account (commit_result (b_address ben) w (p_result p)) (b_address ben)) ∧
  code_ok code_of (apply_effect v e).
Proof.
  intros Hok He Hv Hcode. unfold from_execution in He.
  destruct (sr_deferred_reward (p_result p)) as [r|] eqn:Hr.
  - apply outcome_bind_Done in He as (_ & _ & [= <-]). unfold commit_result. rewrite Hr. simpl.
    rewrite decide_True, (jo_deferred _ _ Hok _ Hr) by done. simpl.
    split; [constructor; by rewrite Hv|].
    intros i c [= <-]. unfold apply_to. destruct v as [j|]; simpl.
    + case_match; simpl; intros ??; [|by eapply Hcode].
      apply (Hcode j); [done|done|]. by erewrite is_empty_code_hash_hash.
    + intros _. rewrite (is_empty_code_hash_hash _ info_default) by (by case_match).
      by rewrite info_default_empty_code_hash.
  - injection He as <-. unfold commit_result. rewrite Hr.
    destruct (sr_state (p_result p) !! b_address ben) as [account|] eqn:Ha; cbn [fmap option_fmap option_map].
    2: { split; [|done]. by rewrite (proj1 (apply_changes_None _ w _ Ha)). }
    pose proof (proj1 (apply_changes_Some _ w _ _ Ha)) as Hacc. unfold apply_account in Hacc.
    destruct (FinalizedAccount_from account) as [| |i|i] eqn:Hfin; cbn [fst] in Hacc; rewrite Hacc; simpl.
    + done.
    + split; [constructor|by intros i c].
    + split; [done|]. eapply (jo_code_ok _ _ Hok); eauto.
    + split; [done|]. eapply (jo_code_ok _ _ Hok); eauto.
Qed.

Lemma history_effects h ps t :
  t ≤ length ps → journals_ok ps → history_rep h ps t →
  ∃ effects, length effects = t ∧ completes (λ j, entries h !! j) effects ∧
    acct_eqv (foldl apply_effect (block_anchor h) effects) (w_account (world_of ps t) (b_address ben)) ∧
    code_ok code_of (foldl apply_effect (block_anchor h) effects).
Proof.
  intros Hlen Hok (Hlt & Ha & Hc & He). induction t as [|t IH].
  { exists []. split_and!; [done|intros ? ? ? ?; simpl in *; lia|done|done]. }
  destruct IH as (effects & Hl & Hcomp & Hw & Hco); [lia|lia|intros; apply He; [lia|done]|].
  destruct (lookup_lt_is_Some_2 ps t) as [p Hp]; [lia|].
  destruct (He t p) as (e & Hentry & Hexec); [lia|done|].
  exists (effects ++ [e]). rewrite foldl_app, length_app. simpl.
  destruct (effect_world (world_of ps t) p e (foldl apply_effect (block_anchor h) effects)) as [Hw' Hco'];
    [by eauto|done|done|done|].
  split_and!; [lia| |by erewrite world_of_S by done|done].
  intros w e' inc Hlt' Hw''. rewrite length_app in Hlt'. simpl in Hlt'.
  destruct (decide (w < t)).
  - rewrite lookup_app_l by lia. eapply Hcomp; [lia|done].
  - replace w with t in * by lia. rewrite lookup_app_r by lia. simplify_eq.
    by rewrite Nat.sub_diag.
Qed.

Lemma history_read_world ps t :
  t ≤ length ps → journals_ok ps → history_rep (b_history ben) ps t →
  ∃ read, resolve_before (b_history ben) t = Done (Ok read) ∧
    acct_eqv (br_account read) (w_account (world_of ps t) (b_address ben)) ∧
    code_ok code_of (br_account read).
Proof.
  intros Hlen Hok Hrep.
  destruct (history_effects _ _ _ Hlen Hok Hrep) as (effects & Hl & Hcomp & Hw & Hc).
  destruct Hrep as (Hlt & _ & _ & He).
  destruct (scan_loop_total (block_anchor (b_history ben)) (λ j, entries (b_history ben) !! j) t)
    as [[scan|b] Hs].
  { intros. apply lookup_lt_is_Some. lia. }
  - exists (resolve scan). rewrite (scan_loop_resolves _ _ _ _ effects Hl Hcomp Hs).
    split_and!; [|done|done]. apply resolve_before_Done. exists (Ok scan).
    by rewrite scan_before_Done.
  - apply scan_loop_blocked in Hs as (Hb & [inc Hi] & _).
    destruct (lookup_lt_is_Some_2 ps b) as [p Hp]; [lia|].
    destruct (He b p Hb Hp) as (? & ? & _). congruence.
Qed.

(** The account part of a read, for every address. *)
Lemma basic_account_any mv ps t c a s db :
  mv_rep mv ps t → journals_ok ps → history_rep (b_history ben) ps t →
  c ≤ t → rep db (world_of ps c) → txid (version s) = t →
  ∃ r s' db', basic_account ben mv a s db = Done (r, s', db') ∧
  rep db' (world_of ps c) ∧ version s' = version s ∧ blocking_txs s' = blocking_txs s ∧
  ∀ v, r = Ok v → acct_eqv v (w_account (world_of ps t) a) ∧ code_ok code_of v.
Proof.
  intros Hmv Hok Hh Hc Hrep Ht.
  destruct (basic_account ben mv a s db) as [[[r s'] db']|] eqn:Hb.
  - exists r, s', db'. split; [done|].
    destruct (decide (a = b_address ben)) as [->|]; [|by eapply basic_account_world].
    unfold basic_account in Hb. unfold matches in Hb. rewrite bool_decide_true in Hb by done.
    destruct (history_read_world ps t) as (read & Hread & Hw & Hco); [apply Hmv|done|done|].
    rewrite Ht, Hread in Hb. simpl in Hb. simplify_eq/=.
    split_and!; [done|by destruct (br_account read)|by destruct (br_account read)|].
    by intros v [= <-].
  - exfalso. unfold basic_account in Hb. destruct (matches ben a); [|done].
    destruct (history_read_world ps t) as (read & Hread & _); [apply Hmv|done|done|].
    rewrite Ht, Hread in Hb. done.
Qed.

(** A whole account read, code included. *)
Lemma basic_world mv ps t c a s db :
  mv_rep mv ps t → journals_ok ps → history_rep (b_history ben) ps t →
  c ≤ t → rep db (world_of ps c) → txid (version s) = t →
  ∃ r s' db', basic ben mv a s db = Done (r, s', db') ∧
  rep db' (world_of ps c) ∧ blocking_txs s' = blocking_txs s ∧
  ∀ v, r = Ok v → acct_eqv v (w_account (world_of ps t) a) ∧
    ∀ i, v = Some i → is_empty_code_hash i = false → code i = Some (code_of (code_hash i)).
Proof.
  intros Hmv Hok Hh Hc Hrep Ht.
  destruct (basic_account_any mv ps t c a s db) as (r & s1 & db1 & Hb & Hrep1 & Hv1 & Hbl & Hr); [done..|].
  unfold basic. rewrite Hb. simpl. clear Hb.
  destruct r as [[i|]|err]; simpl; [|by eexists _, _, _; split_and!; [done..|]; naive_solver
    |by eexists _, _, _; split_and!; [done..|]; naive_solver].
  destruct (Hr (Some i) eq_refl) as [Hi Hco].
  destruct (is_empty_code_hash i) eqn:He; simpl.
  { eexists _, _, _. split_and!; [done..|]. intros v [= <-]. split; [done|]. naive_solver congruence. }
  destruct (code i) as [cd|] eqn:Hcd; simpl.
  { eexists _, _, _. split_and!; [done..|]. intros v [= <-]. split; [done|].
    intros i' [= <-] _. rewrite Hcd. f_equal. by apply (Hco i). }
  destruct (code_by_address mv a (code_hash i) s1 db1) as [[rc s2] db2] eqn:Hcode.
  destruct (code_by_address_world mv ps t c a i s1 db1 rc s2 db2) as (? & _ & ? & Hcv);
    [done|done|done|done|congruence|done|done|done|].
  eexists _, _, _. split_and!; [done|done|congruence|].
  intros v Hv. destruct rc as [cd|]; simplify_eq/=. split.
  - rewrite <-Hi. by constructor.
  - intros i' [= <-] _. simpl. f_equal. by apply Hcv.
Qed.

(** ** Properties *)

(** C11. Speculative account reads are block-order reads: when memory and beneficiary history
    below [t] hold exactly what the transactions before [t] finally published, none of it an
    estimate, their journals are as revm promises, and the backing database holds the world
    after any committed prefix [c ≤ t], reading an account for [t] never panics and finds no
    blocker, and a value it returns is the account after transactions [0 .. t-1], with the code
    of its hash loaded. *)
Theorem basic_reads_world mv ps t c a s db :
  mv_rep mv ps t → journals_ok ps → history_rep (b_history ben) ps t →
  c ≤ t → rep db (world_of ps c) → txid (version s) = t →
  ∃ r s' db', basic ben mv a s db = Done (r, s', db') ∧
  rep db' (world_of ps c) ∧ blocking_txs s' = blocking_txs s ∧
  ∀ v, r = Ok v → acct_eqv v (w_account (world_of ps t) a) ∧
    ∀ i, v = Some i → is_empty_code_hash i = false → code i = Some (code_of (code_hash i)).
Proof. apply basic_world. Qed.

(** C10. Speculative storage reads are block-order reads: when memory below [t] holds exactly what
    the transactions before [t] finally published, none of it an estimate, and the backing
    database holds the world after any committed prefix [c ≤ t], a storage value returned for [t] is the slot value after transactions [0 .. t-1], through account
    deletions and re-creations inside the block, and finds no blocker. *)
Theorem storage_reads_world mv ps t c a k s db r s' db' :
  mv_rep mv ps t → c ≤ t → rep db (world_of ps c) → txid (version s) = t →
  storage mv a k s db = (r, s', db') →
  rep db' (world_of ps c) ∧ blocking_txs s' = blocking_txs s ∧
  ∀ v, r = Ok v → v = w_storage (world_of ps t) a k.
Proof. intros. edestruct storage_world as (? & _ & ? & ?); eauto. Qed.

End snapshot.

(** ** Witnesses *)

Section examples.
#[local] Existing Instance revm_example.

#[local] Existing Instance revm_example_laws.

(** Account 1 is funded; slot 0 of account 5 is set although the account does not exist. *)
Definition ex_w0 : World :=
  mkWorld (λ a, if decide (a = 1%Z) then Some (mkInfo 100 0 0 None) else None)
    (λ a k, if decide (a = 5%Z ∧ k = 3%Z) then 9%Z else 0%Z).

(** A database that holds the block-start world. *)
#[local] Instance ex_db : DatabaseRef unit unit := world_db (λ h, [h]) ex_w0.

Definition ex_rep (db : unit) (w : World) : Prop := w = ex_w0.

#[local] Instance ex_view : DatabaseView unit unit (λ h, [h]) ex_w0 ex_rep.
Proof.
  apply world_db_view. intros a i c. simpl. case_decide; intros; by simplify_eq/=.
Qed.

(** Transaction 0 spends from account 1 and creates account 5 with code and one slot. *)
Definition ex_changes : EvmState :=
  <[1%Z := mkAccount true false false (mkInfo 90 1 0 None) ∅]>
  (<[5%Z := mkAccount true false true (mkInfo 10 1 11 (Some [11%Z])) {[0%Z := mkSlot 0 7]}]> ∅).
Definition ex_p0 : Published :=
  mkPublished (settled (0%Z : ExecutionResult) ex_changes) {[1%Z := mkAccountBasic 100 0 None]} 1.
Definition ex_ben : BeneficiaryAccount :=
  mkBeneficiary 77 (mkHistory None [mkEntryState 1 (Exact EffUnchanged)]).
Definition ex_idb : IncarnationDb :=
  mkIncarnationDb ∅ (p_snapshots ex_p0) (mkTxVersion 0 1) ∅ false.
Definition ex_mv : MVMemory := (publish_writes ex_ben ex_idb ex_changes false ∅).2.
Definition ex_reader : IncarnationDb := begin_incarnation (mkTxVersion 1 1) IncarnationDb_new.

Lemma ex_mv_rep : mv_rep ex_ben ex_mv [ex_p0] 1.
Proof.
  split; [done|]. intros [|j] p l Hj Hp; [|lia]. injection Hp as <-. unfold ex_mv.
  destruct (publish_writes ex_ben ex_idb ex_changes false ∅) as [ws mv] eqn:Hpw.
  destruct (publish_writes_spec _ _ _ _ _ _ _ Hpw) as [_ Hmv].
  cbn [snd]. rewrite Hmv. unfold p_written, ex_idb, ex_p0. cbn [account_snapshots p_snapshots p_result settled sr_state].
  destruct (written_value _ _ _ l) as [x|]; [done|]. unfold mv_entry. by rewrite lookup_empty.
Qed.

Lemma ex_journals_ok : journals_ok ex_ben (λ h, [h]) ex_w0 [ex_p0].
Proof.
  intros j p Hp. destruct j as [|j]; [|done]. injection Hp as <-. split; simpl; unfold ex_changes.
  - intros a b [<- <-]%lookup_singleton_Some. by eexists.
  - intros a account i [[<- <-]|[_ [[<- <-]|[_ []%lookup_empty_Some]]%lookup_insert_Some]]%lookup_insert_Some;
      intros [Hf|Hf]; vm_compute in Hf; simplify_eq; intros i' c [= <-]; simpl; naive_solver.
  - intros a account i [[<- <-]|[_ [[<- <-]|[_ []%lookup_empty_Some]]%lookup_insert_Some]]%lookup_insert_Some;
      intros [Hf|Hf]; vm_compute in Hf; by simplify_eq/=.
  - intros a account i j [[<- <-]|[_ [[<- <-]|[_ []%lookup_empty_Some]]%lookup_insert_Some]]%lookup_insert_Some;
      intros [Hf|Hf]; vm_compute in Hf; simplify_eq/=; try done; case_decide; intros; by simplify_eq/=.
  - done.
Qed.

Lemma ex_history_rep : history_rep ex_ben (λ h, [h]) ex_w0 (b_history ex_ben) [ex_p0] 1.
Proof.
  split_and!; simpl; [lia|constructor|by intros i c|].
  intros j p Hj Hp. replace j with 0 in * by lia. simplify_eq/=. by eexists.
Qed.

Lemma basic_reads_world_witness :
  ∃ v s' db', basic ex_ben ex_mv 5 ex_reader tt = Done (Ok v, s', db') ∧
    acct_eqv v (w_account (world_of ex_ben ex_w0 [ex_p0] 1) 5).
Proof.
  destruct (basic_reads_world ex_ben (λ h, [h]) ex_w0 ex_rep ex_mv [ex_p0] 1 0 5 ex_reader tt)
    as (r & s' & db' & Hb & _ & _ & Hv).
  - apply ex_mv_rep.
  - apply ex_journals_ok.
  - apply ex_history_rep.
  - lia.
  - reflexivity.
  - reflexivity.
  - exists (Some (mkInfo 10 1 11 (Some [11%Z]))), s', db'.
    assert (Hr : r = Ok (Some (mkInfo 10 1 11 (Some [11%Z])))).
    { vm_compute in Hb. by injection Hb. }
    subst r. split; [exact Hb|]. by apply Hv.
Defined.

Lemma storage_reads_world_witness :
  ∃ s' db', storage ex_mv 5 3 ex_reader tt = (Ok 0%Z, s', db') ∧
    0%Z = w_storage (world_of ex_ben ex_w0 [ex_p0] 1) 5 3.
Proof.
  eexists _, _. split; [vm_compute; reflexivity|].
  eapply (storage_reads_world ex_ben (λ h, [h]) ex_w0 ex_rep ex_mv [ex_p0] 1 0 5 3 ex_reader tt).
  - apply ex_mv_rep.
  - lia.
  - reflexivity.
  - reflexivity.
  - vm_compute. reflexivity.
  - reflexivity.
Defined.

End examples.
