(* ===== verification/Replay.v ===== *)
(** From valid reads to sequential execution (src/src/incarnation_db.rs).

    An execution of transaction [t] read memory, beneficiary history and database while other
    transactions were running. When its recorded reads are valid once the transactions before
    [t] are final, and no recorded read was overwritten by a later one, every answer it got is
    the answer of the block state after transactions [0 .. t-1]: [serial_run] is that sequential
    execution. *)

From S2P Require Import Prelude Model Reward History World IncarnationDb Access Snapshot.

Section sequential.
Context `{!Revm} {E : Type}.
Context (code_of : B256 → Bytecode) (w0 : World) (bh : Z → B256).

(** ** Sequential execution *)

(** An account with its code loaded. *)
Definition account_answer (w : World) (a : Address) (v : option AccountInfo) : Prop :=
  acct_eqv v (w_account w a) ∧
  ∀ i, v = Some i → is_empty_code_hash i = false → code i = Some (code_of (code_hash i)).

(** Code by hash is promised for the accounts of the block start. *)
Definition code_answer (h : B256) (c : Bytecode) : Prop :=
  ∀ a i, w_account w0 a = Some i → code_hash i = h → is_empty_code_hash i = false → c = code_of h.

(** The execution [m] over the world [w] alone: the accounts it reads, and its result. *)
Inductive serial_run (w : World) : Evm E → list Address → SpeculativeResult → Prop :=
| sq_done sr : serial_run w (EvmDone (Ok sr)) [] sr
| sq_basic a k v asked sr :
    account_answer w a v → serial_run w (k v) asked sr → serial_run w (EvmBasic a k) (a :: asked) sr
| sq_code h k c asked sr :
    code_answer h c → serial_run w (k c) asked sr → serial_run w (EvmCode h k) asked sr
| sq_storage a key k asked sr :
    serial_run w (k (w_storage w a key)) asked sr → serial_run w (EvmStorage a key k) asked sr
| sq_block_hash n k asked sr :
    serial_run w (k (bh n)) asked sr → serial_run w (EvmBlockHash n k) asked sr.

(** ** Oracles *)

(** A database that answers from the world [w], except for the given answers. *)
Definition override {A B} `{EqDecision A} (x : A) (y : B) (f : A → B) (z : A) : B :=
  if decide (z = x) then y else f z.

Definition world_oracle (w : World) : Oracle E :=
  mkOracle (λ a, Ok (without_code <$> w_account w a)) (λ h, Ok (code_of h)) (λ a k, Ok (w_storage w a k))
    (λ n, Ok (bh n)).

(** The answers of the oracle are those of the world [w]. *)
Record oracle_rep (o : Oracle E) (w : World) : Prop := {
  or_basic a v : o_basic o a = Ok v → acct_eqv v (w_account w a) ∧ code_ok code_of v;
  or_code h c : o_code o h = Ok c → code_answer h c;
  or_storage a k v : o_storage o a k = Ok v → v = w_storage w a k
}.

#[export] Instance oracle_view : DatabaseView (Oracle E) E code_of w0 oracle_rep.
Proof.
  split.
  - intros o w a r o' Ho [= <- <-]. split; [done|]. apply Ho.
  - intros o w h r o' Ho [= <- <-]. split; [done|]. intros c a i Hc. by apply (or_code _ _ Ho _ _ Hc).
  - intros o w a k r o' Ho [= <- <-]. split; [done|]. apply Ho.
  - by intros o w n r o' Ho [= <- <-].
Qed.

Lemma world_oracle_rep w : oracle_rep (world_oracle w) w.
Proof.
  split.
  - intros a v [= <-]. unfold code_ok. destruct (w_account w a) as [i|]; simpl.
    + split; [by constructor|]. intros j c [= <-]. done.
    + by split; [constructor|].
  - intros h c [= <-]. by intros a i.
  - by intros a k v [= <-].
Qed.

Definition answer_basic a r (o : Oracle E) : Oracle E :=
  mkOracle (override a r (o_basic o)) (o_code o) (o_storage o) (o_block_hash o).
Definition answer_code h r (o : Oracle E) : Oracle E :=
  mkOracle (o_basic o) (override h r (o_code o)) (o_storage o) (o_block_hash o).
Definition answer_storage a k r (o : Oracle E) : Oracle E :=
  mkOracle (o_basic o) (o_code o) (λ b, if decide (b = a) then override k r (o_storage o b) else o_storage o b)
    (o_block_hash o).

Lemma answer_basic_rep a r o w :
  (∀ v, r = Ok v → acct_eqv v (w_account w a) ∧ code_ok code_of v) → oracle_rep o w → oracle_rep (answer_basic a r o) w.
Proof.
  intros Hr [Hb Hc Hs]. split; try done. intros a' v. simpl. unfold override. case_decide; subst; auto.
Qed.

Lemma answer_code_rep h r o w :
  (∀ c, r = Ok c → code_answer h c) → oracle_rep o w → oracle_rep (answer_code h r o) w.
Proof.
  intros Hr [Hb Hc Hs]. split; try done. intros h' v. simpl. unfold override. case_decide; subst; auto.
Qed.

Lemma answer_storage_rep a k r o w :
  (∀ v, r = Ok v → v = w_storage w a k) → oracle_rep o w → oracle_rep (answer_storage a k r o) w.
Proof.
  intros Hr [Hb Hc Hs]. split; try done. intros a' k' v. simpl. unfold override. repeat case_decide; subst; auto.
Qed.

End sequential.

(** The first access of a program and the rest of the trace. *)
Ltac step_trace Hf rest :=
  let Hs := fresh "Hs" in
  inversion Hf as [|? ? ? rest ? Hs Hf']; subst; clear Hf; rename Hf' into Hf; inversion Hs; subst; clear Hs.

(** ** What every call keeps *)

Section keep.
Context `{!Revm} {E : Type}.
Context (ben : Address) (anchor : option AccountInfo) (size : nat).

(** The version stays, blockers are only added, and reads are recorded at [ls] only. *)
Definition keeps (ls : LocationAndType → bool) (s s1 : IncarnationDb) : Prop :=
  version s1 = version s ∧ blocking_txs s ⊆ blocking_txs s1 ∧
  ∀ l, ls l = false → read_set s1 !! l = read_set s !! l.

#[export] Instance keeps_preorder ls : PreOrder (keeps ls).
Proof.
  split; unfold keeps; [by intros s|]. intros s1 s2 s3 (? & ? & Hr) (? & ? & Hr').
  split_and!; [congruence|set_solver|]. intros l Hl. by rewrite Hr', Hr.
Qed.

Lemma keeps_note ls w e s : keeps ls s (note_entry w e s).
Proof. unfold keeps, note_entry. destruct (estimate e); [split_and!; [done|simpl; set_solver|done]|done]. Qed.

Lemma keeps_insert_read (ls : LocationAndType → bool) l v s s1 : ls l = true → keeps ls s s1 → keeps ls s (insert_read l v s1).
Proof.
  intros Hl (? & ? & Hr). split_and!; [done|done|]. intros l' Hl'. simpl. rewrite lookup_insert_ne; [auto|congruence].
Qed.

Lemma keeps_insert_snapshot ls a b s s1 : keeps ls s s1 → keeps ls s (insert_snapshot a b s1).
Proof. by intros [? ?]. Qed.

Lemma keeps_weaken (ls ls' : LocationAndType → bool) s s1 :
  (∀ l, ls l = true → ls' l = true) → keeps ls s s1 → keeps ls' s s1.
Proof.
  intros Hls (? & ? & Hr). split_and!; [done|done|]. intros l Hl. apply Hr. destruct (ls l) eqn:Hl'; [|done].
  by rewrite Hls in Hl.
Qed.

(** The locations of the account part and of the storage part of an address. *)
Definition account_of (a : Address) (l : LocationAndType) : bool :=
  match l with LBasic b | LCode b => bool_decide (a = b) | _ => false end.
Definition storage_of (a : Address) (l : LocationAndType) : bool :=
  match l with LStorage b _ | LStorageReset b => bool_decide (a = b) | _ => false end.

Hint Resolve keeps_note keeps_insert_read keeps_insert_snapshot bool_decide_eq_true_2 : core.

Lemma code_prog_keeps a h s tr r s1 :
  follows (code_by_address_prog (E:=E) a h s) tr (Ret (r, s1)) → keeps (account_of a) s s1.
Proof.
  intros Hf. step_trace Hf rest. destruct o as [[w [inc [] est]]|].
  all: try (apply follows_Ret in Hf as [_ [= -> ->]]; apply keeps_insert_read; simpl; by auto).
  all: step_trace Hf rest'; apply follows_Ret in Hf as [_ [= -> ->]]; destruct (is_ok r0); [|done].
  all: apply keeps_insert_read; simpl; by auto.
Qed.

Lemma account_prog_keeps a s tr r s1 :
  follows (basic_account_prog (E:=E) ben anchor size a s) tr (Ret (Done (r, s1))) → keeps (account_of a) s s1.
Proof.
  assert (Ha : account_of a (LBasic a) = true) by (simpl; auto).
  unfold basic_account_prog. intros Hf. case_bool_decide.
  - case_match; [|by apply follows_Ret in Hf as [_ ?]].
    apply follows_bind in Hf as (tr1 & tr2 & x & -> & _ & Hf). apply follows_Ret in Hf as [_ [= Hx]].
    symmetry in Hx. apply outcome_bind_Done in Hx as ([sc|b] & _ & [= <- <-]).
    + by apply keeps_insert_snapshot, keeps_insert_read.
    + split_and!; [done|simpl; set_solver|done].
  - step_trace Hf rest. destruct o as [[w [inc [] est]]|].
    all: try (apply follows_Ret in Hf as [_ [= -> ->]]; by auto).
    all: step_trace Hf rest'; apply follows_Ret in Hf as [_ [= -> ->]]; destruct r0; [|done].
    all: by apply keeps_insert_read, keeps_insert_snapshot.
Qed.

Lemma basic_prog_keeps a s tr r s1 :
  follows (basic_prog (E:=E) ben anchor size a s) tr (Ret (Done (r, s1))) → keeps (account_of a) s s1.
Proof.
  intros (tr1 & tr2 & [[x s2]|] & -> & Hf1 & Hf)%follows_bind; [|by apply follows_Ret in Hf as [_ ?]].
  apply account_prog_keeps in Hf1. etrans; [done|]. destruct x as [[i|]|e]; [|by apply follows_Ret in Hf as [_ [= -> ->]]..].
  destruct (negb _ && _); [|by apply follows_Ret in Hf as [_ [= -> ->]]].
  apply follows_bind in Hf as (tr3 & tr4 & [rc s3] & -> & Hf%code_prog_keeps & Hf3).
  by apply follows_Ret in Hf3 as [_ [= -> ->]].
Qed.

Lemma storage_prog_keeps a k s tr r s1 :
  follows (storage_prog (E:=E) a k s) tr (Ret (r, s1)) → keeps (storage_of a) s s1.
Proof.
  unfold storage_prog. intros Hf. step_trace Hf rest.
  destruct (match o with Some _ => _ | None => _ end) as [[reset rv] s2] eqn:Hreset.
  assert (H2 : keeps (storage_of a) s s2) by (destruct o as [[w [inc [] est]]|]; simplify_eq; auto; done).
  assert (H2' : keeps (storage_of a) s (insert_read (LStorageReset a) rv s2)) by (apply keeps_insert_read; simpl; auto).
  cbn zeta in Hf. step_trace Hf rest'.
  destruct (match o0 with Some _ => _ | None => _ end) as [[slot sv] s3] eqn:Hslot.
  assert (H3 : keeps (storage_of a) s s3).
  { etrans; [exact H2'|]. destruct o0 as [[w [inc [] est]]|]; simplify_eq; try done; apply keeps_note. }
  assert (H3' : keeps (storage_of a) s (insert_read (LStorage a k) sv s3)) by (apply keeps_insert_read; simpl; auto).
  cbn zeta in Hf. destruct slot as [[w x]|]; [destruct reset as [n|]; [destruct (n <=? w)|]|destruct reset as [n|]].
  all: try (apply follows_Ret in Hf as [_ [= -> ->]]; done).
  all: step_trace Hf rest''; apply follows_Ret in Hf as [_ [= -> ->]]; done.
Qed.

Lemma calls_keep P (m : Evm E) s tr sr s1 : calls ben anchor size P m s tr sr s1 → keeps (λ _, true) s s1.
Proof.
  induction 1 as [|? ? ? ? ? ? ? ? ? Hf|? ? ? ? ? ? ? ? ? Hf|? ? ? ? ? ? ? ? ? ? Hf|? ? ? ? ? ? ? ? ? Hf]; [done|etrans; [|done]..].
  - apply basic_prog_keeps in Hf. by eapply keeps_weaken.
  - step_trace Hf rest. by apply follows_Ret in Hf as [_ [= _ ->]].
  - apply storage_prog_keeps in Hf. by eapply keeps_weaken.
  - step_trace Hf rest. by apply follows_Ret in Hf as [_ [= _ ->]].
Qed.

(** ** Executions that overwrite no recorded read *)

Definition stable (s s1 : IncarnationDb) : Prop := read_set s ⊆ read_set s1.

#[export] Instance stable_preorder : PreOrder stable.
Proof. split; unfold stable; [by intros s|by intros s1 s2 s3 ? ?; etrans]. Qed.

(** The execution reads each account at most once, and at most one slot of each account. *)
Fixpoint reads_once (accs stores : gset Address) (m : Evm E) : Prop :=
  match m with
  | EvmDone _ => True
  | EvmBasic a k => (a ∉ accs) ∧ ∀ v, reads_once ({[a]} ∪ accs) stores (k v)
  | EvmCode _ k => ∀ c, reads_once accs stores (k c)
  | EvmStorage a _ k => (a ∉ stores) ∧ ∀ v, reads_once accs ({[a]} ∪ stores) (k v)
  | EvmBlockHash _ k => ∀ v, reads_once accs stores (k v)
  end.

(** Reads were recorded for these accounts only. *)
Definition recorded_in (accs stores : gset Address) (s : IncarnationDb) : Prop :=
  ∀ l v, read_set s !! l = Some v →
    match l with LBasic a | LCode a => a ∈ accs | LStorage a _ | LStorageReset a => a ∈ stores end.

Lemma keeps_recorded accs stores accs' stores' ls s s1 :
  keeps ls s s1 → recorded_in accs stores s → accs ⊆ accs' → stores ⊆ stores' →
  (∀ l, ls l = true → match l with
     | LBasic a | LCode a => a ∈ accs' ∧ a ∉ accs
     | LStorage a _ | LStorageReset a => a ∈ stores' ∧ a ∉ stores
     end) →
  stable s s1 ∧ recorded_in accs' stores' s1.
Proof.
  intros (_ & _ & Hr) Hrec Ha Hs Hls. split.
  - apply map_subseteq_spec. intros l v Hl. rewrite Hr; [done|]. apply Hrec in Hl as Hin.
    destruct (ls l) eqn:Hlt; [|done]. apply Hls in Hlt. by destruct l, Hlt.
  - intros l v Hl. destruct (ls l) eqn:Hlt; [apply Hls in Hlt; destruct l; by destruct Hlt|].
    rewrite Hr in Hl by done. apply Hrec in Hl. destruct l; set_solver.
Qed.

Lemma calls_once P (m : Evm E) s tr sr s1 accs stores :
  calls ben anchor size P m s tr sr s1 → reads_once accs stores m → recorded_in accs stores s →
  calls ben anchor size stable m s tr sr s1.
Proof.
  intros Hc. revert accs stores.
  induction Hc as [|a k s tr v s1 tr' sr s2 Hf _ _ IH|h k s tr c s1 tr' sr s2 Hf _ _ IH
    |a key k s tr v s1 tr' sr s2 Hf _ _ IH|n k s tr v s1 tr' sr s2 Hf _ _ IH]; intros accs stores Ho Hrec; simpl in Ho.
  - constructor.
  - destruct Ho as [Hn Ho].
    destruct (keeps_recorded accs stores ({[a]} ∪ accs) stores (account_of a) s s1) as [Hst Hrec']; [by eapply basic_prog_keeps|done|set_solver..| |].
    { intros [b|b k'|b|b]; simpl; try done; intros ->%bool_decide_eq_true; set_solver. }
    econstructor; eauto.
  - econstructor; [done| |by eapply IH; [apply Ho|]; step_trace Hf rest; apply follows_Ret in Hf as [_ [= _ ->]]].
    step_trace Hf rest. by apply follows_Ret in Hf as [_ [= _ ->]].
  - destruct Ho as [Hn Ho].
    destruct (keeps_recorded accs stores accs ({[a]} ∪ stores) (storage_of a) s s1) as [Hst Hrec']; [by eapply storage_prog_keeps|done|set_solver..| |].
    { intros [b|b k'|b|b]; simpl; try done; intros ->%bool_decide_eq_true; set_solver. }
    econstructor; eauto.
  - econstructor; [done| |by eapply IH; [apply Ho|]; step_trace Hf rest; apply follows_Ret in Hf as [_ [= _ ->]]].
    step_trace Hf rest. by apply follows_Ret in Hf as [_ [= _ ->]].
Qed.

End keep.

(** ** Reads that hold *)

Section replay.
Context `{!Revm} `{!RevmLaws} {E : Type}.
Context (code_of : B256 → Bytecode) (w0 : World) (bh : Z → B256).
Context (ben : BeneficiaryAccount) (mv : MVMemory) (ps : list Published) (t : TxId).
Abbreviation world := (world_of ben w0 ps).
Abbreviation history := (entries (b_history ben)).
Context (Hmv : mv_rep ben mv ps t) (Hh : history_rep ben code_of w0 (b_history ben) ps t)
  (Hok : journals_ok ben code_of w0 ps).

(** Data read during the execution is of the incarnation it is tagged with, and what the
    database answered is of a prefix of the block. *)
Definition agrees (ev : Event E) : Prop :=
  match ev with
  | EvMemory l (Some (w, e)) => w < t ∧ (∃ p, p_written ben p l = Some (data e)) ∧
      ∀ p, ps !! w = Some p → p_incarnation p = me_incarnation e → p_written ben p l = Some (data e)
  | EvHistory w (Some (mkEntryState i (Exact e))) =>
      ∀ p, ps !! w = Some p → p_incarnation p = i →
        from_execution (sr_deferred_reward (p_result p)) (sr_state (p_result p) !! b_address ben) = Done e
  | EvBasic a (Ok v) => (∃ c, c ≤ t ∧ acct_eqv v (w_account (world c) a)) ∧ code_ok code_of v
  | EvStorage a k (Ok v) => ∃ c, c ≤ t ∧ v = w_storage (world c) a k
  | EvCode h (Ok c) => code_answer code_of w0 h c
  | EvBlockHash n (Ok v) => v = bh n
  | _ => True
  end.

(** A recorded read is what a read returns now. *)
Definition read_holds (l : LocationAndType) (v : ReadVersion) : Prop :=
  match v with
  | RVBeneficiary expected => ∃ sc,
      scan_loop (block_anchor (b_history ben)) (λ w, history !! w) t [] [] = Done (Ok sc) ∧ scan_version sc = expected
  | MvMemory w => ∃ e, mv_latest mv l t = Some (txid w, e) ∧ me_incarnation e = tv_incarnation w
  | RVStorage => mv_latest mv l t = None
  end.

Definition reads_hold (rs : gmap LocationAndType ReadVersion) : Prop := ∀ l v, rs !! l = Some v → read_holds l v.

(** ** Memory and history answers *)

Lemma memory_answered l w e (o : Oracle E) :
  agrees (EvMemory l (Some (w, e))) → estimate e = false → read_holds l (MvMemory (mkTxVersion w (me_incarnation e))) →
  answered mv t history o (EvMemory l (Some (w, e))).
Proof.
  intros (_ & _ & Ha) He (e' & Hl & Hi). simpl in *. rewrite Hl.
  destruct (mv_latest_Some _ _ _ _ _ _ _ Hmv Hl) as (p & x & Hp & _ & Hx & -> & _). simpl in Hi.
  specialize (Ha p Hp Hi). rewrite Hx in Ha. destruct e as [i d est]. simpl in *. by simplify_eq.
Qed.

Lemma scan_prog_origins anchor n os rs tr sc :
  follows (scan_prog (E:=E) anchor n os rs) tr (Ret (Done (Ok sc))) → os `prefix_of` origins (scan_version sc).
Proof.
  revert os rs tr. induction n as [|w IH]; intros os rs tr Hf; simpl in Hf.
  { apply follows_Ret in Hf as [_ [= ->]]. done. }
  inversion Hf as [|? ev p1 tr0 p2 Hs Hf']; subst. inversion Hs; subst; clear Hs.
  destruct o as [[inc [|[|r|a]]]|].
  all: try (by apply follows_Ret in Hf' as [_ ?]).
  1,2: etrans; [|by eapply IH]; by apply prefix_app_r.
  apply follows_Ret in Hf' as [_ [= ->]]. simpl. by apply prefix_app_r.
Qed.

Lemma prefix_same {A} (l : list A) x y k : l ++ [x] `prefix_of` k → l ++ [y] `prefix_of` k → x = y.
Proof.
  intros [k1 ->] [k2 Hk]. rewrite <-!app_assoc in Hk. apply app_inv_head in Hk. by injection Hk.
Qed.

Lemma scan_loop_origins anchor o n os rs sc :
  scan_loop anchor o n os rs = Done (Ok sc) → os `prefix_of` origins (scan_version sc).
Proof.
  rewrite scan_loop_prepend. intros ([s|] & _ & [= <-])%outcome_bind_Done. simpl. by apply prefix_app_r.
Qed.

Lemma scan_answered anchor n os rs tr sc sc' (o : Oracle E) :
  n ≤ t → t ≤ length ps → follows (scan_prog anchor n os rs) tr (Ret (Done (Ok sc))) → Forall agrees tr →
  scan_loop anchor (λ w, history !! w) n os rs = Done (Ok sc') → scan_version sc' = scan_version sc →
  Forall (answered mv t history o) tr.
Proof.
  intros Hn Hlen. destruct Hh as (_ & _ & _ & He). revert os rs tr Hn.
  induction n as [|w IH]; intros os rs tr Hn Hf Hag Hl Hv; simpl in Hf, Hl.
  { by apply follows_Ret in Hf as [-> _]. }
  inversion Hf as [|? ev p1 tr0 p2 Hs Hf']; subst. inversion Hs; subst; clear Hs.
  apply Forall_cons in Hag as [Hev Hag].
  destruct (lookup_lt_is_Some_2 ps w) as [p Hp]; [lia|].
  destruct (He w p) as (e & Hw & Hexec); [lia|done|]. rewrite Hw in Hl.
  destruct o0 as [[inc [|e']]|]; [by apply follows_Ret in Hf' as [_ ?]| |by apply follows_Ret in Hf' as [_ ?]].
  assert (Hinc : mkTxVersion w inc = mkTxVersion w (p_incarnation p)).
  { apply (prefix_same os _ _ (origins (scan_version sc))).
    - destruct e' as [|r|a]; [by eapply scan_prog_origins..|]. by apply follows_Ret in Hf' as [_ [= ->]].
    - rewrite <-Hv. destruct e as [|r|a]; [by eapply scan_loop_origins..|]. by injection Hl as <-. }
  injection Hinc as ->. assert (e' = e) as -> by (specialize (Hev p Hp eq_refl); congruence).
  constructor; [done|]. destruct e as [|r|a]; [eapply IH; eauto; lia..|]. by apply follows_Ret in Hf' as [-> _].
Qed.

(** ** One call *)

Lemma written_basic p a x : p_written ben p (LBasic a) = Some x → ∃ v, x = MVBasic v.
Proof. unfold p_written, written_value. repeat case_match; intros; simplify_eq; eauto. Qed.

Lemma written_code p a x : p_written ben p (LCode a) = Some x → ∃ v, x = MVCode v.
Proof. unfold p_written, written_value. repeat case_match; intros; simplify_eq; eauto. Qed.

Lemma written_storage p a k x : p_written ben p (LStorage a k) = Some x → ∃ v, x = MVStorage v.
Proof.
  unfold p_written, written_value. repeat case_match; try done; intros (? & _ & (? & _ & [= <-])%bind_Some)%bind_Some; eauto.
Qed.

Lemma note_entry_blocks w e s : blocking_txs (note_entry w e s) = ∅ → estimate e = false.
Proof. unfold note_entry. destruct (estimate e); [|done]. simpl. set_solver. Qed.

Lemma reads_hold_insert l v (m : gmap LocationAndType ReadVersion) : reads_hold (<[l := v]> m) → read_holds l v.
Proof. intros Hm. apply Hm, lookup_insert_eq. Qed.

(** The part of a call that reads code. *)
Lemma code_call a h s tr c s1 :
  follows (code_by_address_prog a h s) tr (Ret (Ok c, s1)) → Forall agrees tr →
  reads_hold (read_set s1) → blocking_txs s1 = ∅ →
  (∃ v, read_set s1 = <[LCode a := v]> (read_set s)) ∧ blocking_txs s = ∅ ∧
  ∃ r, (∀ c, r = Ok c → code_answer code_of w0 h c) ∧
    ∀ o, o_code o h = r → Forall (answered mv t history o) tr.
Proof.
  intros Hf Hag Hrd Hbl. step_trace Hf rest. apply Forall_cons in Hag as [Hev Hag].
  destruct o as [[w [inc x est]]|].
  - pose proof Hev as (_ & (p & Hx) & _). apply written_code in Hx as [y Hy]. simpl in Hy. subst x.
    apply follows_Ret in Hf as [-> [= -> ->]]. simpl in Hrd, Hbl.
    assert (Hest := note_entry_blocks _ _ _ Hbl). unfold note_entry in *. simpl in *. subst est. simpl in *.
    split_and!; [eauto|done|]. exists (Ok (code_of h)). split; [by intros c' [= <-] a' i|].
    intros o _. constructor; [|done]. apply memory_answered; [done|done|]. by apply reads_hold_insert in Hrd.
  - step_trace Hf rest'. apply follows_Ret in Hf as [-> [= <- ->]]. simpl in *. apply Forall_cons in Hag as [Hc _].
    split_and!; [eauto|done|]. exists (Ok c). split; [by intros c' [= <-]|]. intros o Ho.
    repeat constructor; [|done]. by apply reads_hold_insert in Hrd.
Qed.

(** Where the value of an account came from. *)
Definition sourced (a : Address) (tr : list (Event E)) : Prop :=
  a = b_address ben ∨ (∃ v, EvBasic a (Ok v) ∈ tr) ∨
  ∃ w p, w < t ∧ ps !! w = Some p ∧ is_Some (sr_state (p_result p) !! a).

Lemma sourced_app_l a tr tr' : sourced a tr → sourced a (tr ++ tr').
Proof. intros [?|[[v ?]|?]]; [by left|right; left; exists v; by apply elem_of_app; left|by right; right]. Qed.

Lemma sourced_app_r a tr tr' : sourced a tr' → sourced a (tr ++ tr').
Proof. intros [?|[[v ?]|?]]; [by left|right; left; exists v; by apply elem_of_app; right|by right; right]. Qed.

Lemma latest_sourced a w e tr : mv_latest mv (LBasic a) t = Some (w, e) → sourced a tr.
Proof.
  intros Hl. destruct (mv_latest_Some _ _ _ _ _ _ _ Hmv Hl) as (p & x & Hp & Hw & Hx & _). right; right. exists w, p.
  split_and!; [done|done|]. unfold p_written, written_value in Hx. destruct (sr_state (p_result p) !! a); [eauto|].
  by destruct (matches ben a).
Qed.

(** The part that reads the account. *)
Lemma account_call a s tr v s1 :
  txid (version s) = t → t ≤ length ps →
  follows (basic_account_prog (b_address ben) (block_anchor (b_history ben)) (length history) a s) tr (Ret (Done (Ok v, s1))) →
  Forall agrees tr → (∀ x, read_set s1 !! LBasic a = Some x → read_holds (LBasic a) x) → blocking_txs s1 = ∅ →
  blocking_txs s = ∅ ∧ sourced a tr ∧
  ∃ r c, c ≤ t ∧ (∀ v, r = Ok v → acct_eqv v (w_account (world c) a) ∧ code_ok code_of v) ∧
    ∀ o, o_basic o a = r → Forall (answered mv t history o) tr.
Proof.
  intros Ht Hlen Hf Hag Hrd Hbl. unfold basic_account_prog in Hf. case_bool_decide as Ha.
  - case_match; [|by apply follows_Ret in Hf as [_ ?]].
    apply follows_bind in Hf as (tr1 & tr2 & x & -> & Hf1 & Hf2).
    apply follows_Ret in Hf2 as [-> Hx]. rewrite app_nil_r in *. injection Hx as Hx. symmetry in Hx.
    apply outcome_bind_Done in Hx as ([sc|b] & -> & [= <- <-]); simpl in *; [|set_solver].
    split_and!; [by destruct (br_account (resolve sc))|by left|].
    exists (o_basic (world_oracle code_of bh (world t)) a), t. split; [done|].
    split; [apply (world_oracle_rep (E:=E) code_of w0 bh (world t))|]. intros o _.
    destruct (Hrd (RVBeneficiary (br_version (resolve sc)))) as (sc' & Hsc & Hv).
    { by destruct (br_account (resolve sc)); simpl; rewrite lookup_insert_eq. }
    rewrite Ht in Hf1. by eapply scan_answered.
  - step_trace Hf rest. apply Forall_cons in Hag as [Hev Hag].
    destruct o as [[w [inc x est]]|].
    + pose proof Hev as (_ & (p & Hx) & _). apply written_basic in Hx as [y Hy]. simpl in Hy. subst x.
      apply follows_Ret in Hf as [-> [= -> ->]]. simpl in Hrd, Hbl.
      assert (Hest : est = false) by (by apply note_entry_blocks in Hbl).
      unfold note_entry in Hbl. simpl in Hbl. subst est. simpl in Hbl.
      assert (Hans : ∀ o, answered mv t history o (EvMemory (E:=E) (LBasic a) (Some (w, mkMemoryEntry inc (MVBasic y) false)))).
      { intros o. apply memory_answered; [done|done|]. apply Hrd. by rewrite lookup_insert_eq. }
      split_and!; [done|by eapply latest_sourced, (Hans (world_oracle code_of bh (world t)))|].
      exists (o_basic (world_oracle code_of bh (world t)) a), t. split; [done|].
      split; [apply (world_oracle_rep (E:=E) code_of w0 bh (world t))|]. intros o _. by constructor.
    + step_trace Hf rest'. apply Forall_cons in Hag as [Hb _]. apply follows_Ret in Hf as [-> [= <- ->]]. simpl in *.
      split_and!; [done|right; left; exists v; right; left|]. destruct Hb as [(c & Hc & Hv) Hco]. exists (Ok v), c. split_and!; [done|by intros v' [= <-]|].
      intros o Ho. repeat constructor; [|done]. apply (Hrd RVStorage). by rewrite lookup_insert_eq.
Qed.

Lemma AccountBasic_from_eqv i j : info_eqv i j → AccountBasic_from i = AccountBasic_from j.
Proof.
  intros (Hb & Hn & Hc). unfold AccountBasic_from. rewrite (is_empty_code_hash_hash i j Hc). by rewrite Hb, Hn, Hc.
Qed.

(** What a successful account read does to the snapshots. *)
Definition snapshot_of (a : Address) (v : option AccountInfo) (m : gmap Address AccountBasic) :=
  match v with Some i => <[a := AccountBasic_from i]> m | None => m end.

Lemma note_entry_snapshots w e s : account_snapshots (note_entry w e s) = account_snapshots s.
Proof. unfold note_entry. by destruct (estimate e). Qed.

Lemma basic_account_effects {DB} `{!DatabaseRef DB E} a s (db : DB) v s1 db' :
  basic_account ben mv a s db = Done (Ok v, s1, db') →
  account_snapshots s1 = snapshot_of a v (account_snapshots s).
Proof.
  unfold basic_account. destruct (matches ben a).
  - intros ([read|b] & _ & Heq)%outcome_bind_Done; simplify_eq; [|done]. by destruct (br_account read).
  - intros [= Heq]. destruct (mv_latest mv (LBasic a) _) as [[w [inc [o| | |] est]]|];
      try (destruct (basic_ref db a) as [[? | ?] ?]); simplify_eq/=; destruct v; simpl; by rewrite ?note_entry_snapshots.
Qed.

Lemma basic_effects {DB} `{!DatabaseRef DB E} a s (db : DB) v s1 db' :
  basic ben mv a s db = Done (Ok v, s1, db') →
  version s1 = version s ∧ account_snapshots s1 = snapshot_of a v (account_snapshots s).
Proof.
  unfold basic. intros ([[r s2] db2] & Hb & Hrest)%outcome_bind_Done.
  pose proof (basic_account_version _ _ _ _ _ _ _ _ Hb) as Hv.
  destruct r as [[i|]|e]; [|by simplify_eq; apply basic_account_effects in Hb|by simplify_eq].
  apply basic_account_effects in Hb.
  destruct (negb _ && _); [|by simplify_eq].
  unfold code_by_address in Hrest. rewrite <-Hv.
  assert (Hsame : ∀ c, snapshot_of a (Some (mkInfo (balance i) (nonce i) (code_hash i) (Some c))) (account_snapshots s) =
    account_snapshots s2) by (intros c; rewrite Hb; simpl; f_equal; by apply AccountBasic_from_eqv).
  destruct (mv_latest mv (LCode a) _) as [[w [inc [| | |] est]]|];
    try (destruct (code_by_hash_ref db2 _) as [[? | ?] ?]); simplify_eq.
  all: split; [simpl; by rewrite ?note_entry_version|rewrite Hsame; simpl; by rewrite ?note_entry_snapshots].
Qed.

Lemma basic_replay a s tr v s1 :
  txid (version s) = t → t ≤ length ps →
  follows (basic_prog (b_address ben) (block_anchor (b_history ben)) (length history) a s) tr (Ret (Done (Ok v, s1))) →
  Forall agrees tr → reads_hold (read_set s1) → blocking_txs s1 = ∅ →
  blocking_txs s = ∅ ∧ sourced a tr ∧ account_answer code_of (world t) a v ∧
  ∃ o : Oracle E, basic ben mv a s o = Done (Ok v, s1, o).
Proof.
  intros Ht Hlen Hf Hag Hrd Hbl.
  pose proof Hf as (tr1 & tr2 & x & -> & Hf1 & Hf2)%follows_bind.
  apply Forall_app in Hag as [Hag1 Hag2].
  destruct x as [[[u|e] s2]|]; [|by apply follows_Ret in Hf2 as [_ ?]..].
  assert (Hparts : blocking_txs s = ∅ ∧ sourced a tr1 ∧ ∃ o c, c ≤ t ∧ oracle_rep code_of w0 o (world c) ∧
    Forall (answered mv t history o) (tr1 ++ tr2)).
  { assert (Hacc : (∀ x, read_set s2 !! LBasic a = Some x → read_holds (LBasic a) x) → blocking_txs s2 = ∅ → tr2 = [] →
      blocking_txs s = ∅ ∧ sourced a tr1 ∧ ∃ o c, c ≤ t ∧ oracle_rep code_of w0 o (world c) ∧
      Forall (answered mv t history o) (tr1 ++ tr2)).
    { intros Hr Hb ->. rewrite app_nil_r.
      destruct (account_call _ _ _ _ _ Ht Hlen Hf1 Hag1 Hr Hb) as (? & ? & r & c & Hc & Hrep & Hans).
      split_and!; [done..|]. exists (answer_basic a r (world_oracle code_of bh (world c))), c.
      split_and!; [done|by apply answer_basic_rep, world_oracle_rep|]. apply Hans. simpl. unfold override. by rewrite decide_True. }
    destruct u as [i|]; [|apply follows_Ret in Hf2 as [-> [= -> ->]]; auto].
    destruct (negb _ && _); [|apply follows_Ret in Hf2 as [-> [= -> ->]]; auto].
    apply follows_bind in Hf2 as (tr3 & tr4 & [[cd|e] s3] & -> & Hf2 & Hf3); [|by apply follows_Ret in Hf3 as [_ ?]].
    apply follows_Ret in Hf3 as [-> [= -> ->]]. rewrite app_nil_r in *.
    destruct (code_call _ _ _ _ _ _ Hf2 Hag2 Hrd Hbl) as ([x Hx] & Hb & rc & Hrc & Hanc).
    destruct (account_call _ _ _ _ _ Ht Hlen Hf1 Hag1) as (? & ? & r & c & Hc & Hrep & Hans); [|done|].
    { intros y Hy. apply Hrd. rewrite Hx. by rewrite lookup_insert_ne. }
    split_and!; [done..|].
    exists (answer_code (code_hash i) rc (answer_basic a r (world_oracle code_of bh (world c)))), c.
    split_and!; [done|by apply answer_code_rep, answer_basic_rep, world_oracle_rep|]. apply Forall_app. split.
    - apply Hans. simpl. unfold override. by rewrite decide_True.
    - apply Hanc. simpl. unfold override. by rewrite decide_True. }
  destruct Hparts as (? & Hsrc & o & c & Hc & Hrep & Hall). split; [done|]. split; [by apply sourced_app_l|].
  apply (follows_run _ _ _ _ _ _ _ Hf) in Hall as Hrun. rewrite <-Ht, run_basic in Hrun.
  destruct (basic ben mv a s o) as [[[r s'] o']|] eqn:Hb; [|done]. injection Hrun as -> -> ->.
  split; [|by exists o].
  destruct (basic_world ben code_of w0 (oracle_rep code_of w0) mv ps t c a s o) as (r & s' & o' & Hb' & _ & _ & Hv); try done.
  rewrite Hb in Hb'. injection Hb' as <- <- <-. by apply Hv.
Qed.

Lemma storage_effects {DB} `{!DatabaseRef DB E} a k s (db : DB) r s1 db' :
  storage mv a k s db = (r, s1, db') → version s1 = version s ∧ account_snapshots s1 = account_snapshots s.
Proof.
  unfold storage. intros Hs.
  destruct (mv_latest mv (LStorageReset a) _) as [[jr [ir [| | |] er]]|];
  destruct (mv_latest mv (LStorage a k) _) as [[j [inc [| | |] est]]|]; simpl in Hs;
  repeat case_match; simplify_eq/=; rewrite ?note_entry_version, ?note_entry_snapshots; simpl; rewrite ?note_entry_version, ?note_entry_snapshots; done.
Qed.

(** The database is asked at most once, for this slot. *)
Lemma storage_call a k s tr v s1 :
  follows (storage_prog a k s) tr (Ret (Ok v, s1)) → Forall agrees tr → reads_hold (read_set s1) → blocking_txs s1 = ∅ →
  blocking_txs s = ∅ ∧ ∃ o c, c ≤ t ∧ oracle_rep code_of w0 o (world c) ∧ Forall (answered mv t history o) tr.
Proof.
  intros Hf Hag Hrd Hbl. unfold storage_prog in Hf. step_trace Hf rest. apply Forall_cons in Hag as [Hev Hag].
  destruct (match o with Some _ => _ | None => _ end) as [[reset rv] s2] eqn:Hreset.
  assert (Hpart : blocking_txs s2 = ∅ → blocking_txs s = ∅ ∧
    (read_holds (LStorageReset a) rv → ∀ orc, answered mv t history orc (EvMemory (E:=E) (LStorageReset a) o))).
  { destruct o as [[w [inc x est]]|].
    - pose proof Hev as (_ & (p & Hx) & _). apply reset_value in Hx. simpl in Hx. subst x. simplify_eq. intros Hb.
      assert (Hest := note_entry_blocks _ _ _ Hb). simpl in Hest. subst est. split; [done|]. intros Hr orc.
      by apply memory_answered.
    - simplify_eq. done. }
  clear Hreset. cbn zeta in Hf. step_trace Hf rest'. apply Forall_cons in Hag as [Hev' Hag].
  destruct (match o0 with Some _ => _ | None => _ end) as [[slot sv] s3] eqn:Hslot.
  assert (Hpart' : blocking_txs s3 = ∅ → blocking_txs s2 = ∅ ∧ read_set s3 = <[LStorageReset a := rv]> (read_set s2) ∧
    (read_holds (LStorage a k) sv → ∀ orc, answered mv t history orc (EvMemory (E:=E) (LStorage a k) o0))).
  { destruct o0 as [[w [inc x est]]|].
    - pose proof Hev' as (_ & (p & Hx) & _). apply written_storage in Hx as [y Hx]. simpl in Hx. subst x. simplify_eq. intros Hb.
      assert (Hest := note_entry_blocks _ _ _ Hb). simpl in Hest. subst est. split_and!; [done|done|]. intros Hr orc.
      by apply memory_answered.
    - simplify_eq. done. }
  clear Hslot. cbn zeta in Hf.
  assert (Hend : s1 = insert_read (LStorage a k) sv s3 ∧ (rest' = [] ∨ rest' = [EvStorage a k (Ok v)])).
  { destruct slot as [[w x]|]; [destruct reset as [r|]; [destruct (r <=? w)|]|destruct reset as [r|]].
    all: try (apply follows_Ret in Hf as [-> [= -> ->]]; auto).
    all: step_trace Hf rest''; apply follows_Ret in Hf as [-> [= <- ->]]; auto. }
  destruct Hend as [-> Htr]. simpl in Hrd, Hbl. destruct (Hpart' Hbl) as (Hbl2 & Hrs & Hans').
  destruct (Hpart Hbl2) as (Hbl0 & Hans). split; [done|]. rewrite Hrs in Hrd.
  assert (Hr1 : read_holds (LStorageReset a) rv) by (apply Hrd; by rewrite lookup_insert_ne, lookup_insert_eq).
  assert (Hr2 : read_holds (LStorage a k) sv) by (by apply reads_hold_insert in Hrd).
  destruct Htr as [->| ->].
  - exists (world_oracle code_of bh (world t)), t. split_and!; [done|apply world_oracle_rep|]. repeat constructor; auto.
  - apply Forall_cons in Hag as [(c & Hc & Hv) _].
    exists (answer_storage a k (Ok v) (world_oracle code_of bh (world c))), c.
    split_and!; [done|apply answer_storage_rep, world_oracle_rep; by intros v' [= <-]|].
    repeat constructor; auto. simpl. unfold override. by rewrite !decide_True.
Qed.

Lemma storage_replay a k s tr v s1 :
  txid (version s) = t → follows (storage_prog a k s) tr (Ret (Ok v, s1)) →
  Forall agrees tr → reads_hold (read_set s1) → blocking_txs s1 = ∅ →
  blocking_txs s = ∅ ∧ v = w_storage (world t) a k ∧ ∃ o : Oracle E, storage mv a k s o = (Ok v, s1, o).
Proof.
  intros Ht Hf Hag Hrd Hbl.
  destruct (storage_call _ _ _ _ _ _ Hf Hag Hrd Hbl) as (? & o & c & Hc & Hrep & Hall). split; [done|].
  apply (follows_run _ _ _ _ _ _ _ Hf) in Hall as Hrun. rewrite <-Ht, run_storage in Hrun.
  destruct (storage mv a k s o) as [[r s'] o'] eqn:Hb. injection Hrun as -> -> ->.
  split; [|by exists o].
  destruct (storage_world ben code_of w0 (oracle_rep code_of w0) mv ps t c a k s o (Ok v) s1 o) as (_ & _ & _ & Hv); try done.
  by apply Hv.
Qed.

(** ** A whole execution *)

(** The account values read so far are those of the world. *)
Definition snapshots_hold (s : IncarnationDb) : Prop :=
  ∀ a b, account_snapshots s !! a = Some b → ∃ i, w_account (world t) a = Some i ∧ b = AccountBasic_from i.

Lemma snapshots_hold_read s s1 a v :
  snapshots_hold s → account_answer code_of (world t) a v →
  account_snapshots s1 = snapshot_of a v (account_snapshots s) → snapshots_hold s1.
Proof.
  intros Hs [Hv _] Heq a' b. rewrite Heq. destruct v as [i|]; [|apply Hs]. simpl.
  intros [[<- <-]|[_ ?]]%lookup_insert_Some; [|by apply Hs].
  inversion Hv as [? j Hij|]; subst. exists j. split; [done|]. by apply AccountBasic_from_eqv.
Qed.

(** An execution whose recorded reads hold, none of them overwritten, is sequential. *)
Lemma calls_replay m s tr sr s1 :
  calls (b_address ben) (block_anchor (b_history ben)) (length history) stable m s tr sr s1 →
  t ≤ length ps → txid (version s) = t → Forall agrees tr → reads_hold (read_set s1) → blocking_txs s1 = ∅ →
  snapshots_hold s →
  blocking_txs s = ∅ ∧ snapshots_hold s1 ∧
  ∃ asked, serial_run code_of w0 bh (world t) m asked sr ∧ Forall (λ a, sourced a tr) asked.
Proof.
  intros Hcalls Hlen. induction Hcalls as [sr s|a k s tr v s1 tr' sr s2 Hf Hst Hc IH|h k s tr c s1 tr' sr s2 Hf Hst Hc IH
    |a key k s tr v s1 tr' sr s2 Hf Hst Hc IH|n k s tr v s1 tr' sr s2 Hf Hst Hc IH]; intros Ht Hag Hrd Hbl Hsn.
  { split_and!; [done|done|]. exists []. split; constructor. }
  all: assert (Hrd1 : reads_hold (read_set s1))
    by (intros l x Hx; apply Hrd; eapply lookup_weaken; [done|]; by apply (calls_inv _ _ _ _ _ _ _ _ _ Hc)).
  all: apply Forall_app in Hag as [Hag1 Hag2].
  all: pose proof (calls_keep _ _ _ _ _ _ _ _ _ Hc) as (Hv2 & Hb2 & _).
  all: assert (Hbl1 : blocking_txs s1 = ∅) by set_solver.
  - destruct (basic_replay _ _ _ _ _ Ht Hlen Hf Hag1 Hrd1 Hbl1) as (Hb & Hsrc & Hans & o & Hrun).
    destruct (basic_effects _ _ _ _ _ _ Hrun) as [Hv1 Hsn1].
    destruct IH as (_ & Hsn2 & asked & Hrun2 & Hasked); [congruence|done|done|done|by eapply snapshots_hold_read|].
    split_and!; [done|done|]. exists (a :: asked). split; [by econstructor|]. constructor.
    + by eapply sourced_app_l.
    + eapply Forall_impl; [done|]. intros. by apply sourced_app_r.
  - step_trace Hf rest. apply follows_Ret in Hf as [-> [= <- ->]]. apply Forall_cons in Hag1 as [Hev _].
    destruct IH as (_ & Hsn2 & asked & Hrun2 & Hasked); [done..|].
    split_and!; [done|done|]. exists asked. split; [by econstructor|].
    eapply Forall_impl; [done|]. intros. by apply (sourced_app_r _ [_]).
  - destruct (storage_replay _ _ _ _ _ _ Ht Hf Hag1 Hrd1 Hbl1) as (Hb & -> & o & Hrun).
    destruct (storage_effects _ _ _ _ _ _ _ Hrun) as [Hv1 Hsn1].
    destruct IH as (_ & Hsn2 & asked & Hrun2 & Hasked); [congruence|done|done|done| |].
    { intros a' b. rewrite Hsn1. apply Hsn. }
    split_and!; [done|done|]. exists asked. split; [by econstructor|].
    eapply Forall_impl; [done|]. intros. by apply sourced_app_r.
  - step_trace Hf rest. apply follows_Ret in Hf as [-> [= <- ->]]. apply Forall_cons in Hag1 as [Hev _]. simpl in Hev. subst v.
    destruct IH as (_ & Hsn2 & asked & Hrun2 & Hasked); [done..|].
    split_and!; [done|done|]. exists asked. split; [by econstructor|].
    eapply Forall_impl; [done|]. intros. by apply (sourced_app_r _ [_]).
Qed.

End replay.
