(* ===== verification/ParallelState.v ===== *)
(** The block state cache and its commit path: src/src/parallel_state.rs.

    [ParallelState] keeps cached accounts, storage slots, contracts and block hashes over a
    backing database, and the transitions collected by commits. Workers share its cache through
    [ParallelStateView]; a view is the state itself here, and an operation through the view
    returns the state with its interior maps updated. *)

From S2P Require Import Prelude Model Reward World.

(** ** revm's database types *)

(** revm-database's [AccountStatus]. *)
Inductive AccountStatus :=
| LoadedNotExisting | Loaded | LoadedEmptyEIP161 | InMemoryChange | Changed
| Destroyed | DestroyedChanged | DestroyedAgain.

#[export] Instance AccountStatus_eq_dec : EqDecision AccountStatus.
Proof. solve_decision. Defined.

(** revm-database's [TransitionAccount]; its storage maps a slot to its original and present
    value. *)
Record TransitionAccount := mkTransition {
  ta_info : option AccountInfo;
  ta_status : AccountStatus;
  ta_previous_info : option AccountInfo;
  ta_previous_status : AccountStatus;
  ta_storage : gmap U256 EvmStorageSlot;
  ta_storage_was_destroyed : bool
}.

(** The functions of revm-database the crate calls: the status machine, and the aggregation
    of transitions. *)
Class RevmDb := {
  BundleAccount : Type;
  AccountRevert : Type;
  on_changed : AccountStatus → bool → AccountStatus;
  on_selfdestructed : AccountStatus → AccountStatus;
  on_created : AccountStatus → AccountStatus;
  on_touched_empty_post_eip161 : AccountStatus → AccountStatus;
  is_storage_known : AccountStatus → bool;
  add_transitions : gmap Address TransitionAccount → list (Address * TransitionAccount) →
    gmap Address TransitionAccount
}.

(** revm-database's [BundleState]: the fields the crate updates. *)
Record BundleState `{RevmDb} := mkBundleState {
  bs_state : gmap Address BundleAccount;
  bs_contracts : gmap B256 Bytecode;
  bs_reverts : list (list (Address * AccountRevert));
  bs_state_size : nat;
  bs_reverts_size : nat
}.
Arguments mkBundleState {_}.

Definition BundleState_default `{RevmDb} : BundleState := mkBundleState ∅ ∅ [] 0 0.

Section cache.
Context `{Revm} `{RevmDb}.

(** ** Cached accounts *)

Record CacheAccountInfo := mkCacheAccountInfo {
  account : option AccountInfo;
  cai_status : AccountStatus
}.

(** [account_info_change], the common body of balance updates. *)
Definition account_info_change {T} (change : AccountInfo → T * AccountInfo) (c : CacheAccountInfo) :
    T * TransitionAccount * CacheAccountInfo :=
  let previous_status := cai_status c in
  let previous_info := account c in
  let '(output, info) := change (default info_default (account c)) in
  let had_no_nonce_and_code := default false (has_no_code_and_nonce <$> previous_info) in
  let status := on_changed (cai_status c) had_no_nonce_and_code in
  (output, mkTransition (Some info) status previous_info previous_status ∅ false,
   mkCacheAccountInfo (Some info) status).

Definition set_balance (b : U256) (i : AccountInfo) : AccountInfo :=
  mkInfo b (nonce i) (code_hash i) (code i).

Definition increment_balance (b : Z) (c : CacheAccountInfo) :
    option TransitionAccount * CacheAccountInfo :=
  if decide (b = 0%Z) then (None, c)
  else
    let '(_, transition, c) :=
      account_info_change (λ i, (tt, set_balance (saturating_add U256_MAX (balance i) b) i)) c in
    (Some transition, c).

(** The drained amount is converted to 128 bits; the conversion panics when it does not fit. *)
Definition drain_balance (c : CacheAccountInfo) : outcome (Z * TransitionAccount * CacheAccountInfo) :=
  let '(output, transition, c) := account_info_change (λ i, (balance i, set_balance 0 i)) c in
  let! _ := assert_that (bool_decide (output ≤ U128_MAX)%Z) in
  Done (output, transition, c).

Definition selfdestruct (c : CacheAccountInfo) : option TransitionAccount * CacheAccountInfo :=
  let previous_info := account c in
  let previous_status := cai_status c in
  let status := on_selfdestructed (cai_status c) in
  (if decide (previous_status = LoadedNotExisting) then None
   else Some (mkTransition None status previous_info previous_status ∅ true),
   mkCacheAccountInfo None status).

Definition newly_created (new_info : AccountInfo) (new_storage : gmap U256 EvmStorageSlot)
    (c : CacheAccountInfo) : TransitionAccount * gmap U256 U256 * CacheAccountInfo :=
  let previous_info := account c in
  let previous_status := cai_status c in
  let new_bundle_storage := present_value <$> new_storage in
  let status := on_created (cai_status c) in
  (mkTransition (Some new_info) status previous_info previous_status new_storage false,
   new_bundle_storage, mkCacheAccountInfo (Some new_info) status).

Definition touch_empty_eip161 (c : CacheAccountInfo) : option TransitionAccount * CacheAccountInfo :=
  let previous_info := account c in
  let previous_status := cai_status c in
  let status := on_touched_empty_post_eip161 (cai_status c) in
  (if decide (previous_status ∈ [LoadedNotExisting; Destroyed; DestroyedAgain]) then None
   else Some (mkTransition None status previous_info previous_status ∅ true),
   mkCacheAccountInfo None status).

Definition change (new : AccountInfo) (st : gmap U256 EvmStorageSlot) (c : CacheAccountInfo) :
    TransitionAccount * gmap U256 U256 * CacheAccountInfo :=
  let previous_info := account c in
  let previous_status := cai_status c in
  let new_bundle_storage := present_value <$> st in
  let had_no_nonce_and_code := default false (has_no_code_and_nonce <$> previous_info) in
  let status := on_changed (cai_status c) had_no_nonce_and_code in
  (mkTransition (Some new) status previous_info previous_status st false,
   new_bundle_storage, mkCacheAccountInfo (Some new) status).

(** ** The cache *)

Record ParallelCacheState := mkCache {
  accounts : gmap Address CacheAccountInfo;
  cstorage : gmap Address (gmap U256 U256);
  contracts : gmap B256 Bytecode
}.

Definition ParallelCacheState_new : ParallelCacheState := mkCache ∅ ∅ ∅.

Definition set_account (a : Address) (c : CacheAccountInfo) (s : ParallelCacheState) :=
  mkCache (<[a := c]> (accounts s)) (cstorage s) (contracts s).
Definition remove_storage (a : Address) (s : ParallelCacheState) :=
  mkCache (accounts s) (delete a (cstorage s)) (contracts s).

(** Add slots to the cached storage of an address, creating it when it is vacant. *)
Definition update_storage_slot (a : Address) (slots : gmap U256 U256) (s : ParallelCacheState) :=
  mkCache (accounts s) (<[a := slots ∪ default ∅ (cstorage s !! a)]> (cstorage s)) (contracts s).

Definition insert_not_existing (a : Address) (s : ParallelCacheState) :=
  set_account a (mkCacheAccountInfo None LoadedNotExisting) s.

Definition insert_account (a : Address) (i : AccountInfo) (s : ParallelCacheState) :=
  set_account a
    (if negb (info_is_empty i) then mkCacheAccountInfo (Some i) Loaded
     else mkCacheAccountInfo (Some info_default) LoadedEmptyEIP161) s.

Definition insert_account_with_storage (a : Address) (i : AccountInfo) (slots : gmap U256 U256)
    (s : ParallelCacheState) :=
  insert_account a i (update_storage_slot a slots s).

(** [self.contracts.entry(hash).or_insert_with(|| code.unwrap())]. *)
Definition insert_contract (i : AccountInfo) (s : ParallelCacheState) : outcome ParallelCacheState :=
  match contracts s !! code_hash i, code i with
  | Some _, _ => Done s
  | None, Some c => Done (mkCache (accounts s) (cstorage s) (<[code_hash i := c]> (contracts s)))
  | None, None => Panic
  end.

(** [get_account_mut]: every account of a commit is cached. *)
Definition get_account_mut (a : Address) (s : ParallelCacheState) : outcome CacheAccountInfo :=
  match accounts s !! a with Some c => Done c | None => Panic end.

Definition apply_account_state (a : Address) (acc : Account) (s : ParallelCacheState) :
    outcome (option TransitionAccount * ParallelCacheState) :=
  if negb (is_touched acc) then Done (None, s)
  else
    let changed_storage := changed_storage_slots acc in
    let finish transition (changed_slots : option (gmap U256 U256)) s :=
      Done (transition,
        match changed_slots with
        | Some slots => if decide (slots = ∅) then s else update_storage_slot a slots s
        | None => s
        end) in
    if is_selfdestructed acc then
      let s := remove_storage a s in
      let! c := get_account_mut a s in
      let '(transition, c) := selfdestruct c in
      Done (transition, set_account a c s)
    else if is_created acc then
      let s := remove_storage a s in
      let! c := get_account_mut a s in
      let '(transition, changed_slots, c) := newly_created (acc_info acc) changed_storage c in
      let! s := insert_contract (acc_info acc) (set_account a c s) in
      finish (Some transition) (Some changed_slots) s
    else if is_empty acc then
      let s := remove_storage a s in
      let! c := get_account_mut a s in
      let '(transition, c) := touch_empty_eip161 c in
      finish transition None (set_account a c s)
    else
      let! c := get_account_mut a s in
      let '(transition, changed_slots, c) := change (acc_info acc) changed_storage c in
      finish (Some transition) (Some changed_slots) (set_account a c s).

(** The loop of [apply_evm_state], over the accounts in iteration order. *)
Fixpoint apply_accounts (l : list (Address * Account)) (s : ParallelCacheState) :
    outcome (list (Address * TransitionAccount) * ParallelCacheState) :=
  match l with
  | [] => Done ([], s)
  | (a, acc) :: l =>
    let! (transition, s) := apply_account_state a acc s in
    let! (transitions, s) := apply_accounts l s in
    Done (match transition with Some t => (a, t) :: transitions | None => transitions end, s)
  end.

Definition apply_evm_state (evm_state : EvmState) (s : ParallelCacheState) :=
  apply_accounts (map_to_list evm_state) s.

(** ** The state *)

Record ParallelState (DB : Type) := mkParallelState {
  cache : ParallelCacheState;
  database : DB;
  transition_state : option (gmap Address TransitionAccount);
  bundle_state : BundleState;
  block_hashes : gmap Z B256
}.
Arguments mkParallelState {DB}.
Arguments cache {DB}.
Arguments database {DB}.
Arguments transition_state {DB}.
Arguments bundle_state {DB}.
Arguments block_hashes {DB}.

Definition ParallelState_new {DB} (db : DB) (with_bundle_update : bool) : ParallelState DB :=
  mkParallelState ParallelCacheState_new db (if with_bundle_update then Some ∅ else None)
    BundleState_default ∅.

(** [apply_transition], and the aggregation step of every commit. *)
Definition apply_transition {DB} (ts : list (Address * TransitionAccount)) (s : ParallelState DB) :=
  mkParallelState (cache s) (database s) ((λ t, add_transitions t ts) <$> transition_state s)
    (bundle_state s) (block_hashes s).

Definition set_cache {DB} (c : ParallelCacheState) (s : ParallelState DB) :=
  mkParallelState c (database s) (transition_state s) (bundle_state s) (block_hashes s).
Definition set_database {DB} (db : DB) (s : ParallelState DB) :=
  mkParallelState (cache s) db (transition_state s) (bundle_state s) (block_hashes s).

(** [DatabaseCommit::commit], for [ParallelState] and for the ordered-commit view alike. *)
Definition commit {DB} (evm_state : EvmState) (s : ParallelState DB) : outcome (ParallelState DB) :=
  let! (ts, c) := apply_evm_state evm_state (cache s) in
  Done (apply_transition ts (set_cache c s)).

Context {DB E : Type} `{DatabaseRef DB E}.

(** The cache entry made for a freshly loaded account. *)
Definition loaded_account (v : option AccountInfo) : CacheAccountInfo :=
  match v with
  | None => mkCacheAccountInfo None LoadedNotExisting
  | Some i =>
    if info_is_empty i then mkCacheAccountInfo (Some info_default) LoadedEmptyEIP161
    else mkCacheAccountInfo (Some i) Loaded
  end.

(** [load_mut_cache_account]: the cached account, loaded on a miss. *)
Definition load_mut_cache_account (a : Address) (s : ParallelState DB) :
    result E CacheAccountInfo * ParallelState DB :=
  match accounts (cache s) !! a with
  | Some c => (Ok c, s)
  | None =>
    let '(r, db) := basic_ref (database s) a in
    let s := set_database db s in
    match r with
    | Ok v =>
      let c := loaded_account v in
      (Ok c, set_cache (set_account a c (cache s)) s)
    | Err e => (Err e, s)
    end
  end.

(** [db_basic] makes the same cache entry and returns its account. *)
Definition db_basic (s : ParallelState DB) (a : Address) :
    result E (option AccountInfo) * ParallelState DB :=
  let '(r, s) := load_mut_cache_account a s in (result_map account r, s).

Definition db_code_by_hash (s : ParallelState DB) (hash : B256) :
    result E Bytecode * ParallelState DB :=
  match contracts (cache s) !! hash with
  | Some c => (Ok c, s)
  | None =>
    let '(r, db) := code_by_hash_ref (database s) hash in
    let s := set_database db s in
    match r with
    | Ok c =>
      (Ok c, set_cache (mkCache (accounts (cache s)) (cstorage (cache s))
                          (<[hash := c]> (contracts (cache s)))) s)
    | Err e => (Err e, s)
    end
  end.

Definition db_storage (s : ParallelState DB) (a : Address) (k : U256) :
    result E U256 * ParallelState DB :=
  match default ∅ (cstorage (cache s) !! a) !! k with
  | Some v => (Ok v, s)
  | None =>
    let storage_known :=
      match accounts (cache s) !! a with
      | Some c => is_storage_known (cai_status c) || bool_decide (account c = None)
      | None => false
      end in
    let '(r, s) :=
      if storage_known then (Ok 0%Z, s)
      else let '(r, db) := storage_ref (database s) a k in (r, set_database db s) in
    match r with
    | Ok v => (Ok v, set_cache (update_storage_slot a {[k := v]} (cache s)) s)
    | Err e => (Err e, s)
    end
  end.

Definition db_block_hash (s : ParallelState DB) (number : Z) : result E B256 * ParallelState DB :=
  match block_hashes s !! number with
  | Some h => (Ok h, s)
  | None =>
    let '(r, db) := block_hash_ref (database s) number in
    let s := set_database db s in
    match r with
    | Ok h =>
      (Ok h, mkParallelState (cache s) (database s) (transition_state s) (bundle_state s)
               (<[number := h]> (block_hashes s)))
    | Err e => (Err e, s)
    end
  end.

#[export] Instance ParallelState_DatabaseRef : DatabaseRef (ParallelState DB) E := {|
  basic_ref := db_basic;
  code_by_hash_ref := db_code_by_hash;
  storage_ref := db_storage;
  block_hash_ref := db_block_hash
|}.

(** [increment_balance_transitions]: zero increments are skipped. *)
Fixpoint increment_balance_transitions (balances : list (Address * Z)) (s : ParallelState DB) :
    result E (list (Address * TransitionAccount)) * ParallelState DB :=
  match balances with
  | [] => (Ok [], s)
  | (a, b) :: balances =>
    if decide (b = 0%Z) then increment_balance_transitions balances s
    else
      match load_mut_cache_account a s with
      | (Err e, s) => (Err e, s)
      | (Ok c, s) =>
        let '(transition, c) := increment_balance b c in
        let s := set_cache (set_account a c (cache s)) s in
        let '(r, s) := increment_balance_transitions balances s in
        (result_map (λ ts, match transition with Some t => (a, t) :: ts | None => ts end) r, s)
      end
  end.

Definition increment_balances (balances : list (Address * Z)) (s : ParallelState DB) :
    result E unit * ParallelState DB :=
  match increment_balance_transitions balances s with
  | (Ok ts, s) => (Ok tt, apply_transition ts s)
  | (Err e, s) => (Err e, s)
  end.

(** The loop of [drain_balances]. *)
Fixpoint drain_loop (addresses : list Address) (s : ParallelState DB) :
    outcome (result E (list Z * list (Address * TransitionAccount)) * ParallelState DB) :=
  match addresses with
  | [] => Done (Ok ([], []), s)
  | a :: addresses =>
    match load_mut_cache_account a s with
    | (Err e, s) => Done (Err e, s)
    | (Ok c, s) =>
      let! (b, t, c) := drain_balance c in
      let s := set_cache (set_account a c (cache s)) s in
      let! (r, s) := drain_loop addresses s in
      Done (result_map (λ '(bs, ts), (b :: bs, (a, t) :: ts)) r, s)
    end
  end.

Definition drain_balances (addresses : list Address) (s : ParallelState DB) :
    outcome (result E (list Z) * ParallelState DB) :=
  let! (r, s) := drain_loop addresses s in
  Done (match r with
        | Ok (bs, ts) => (Ok bs, apply_transition ts s)
        | Err e => (Err e, s)
        end).

End cache.

Arguments ParallelState {_}.
Arguments mkParallelState {_ DB}.
Arguments cache {_ DB}.
Arguments database {_ DB}.
Arguments transition_state {_ DB}.
Arguments bundle_state {_ DB}.
Arguments block_hashes {_ DB}.
