(* ===== verification/StateSplit.v ===== *)
(** The borrow split of the block state: src/src/parallel_state.rs.

    While workers run, the state is split in the part they share ([ParallelStateView]: cache,
    database, block hashes) and the part of the ordered commit ([ParallelStateCommit]: the same
    view and the transitions). The loads of the view are those of ParallelState.v, which touch
    nothing else of the state. *)

From S2P Require Import Prelude Model Reward World ParallelState.

Section split.
Context `{!Revm} `{!RevmDb} {DB E : Type} `{!DatabaseRef DB E}.

(** ** The shared view *)

Record ParallelStateView := mkView {
  v_cache : ParallelCacheState;
  v_database : DB;
  v_block_hashes : gmap Z B256
}.

Definition shared_view (s : ParallelState DB) : ParallelStateView := mkView (cache s) (database s) (block_hashes s).

(** A state with this view: what it holds besides is not read by the loads. *)
Definition over_view (v : ParallelStateView) (ts : option (gmap Address TransitionAccount)) (bs : BundleState) : ParallelState DB :=
  mkParallelState (v_cache v) (v_database v) ts bs (v_block_hashes v).

(** A load of the state, on the view. *)
Definition on_view {A} (load : ParallelState DB → A * ParallelState DB) (v : ParallelStateView) : A * ParallelStateView :=
  let '(a, s) := load (over_view v None BundleState_default) in (a, shared_view s).

#[export] Instance ParallelStateView_DatabaseRef : DatabaseRef ParallelStateView E := {|
  basic_ref v address := on_view (λ s, db_basic s address) v;
  code_by_hash_ref v hash := on_view (λ s, db_code_by_hash s hash) v;
  storage_ref v address index := on_view (λ s, db_storage s address index) v;
  block_hash_ref v number := on_view (λ s, db_block_hash s number) v
|}.

(** ** The commit half *)

Record ParallelStateCommit := mkCommit {
  shared : ParallelStateView;
  sc_transition_state : option (gmap Address TransitionAccount)
}.

(** A read goes to the shared view. *)
Definition through_shared {A} (r : A * ParallelStateView) (c : ParallelStateCommit) : A * ParallelStateCommit :=
  (r.1, mkCommit r.2 (sc_transition_state c)).

#[export] Instance ParallelStateCommit_DatabaseRef : DatabaseRef ParallelStateCommit E := {|
  basic_ref c address := through_shared (basic_ref (shared c) address) c;
  code_by_hash_ref c hash := through_shared (code_by_hash_ref (shared c) hash) c;
  storage_ref c address index := through_shared (storage_ref (shared c) address index) c;
  block_hash_ref c number := through_shared (block_hash_ref (shared c) number) c
|}.

Definition commit_half (evm_state : EvmState) (c : ParallelStateCommit) : outcome ParallelStateCommit :=
  let! (transitions, cache) := apply_accounts (map_to_list evm_state) (v_cache (shared c)) in
  Done (mkCommit (mkView cache (v_database (shared c)) (v_block_hashes (shared c)))
    (match sc_transition_state c with Some state => Some (add_transitions state transitions) | None => None end)).

Definition split_for_parallel (s : ParallelState DB) : ParallelStateView * ParallelStateCommit :=
  let shared := shared_view s in (shared, mkCommit shared (transition_state s)).

End split.
