(* ===== verification/CacheView.v ===== *)
(** The cache of src/src/parallel_state.rs as a database view: cached reads return the world
    committed so far, and a commit applies exactly the finalized journal to it.

    [cache_ok w0 w c] states that the cache [c] over a database holding [w0] represents the
    world [w]. Loading keeps the world, committing changes it as [apply_changes] does. *)

From S2P Require Import Prelude Model Reward World ParallelState.

Section view.
Context `{!Revm} `{!RevmLaws} `{!RevmDb}.

(** Documented behaviour of revm-database's account status machine. *)
Class RevmDbLaws := {
  loaded_unknown : is_storage_known Loaded = false ∧ is_storage_known LoadedEmptyEIP161 = false;
  not_existing_known : is_storage_known LoadedNotExisting = true;
  on_changed_known st b : is_storage_known st = true → is_storage_known (on_changed st b) = true;
  on_changed_unknown st b : is_storage_known (on_changed st b) = true →
    is_storage_known st = true ∨ st = LoadedEmptyEIP161 ∨ (st = Loaded ∧ b = true);
  on_changed_fresh st b : on_changed st b ≠ Loaded ∧ on_changed st b ≠ LoadedEmptyEIP161;
  on_created_known st : is_storage_known (on_created st) = true;
  on_selfdestructed_known st : is_storage_known (on_selfdestructed st) = true;
  on_touched_empty_known st : is_storage_known (on_touched_empty_post_eip161 st) = true;
  has_no_code_and_nonce_eqv i j : info_eqv i j → has_no_code_and_nonce i = has_no_code_and_nonce j
}.
Context `{!RevmDbLaws}.
Context (code_of : B256 → Bytecode) (w0 : World).

(** An account as the cache loads it: an empty one is normalized. *)
Definition load (v : option AccountInfo) : option AccountInfo := account (loaded_account v).

Definition load_world (w : World) : World := mkWorld (λ a, load (w_account w a)) (w_storage w).

(** The database keeps no storage for accounts that do not exist, are empty, or have neither
    code nor nonce: the assumption behind revm's known-storage statuses. *)
Definition base_ok : Prop := ∀ a k,
  match w_account w0 a with
  | None => True
  | Some i => info_is_empty i = true ∨ has_no_code_and_nonce i = true
  end → w_storage w0 a k = 0%Z.
Context (Hbase : base_ok).

Definition storage_known (ci : option CacheAccountInfo) : bool :=
  match ci with
  | Some ci => is_storage_known (cai_status ci) || bool_decide (account ci = None)
  | None => false
  end.

(** The cells of one address: the cached account and slots against the world's. *)
Record cell_ok (a : Address) (ci : option CacheAccountInfo) (slots : gmap U256 U256)
    (v : option AccountInfo) (st : U256 → U256) : Prop := {
  co_account c : ci = Some c → acct_eqv (account c) v ∧ code_ok code_of (account c);
  co_uncached : ci = None → acct_eqv v (load (w_account w0 a));
  co_fresh c : ci = Some c → cai_status c = Loaded ∨ cai_status c = LoadedEmptyEIP161 →
    acct_eqv (account c) (load (w_account w0 a)) ∧
    match w_account w0 a with
    | None => False
    | Some i => cai_status c = LoadedEmptyEIP161 → info_is_empty i = true
    end;
  co_none c : ci = Some c → account c = None → is_storage_known (cai_status c) = true;
  co_slot k x : slots !! k = Some x → x = st k;
  co_noslot k : slots !! k = None →
    st k = if storage_known ci then 0%Z else w_storage w0 a k
}.

(** Cached code of a block-start account is its code. *)
Definition contracts_ok (m : gmap B256 Bytecode) : Prop := ∀ h b a i,
  m !! h = Some b → w_account w0 a = Some i → code_hash i = h →
  is_empty_code_hash i = false → b = code_of h.

Record cache_ok (w : World) (c : ParallelCacheState) : Prop := {
  co_cell a : cell_ok a (accounts c !! a) (default ∅ (cstorage c !! a)) (w_account w a) (w_storage w a);
  co_contract : contracts_ok (contracts c)
}.

(** One address of a world replaced. *)
Definition world_set (a : Address) (cell : option AccountInfo * (U256 → U256)) (w : World) : World :=
  mkWorld (λ x, if decide (x = a) then cell.1 else w_account w x)
    (λ x, if decide (x = a) then cell.2 else w_storage w x).

(** ** Loading *)

Lemma is_empty_default : info_is_empty info_default = true.
Proof. apply info_default_is_empty. Qed.

#[export] Instance load_proper : Proper (acct_eqv ==> acct_eqv) load.
Proof.
  intros x y [i j Hij|]; unfold load, loaded_account; [|done].
  rewrite (info_is_empty_eqv i j Hij). destruct (info_is_empty j); simpl; by constructor.
Qed.

Lemma load_code_ok v : code_ok code_of v → code_ok code_of (load v).
Proof.
  intros Hv i c. unfold load, loaded_account. destruct v as [j|]; [|done].
  destruct (info_is_empty j); simpl; [|apply Hv].
  intros [= <-]. by rewrite info_default_empty_code_hash.
Qed.

Lemma loaded_cell a v slots w st :
  acct_eqv v (w_account w0 a) → code_ok code_of v →
  cell_ok a None slots w st → cell_ok a (Some (loaded_account v)) slots w st.
Proof.
  intros Hv Hc [_ Hun _ _ Hs Hn]. split.
  - intros c [= <-]. fold (load v). split; [|by apply load_code_ok].
    rewrite Hv. symmetry. by apply Hun.
  - done.
  - intros c [= <-] Hst. fold (load v). split; [by rewrite Hv|].
    unfold loaded_account in *. inversion Hv as [i j Hij Hi Hj|]; subst; [|naive_solver].
    rewrite (info_is_empty_eqv i j Hij) in *. destruct (info_is_empty j); naive_solver.
  - intros c [= <-]. unfold loaded_account. destruct v as [i|]; [by destruct (info_is_empty i)|].
    intros _. apply not_existing_known.
  - done.
  - intros k Hk. rewrite (Hn k Hk). simpl. unfold loaded_account. pose proof loaded_unknown as [Hu1 Hu2].
    destruct v as [i|]; [destruct (info_is_empty i); simpl; by rewrite ?Hu1, ?Hu2|]. simpl.
    rewrite not_existing_known. simpl. apply Hbase. by inversion Hv.
Qed.

Lemma cache_ok_set_account w c a ci :
  cache_ok w c →
  cell_ok a (Some ci) (default ∅ (cstorage c !! a)) (w_account w a) (w_storage w a) →
  cache_ok w (set_account a ci c).
Proof.
  intros [Hc Hk] Ha. split; [|apply Hk]. intros x. simpl.
  destruct (decide (a = x)) as [->|]; [by rewrite lookup_insert_eq|by rewrite lookup_insert_ne].
Qed.

Lemma cache_ok_slot w c a k x :
  cache_ok w c → w_storage w a k = x → cache_ok w (update_storage_slot a {[k := x]} c).
Proof.
  intros [Hc Hk] Hx. split; [|apply Hk]. intros y. simpl. specialize (Hc y).
  destruct (decide (a = y)) as [->|]; [rewrite lookup_insert_eq; simpl|by rewrite lookup_insert_ne].
  destruct Hc as [? ? ? ? Hs Hn]. split; try done.
  - intros j z. rewrite lookup_union_Some_raw.
    intros [[<- <-]%lookup_singleton_Some|[_ ?]]; [done|by apply Hs].
  - intros j [_ ?]%lookup_union_None. by apply Hn.
Qed.

(** ** Committing *)

Lemma cache_ok_update w c c' a cell :
  cache_ok w c →
  (∀ x, x ≠ a → accounts c' !! x = accounts c !! x ∧ cstorage c' !! x = cstorage c !! x) →
  cell_ok a (accounts c' !! a) (default ∅ (cstorage c' !! a)) cell.1 cell.2 →
  contracts_ok (contracts c') →
  cache_ok (world_set a cell w) c'.
Proof.
  intros [Hc Hk] Hx Ha Hco. split; [|done]. intros x. simpl.
  destruct (decide (x = a)) as [->|]; [done|]. by destruct (Hx x) as [-> ->].
Qed.

(** The account of [a] after a commit that makes its storage known from scratch. *)
Lemma cell_ok_known a ci v st slots :
  acct_eqv (account ci) v → code_ok code_of (account ci) →
  is_storage_known (cai_status ci) = true →
  (∀ k, st k = default 0%Z (slots !! k)) →
  cell_ok a (Some ci) slots v st.
Proof.
  intros Hv Hc Hst Hk. pose proof loaded_unknown as [? ?]. split.
  - by intros c [= <-].
  - done.
  - intros c [= <-] [Heq|Heq]; rewrite Heq in Hst; congruence.
  - by intros c [= <-].
  - intros k x Hx. by rewrite Hk, Hx.
  - intros k Hx. rewrite Hk, Hx. simpl. by rewrite Hst.
Qed.

(** The account of [a] after an update of its value and of some slots. *)
Lemma cell_ok_changed a ci v st slots new_slots i b :
  cell_ok a (Some ci) slots v st → code_ok code_of (Some i) →
  b = default false (has_no_code_and_nonce <$> account ci) →
  cell_ok a (Some (mkCacheAccountInfo (Some i) (on_changed (cai_status ci) b))) (new_slots ∪ slots)
    (Some i) (λ k, default (st k) (new_slots !! k)).
Proof.
  intros [Ha _ Hf Hn Hs Hns] Hc Hb. split; simpl.
  - by intros c [= <-].
  - done.
  - intros c [= <-] [?|?]; simpl in *; by destruct (on_changed_fresh (cai_status ci) b).
  - by intros c [= <-].
  - intros k x. rewrite lookup_union_Some_raw. intros [->|[-> ?]]; simpl; [done|by apply Hs].
  - intros k [Hk1 Hk2]%lookup_union_None. rewrite Hk1. simpl. rewrite (Hns k Hk2). simpl.
    rewrite orb_false_r.
    destruct (is_storage_known (cai_status ci)) eqn:Hst; simpl.
    { by rewrite on_changed_known. }
    rewrite bool_decide_false by (intros Hnone; by rewrite (Hn ci eq_refl Hnone) in Hst).
    destruct (is_storage_known (on_changed _ _)) eqn:Hst'; [|done].
    apply on_changed_unknown in Hst' as [?|Hfresh]; [congruence|].
    destruct (Hf ci eq_refl) as [Heq Hw0]; [naive_solver|]. apply Hbase.
    destruct (w_account w0 a) as [i0|]; [|done].
    destruct Hfresh as [?|[? ->]]; [left; auto|]. unfold load, loaded_account in Heq.
    destruct (info_is_empty i0); [by left|right]. inversion Heq as [i1 ? Hi Hi1|]; subst.
    rewrite <-Hi1 in *. simpl in *. by rewrite <-(has_no_code_and_nonce_eqv _ _ Hi).
Qed.

Lemma cell_ok_storage_ext a ci slots v st st' :
  (∀ k, st k = st' k) → cell_ok a ci slots v st → cell_ok a ci slots v st'.
Proof.
  intros Heq [? ? ? ? Hs Hn]. split; try done.
  - intros. rewrite <-Heq. by apply Hs.
  - intros. rewrite <-Heq. by apply Hn.
Qed.

(** Worlds with the same cells are represented alike. *)
Lemma cache_ok_ext w w' c :
  (∀ a, w_account w a = w_account w' a) → (∀ a k, w_storage w a k = w_storage w' a k) →
  cache_ok w c → cache_ok w' c.
Proof.
  intros Ha Hs [Hc Hk]. split; [|done]. intros a. rewrite <-Ha.
  eapply cell_ok_storage_ext, Hc. intros. apply Hs.
Qed.

(** What a commit needs of the cache: touched accounts are cached, and the code of a created
    account is at hand. *)
Definition committable (c : ParallelCacheState) (a : Address) (acc : Account) : Prop :=
  code_ok code_of (Some (acc_info acc)) ∧
  (is_touched acc = true → is_Some (accounts c !! a)) ∧
  (FinalizedAccount_from acc = Created (acc_info acc) →
     is_Some (code (acc_info acc)) ∨ is_Some (contracts c !! code_hash (acc_info acc))).

Lemma insert_contract_ok c i :
  contracts_ok (contracts c) → code_ok code_of (Some i) →
  is_Some (code i) ∨ is_Some (contracts c !! code_hash i) →
  ∃ c', insert_contract i c = Done c' ∧ accounts c' = accounts c ∧ cstorage c' = cstorage c ∧
    contracts_ok (contracts c') ∧ (∀ h, is_Some (contracts c !! h) → is_Some (contracts c' !! h)).
Proof.
  intros Hk Hi Hsome. unfold insert_contract.
  destruct (contracts c !! code_hash i) as [b|] eqn:Hb; [by eauto 10|].
  destruct Hsome as [[b Hc]|[? ?]]; [|done]. rewrite Hc. eexists. split_and!; [done|done|done| |]; simpl.
  - intros h b' a j [[<- <-]|[_ ?]]%lookup_insert_Some; [|by eapply Hk].
    intros _ Hj He. eapply Hi; [done|done|]. by rewrite (is_empty_code_hash_hash i j).
  - intros h Hh. apply lookup_insert_is_Some. destruct (decide (code_hash i = h)); auto.
Qed.

Lemma update_slots_lookup a slots c x :
  default ∅ (cstorage (if decide (slots = ∅) then c else update_storage_slot a slots c) !! x) =
  if decide (x = a) then slots ∪ default ∅ (cstorage c !! a) else default ∅ (cstorage c !! x).
Proof.
  case_decide as Hs.
  - subst. case_decide; [subst; by rewrite (left_id_L ∅ (∪))|done].
  - simpl. case_decide; [subst; by rewrite lookup_insert_eq|by rewrite lookup_insert_ne].
Qed.

Lemma update_slots_other a slots c x :
  x ≠ a →
  cstorage (if decide (slots = ∅) then c else update_storage_slot a slots c) !! x = cstorage c !! x.
Proof. intros. case_decide; [done|]. simpl. by rewrite lookup_insert_ne. Qed.

Lemma update_slots_accounts a slots c :
  accounts (if decide (slots = ∅) then c else update_storage_slot a slots c) = accounts c ∧
  contracts (if decide (slots = ∅) then c else update_storage_slot a slots c) = contracts c.
Proof. by case_decide. Qed.

Lemma overlay_slots acc base k :
  overlay acc base k = default (base k) ((present_value <$> changed_storage_slots acc) !! k).
Proof. unfold overlay. rewrite lookup_fmap. by destruct (changed_storage_slots acc !! k). Qed.

(** What a commit of one account does not disturb. *)
Definition cache_grows (c c' : ParallelCacheState) : Prop :=
  (∀ x, is_Some (accounts c !! x) → is_Some (accounts c' !! x)) ∧
  (∀ h, is_Some (contracts c !! h) → is_Some (contracts c' !! h)).

#[export] Instance cache_grows_preorder : PreOrder cache_grows.
Proof. split; [done|]. intros c1 c2 c3 [? ?] [? ?]. split; auto. Qed.

Lemma set_account_grows a ci c c' :
  accounts c' = <[a := ci]> (accounts c) → (∀ h, is_Some (contracts c !! h) → is_Some (contracts c' !! h)) →
  cache_grows c c'.
Proof.
  intros Ha ?. split; [|done]. intros x. rewrite Ha, lookup_insert_is_Some.
  destruct (decide (a = x)); auto.
Qed.

Lemma apply_account_state_ok w c a acc :
  cache_ok w c → committable c a acc →
  ∃ t c', apply_account_state a acc c = Done (t, c') ∧ cache_grows c c' ∧
    cache_ok (world_set a (apply_account acc (w_account w a, w_storage w a)) w) c'.
Proof.
  intros Hok (Hcode & Hcached & Hcreated). unfold apply_account_state, apply_account.
  unfold FinalizedAccount_from in *.
  destruct (is_touched acc) eqn:Ht; simpl.
  2: { exists None, c. split_and!; [done|done|]. eapply cache_ok_ext, Hok; simpl; intros; by case_decide; subst. }
  destruct (Hcached eq_refl) as [ci Hci]. clear Hcached.
  unfold get_account_mut. simpl. rewrite !Hci. simpl.
  destruct (is_selfdestructed acc) eqn:Hsd; [|destruct (is_created acc) eqn:Hcr; [|destruct (is_empty acc) eqn:Hem]].
  - eexists _, _. split; [done|]. split; [by eapply set_account_grows|].
    eapply (cache_ok_update w c); simpl; [done| | |apply Hok].
    + intros x Hx. by rewrite lookup_insert_ne, lookup_delete_ne.
    + rewrite lookup_insert_eq, lookup_delete_eq. simpl. apply cell_ok_known; simpl; [done|by intros ??| |intros k; by rewrite lookup_empty].
      apply on_selfdestructed_known.
  - simpl. destruct (insert_contract_ok (set_account a
      (mkCacheAccountInfo (Some (acc_info acc)) (on_created (cai_status ci))) (remove_storage a c)) (acc_info acc))
      as (c' & Hins & Hacc & Hst & Hct & Hgrow); [apply Hok|done|by apply Hcreated|].
    rewrite Hins. simpl. eexists _, _. split; [done|]. simpl in *.
    destruct (update_slots_accounts a (present_value <$> changed_storage_slots acc) c') as [Hua Huc].
    split; [eapply set_account_grows; [by rewrite Hua, Hacc|by rewrite Huc]|].
    eapply (cache_ok_update w c); [done| | |by rewrite Huc].
    + intros x Hx. rewrite Hua, Hacc, update_slots_other, Hst by done.
      by rewrite lookup_insert_ne, lookup_delete_ne.
    + rewrite update_slots_lookup, Hua, decide_True, Hacc, Hst, lookup_insert_eq, lookup_delete_eq by done.
      simpl. rewrite (right_id_L ∅ (∪)). apply cell_ok_known; simpl; [done|done| |].
      * apply on_created_known.
      * intros k. apply overlay_slots.
  - eexists _, _. split; [done|]. split; [by eapply set_account_grows|].
    eapply (cache_ok_update w c); simpl; [done| | |apply Hok].
    + intros x Hx. by rewrite lookup_insert_ne, lookup_delete_ne.
    + rewrite lookup_insert_eq, lookup_delete_eq. simpl. apply cell_ok_known; simpl; [done|by intros ??| |intros k; by rewrite lookup_empty].
      apply on_touched_empty_known.
  - simpl. eexists _, _. split; [done|].
    match goal with |- context [set_account a ?ci' c] => set (c1 := set_account a ci' c) end.
    destruct (update_slots_accounts a (present_value <$> changed_storage_slots acc) c1) as [Hua Huc].
    split; [eapply set_account_grows; [by rewrite Hua|by rewrite Huc]|].
    eapply (cache_ok_update w c); [done| | |rewrite Huc; apply Hok].
    + intros x Hx. rewrite Hua, update_slots_other by done. simpl. by rewrite lookup_insert_ne.
    + rewrite update_slots_lookup, Hua, decide_True by done. simpl. rewrite lookup_insert_eq.
      pose proof (co_cell _ _ Hok a) as Hcell. rewrite Hci in Hcell.
      eapply cell_ok_changed in Hcell; [|exact Hcode|done].
      eapply cell_ok_storage_ext; [|exact Hcell]. intros k. symmetry. apply overlay_slots.
Qed.

Lemma committable_grows c c' a acc : cache_grows c c' → committable c a acc → committable c' a acc.
Proof. intros [Ha Hc] (? & ? & Hcr). split_and!; [done|by auto|]. intros [?|?]%Hcr; auto. Qed.

Lemma apply_accounts_ok l : ∀ w c,
  NoDup l.*1 → cache_ok w c → (∀ a acc, (a, acc) ∈ l → committable c a acc) →
  ∃ ts c', apply_accounts l c = Done (ts, c') ∧ cache_grows c c' ∧
    cache_ok (apply_changes (list_to_map l) w) c'.
Proof.
  induction l as [|[a acc] l IH]; intros w c Hnd Hok Hc; simpl.
  { eexists _, _. split_and!; [done|done|]. eapply cache_ok_ext, Hok; done. }
  inversion_clear Hnd as [|? ? Hnin Hnd'].
  destruct (apply_account_state_ok w c a acc Hok) as (t & c1 & -> & Hg1 & Hok1); [apply Hc; left|].
  simpl. edestruct (IH _ c1 Hnd' Hok1) as (ts & c2 & -> & Hg2 & Hok2).
  { intros x y Hin. eapply committable_grows; [done|]. apply Hc. by right. }
  simpl. eexists _, _. split_and!; [done|by etrans|].
  assert (Hl : list_to_map (M:=gmap Address Account) l !! a = None) by (by apply not_elem_of_list_to_map_1).
  eapply cache_ok_ext, Hok2.
  - intros x. destruct (decide (x = a)) as [->|Hx].
    + unfold apply_changes. simpl. rewrite lookup_insert_eq, Hl. simpl. by case_decide.
    + unfold apply_changes. simpl. rewrite lookup_insert_ne by done. by case_decide.
  - intros x k. destruct (decide (x = a)) as [->|Hx].
    + unfold apply_changes. simpl. rewrite lookup_insert_eq, Hl. simpl. by case_decide.
    + unfold apply_changes. simpl. rewrite lookup_insert_ne by done. by case_decide.
Qed.

Lemma apply_evm_state_ok w c changes :
  cache_ok w c → (∀ a acc, changes !! a = Some acc → committable c a acc) →
  ∃ ts c', apply_evm_state changes c = Done (ts, c') ∧ cache_grows c c' ∧
    cache_ok (apply_changes changes w) c'.
Proof.
  intros Hok Hc. destruct (apply_accounts_ok (map_to_list changes) w c) as (ts & c' & ? & ? & ?).
  - apply NoDup_fst_map_to_list.
  - done.
  - intros a acc ?%elem_of_map_to_list. by apply Hc.
  - rewrite list_to_map_to_list in *. eauto.
Qed.

(** ** The state over a database *)

Context {DB E : Type} `{!DatabaseRef DB E} (rep_db : DB → World → Prop)
  `{!DatabaseView DB E code_of w0 rep_db}.

(** The state holds the world [w]: its database still holds the block-start world, and its
    cache the difference. *)
Definition state_rep (s : ParallelState DB) (w : World) : Prop :=
  rep_db (database s) w0 ∧ cache_ok w (cache s).

Lemma empty_cache_ok : cache_ok (load_world w0) ParallelCacheState_new.
Proof.
  split; [|by intros h b a i Hb; unfold ParallelCacheState_new in Hb; simpl in Hb; rewrite lookup_empty in Hb]. intros a. simpl. rewrite !lookup_empty. simpl.
  split; try done.
Qed.

Lemma load_mut_cache_account_ok s w a r s' :
  state_rep s w → load_mut_cache_account a s = (r, s') →
  state_rep s' w ∧ ∀ c, r = Ok c → accounts (cache s') !! a = Some c.
Proof.
  intros [Hdb Hok]. unfold load_mut_cache_account.
  destruct (accounts (cache s) !! a) as [c|] eqn:Ha.
  { intros [= <- <-]. split; [done|]. by intros c' [= <-]. }
  destruct (basic_ref (database s) a) as [rv db] eqn:Hv.
  destruct (view_basic _ _ _ _ _ Hdb Hv) as [Hdb' Hval]. destruct rv as [v|e]; intros [= <- <-].
  - destruct (Hval v eq_refl) as [Heqv Hcode]. split; [split; [done|]|].
    + simpl. apply cache_ok_set_account; [done|]. apply loaded_cell; [done|done|].
      rewrite <-Ha. apply Hok.
    + intros c [= <-]. simpl. apply lookup_insert_eq.
  - by split.
Qed.

Lemma db_basic_ok s w a r s' :
  state_rep s w → db_basic s a = (r, s') →
  state_rep s' w ∧ ∀ v, r = Ok v → acct_eqv v (w_account w a) ∧ code_ok code_of v.
Proof.
  unfold db_basic. intros Hs. destruct (load_mut_cache_account a s) as [rc s1] eqn:Hl. intros [= <- <-].
  destruct (load_mut_cache_account_ok _ _ _ _ _ Hs Hl) as [[? Hok] Hc]. split; [done|].
  intros v Hv. destruct rc as [c|]; simplify_eq/=. eapply (co_account _ _ _ _ _ (co_cell _ _ Hok a)). by apply Hc.
Qed.

Lemma db_storage_ok s w a k r s' :
  state_rep s w → db_storage s a k = (r, s') →
  state_rep s' w ∧ ∀ v, r = Ok v → v = w_storage w a k.
Proof.
  intros [Hdb Hok]. unfold db_storage. pose proof (co_cell _ _ Hok a) as Hcell.
  destruct (default ∅ (cstorage (cache s) !! a) !! k) as [v|] eqn:Hslot.
  { intros [= <- <-]. split; [done|]. intros v' [= <-]. by apply (co_slot _ _ _ _ _ Hcell). }
  pose proof (co_noslot _ _ _ _ _ Hcell k Hslot) as Hst. unfold storage_known in Hst.
  destruct (match accounts (cache s) !! a with Some _ => _ | None => _ end).
  - intros [= <- <-]. split; [|by intros v [= <-]]. split; [done|]. simpl. by apply cache_ok_slot.
  - destruct (storage_ref (database s) a k) as [rv db] eqn:Hv.
    destruct (view_storage _ _ _ _ _ _ Hdb Hv) as [Hdb' Hval].
    destruct rv as [v|e]; intros [= <- <-]; [|by split].
    pose proof (Hval v eq_refl) as Hveq. split; [split; [done|]|].
    + simpl. apply cache_ok_slot; [done|congruence].
    + intros v' [= <-]. congruence.
Qed.

Lemma load_nonempty a i :
  w_account (load_world w0) a = Some i → is_empty_code_hash i = false → w_account w0 a = Some i.
Proof.
  simpl. unfold load, loaded_account. destruct (w_account w0 a) as [j|]; [|done].
  destruct (info_is_empty j); simpl; [|done]. intros [= <-]. by rewrite info_default_empty_code_hash.
Qed.

Lemma db_code_by_hash_ok s w h r s' :
  state_rep s w → db_code_by_hash s h = (r, s') →
  state_rep s' w ∧ ∀ c a i, r = Ok c → w_account (load_world w0) a = Some i → code_hash i = h →
    is_empty_code_hash i = false → c = code_of h.
Proof.
  intros [Hdb [Hcell Hk]]. unfold db_code_by_hash. destruct (contracts (cache s) !! h) as [c|] eqn:Hc.
  { intros [= <- <-]. split; [done|]. intros c' a i [= <-] Ha Hh He.
    eapply Hk; [done|by apply load_nonempty|done|done]. }
  destruct (code_by_hash_ref (database s) h) as [rv db] eqn:Hv.
  destruct (view_code _ _ _ _ _ Hdb Hv) as [Hdb' Hval].
  destruct rv as [c|e]; intros [= <- <-]; [|by split].
  split; [split; [done|split; [done|]]|].
  - simpl. intros h' b a i [[<- <-]|[_ ?]]%lookup_insert_Some; [|by apply Hk]. by apply Hval.
  - intros c' a i [= <-] Ha Hh He. eapply Hval; [done|by apply load_nonempty|done|done].
Qed.

(** The cache keeps the promise of the database interface, from the normalized block start. *)
#[export] Instance ParallelState_view :
  DatabaseView (ParallelState DB) E code_of (load_world w0) state_rep.
Proof.
  split.
  - apply db_basic_ok.
  - apply db_code_by_hash_ok.
  - apply db_storage_ok.
  - intros db w n r db' [Hdb Hok]. simpl. unfold db_block_hash.
    destruct (block_hashes db !! n); [by intros [= <- <-]|].
    destruct (block_hash_ref (database db) n) as [rv db1] eqn:Hv.
    pose proof (view_block_hash _ _ _ _ _ Hdb Hv). destruct rv; by intros [= <- <-].
Qed.

(** ** Properties *)

(** C12. Committing a finalized journal refines the abstract state: when the touched accounts
    are cached, a commit does not panic, the state then holds exactly the world with the
    journal applied, and the transitions of the commit are added to the transition state. *)
Theorem commit_refines_world s w changes :
  state_rep s w → (∀ a acc, changes !! a = Some acc → committable (cache s) a acc) →
  ∃ s' ts, commit changes s = Done s' ∧ state_rep s' (apply_changes changes w) ∧
    transition_state s' = (λ t, add_transitions t ts) <$> transition_state s.
Proof.
  intros [Hdb Hok] Hc. destruct (apply_evm_state_ok _ _ _ Hok Hc) as (ts & c' & Hap & _ & Hok').
  exists (apply_transition ts (set_cache c' s)), ts. unfold commit. rewrite Hap. by split_and!.
Qed.

(** C17. Reads through the cache are exact: whatever was cached or committed before, a
    successful account read returns the account of the represented world (up to loaded code),
    a successful storage read its slot value, and neither changes what the state represents. *)
Theorem cached_reads_exact s w a k rb sb rs ss :
  state_rep s w → db_basic s a = (rb, sb) → db_storage s a k = (rs, ss) →
  state_rep sb w ∧ (∀ v, rb = Ok v → acct_eqv v (w_account w a)) ∧
  state_rep ss w ∧ (∀ v, rs = Ok v → v = w_storage w a k).
Proof.
  intros Hs Hb Hst. destruct (db_basic_ok _ _ _ _ _ Hs Hb) as [? Hv].
  destruct (db_storage_ok _ _ _ _ _ _ Hs Hst) as [? ?]. split_and!; try done.
  intros v Hr. by apply (Hv v Hr).
Qed.

End view.

(** ** Witnesses *)

(** revm's status machine. *)
Definition revmdb_example : RevmDb := {|
  BundleAccount := TransitionAccount;
  AccountRevert := TransitionAccount;
  on_changed st b :=
    match st with
    | LoadedNotExisting | LoadedEmptyEIP161 | InMemoryChange => InMemoryChange
    | Loaded => if b then InMemoryChange else Changed
    | Changed => Changed
    | Destroyed | DestroyedChanged | DestroyedAgain => DestroyedChanged
    end;
  on_selfdestructed st :=
    match st with
    | LoadedNotExisting => LoadedNotExisting
    | Destroyed | DestroyedChanged | DestroyedAgain => DestroyedAgain
    | _ => Destroyed
    end;
  on_created st :=
    match st with
    | Destroyed | DestroyedChanged | DestroyedAgain => DestroyedChanged
    | _ => InMemoryChange
    end;
  on_touched_empty_post_eip161 st :=
    match st with
    | LoadedNotExisting => LoadedNotExisting
    | DestroyedChanged | DestroyedAgain => DestroyedAgain
    | _ => Destroyed
    end;
  is_storage_known st :=
    match st with Loaded | LoadedEmptyEIP161 | Changed => false | _ => true end;
  add_transitions t ts := list_to_map ts ∪ t
|}.

Section examples.
#[local] Existing Instance revm_example.
#[local] Existing Instance revm_example_laws.
#[local] Existing Instance revmdb_example.

Lemma revmdb_example_laws : RevmDbLaws.
Proof.
  split; try done; try (by intros []); try (by intros [] []).
  - intros [] []; simpl; auto.
  - intros i j (_ & Hn & Hh). simpl. by rewrite Hn, Hh.
Qed.
#[local] Existing Instance revmdb_example_laws.

(** Account 1 is funded, account 2 is a contract with one slot. *)
Definition cv_w0 : World :=
  mkWorld (λ a, if decide (a = 1%Z) then Some (mkInfo 100 0 0 None)
                else if decide (a = 2%Z) then Some (mkInfo 5 1 11 (Some [11%Z])) else None)
    (λ a k, if decide (a = 2%Z ∧ k = 3%Z) then 9%Z else 0%Z).
#[local] Instance cv_db : DatabaseRef unit unit := world_db (λ h, [h]) cv_w0.
Definition cv_rep (db : unit) (w : World) : Prop := w = cv_w0.
#[local] Instance cv_view : DatabaseView unit unit (λ h, [h]) cv_w0 cv_rep.
Proof.
  apply world_db_view. intros a i c. simpl. repeat case_decide; intros; by simplify_eq/=.
Qed.

Lemma cv_base : base_ok cv_w0.
Proof.
  intros a k. simpl. destruct (decide (a = 1%Z)) as [->|].
  { intros _. by rewrite decide_False by lia. }
  destruct (decide (a = 2%Z)) as [->|].
  - by intros [?|?].
  - intros _. rewrite decide_False; [done|]. lia.
Qed.

(** The state with both accounts loaded. *)
Definition cv_state : ParallelState unit :=
  (db_basic (db_basic (ParallelState_new tt true) 1).2 2).2.

Lemma cv_state_rep : state_rep (λ h, [h]) cv_w0 cv_rep cv_state (load_world cv_w0).
Proof.
  unfold cv_state. destruct (db_basic (ParallelState_new tt true) 1) as [r s] eqn:Hs.
  cbn [snd].
  destruct (db_basic s 2) as [r' s'] eqn:Hs'.
  eapply (db_basic_ok _ _ cv_base cv_rep); [|exact Hs'].
  eapply (db_basic_ok _ _ cv_base cv_rep); [|exact Hs].
  split; [done|]. apply empty_cache_ok.
Qed.

(** A transaction that spends from account 1, sets a slot of account 2 and deletes nothing. *)
Definition cv_changes : EvmState :=
  <[1%Z := mkAccount true false false (mkInfo 90 1 0 None) ∅]>
  (<[2%Z := mkAccount true false false (mkInfo 15 1 11 (Some [11%Z])) {[4%Z := mkSlot 0 7]}]> ∅).

Lemma cv_committable a acc : cv_changes !! a = Some acc → committable (λ h, [h]) (cache cv_state) a acc.
Proof.
  unfold cv_changes.
  intros [[<- <-]|[_ [[<- <-]|[_ []%lookup_empty_Some]]%lookup_insert_Some]]%lookup_insert_Some;
    (split_and!; [intros i c [= <-] ??; by simplify_eq/=|intros _; by eexists|done]).
Qed.

Lemma commit_refines_world_witness :
  ∃ s', commit cv_changes cv_state = Done s' ∧
    state_rep (λ h, [h]) cv_w0 cv_rep s' (apply_changes cv_changes (load_world cv_w0)) ∧
    w_storage (apply_changes cv_changes (load_world cv_w0)) 2 3 = 9%Z.
Proof.
  destruct (commit_refines_world (λ h, [h]) cv_w0 cv_base cv_rep cv_state (load_world cv_w0) cv_changes)
    as (s' & ts & Hc & Hr & _).
  - apply cv_state_rep.
  - apply cv_committable.
  - exists s'. split_and!; [done|done|by vm_compute].
Defined.

Lemma cached_reads_exact_witness :
  ∃ v, (db_storage cv_state 2 3).1 = Ok v ∧ v = w_storage (load_world cv_w0) 2 3.
Proof.
  destruct (cached_reads_exact (λ h, [h]) cv_w0 cv_base cv_rep cv_state (load_world cv_w0) 2 3
    (db_basic cv_state 2).1 (db_basic cv_state 2).2 (db_storage cv_state 2 3).1
    (db_storage cv_state 2 3).2) as (_ & _ & _ & Hv).
  - apply cv_state_rep.
  - apply surjective_pairing.
  - apply surjective_pairing.
  - exists 9%Z. split; [by vm_compute|]. apply Hv. by vm_compute.
Defined.

End examples.
