(* ===== verification/StateBalances.v ===== *)
(** Balance increments and drains of src/src/parallel_state.rs ([increment_balances],
    [drain_balances]) against the world the state represents.

    Both update cached accounts directly, outside a journal, and record one transition per
    updated account. The theorems say what they do to the represented world, what they answer,
    and what is left when a load fails half-way. *)

From S2P Require Import Prelude Model Reward World ParallelState CacheView.

Section balances.
Context `{!Revm} `{!RevmLaws} `{!RevmDb} `{!RevmDbLaws}.
Context (code_of : B256 → Bytecode) (w0 : World) (Hbase : base_ok w0).
Context {DB E : Type} `{!DatabaseRef DB E} (rep_db : DB → World → Prop)
  `{!DatabaseView DB E code_of w0 rep_db}.

(** ** What the operations mean *)

Definition account_at (w : World) (a : Address) : AccountInfo := default info_default (w_account w a).

(** The balance of one account replaced; an account that did not exist is created with it. *)
Definition with_balance (a : Address) (b : U256) (w : World) : World :=
  mkWorld (λ x, if decide (x = a) then Some (set_balance b (account_at w a)) else w_account w x) (w_storage w).

(** An increment saturates, and an increment of zero does not even create the account. *)
Definition credit (w : World) (ab : Address * Z) : World :=
  if decide (ab.2 = 0%Z) then w
  else with_balance ab.1 (Z.min U256_MAX (balance (account_at w ab.1) + ab.2)) w.
Definition drain (w : World) (a : Address) : World := with_balance a 0 w.

(** A transition goes from the account of one world to that of the next, without storage. *)
Definition moves_account (w w' : World) (a : Address) (t : TransitionAccount) : Prop :=
  acct_eqv (ta_previous_info t) (w_account w a) ∧ acct_eqv (ta_info t) (w_account w' a) ∧
  ta_storage t = ∅ ∧ ta_storage_was_destroyed t = false.

(** One transition per operation that updates an account, in order. *)
Fixpoint credit_transitions (w : World) (l : list (Address * Z)) (ts : list (Address * TransitionAccount)) : Prop :=
  match l with
  | [] => ts = []
  | ab :: l =>
    if decide (ab.2 = 0%Z) then credit_transitions w l ts
    else ∃ t ts', ts = (ab.1, t) :: ts' ∧ moves_account w (credit w ab) ab.1 t ∧ credit_transitions (credit w ab) l ts'
  end.
Fixpoint drain_transitions (w : World) (l : list Address) (ts : list (Address * TransitionAccount)) : Prop :=
  match l with
  | [] => ts = []
  | a :: l => ∃ t ts', ts = (a, t) :: ts' ∧ moves_account w (drain w a) a t ∧ drain_transitions (drain w a) l ts'
  end.

(** The balances found, each when its turn comes: a second drain of an address finds zero. *)
Fixpoint drained_balances (w : World) (l : list Address) : list Z :=
  match l with [] => [] | a :: l => balance (account_at w a) :: drained_balances (drain w a) l end.

(** ** One account *)

Lemma account_at_eqv w a c :
  acct_eqv (account c) (w_account w a) → info_eqv (default info_default (account c)) (account_at w a).
Proof. intros Hc. unfold account_at. destruct Hc; [done|]. reflexivity. Qed.

Lemma cell_ok_eqv a ci slots v v' st :
  is_Some ci → acct_eqv v v' → cell_ok code_of w0 a ci slots v st → cell_ok code_of w0 a ci slots v' st.
Proof.
  intros [c0 ->] Hv [Ha _ ? ? ? ?]. split; [|done..]. intros c Hc. destruct (Ha c Hc). split; [by etrans|done].
Qed.

(** The common body of the two operations: a change of the balance by [h]. *)
Lemma account_info_change_ok {T} (g : U256 → T) (h : U256 → U256) s w a c :
  state_rep code_of w0 rep_db s w → accounts (cache s) !! a = Some c →
  ∃ t c', account_info_change (λ i, (g (balance i), set_balance (h (balance i)) i)) c = (g (balance (account_at w a)), t, c') ∧
    state_rep code_of w0 rep_db (set_cache (set_account a c' (cache s)) s) (with_balance a (h (balance (account_at w a))) w) ∧
    moves_account w (with_balance a (h (balance (account_at w a))) w) a t.
Proof.
  intros [Hdb Hok] Hc. pose proof (co_cell _ _ _ _ Hok a) as Hcell. rewrite Hc in Hcell.
  destruct (co_account _ _ _ _ _ _ _ Hcell c eq_refl) as [Hv Hcode].
  pose proof (account_at_eqv _ _ _ Hv) as (Hbal & Hn & Hh). unfold account_info_change.
  set (i := default info_default (account c)) in *. rewrite Hbal.
  assert (Hi : info_eqv (set_balance (h (balance (account_at w a))) i) (set_balance (h (balance (account_at w a))) (account_at w a)))
    by (by split_and!).
  eexists _, _. split; [reflexivity|]. split.
  - split; [done|]. eapply cache_ok_ext; [| |eapply (cache_ok_update _ _ w (cache s) _ a
      (Some (set_balance (h (balance (account_at w a))) (account_at w a)), w_storage w a))]; simpl.
    + intros x. by case_decide; subst.
    + intros x k. by case_decide; subst.
    + done.
    + intros x Hx. by rewrite lookup_insert_ne.
    + rewrite lookup_insert_eq. eapply cell_ok_eqv; [done|by constructor; exact Hi|].
      pose proof (cell_ok_changed _ _ Hbase a c _ _ _ ∅ (set_balance (h (balance (account_at w a))) i)
        (default false (has_no_code_and_nonce <$> account c)) Hcell) as Hch.
      rewrite (left_id_L ∅ (∪)) in Hch. eapply cell_ok_storage_ext; [|apply Hch; [|reflexivity]].
      * intros k. simpl. by rewrite lookup_empty.
      * intros j b [= <-] Hb He. simpl in *. subst i. destruct (account c) as [i|] eqn:Hac; simpl in *.
        { eapply Hcode; [done|done|]. by rewrite (is_empty_code_hash_hash i (set_balance (h (balance (account_at w a))) i)). }
        rewrite (is_empty_code_hash_hash _ info_default) in He by done. by rewrite info_default_empty_code_hash in He.
    + apply Hok.
  - unfold moves_account, with_balance. simpl. rewrite decide_True by done. split_and!; [done|by constructor|done|done].
Qed.

Lemma load_transition_state a (s : ParallelState DB) (r : result E CacheAccountInfo) s' :
  load_mut_cache_account a s = (r, s') → transition_state s' = transition_state s.
Proof.
  unfold load_mut_cache_account. destruct (accounts (cache s) !! a); [by intros [= _ <-]|].
  destruct (basic_ref (database s) a) as [[v|e] db]; by intros [= _ <-].
Qed.

(** ** Increments *)

Lemma credit_zero w a b : b = 0%Z → credit w (a, b) = w.
Proof. intros ->. done. Qed.
Lemma credit_add w a b :
  b ≠ 0%Z → credit w (a, b) = with_balance a (saturating_add U256_MAX (balance (account_at w a)) b) w.
Proof. intros Hb. unfold credit. simpl. rewrite decide_False by done. unfold saturating_add. by rewrite Z.min_comm. Qed.

Lemma increment_balance_transitions_ok l (s : ParallelState DB) w (r : result E _) s' :
  state_rep code_of w0 rep_db s w → increment_balance_transitions l s = (r, s') →
  transition_state s' = transition_state s ∧
  match r with
  | Ok ts => state_rep code_of w0 rep_db s' (foldl credit w l) ∧ credit_transitions w l ts
  | Err _ => ∃ n, n < length l ∧ state_rep code_of w0 rep_db s' (foldl credit w (take n l))
  end.
Proof.
  revert s w r s'. induction l as [|[a b] l IH]; intros s w r s' Hs; simpl.
  { intros [= <- <-]. by split_and!. }
  case_decide as Hb.
  { rewrite (credit_zero w a b) by done. intros Hr. destruct (IH _ _ _ _ Hs Hr) as [Ht Hres]. split; [done|]. destruct r as [ts|e]; [done|].
    destruct Hres as (n & Hn & Hrep). exists (S n). split; [lia|]. simpl. by rewrite (credit_zero w a b). }
  destruct (load_mut_cache_account a s) as [rc s1] eqn:Hl.
  destruct (load_mut_cache_account_ok _ _ Hbase rep_db _ _ _ _ _ Hs Hl) as [Hs1 Hc].
  assert (Ht1 : transition_state s1 = transition_state s) by (by eapply load_transition_state).
  destruct rc as [c|e]; [|intros [= <- <-]; split; [done|]; exists 0; split; [lia|done]].
  destruct (account_info_change_ok (λ _, tt) (λ x, saturating_add U256_MAX x b) s1 w a c Hs1 (Hc c eq_refl))
    as (t & c' & Hch & Hs2 & Hm).
  pose proof (credit_add w a b Hb) as Hcr. rewrite <-Hcr in Hs2, Hm.
  unfold increment_balance. rewrite decide_False, Hch by done.
  destruct (increment_balance_transitions l _) as [r2 s2] eqn:Hr2. intros [= <- <-].
  destruct (IH _ _ _ _ Hs2 Hr2) as [Ht2 Hres]. split; [by rewrite Ht2|].
  destruct r2 as [ts|e]; simpl.
  - destruct Hres as [Hrep Hts]. split; [done|]. by exists t, ts.
  - destruct Hres as (n & Hn & Hrep). exists (S n). split; [lia|]. done.
Qed.

(** What the increments [l] do. *)
Definition increments_exact (s : ParallelState DB) (w : World) (l : list (Address * Z)) : Prop :=
  ∀ (r : result E unit) s', increment_balances l s = (r, s') →
  match r with
  | Ok _ => state_rep code_of w0 rep_db s' (foldl credit w l) ∧
      ∃ ts, credit_transitions w l ts ∧ transition_state s' = (λ t, add_transitions t ts) <$> transition_state s
  | Err _ => transition_state s' = transition_state s ∧
      ∃ n, n < length l ∧ state_rep code_of w0 rep_db s' (foldl credit w (take n l))
  end.

Lemma increment_balances_ok l s w : state_rep code_of w0 rep_db s w → increments_exact s w l.
Proof.
  intros Hs r s'. unfold increment_balances. destruct (increment_balance_transitions l s) as [r1 s1] eqn:Hr.
  destruct (increment_balance_transitions_ok _ _ _ _ _ Hs Hr) as [Ht Hres].
  destruct r1 as [ts|e]; intros [= <- <-]; [|done]. destruct Hres as [Hrep Hts].
  split; [done|]. exists ts. split; [done|]. simpl. by rewrite Ht.
Qed.

(** ** Drains *)

Lemma drain_loop_ok l (s : ParallelState DB) w :
  state_rep code_of w0 rep_db s w →
  match drain_loop l s with
  | Panic => ∃ n x, drained_balances w l !! n = Some x ∧ (U128_MAX < x)%Z ∧
      Forall (λ x, (x ≤ U128_MAX)%Z) (take n (drained_balances w l))
  | Done (r, s') =>
    transition_state s' = transition_state s ∧
    match r with
    | Ok (bs, ts) => bs = drained_balances w l ∧ Forall (λ x, (x ≤ U128_MAX)%Z) bs ∧
        state_rep code_of w0 rep_db s' (foldl drain w l) ∧ drain_transitions w l ts
    | Err _ => ∃ n, n < length l ∧ state_rep code_of w0 rep_db s' (foldl drain w (take n l)) ∧
        Forall (λ x, (x ≤ U128_MAX)%Z) (take n (drained_balances w l))
    end
  end.
Proof.
  revert s w. induction l as [|a l IH]; intros s w Hs; simpl; [by split_and!|].
  destruct (load_mut_cache_account a s) as [rc s1] eqn:Hl.
  destruct (load_mut_cache_account_ok _ _ Hbase rep_db _ _ _ _ _ Hs Hl) as [Hs1 Hc].
  pose proof (load_transition_state _ _ _ _ Hl) as Ht1.
  destruct rc as [c|e]; [|split; [done|]; exists 0; split_and!; [lia|done|done]].
  destruct (account_info_change_ok (λ x, x) (λ _, 0%Z) s1 w a c Hs1 (Hc c eq_refl)) as (t & c' & Hch & Hs2 & Hm).
  unfold drain_balance. rewrite Hch. case_bool_decide as Hle; simpl; [|exists 0; eexists; split_and!; [done|lia|done]].
  specialize (IH _ _ Hs2). destruct (drain_loop l _) as [[[[bs ts]|e] s']|]; simpl in *.
  - destruct IH as (Ht & -> & Hb & Hrep & Hts). split_and!; [by rewrite Ht|done|by constructor|done|by exists t, ts].
  - destruct IH as (Ht & n & Hn & Hrep & Hle'). split; [by rewrite Ht|]. exists (S n).
    split_and!; [lia|done|by constructor].
  - destruct IH as (n & x & Hx & Hlt & Hle'). exists (S n), x. split_and!; [done|done|by constructor].
Qed.

(** What a drain of [l] does. *)
Definition drains_exact (s : ParallelState DB) (w : World) (l : list Address) : Prop :=
  match drain_balances l s with
  | Panic => ∃ n x, drained_balances w l !! n = Some x ∧ (U128_MAX < x)%Z ∧
      Forall (λ x, (x ≤ U128_MAX)%Z) (take n (drained_balances w l))
  | Done (Ok bs, s') => bs = drained_balances w l ∧ Forall (λ x, (x ≤ U128_MAX)%Z) bs ∧
      state_rep code_of w0 rep_db s' (foldl drain w l) ∧
      ∃ ts, drain_transitions w l ts ∧ transition_state s' = (λ t, add_transitions t ts) <$> transition_state s
  | Done (Err _, s') => transition_state s' = transition_state s ∧
      ∃ n, n < length l ∧ state_rep code_of w0 rep_db s' (foldl drain w (take n l)) ∧
        Forall (λ x, (x ≤ U128_MAX)%Z) (take n (drained_balances w l))
  end.

Lemma drain_balances_ok l s w : state_rep code_of w0 rep_db s w → drains_exact s w l.
Proof.
  intros Hs. pose proof (drain_loop_ok l s w Hs) as Hd. unfold drains_exact, drain_balances.
  destruct (drain_loop l s) as [[[[bs ts]|e] s1]|]; simpl in *; [|done|done].
  destruct Hd as (Ht & -> & Hb & Hrep & Hts). split_and!; [done..|]. exists ts. simpl. by rewrite Ht.
Qed.

(** C18. Balance changes outside a journal are exact. Increments credit the represented world one
    after the other, saturating at the largest balance, creating accounts that do not exist and
    leaving an account alone for an increment of zero; one transition per non-zero increment is
    added, from the account before to the account after it. A drain answers with the balances it
    finds, address by address (a second drain of an address finds zero), leaves the world with
    these balances at zero and adds one transition per address; it panics at the first balance
    found that does not fit in 128 bits, and only there. When a load fails, the changes before
    it stay in the represented world and no transition is added. *)
Theorem balance_changes_exact (increments : list (Address * Z)) (drained : list Address) s w :
  state_rep code_of w0 rep_db s w → increments_exact s w increments ∧ drains_exact s w drained.
Proof. intros Hs. split; [by apply increment_balances_ok|by apply drain_balances_ok]. Qed.

End balances.

(** ** Witnesses *)

Section examples.
#[local] Existing Instance revm_example.
#[local] Existing Instance revm_example_laws.
#[local] Existing Instance revmdb_example.
#[local] Existing Instance revmdb_example_laws.
#[local] Existing Instance cv_db.
#[local] Existing Instance cv_view.

(** Account 1 is credited twice, account 5 is created, account 9 is left alone. *)
Definition bl_increments : list (Address * Z) := [(1, 7); (9, 0); (5, 3); (1, 1)]%Z.

Lemma balance_changes_exact_witness : ∃ s1 s2,
  (increment_balances bl_increments cv_state = (Ok tt, s1) ∧
   state_rep (λ h, [h]) cv_w0 cv_rep s1 (foldl credit (load_world cv_w0) bl_increments) ∧
   balance <$> w_account (foldl credit (load_world cv_w0) bl_increments) 1 = Some 108%Z ∧
   balance <$> w_account (foldl credit (load_world cv_w0) bl_increments) 5 = Some 3%Z ∧
   w_account (foldl credit (load_world cv_w0) bl_increments) 9 = None) ∧
  (drain_balances [2; 1; 2]%Z cv_state = Done (Ok [5; 100; 0]%Z, s2) ∧
   state_rep (λ h, [h]) cv_w0 cv_rep s2 (foldl drain (load_world cv_w0) [2; 1; 2]%Z)).
Proof.
  destruct (balance_changes_exact (λ h, [h]) cv_w0 cv_base cv_rep bl_increments [2; 1; 2]%Z cv_state (load_world cv_w0) cv_state_rep)
    as [Hinc Hdr].
  assert (Hok1 : is_ok (increment_balances bl_increments cv_state).1 = true) by (vm_compute; reflexivity).
  assert (Hok2 : match drain_balances [2; 1; 2]%Z cv_state with Done (Ok _, _) => true | _ => false end = true)
    by (vm_compute; reflexivity).
  unfold drains_exact in Hdr. specialize (Hinc _ _ (surjective_pairing _)).
  destruct (increment_balances bl_increments cv_state) as [[[]|] s1]; [|discriminate Hok1]. simpl in Hinc.
  destruct (drain_balances [2; 1; 2]%Z cv_state) as [[[bs|] s2]|]; [|discriminate Hok2|discriminate Hok2].
  destruct Hinc as [Hrep1 _], Hdr as (Hbs & _ & Hrep2 & _). exists s1, s2. split.
  - split; [reflexivity|]. split; [exact Hrep1|]. split; [vm_compute; reflexivity|]. split; vm_compute; reflexivity.
  - split; [|exact Hrep2]. rewrite Hbs. vm_compute. reflexivity.
Defined.

End examples.
