(* ===== verification/CacheLoads.v ===== *)
(** Loads of the shared cache, access by access: [ParallelStateView] of src/src/parallel_state.rs.

    ParallelState.v gives a load (an account, the code of a hash, a slot) as one function. The
    source looks into a concurrent map, asks the database, and then inserts the value or takes
    the one that is there by then; commits run in between. Here every access of a load is a step,
    interleaved with the accesses of other loads and with commits. The theorem says that loads
    are the functions of ParallelState.v, taken at their last access, provided that no commit
    clears the storage of an account while a slot of it is being fetched. The last section shows
    a run without that condition. *)

From S2P Require Import Prelude Model Reward World ParallelState CacheView.

Section loads.
Context `{!Revm} `{!RevmDb} {DB E : Type} `{!DatabaseRef DB E}.

(** ** The accesses of a load *)

Inductive Load :=
| BasicLookup (a : Address) | BasicFetch (a : Address) | BasicInsert (a : Address) (v : option AccountInfo)
| BasicDone (a : Address) (r : result E (option AccountInfo))
| CodeLookup (h : B256) | CodeFetch (h : B256) | CodeInsert (h : B256) (c : Bytecode)
| CodeDone (h : B256) (r : result E Bytecode)
| SlotLookup (a : Address) (k : U256) | SlotKnown (a : Address) (k : U256) | SlotFetch (a : Address) (k : U256)
| SlotInsert (a : Address) (k v : U256)
| SlotDone (a : Address) (k : U256) (r : result E U256).

Definition cached_slot (s : ParallelState DB) (a : Address) (k : U256) : option U256 :=
  default ∅ (cstorage (cache s) !! a) !! k.

Definition account_storage_known (s : ParallelState DB) (a : Address) : bool :=
  match accounts (cache s) !! a with
  | Some c => is_storage_known (cai_status c) || bool_decide (account c = None)
  | None => false
  end.

(** One access: the next position of the load, and the state. *)
Definition load_access (l : Load) (s : ParallelState DB) : Load * ParallelState DB :=
  match l with
  | BasicLookup a =>
    (match accounts (cache s) !! a with Some c => BasicDone a (Ok (account c)) | None => BasicFetch a end, s)
  | BasicFetch a =>
    let '(r, db) := basic_ref (database s) a in
    (match r with Ok v => BasicInsert a v | Err e => BasicDone a (Err e) end, set_database db s)
  | BasicInsert a v =>
    match accounts (cache s) !! a with
    | Some c => (BasicDone a (Ok (account c)), s)
    | None => let c := loaded_account v in (BasicDone a (Ok (account c)), set_cache (set_account a c (cache s)) s)
    end
  | CodeLookup h =>
    (match contracts (cache s) !! h with Some c => CodeDone h (Ok c) | None => CodeFetch h end, s)
  | CodeFetch h =>
    let '(r, db) := code_by_hash_ref (database s) h in
    (match r with Ok c => CodeInsert h c | Err e => CodeDone h (Err e) end, set_database db s)
  | CodeInsert h c =>
    match contracts (cache s) !! h with
    | Some c' => (CodeDone h (Ok c'), s)
    | None => (CodeDone h (Ok c), set_cache (mkCache (accounts (cache s)) (cstorage (cache s)) (<[h := c]> (contracts (cache s)))) s)
    end
  | SlotLookup a k => (match cached_slot s a k with Some v => SlotDone a k (Ok v) | None => SlotKnown a k end, s)
  | SlotKnown a k => (if account_storage_known s a then SlotInsert a k 0 else SlotFetch a k, s)
  | SlotFetch a k =>
    let '(r, db) := storage_ref (database s) a k in
    (match r with Ok v => SlotInsert a k v | Err e => SlotDone a k (Err e) end, set_database db s)
  | SlotInsert a k v =>
    match cached_slot s a k with
    | Some v' => (SlotDone a k (Ok v'), s)
    | None => (SlotDone a k (Ok v), set_cache (update_storage_slot a {[k := v]} (cache s)) s)
    end
  | BasicDone _ _ | CodeDone _ _ | SlotDone _ _ _ => (l, s)
  end.

(** Run alone, a load is the function of ParallelState.v. *)
Fixpoint load_alone (n : nat) (l : Load) (s : ParallelState DB) : Load * ParallelState DB :=
  match n with 0 => (l, s) | S n => let '(l, s) := load_access l s in load_alone n l s end.

Lemma basic_alone a s : load_alone 3 (BasicLookup a) s = let '(r, s) := db_basic s a in (BasicDone a r, s).
Proof.
  unfold db_basic, load_mut_cache_account. simpl. destruct (accounts (cache s) !! a) as [c|] eqn:Ha; simpl; [done|].
  destruct (basic_ref (database s) a) as [[v|e] db]; simpl; [|done]. by rewrite Ha.
Qed.

Lemma code_alone h s : load_alone 3 (CodeLookup h) s = let '(r, s) := db_code_by_hash s h in (CodeDone h r, s).
Proof.
  unfold db_code_by_hash. simpl. destruct (contracts (cache s) !! h) as [c|] eqn:Hh; simpl; [done|].
  destruct (code_by_hash_ref (database s) h) as [[v|e] db]; simpl; [|done]. by rewrite Hh.
Qed.

Lemma slot_alone a k s : load_alone 4 (SlotLookup a k) s = let '(r, s) := db_storage s a k in (SlotDone a k r, s).
Proof.
  unfold db_storage. simpl. fold (cached_slot s a k). fold (account_storage_known s a).
  destruct (cached_slot s a k) as [v|] eqn:Hs; simpl; [done|].
  destruct (account_storage_known s a); simpl; [by rewrite Hs|].
  destruct (storage_ref (database s) a k) as [[v|e] db]; simpl; [|done].
  change (cached_slot (set_database db s) a k) with (cached_slot s a k). by rewrite Hs.
Qed.

(** ** Loads and commits together *)

(** The state, the loads under way, and the world that the commits so far have reached. *)
Record LoadSys := mkLoadSys {
  ls_state : ParallelState DB;
  ls_loads : gmap nat Load;
  ls_world : World
}.

(** A commit of this journal account clears the cached storage. *)
Definition clears (acc : Account) : bool :=
  match FinalizedAccount_from acc with Deleted | Created _ => true | Unchanged | Updated _ => false end.

(** A slot of [a] is being fetched: the load has seen that the storage is not known. *)
Definition fetching (a : Address) (l : Load) : Prop :=
  match l with SlotFetch b _ | SlotInsert b _ _ => a = b | _ => False end.

Definition starts_load (l : Load) : Prop :=
  match l with BasicLookup _ | CodeLookup _ | SlotLookup _ _ => True | _ => False end.

Section steps.
Context (code_of : B256 → Bytecode) (guarded : bool).

(** [guarded]: commits that clear an account wait for the fetches of its slots. *)
Inductive load_step : LoadSys → LoadSys → Prop :=
| lst_start s ls w id l :
    ls !! id = None → starts_load l → load_step (mkLoadSys s ls w) (mkLoadSys s (<[id := l]> ls) w)
| lst_access s ls w id l l' s' :
    ls !! id = Some l → load_access l s = (l', s') →
    load_step (mkLoadSys s ls w) (mkLoadSys s' (<[id := l']> ls) w)
| lst_commit s ls w a acc t c' :
    committable code_of (cache s) a acc → apply_account_state a acc (cache s) = Done (t, c') →
    (guarded = true → clears acc = true → ∀ id l, ls !! id = Some l → ¬ fetching a l) →
    load_step (mkLoadSys s ls w)
      (mkLoadSys (set_cache c' s) ls (world_set a (apply_account acc (w_account w a, w_storage w a)) w)).
End steps.

(** ** Invariant *)

Context `{!RevmLaws} `{!RevmDbLaws}.
Context (code_of : B256 → Bytecode) (w0 : World) (Hbase : base_ok w0) (rep_db : DB → World → Prop)
  `{!DatabaseView DB E code_of w0 rep_db}.
Abbreviation rep := (state_rep code_of w0 rep_db).

(** What a load under way knows. *)
Definition load_ok (s : ParallelState DB) (w : World) (l : Load) : Prop :=
  match l with
  | BasicInsert a v => acct_eqv v (w_account w0 a) ∧ code_ok code_of v
  | CodeInsert h c => ∀ a i, w_account w0 a = Some i → code_hash i = h → is_empty_code_hash i = false → c = code_of h
  | SlotFetch a k => cached_slot s a k = None → w_storage w a k = w_storage w0 a k
  | SlotInsert a k v => cached_slot s a k = None → w_storage w a k = v
  | _ => True
  end.

(** What a load that returns says of the world. *)
Definition answer_ok (w : World) (l : Load) : Prop :=
  match l with
  | BasicDone a (Ok v) => acct_eqv v (w_account w a) ∧ code_ok code_of v
  | CodeDone h (Ok c) => ∀ a i, w_account (load_world w0) a = Some i → code_hash i = h → is_empty_code_hash i = false → c = code_of h
  | SlotDone a k (Ok v) => v = w_storage w a k
  | _ => True
  end.

Definition load_done (l : Load) : bool := match l with BasicDone _ _ | CodeDone _ _ | SlotDone _ _ _ => true | _ => false end.

(** An access keeps the representation, and the load's answer is that of the world now. *)
Lemma load_access_ok l s w l' s' :
  rep s w → load_ok s w l → load_done l = false → load_access l s = (l', s') →
  rep s' w ∧ load_ok s' w l' ∧ answer_ok w l'.
Proof.
  intros [Hdb Hok] Hl Hnd. pose proof Hok as [Hcell Hcon]. destruct l as [a|a|a v|a r|h|h|h c|h r|a k|a k|a k|a k v|a k r]; simpl; try done.
  - intros [= <- <-]. destruct (accounts (cache s) !! a) as [c|] eqn:Ha; split_and!; try done.
    all: apply (co_account _ _ _ _ _ _ _ (Hcell a)); done.
  - destruct (basic_ref (database s) a) as [r db] eqn:Hv. destruct (view_basic _ _ _ _ _ Hdb Hv) as [Hdb' Hval].
    intros [= <- <-]. split; [by split|]. destruct r as [v|e]; [|done]. split; [by apply Hval|done].
  - destruct Hl as [Hv Hc]. destruct (accounts (cache s) !! a) as [c|] eqn:Ha; intros [= <- <-].
    + split; [by split|]. split; [done|]. apply (co_account _ _ _ _ _ _ _ (Hcell a)); done.
    + assert (Hok' : cache_ok code_of w0 w (set_account a (loaded_account v) (cache s))).
      { apply cache_ok_set_account; [done|]. apply loaded_cell; [done..|]. rewrite <-Ha. apply Hcell. }
      split; [by split|]. split; [done|].
      apply (co_account _ _ _ _ _ _ _ (co_cell _ _ _ _ Hok' a)). simpl. by rewrite lookup_insert_eq.
  - intros [= <- <-]. destruct (contracts (cache s) !! h) as [c|] eqn:Hh; split_and!; try done.
    intros a i Ha Hhash He. eapply Hcon; [done|by apply load_nonempty|done|done].
  - destruct (code_by_hash_ref (database s) h) as [r db] eqn:Hv. destruct (view_code _ _ _ _ _ Hdb Hv) as [Hdb' Hval].
    intros [= <- <-]. split; [by split|]. destruct r as [c|e]; [|done]. split; [|done]. intros a i. by apply Hval.
  - destruct (contracts (cache s) !! h) as [c'|] eqn:Hh; intros [= <- <-].
    + split; [by split|]. split; [done|]. intros a i Ha Hhash He. eapply Hcon; [done|by apply load_nonempty|done|done].
    + split; [|split; [done|]].
      * split; [done|]. split; [done|]. simpl. intros h' b a i [[<- <-]|[_ ?]]%lookup_insert_Some; [apply Hl|by apply Hcon].
      * intros a i Ha Hhash He. eapply Hl; [by apply load_nonempty|done|done].
  - intros [= <- <-]. split; [by split|]. unfold cached_slot. destruct (_ !! k) as [v|] eqn:Hs; [|done].
    split; [done|]. by apply (co_slot _ _ _ _ _ _ _ (Hcell a)).
  - intros [= <- <-]. split; [by split|]. unfold account_storage_known.
    pose proof (λ Hs, co_noslot _ _ _ _ _ _ _ (Hcell a) k Hs) as Hn. unfold storage_known in Hn.
    unfold cached_slot. destruct (match accounts (cache s) !! a with Some _ => _ | None => _ end); simpl; split; done.
  - destruct (storage_ref (database s) a k) as [r db] eqn:Hv. destruct (view_storage _ _ _ _ _ _ Hdb Hv) as [Hdb' Hval].
    intros [= <- <-]. split; [by split|]. destruct r as [v|e]; [|done]. split; [|done].
    intros Hs. simpl in Hl. rewrite (Hval v eq_refl). by apply Hl.
  - unfold cached_slot in *. destruct (default ∅ (cstorage (cache s) !! a) !! k) as [v'|] eqn:Hs; intros [= <- <-].
    + split; [by split|]. split; [done|]. by apply (co_slot _ _ _ _ _ _ _ (Hcell a)).
    + split; [split; [done|]; apply cache_ok_slot; [done|by apply Hl]|]. split; [done|]. symmetry. by apply Hl.
Qed.

(** Loads only add slots. *)
Lemma load_access_slots l s l' s' a k :
  load_access l s = (l', s') → cached_slot s' a k = None → cached_slot s a k = None.
Proof.
  destruct l as [b|b|b v|b r|h|h|h c|h r|b j|b j|b j|b j v|b j r]; simpl; try by intros [= <- <-].
  1: destruct (basic_ref (database s) b); by intros [= <- <-].
  1: destruct (accounts (cache s) !! b); by intros [= <- <-].
  1: destruct (code_by_hash_ref (database s) h); by intros [= <- <-].
  1: destruct (contracts (cache s) !! h); by intros [= <- <-].
  1: destruct (storage_ref (database s) b j); by intros [= <- <-].
  destruct (cached_slot s b j); intros [= <- <-]; [done|]. unfold cached_slot. simpl.
  destruct (decide (b = a)) as [->|]; [rewrite lookup_insert_eq; simpl|by rewrite lookup_insert_ne].
  by intros [_ ?]%lookup_union_None.
Qed.

(** What a commit does to cached slots. *)
Lemma commit_slots a acc c t c' :
  apply_account_state a acc c = Done (t, c') →
  (∀ b, b ≠ a → cstorage c' !! b = cstorage c !! b) ∧
  (clears acc = false → is_touched acc = true →
    default ∅ (cstorage c' !! a) = (present_value <$> changed_storage_slots acc) ∪ default ∅ (cstorage c !! a)) ∧
  (is_touched acc = false → c' = c).
Proof.
  unfold apply_account_state, clears, FinalizedAccount_from. destruct (is_touched acc); simpl; [|by intros [= _ <-]].
  assert (Hrm : ∀ (c1 : ParallelCacheState) b, cstorage c1 = cstorage (remove_storage a c) → b ≠ a → cstorage c1 !! b = cstorage c !! b).
  { intros c1 b -> Hb. simpl. by rewrite lookup_delete_ne. }
  destruct (is_selfdestructed acc).
  { intros (ci & _ & Hd)%outcome_bind_Done. destruct (selfdestruct ci) as [t1 ci1]; injection Hd as _ <-.
    split_and!; [|done|done]. intros b Hb. by apply Hrm. }
  destruct (is_created acc).
  { intros (ci & _ & Hd)%outcome_bind_Done. 
    apply outcome_bind_Done in Hd as (c2 & Hi & [= _ <-]). split_and!; [|done|done]. intros b Hb.
    rewrite update_slots_other by done. apply Hrm; [|done]. unfold insert_contract in Hi.
    repeat case_match; by simplify_eq. }
  destruct (is_empty acc).
  { intros (ci & _ & Hd)%outcome_bind_Done. destruct (touch_empty_eip161 ci) as [t1 ci1]. injection Hd as _ <-.
    split_and!; [|done|done]. intros b Hb. by apply Hrm. }
  intros (ci & _ & Hd)%outcome_bind_Done. simpl in Hd. injection Hd as _ <-.
  split_and!; [|intros _ _|done].
  - intros b Hb. by rewrite update_slots_other.
  - rewrite update_slots_lookup, decide_True by done. done.
Qed.

Lemma commit_load_ok s w a acc t c' l :
  apply_account_state a acc (cache s) = Done (t, c') → (clears acc = true → ¬ fetching a l) →
  load_ok s w l → load_ok (set_cache c' s) (world_set a (apply_account acc (w_account w a, w_storage w a)) w) l.
Proof.
  intros (Hne & Hup & Hun)%commit_slots Hq.
  assert (Hslot : ∀ b k, (clears acc = true → a ≠ b) → cached_slot (set_cache c' s) b k = None →
    cached_slot s b k = None ∧
    w_storage (world_set a (apply_account acc (w_account w a, w_storage w a)) w) b k = w_storage w b k).
  { intros b k Hb. unfold cached_slot. simpl. case_decide as Hba; [subst b|by rewrite Hne].
    destruct (clears acc) eqn:Hcl; [by destruct (Hb eq_refl)|].
    unfold apply_account. unfold clears in Hcl. unfold FinalizedAccount_from in *.
    destruct (is_touched acc); simpl in *; [|by rewrite (Hun eq_refl)].
    rewrite (Hup eq_refl eq_refl). intros [Hk1 Hk2]%lookup_union_None. split; [done|].
    destruct (is_selfdestructed acc); [done|]. destruct (is_created acc); [done|]. destruct (is_empty acc); [done|]. simpl.
    rewrite overlay_slots. by rewrite Hk1. }
  destruct l; try done; simpl in *; intros Hl Hs.
  - destruct (Hslot _ _ Hq Hs) as [? ->]. by apply Hl.
  - destruct (Hslot _ _ Hq Hs) as [? ->]. by apply Hl.
Qed.

Record loads_inv (x : LoadSys) : Prop := {
  li_rep : rep (ls_state x) (ls_world x);
  li_loads id l : ls_loads x !! id = Some l → load_ok (ls_state x) (ls_world x) l
}.

Lemma loads_inv_step x x' : load_step code_of true x x' → loads_inv x → loads_inv x'.
Proof.
  intros Hstep [Hrep Hl]. destruct Hstep as [s ls w id l Hid Hst|s ls w id l l' s' Hid Ha|s ls w a acc t c' Hcom Hap Hq]; cbn in *.
  - split; cbn; [done|]. intros id' l1 [[_ <-]|[_ ?]]%lookup_insert_Some; [by destruct l|eauto].
  - destruct (load_done l) eqn:Hd.
    { assert (l' = l ∧ s' = s) as [-> ->] by (destruct l; simpl in *; simplify_eq; done).
      split; cbn; [done|]. intros id' l1 [[_ <-]|[_ ?]]%lookup_insert_Some; eauto. }
    destruct (load_access_ok _ _ _ _ _ Hrep (Hl _ _ Hid) Hd Ha) as (Hrep' & Hl' & _).
    split; cbn; [done|]. intros id' l1 [[_ <-]|[_ Hid']]%lookup_insert_Some; [done|].
    specialize (Hl _ _ Hid'). destruct l1; simpl in *; try done; intros Hs; apply Hl; by eapply load_access_slots.
  - destruct Hrep as [Hdb Hok]. destruct (apply_account_state_ok code_of w0 Hbase w (cache s) a acc Hok Hcom) as (t1 & c1 & Hap' & _ & Hok').
    rewrite Hap in Hap'. injection Hap' as <- <-. split; cbn; [by split|].
    intros id l Hid. eapply commit_load_ok; [done| |by eapply Hl]. intros Hcl. by eapply Hq.
Qed.

(** ** Properties *)

(** C15. Loads of the cache are atomic at their last access, whatever the interleaving of their
    accesses with those of other loads and with commits, when no commit clears an account while
    a slot of it is being fetched: the state always represents the world that the commits have
    reached, and an account, a code or a slot that a load returns is the one of that world. *)
Theorem loads_atomic s w x :
  rep s w → rtc (load_step code_of true) (mkLoadSys s ∅ w) x →
  rep (ls_state x) (ls_world x) ∧
  ∀ id l l' s', ls_loads x !! id = Some l → load_done l = false → load_access l (ls_state x) = (l', s') →
    answer_ok (ls_world x) l'.
Proof.
  intros Hs Hr. assert (Hinv : loads_inv x).
  { revert Hr. apply rtc_ind_r; [|intros; by eapply loads_inv_step]. split; cbn; [done|].
    intros id l. by rewrite lookup_empty. }
  destruct Hinv as [Hrep Hl]. split; [done|]. intros id l l' s' Hid Hd Ha.
  by destruct (load_access_ok _ _ _ _ _ Hrep (Hl _ _ Hid) Hd Ha) as (_ & _ & ?).
Qed.

End loads.

(** ** A slot fetched across a clear *)

Section examples.
#[local] Existing Instance revm_example.
#[local] Existing Instance revm_example_laws.
#[local] Existing Instance revmdb_example.
#[local] Existing Instance revmdb_example_laws.
#[local] Existing Instance cv_db.
#[local] Existing Instance cv_view.

Definition is_done {A} (o : outcome A) : bool := match o with Done _ => true | Panic => false end.

(** A commit that does not panic, as a step. *)
Definition committed_cache (a : Address) (acc : Account) (s : ParallelState unit) : ParallelState unit :=
  match apply_account_state a acc (cache s) with Done (_, c') => set_cache c' s | Panic => s end.

Lemma commit_run guarded (s : ParallelState unit) ls w a acc x :
  is_done (apply_account_state a acc (cache s)) = true → committable (λ h, [h]) (cache s) a acc →
  (guarded = true → clears acc = true → ∀ id l, ls !! id = Some l → ¬ fetching a l) →
  rtc (load_step (E:=unit) (λ h, [h]) guarded)
    (mkLoadSys (committed_cache a acc s) ls (world_set a (apply_account acc (w_account w a, w_storage w a)) w)) x →
  rtc (load_step (λ h, [h]) guarded) (mkLoadSys s ls w) x.
Proof.
  intros Hd Hc Hq Hr. destruct (apply_account_state a acc (cache s)) as [[t c']|] eqn:Hap; [|done].
  eapply rtc_l; [by eapply lst_commit|]. unfold committed_cache in Hr. by rewrite Hap in Hr.
Qed.

Lemma access_run guarded (s : ParallelState unit) ls w id l x :
  ls !! id = Some l →
  rtc (load_step (E:=unit) (λ h, [h]) guarded) (mkLoadSys (load_access l s).2 (<[id := (load_access l s).1]> ls) w) x →
  rtc (load_step (λ h, [h]) guarded) (mkLoadSys s ls w) x.
Proof. intros Hl Hr. eapply rtc_l; [by eapply lst_access; [|apply surjective_pairing]|exact Hr]. Qed.

(** Contract 2, whose slot 3 holds 9, is destroyed and created again, without that slot. *)
Definition cl_destroyed : Account := mkAccount true true false (mkInfo 5 1 11 (Some [11%Z])) ∅.
Definition cl_created : Account := mkAccount true false true (mkInfo 0 1 12 (Some [12%Z])) ∅.
Definition cl_fetched : Load (E:=unit) := SlotInsert 2 3 9.
Definition cl_state : ParallelState unit := committed_cache 2 cl_created (committed_cache 2 cl_destroyed cv_state).
Definition cl_set (acc : Account) (w : World) : World := world_set 2 (apply_account acc (w_account w 2, w_storage w 2)) w.
Definition cl_world : World := cl_set cl_created (cl_set cl_destroyed (load_world cv_w0)).

Lemma cl_committable (s : ParallelState unit) acc :
  code (acc_info acc) = Some [code_hash (acc_info acc)] → is_Some (accounts (cache s) !! 2%Z) → committable (λ h, [h]) (cache s) 2 acc.
Proof.
  intros Hc Hs. split_and!; [|done|left; by rewrite Hc].
  intros i c [= <-] Hi _. rewrite Hc in Hi. by injection Hi as <-.
Qed.

(** The load has fetched the slot when the two commits happen, and then inserts it. *)
Lemma cl_run : rtc (load_step (λ h, [h]) false) (mkLoadSys cv_state ∅ (load_world cv_w0))
  (mkLoadSys (load_access cl_fetched cl_state).2 (<[0 := SlotDone 2 3 (Ok 9%Z)]> (<[0 := cl_fetched]> (<[0 := SlotFetch 2 3]>
    (<[0 := SlotKnown 2 3]> (<[0 := SlotLookup 2 3]> ∅))))) cl_world).
Proof.
  eapply rtc_l; [by eapply (lst_start _ _ _ _ _ 0 (SlotLookup 2 3))|].
  do 3 (eapply (access_run _ _ _ _ 0); [by rewrite lookup_insert_eq|]).
  eapply (commit_run _ _ _ _ 2 cl_destroyed); [by vm_compute|by apply cl_committable; [|eexists; vm_compute]|done|].
  eapply (commit_run _ _ _ _ 2 cl_created); [by vm_compute|by apply cl_committable; [|eexists; vm_compute]|done|].
  eapply (access_run _ _ _ _ 0); [by rewrite lookup_insert_eq|]. reflexivity.
Qed.

(** C40. Without that condition the cache can keep a value of a cleared account: a worker fetches a
    slot of an existing contract, the contract is destroyed and created again by two commits, and
    the worker inserts the fetched value. All loads have returned, and the state now answers 9
    for a slot that is 0. *)
Theorem stale_slot_after_clear : ∃ x,
  rtc (load_step (λ h, [h]) false) (mkLoadSys cv_state ∅ (load_world cv_w0)) x ∧
  (∀ id l, ls_loads x !! id = Some l → load_done l = true) ∧
  w_storage (ls_world x) 2 3 = 0%Z ∧ (db_storage (ls_state x) 2 3).1 = Ok 9%Z.
Proof.
  eexists. split; [exact cl_run|]. split_and!; cbn [ls_loads ls_world ls_state].
  - intros id l. rewrite !lookup_insert_Some, lookup_empty. intros [[_ <-]|[Hne Hl]]; [done|].
    by repeat destruct Hl as [[? _]|[_ Hl]].
  - by vm_compute.
  - by vm_compute.
Qed.

Lemma loads_atomic_witness : ∃ x,
  rtc (load_step (λ h, [h]) true) (mkLoadSys cv_state ∅ (load_world cv_w0)) x ∧
  state_rep (λ h, [h]) cv_w0 cv_rep (ls_state x) (ls_world x) ∧
  answer_ok (λ h, [h]) cv_w0 (ls_world x) (load_access cl_fetched (ls_state x)).1.
Proof.
  assert (Hr : rtc (load_step (λ h, [h]) true) (mkLoadSys cv_state ∅ (load_world cv_w0))
    (mkLoadSys cv_state (<[0 := cl_fetched]> (<[0 := SlotFetch 2 3]> (<[0 := SlotKnown 2 3]> (<[0 := SlotLookup 2 3]> ∅)))) (load_world cv_w0))).
  { eapply rtc_l; [by eapply (lst_start _ _ _ _ _ 0 (SlotLookup 2 3))|].
    do 3 (eapply (access_run _ _ _ _ 0); [by rewrite lookup_insert_eq|]). reflexivity. }
  eexists. split; [exact Hr|].
  destruct (loads_atomic (λ h, [h]) cv_w0 cv_base cv_rep cv_state (load_world cv_w0) _ cv_state_rep Hr) as [Hrep Ha].
  split; [exact Hrep|]. eapply (Ha 0 cl_fetched); [cbn [ls_loads]; by rewrite lookup_insert_eq|done|apply surjective_pairing].
Defined.

End examples.
