(* ===== verification/CacheExport.v ===== *)
(** Export of the concurrent cache as revm's sequential cache: [as_cache_state] of
    src/src/parallel_state.rs. *)

From S2P Require Import Prelude Model World ParallelState CacheView.

Section export.
Context `{!Revm} `{!RevmDb}.

(** revm's [PlainAccount], [CacheAccount] and [CacheState]. *)
Record PlainAccount := mkPlain { plain_info : AccountInfo; plain_storage : gmap U256 U256 }.
Record CacheAccount := mkCacheAccount { ca_account : option PlainAccount; ca_status : AccountStatus }.
Record CacheState := mkCacheState {
  cs_accounts : gmap Address CacheAccount;
  cs_contracts : gmap B256 Bytecode
}.

Definition CacheState_new : CacheState := mkCacheState ∅ ∅.

(** The bodies of the three loops. *)
Definition export_account (st : CacheState) (kv : Address * CacheAccountInfo) : CacheState :=
  let info := kv.2 in
  mkCacheState
    (<[kv.1 := mkCacheAccount ((λ i, mkPlain i ∅) <$> account info) (cai_status info)]> (cs_accounts st))
    (cs_contracts st).

Definition export_contract (st : CacheState) (kv : B256 * Bytecode) : CacheState :=
  mkCacheState (cs_accounts st) (<[kv.1 := kv.2]> (cs_contracts st)).

Definition export_slots (st : CacheState) (kv : Address * gmap U256 U256) : CacheState :=
  match cs_accounts st !! kv.1 with
  | Some (mkCacheAccount (Some plain) status) =>
    let storage := foldl (λ m s, <[s.1 := s.2]> m) (plain_storage plain) (map_to_list kv.2) in
    mkCacheState (<[kv.1 := mkCacheAccount (Some (mkPlain (plain_info plain) storage)) status]> (cs_accounts st))
      (cs_contracts st)
  | _ => st
  end.

Definition as_cache_state (c : ParallelCacheState) : CacheState :=
  let st := foldl export_account CacheState_new (map_to_list (accounts c)) in
  let st := foldl export_contract st (map_to_list (contracts c)) in
  foldl export_slots st (map_to_list (cstorage c)).

(** ** Lemmas *)

(** Inserting the entries of a map over another one. *)
Lemma foldl_insert_lookup {K A} `{Countable K} (l : list (K * A)) (m : gmap K A) k :
  NoDup l.*1 → foldl (λ m s, <[s.1 := s.2]> m) m l !! k =
  match (list_to_map l : gmap K A) !! k with Some v => Some v | None => m !! k end.
Proof.
  revert m. induction l as [|[k' v] l IH]; intros m; simpl; [by rewrite lookup_empty|].
  intros [Hni Hnd]%NoDup_cons. rewrite IH by done. destruct (decide (k' = k)) as [->|Hne].
  - rewrite lookup_insert_eq. by rewrite not_elem_of_list_to_map_1, lookup_insert_eq.
  - by rewrite !lookup_insert_ne.
Qed.

Lemma foldl_insert_map {K A} `{Countable K} (m m' : gmap K A) k :
  foldl (λ m s, <[s.1 := s.2]> m) m' (map_to_list m) !! k =
  match m !! k with Some v => Some v | None => m' !! k end.
Proof. rewrite foldl_insert_lookup by apply NoDup_fst_map_to_list. by rewrite list_to_map_to_list. Qed.

Lemma foldl_insert_union {K A} `{Countable K} (m m' : gmap K A) :
  foldl (λ m s, <[s.1 := s.2]> m) m' (map_to_list m) = m ∪ m'.
Proof. apply map_eq. intros k. rewrite foldl_insert_map, lookup_union. by destruct (m !! k), (m' !! k). Qed.

Lemma export_accounts_spec l st :
  foldl export_account st l = mkCacheState
    (foldl (λ m s, <[s.1 := s.2]> m) (cs_accounts st)
       ((λ kv, (kv.1, mkCacheAccount ((λ i, mkPlain i ∅) <$> account kv.2) (cai_status kv.2))) <$> l))
    (cs_contracts st).
Proof. revert st. induction l as [|kv l IH]; intros st; [by destruct st|]. simpl. by rewrite IH. Qed.

Lemma export_contracts_spec l st :
  foldl export_contract st l = mkCacheState (cs_accounts st) (foldl (λ m s, <[s.1 := s.2]> m) (cs_contracts st) l).
Proof. revert st. induction l as [|kv l IH]; intros st; [by destruct st|]. simpl. by rewrite IH. Qed.

(** The slots added to an exported account. *)
Definition with_slots (slots : gmap U256 U256) (c : CacheAccount) : CacheAccount :=
  mkCacheAccount ((λ p, mkPlain (plain_info p) (slots ∪ plain_storage p)) <$> ca_account c) (ca_status c).

Lemma with_slots_empty c : with_slots ∅ c = c.
Proof. destruct c as [[[i s]|] status]; unfold with_slots; simpl; by rewrite ?(left_id_L ∅ (∪)). Qed.

Lemma export_slots_lookup l st a :
  NoDup l.*1 → cs_contracts (foldl export_slots st l) = cs_contracts st ∧
  cs_accounts (foldl export_slots st l) !! a =
    with_slots (default ∅ ((list_to_map l : gmap Address (gmap U256 U256)) !! a)) <$> cs_accounts st !! a.
Proof.
  revert st. induction l as [|[a' m] l IH]; intros st; simpl.
  { intros _. split; [done|]. rewrite lookup_empty. simpl. destruct (cs_accounts st !! a); simpl; [|done].
    by rewrite with_slots_empty. }
  intros [Hni Hnd]%NoDup_cons. destruct (IH (export_slots st (a', m)) Hnd) as [-> ->].
  assert (Hc : cs_contracts (export_slots st (a', m)) = cs_contracts st).
  { unfold export_slots. simpl. by destruct (cs_accounts st !! a') as [[[?|] ?]|]. }
  split; [done|]. destruct (decide (a' = a)) as [->|Hne].
  - rewrite lookup_insert_eq, (not_elem_of_list_to_map_1 _ _ Hni). simpl. unfold export_slots. simpl.
    destruct (cs_accounts st !! a) as [[[[i s]|] status]|] eqn:Ha; simpl; [|by rewrite Ha|by rewrite Ha].
    rewrite (lookup_insert_eq (cs_accounts st)). cbn [fmap option_fmap option_map].
    rewrite with_slots_empty. unfold with_slots. simpl.
    rewrite foldl_insert_union. done.
  - rewrite lookup_insert_ne by done. f_equal. unfold export_slots. simpl.
    destruct (cs_accounts st !! a') as [[[?|] ?]|]; simpl; [by rewrite lookup_insert_ne|done|done].
Qed.

(** The exported account: its value with all its cached slots. *)
Lemma as_cache_state_lookup c a :
  cs_contracts (as_cache_state c) = contracts c ∧
  cs_accounts (as_cache_state c) !! a =
    (λ ci, mkCacheAccount ((λ i, mkPlain i (default ∅ (cstorage c !! a))) <$> account ci) (cai_status ci)) <$> accounts c !! a.
Proof.
  unfold as_cache_state.
  set (st := foldl export_contract _ _).
  destruct (export_slots_lookup (map_to_list (cstorage c)) st a) as [-> ->]; [apply NoDup_fst_map_to_list|].
  rewrite list_to_map_to_list. unfold st. rewrite export_contracts_spec, export_accounts_spec. simpl. split.
  - apply map_eq. intros h. rewrite foldl_insert_map, lookup_empty. by destruct (contracts c !! h).
  - rewrite foldl_insert_lookup.
    2: { rewrite <-list_fmap_compose. apply (NoDup_fst_map_to_list (accounts c)). }
    rewrite lookup_empty.
    set (f := λ ci, mkCacheAccount ((λ i, mkPlain i ∅) <$> account ci) (cai_status ci)).
    change (λ kv : Address * CacheAccountInfo, _) with (prod_map (id (A:=Address)) f).
    rewrite list_to_map_fmap, list_to_map_to_list, lookup_fmap.
    destruct (accounts c !! a) as [[[i|] status]|]; simpl; try done.
    unfold with_slots. simpl. by rewrite (right_id_L ∅ (∪)).
Qed.

End export.

Section exact.
Context `{!Revm} `{!RevmDb} {DB E : Type} `{!DatabaseRef DB E} `{!RevmLaws} `{!RevmDbLaws}.
Context (code_of : B256 → Bytecode) (w0 : World) (rep_db : DB → World → Prop)
  `{!DatabaseView DB E code_of w0 rep_db}.

(** The exported cache is exact: every account of the cache, and no other, is exported with
    its status, an existing account with all its cached slots, and its value and slots are those
    of the world that the state represents; the contracts are the cached ones. *)
Theorem exported_cache_exact (s : ParallelState DB) w :
  state_rep code_of w0 rep_db s w →
  let st := as_cache_state (cache s) in
  cs_contracts st = contracts (cache s) ∧
  ∀ a, match cs_accounts st !! a with
       | None => accounts (cache s) !! a = None
       | Some c =>
         (∃ ci, accounts (cache s) !! a = Some ci ∧ ca_status c = cai_status ci) ∧
         acct_eqv (plain_info <$> ca_account c) (w_account w a) ∧
         ∀ p, ca_account c = Some p → plain_storage p = default ∅ (cstorage (cache s) !! a) ∧
           ∀ k x, plain_storage p !! k = Some x → x = w_storage w a k
       end.
Proof.
  intros [_ [Hcell _]]. split; [apply (as_cache_state_lookup (cache s) 0)|]. intros a.
  rewrite (proj2 (as_cache_state_lookup (cache s) a)). specialize (Hcell a).
  destruct (accounts (cache s) !! a) as [ci|] eqn:Ha; simpl; [|done]. split_and!.
  - by exists ci.
  - destruct (co_account _ _ _ _ _ _ _ Hcell ci eq_refl) as [Heq _]. by destruct (account ci).
  - intros p Hp. destruct (account ci) as [i|]; [|done]. injection Hp as <-. simpl. split; [done|].
    intros k x Hx. by apply (co_slot _ _ _ _ _ _ _ Hcell).
Qed.

End exact.

(** ** Witness *)

Section examples.
#[local] Existing Instance revm_example.
#[local] Existing Instance revm_example_laws.
#[local] Existing Instance revmdb_example.
#[local] Existing Instance revmdb_example_laws.
#[local] Existing Instance cv_db.
#[local] Existing Instance cv_view.

Lemma exported_cache_exact_witness :
  cs_contracts (as_cache_state (cache cv_state)) = contracts (cache cv_state) ∧
  is_Some (cs_accounts (as_cache_state (cache cv_state)) !! 2%Z).
Proof.
  split; [|by eexists; vm_compute; reflexivity].
  apply (exported_cache_exact (λ h, [h]) cv_w0 cv_rep cv_state (load_world cv_w0)). apply cv_state_rep.
Defined.

End examples.
