(* ===== verification/Bundle.v ===== *)
(** Bundle extraction: src/src/bundle.rs, and the bundle operations of src/src/parallel_state.rs.

    The crate derives the bundle and revert data of every transition first (on a thread pool)
    and updates the bundle in a second, serial phase. The theorem shows that the two phases
    produce what revm's one-pass routine produces. *)

From S2P Require Import Prelude Model Reward World ParallelState CacheView.

(** revm's [BundleRetention]. *)
Inductive BundleRetention := PlainState | Reverts.

Definition includes_reverts (r : BundleRetention) : bool :=
  match r with PlainState => false | Reverts => true end.

(** The functions of revm-database that build a bundle. [revm_step] is the body of revm's loop
    over the transitions: bundle and pending reverts in, bundle and pending reverts out. *)
Class RevmBundle `{RevmDb} := {
  has_new_contract : TransitionAccount → option (B256 * Bytecode);
  present_bundle_account : TransitionAccount → BundleAccount;
  create_revert : TransitionAccount → option AccountRevert;
  bundle_account_size_hint : BundleAccount → nat;
  revert_size_hint : AccountRevert → nat;
  revm_step : bool → Address → TransitionAccount → BundleState * list (Address * AccountRevert) →
    BundleState * list (Address * AccountRevert);
  apply_transitions_and_create_reverts : gmap Address TransitionAccount → BundleRetention →
    BundleState → BundleState
}.

Section bundle.
Context `{!Revm} `{!RevmDb} `{!RevmBundle}.

(** [self.reverts.push(reverts)]. *)
Definition push_reverts (reverts : list (Address * AccountRevert)) (b : BundleState) : BundleState :=
  mkBundleState (bs_state b) (bs_contracts b) (bs_reverts b ++ [reverts]) (bs_state_size b)
    (bs_reverts_size b).

(** What revm's loop does with a transition of an address the bundle does not hold: it stores
    the new contract, and the account and its revert when there is a revert. *)
Definition vacant_step (include : bool) (a : Address) (t : TransitionAccount)
    (s : BundleState * list (Address * AccountRevert)) :
    BundleState * list (Address * AccountRevert) :=
  let '(b, reverts) := s in
  let present := present_bundle_account t in
  let contracts :=
    match has_new_contract t with
    | Some (hash, code) => <[hash := code]> (bs_contracts b)
    | None => bs_contracts b
    end in
  match create_revert t with
  | Some r =>
    (mkBundleState (<[a := present]> (bs_state b)) contracts (bs_reverts b)
       (bs_state_size b + bundle_account_size_hint present)
       (if include then bs_reverts_size b + revert_size_hint r else bs_reverts_size b),
     if include then reverts ++ [(a, r)] else reverts)
  | None =>
    (mkBundleState (bs_state b) contracts (bs_reverts b) (bs_state_size b) (bs_reverts_size b), reverts)
  end.

(** Documented behaviour of revm's routine: one pass over the transitions in map order. *)
Class RevmBundleLaws := {
  revm_one_pass ts r b :
    apply_transitions_and_create_reverts ts r b =
    let '(b', reverts) :=
      foldl (λ s '(a, t), revm_step (includes_reverts r) a t s) (b, []) (map_to_list ts) in
    push_reverts reverts b';
  revm_vacant include a t b reverts : bs_state b !! a = None →
    revm_step include a t (b, reverts) = vacant_step include a t (b, reverts)
}.

(** ** The crate's routine *)

Record ProcessedAccount := mkProcessedAccount {
  pa_address : Address;
  pa_present : BundleAccount;
  pa_revert : option AccountRevert;
  pa_state_size : nat;
  pa_revert_size : nat
}.

Record ProcessedTransition := mkProcessedTransition {
  pt_contract : option (B256 * Bytecode);
  pt_account : option ProcessedAccount
}.

(** The parallel phase, one transition. *)
Definition process_transition (include_reverts : bool) (address : Address)
    (transition : TransitionAccount) : ProcessedTransition :=
  let contract := has_new_contract transition in
  let present := present_bundle_account transition in
  let account :=
    (λ revert,
       let '(revert, revert_size) :=
         if include_reverts then (Some revert, revert_size_hint revert) else (None, 0) in
       mkProcessedAccount address present revert (bundle_account_size_hint present) revert_size)
    <$> create_revert transition in
  mkProcessedTransition contract account.

(** The serial phase, one prepared transition. *)
Definition apply_processed (s : BundleState * list (Address * AccountRevert))
    (p : ProcessedTransition) : BundleState * list (Address * AccountRevert) :=
  let '(b, reverts) := s in
  let b :=
    match pt_contract p with
    | Some (hash, code) =>
      mkBundleState (bs_state b) (<[hash := code]> (bs_contracts b)) (bs_reverts b)
        (bs_state_size b) (bs_reverts_size b)
    | None => b
    end in
  match pt_account p with
  | Some account =>
    (mkBundleState (<[pa_address account := pa_present account]> (bs_state b)) (bs_contracts b)
       (bs_reverts b) (bs_state_size b + pa_state_size account)
       (bs_reverts_size b + pa_revert_size account),
     match pa_revert account with
     | Some revert => reverts ++ [(pa_address account, revert)]
     | None => reverts
     end)
  | None => (b, reverts)
  end.

Definition parallel_apply_transitions_and_create_reverts (transitions : gmap Address TransitionAccount)
    (retention : BundleRetention) (b : BundleState) : BundleState :=
  if bool_decide (bs_state b ≠ ∅) || bool_decide (bs_contracts b ≠ ∅) || bool_decide (bs_reverts b ≠ [])
  then apply_transitions_and_create_reverts transitions retention b
  else
    let include_reverts := includes_reverts retention in
    let processed :=
      (λ '(address, transition), process_transition include_reverts address transition)
      <$> map_to_list transitions in
    let '(b, reverts) := foldl apply_processed (b, []) processed in
    push_reverts reverts b.

(** [self.transition_state.as_mut().map(TransitionState::take)]. *)
Definition take_transitions {DB} (s : ParallelState DB) :
    option (gmap Address TransitionAccount) * ParallelState DB :=
  (transition_state s,
   mkParallelState (cache s) (database s) ((λ _, ∅) <$> transition_state s) (bundle_state s)
     (block_hashes s)).

Definition set_bundle {DB} (b : BundleState) (s : ParallelState DB) : ParallelState DB :=
  mkParallelState (cache s) (database s) (transition_state s) b (block_hashes s).

Definition take_bundle {DB} (s : ParallelState DB) : BundleState * ParallelState DB :=
  (bundle_state s, set_bundle BundleState_default s).

Definition merge_transitions {DB} (retention : BundleRetention) (s : ParallelState DB) :
    ParallelState DB :=
  let '(transitions, s) := take_transitions s in
  match transitions with
  | Some ts => set_bundle (apply_transitions_and_create_reverts ts retention (bundle_state s)) s
  | None => s
  end.

Definition parallel_take_bundle {DB} (retention : BundleRetention) (s : ParallelState DB) :
    BundleState * ParallelState DB :=
  let '(transitions, s) := take_transitions s in
  let s :=
    match transitions with
    | Some ts =>
      set_bundle (parallel_apply_transitions_and_create_reverts ts retention (bundle_state s)) s
    | None => s
    end in
  take_bundle s.

(** ** Equivalence *)

Context `{!RevmBundleLaws}.

Lemma apply_processed_vacant include a t b reverts :
  bs_state b !! a = None →
  apply_processed (b, reverts) (process_transition include a t) = revm_step include a t (b, reverts).
Proof.
  intros Hv. rewrite revm_vacant by done. unfold apply_processed, process_transition, vacant_step. simpl.
  destruct (has_new_contract t) as [[h c]|], (create_revert t) as [r|]; simpl;
    destruct include; simpl; rewrite ?Nat.add_0_r; done || by destruct b.
Qed.

Lemma revm_step_state include a t b reverts x :
  bs_state b !! a = None → x ≠ a →
  bs_state (revm_step include a t (b, reverts)).1 !! x = bs_state b !! x.
Proof.
  intros Hv Hx. rewrite revm_vacant by done. unfold vacant_step.
  destruct (create_revert t); simpl; [by rewrite lookup_insert_ne|done].
Qed.

(** Over distinct vacant addresses, preparing first and applying later is revm's loop. *)
Lemma two_phase_one_pass include l : ∀ b reverts,
  NoDup l.*1 → (∀ a, a ∈ l.*1 → bs_state b !! a = None) →
  foldl apply_processed (b, reverts) ((λ '(a, t), process_transition include a t) <$> l) =
  foldl (λ s '(a, t), revm_step include a t s) (b, reverts) l.
Proof.
  induction l as [|[a t] l IH]; intros b reverts Hnd Hv; [done|].
  inversion_clear Hnd as [|? ? Hnin Hnd']. cbn [fmap list_fmap foldl].
  assert (Ha : bs_state b !! a = None) by (apply Hv; left).
  rewrite apply_processed_vacant by done.
  destruct (revm_step include a t (b, reverts)) as [b' reverts'] eqn:Hs. apply IH; [done|].
  intros x Hx. assert (x ≠ a) by (intros ->; done).
  replace b' with (revm_step include a t (b, reverts)).1 by (by rewrite Hs).
  rewrite revm_step_state by done. apply Hv. by right.
Qed.

Lemma parallel_apply_eq transitions retention b :
  parallel_apply_transitions_and_create_reverts transitions retention b =
  apply_transitions_and_create_reverts transitions retention b.
Proof.
  unfold parallel_apply_transitions_and_create_reverts.
  destruct (decide (bs_state b = ∅)) as [Hs|Hs].
  2: by rewrite bool_decide_true.
  destruct (decide (bs_contracts b = ∅)) as [Hc|Hc].
  2: by rewrite (bool_decide_true _ Hc), orb_true_r.
  destruct (decide (bs_reverts b = [])) as [Hr|Hr].
  2: by rewrite (bool_decide_true _ Hr), orb_true_r.
  rewrite !bool_decide_false by auto. simpl. rewrite revm_one_pass, two_phase_one_pass; [done| |].
  - apply NoDup_fst_map_to_list.
  - intros a _. by rewrite Hs, lookup_empty.
Qed.

(** C27. The two-phase bundle construction is revm's: whatever the bundle already holds and
    whether reverts are retained, the parallel routine leaves exactly the bundle (accounts,
    contracts, reverts and size accounting) of revm's one-pass routine; so extracting a block's
    bundle in parallel returns what merging the pending transitions with revm and taking the
    bundle returns, and leaves the same state behind. *)
Theorem parallel_bundle_matches_revm {DB} retention (s : ParallelState DB) :
  (∀ transitions b, parallel_apply_transitions_and_create_reverts transitions retention b =
     apply_transitions_and_create_reverts transitions retention b) ∧
  parallel_take_bundle retention s = take_bundle (merge_transitions retention s).
Proof.
  split; [intros; apply parallel_apply_eq|].
  unfold parallel_take_bundle, merge_transitions, take_transitions.
  destruct (transition_state s); [by rewrite parallel_apply_eq|done].
Qed.

End bundle.

(** ** Witness *)

Section examples.
#[local] Existing Instance revm_example.
#[local] Existing Instance revmdb_example.

(** A transition reverts when it changes the account; an occupied entry is overwritten. *)
#[local] Instance revmbundle_example : RevmBundle.
Proof.
  refine (
  let size := λ _ : TransitionAccount, 1 in
  let new_contract := λ t : TransitionAccount,
    match ta_info t with
    | Some i => match code i with Some c => Some (code_hash i, c) | None => None end
    | None => None
    end in
  let revert := λ t : TransitionAccount,
    if decide (ta_status t = ta_previous_status t) then None else Some t in
  let base := {|
    has_new_contract := new_contract; present_bundle_account t := t; create_revert := revert;
    bundle_account_size_hint := size; revert_size_hint := size;
    revm_step _ _ _ s := s; apply_transitions_and_create_reverts _ _ b := b |} in
  let step := @vacant_step _ base in
  {| has_new_contract := new_contract; present_bundle_account t := t; create_revert := revert;
     bundle_account_size_hint := size; revert_size_hint := size;
     revm_step := step;
     apply_transitions_and_create_reverts ts r b :=
       let '(b', reverts) := foldl (λ s '(a, t), step (includes_reverts r) a t s) (b, []) (map_to_list ts) in
       push_reverts reverts b' |}).
Defined.

#[local] Instance revmbundle_example_laws : RevmBundleLaws.
Proof. by split. Qed.

(** A state with two pending transitions, one of them without effect. *)
Definition bx_state : ParallelState unit :=
  mkParallelState ParallelCacheState_new tt
    (Some (<[1%Z := mkTransition (Some (mkInfo 5 1 11 (Some [11%Z]))) InMemoryChange None LoadedNotExisting ∅ false]>
          (<[2%Z := mkTransition None LoadedNotExisting None LoadedNotExisting ∅ false]> ∅)))
    BundleState_default ∅.

Lemma parallel_bundle_matches_revm_witness :
  parallel_take_bundle Reverts bx_state = take_bundle (merge_transitions Reverts bx_state) ∧
  bs_state_size (parallel_take_bundle Reverts bx_state).1 = 1.
Proof.
  split; [|by vm_compute].
  apply (parallel_bundle_matches_revm Reverts bx_state).
Defined.

End examples.
