(* ===== verification/OrderedCommit.v ===== *)
(** Ordered commit: src/src/scheduler/ordered_commit.rs.

    The commit stage takes finalized speculative results in block order. It rechecks the
    transaction nonce against the committed prefix, folds a deferred beneficiary reward into
    the transaction's state, commits that state and appends the outcome. The theorem covers
    every way the stage can end. *)

From S2P Require Import Prelude Model Reward World ParallelState CacheView.

Section commit.
Context `{!Revm} `{!RevmDb} {DB E : Type} `{!DatabaseRef DB E}.

(** Exclusive end of the prefix committed in block order. *)
Record CommittedPrefixEnd := mkPrefixEnd { prefix_index : TxId }.
Definition CommittedPrefixEnd_ZERO : CommittedPrefixEnd := mkPrefixEnd 0.

Inductive CommitOutcome :=
| Committed (e : CommittedPrefixEnd)
| NeedsSequentialFallback.

Record OrderedCommitOutput := mkOutput { outcomes : list TxExecutionOutcome }.

Definition output_end (o : OrderedCommitOutput) : CommittedPrefixEnd :=
  mkPrefixEnd (length (outcomes o)).

Definition push (r : ExecutionResult) (o : OrderedCommitOutput) :
    CommittedPrefixEnd * OrderedCommitOutput :=
  let o := mkOutput (outcomes o ++ [ExecutedOutcome r]) in (output_end o, o).

Record OrderedCommitter := mkCommitter {
  oc_beneficiary : Address;
  oc_state : ParallelState DB;
  disable_nonce_check : bool
}.

Definition set_oc_state (s : ParallelState DB) (c : OrderedCommitter) : OrderedCommitter :=
  mkCommitter (oc_beneficiary c) s (disable_nonce_check c).

(** [info.map_or(0, |info| info.nonce)]. *)
Definition nonce_of (info : option AccountInfo) : Z := default 0%Z (nonce <$> info).

(** [Account::from(info)] followed by [mark_touch]. *)
Definition touched_account (info : AccountInfo) : Account := mkAccount true false false info ∅.

(** The nonce guard: continue, ask for the fallback, or report the database error. *)
Inductive NonceVerdict := NonceMatches | NonceFallback | NonceError (e : E).

Definition check_nonce (tx_env : TxEnv) (c : OrderedCommitter) : NonceVerdict * OrderedCommitter :=
  if negb (disable_nonce_check c) then
    let '(r, s) := db_basic (oc_state c) (caller tx_env) in
    let c := set_oc_state s c in
    match r with
    | Ok info =>
      let expect := nonce_of info in
      if bool_decide (tx_nonce tx_env = U64_MAX) && bool_decide (expect = U64_MAX) then
        (NonceFallback, c)
      else
        match (tx_nonce tx_env ?= expect)%Z with
        | Gt => (NonceFallback, c)
        | Lt => (NonceFallback, c)
        | Eq => (NonceMatches, c)
        end
    | Err e => (NonceError e, c)
    end
  else (NonceMatches, c).

(** The deferred reward as an account change of the transaction. *)
Definition settle_reward (deferred_reward : option DeferredBeneficiaryReward) (state : EvmState)
    (c : OrderedCommitter) : outcome (result E EvmState * OrderedCommitter) :=
  match deferred_reward with
  | Some reward =>
    let! _ := assert_that (negb (bool_decide (is_Some (state !! oc_beneficiary c)))) in
    let '(r, s) := db_basic (oc_state c) (oc_beneficiary c) in
    Done (result_map (λ info, <[oc_beneficiary c := touched_account (apply_to reward info)]> state) r,
          set_oc_state s c)
  | None => Done (Ok state, c)
  end.

(** [OrderedCommitter::commit]. *)
Definition ordered_commit (txid : TxId) (tx_env : TxEnv) (speculative_result : SpeculativeResult)
    (output : OrderedCommitOutput) (c : OrderedCommitter) :
    outcome (result (GrevmError E) CommitOutcome * OrderedCommitOutput * OrderedCommitter) :=
  let result := sr_result speculative_result in
  match check_nonce tx_env c with
  | (NonceFallback, c) => Done (Ok NeedsSequentialFallback, output, c)
  | (NonceError e, c) => Done (Err (mkGrevmError txid (Database e)), output, c)
  | (NonceMatches, c) =>
    let! (r, c) := settle_reward (sr_deferred_reward speculative_result) (sr_state speculative_result) c in
    match r with
    | Err e => Done (Err (mkGrevmError txid (Database e)), output, c)
    | Ok state =>
      let! s := commit state (oc_state c) in
      let '(prefix_end, output) := push result output in
      Done (Ok (Committed prefix_end), output, set_oc_state s c)
    end
  end.

(** ** Specification *)

Context `{!RevmLaws} `{!RevmDbLaws}.
Context (code_of : B256 → Bytecode) (w0 : World) (Hbase : base_ok w0) (rep_db : DB → World → Prop)
  `{!DatabaseView DB E code_of w0 rep_db}.

Abbreviation rep := (state_rep code_of w0 rep_db).

(** What the stage needs of a finalized result: its touched accounts are cached, a deferred
    reward is positive and comes without a beneficiary write. *)
Record result_committable (c : OrderedCommitter) (w : World) (sr : SpeculativeResult) : Prop := {
  rc_accounts a acc : sr_state sr !! a = Some acc → committable code_of (cache (oc_state c)) a acc;
  rc_reward r : sr_deferred_reward sr = Some r →
    sr_state sr !! oc_beneficiary c = None ∧ (0 < deferred_amount r ≤ U256_MAX)%Z ∧
    (0 ≤ balance (default info_default (w_account w (oc_beneficiary c))))%Z
}.

Lemma state_rep_proper s w w' : world_eqv w w' → rep s w → rep s w'.
Proof.
  intros [Ha Hs] [Hdb [Hc Hk]]. split; [done|]. split; [|done]. intros a.
  destruct (Hc a) as [H1' H2' H3' H4' H5' H6']. split; try done.
  - intros c Hci. rewrite <-Ha. by apply H1'.
  - intros Hci. rewrite <-Ha. by apply H2'.
  - intros k x Hx. rewrite <-Hs. by apply H5'.
  - intros k Hk'. rewrite <-Hs. by apply H6'.
Qed.

Lemma db_basic_grows (s : ParallelState DB) a r s' :
  db_basic s a = (r, s') →
  cache_grows (cache s) (cache s') ∧ (is_ok r = true → is_Some (accounts (cache s') !! a)).
Proof.
  unfold db_basic, load_mut_cache_account. destruct (accounts (cache s) !! a) as [ci|] eqn:Ha.
  { intros [= <- <-]. by rewrite Ha. }
  destruct (basic_ref (database s) a) as [[v|e] db]; intros [= <- <-]; [|done].
  split; simpl; [eapply set_account_grows; [done|done]|]. intros _. by rewrite lookup_insert_eq.
Qed.

Lemma result_committable_grows c s' w sr :
  cache_grows (cache (oc_state c)) (cache s') → result_committable c w sr →
  result_committable (set_oc_state s' c) w sr.
Proof.
  intros Hg [Hacc Hrew]. split; simpl; [|done].
  intros a acc Hin. eapply committable_grows; [done|]. by apply Hacc.
Qed.

Lemma nonce_of_eqv v v' : acct_eqv v v' → nonce_of v = nonce_of v'.
Proof. intros [i j (_ & ? & _)|]; simpl; done. Qed.

(** The nonce guard against the represented world. *)
Lemma check_nonce_ok tx c w v c' :
  rep (oc_state c) w → check_nonce tx c = (v, c') →
  rep (oc_state c') w ∧ cache_grows (cache (oc_state c)) (cache (oc_state c')) ∧
  c' = set_oc_state (oc_state c') c ∧
  match v with
  | NonceMatches => disable_nonce_check c = false →
      tx_nonce tx = nonce_of (w_account w (caller tx)) ∧ tx_nonce tx ≠ U64_MAX
  | NonceFallback => disable_nonce_check c = false ∧
      (tx_nonce tx ≠ nonce_of (w_account w (caller tx)) ∨ tx_nonce tx = U64_MAX)
  | NonceError _ => disable_nonce_check c = false
  end.
Proof.
  intros Hrep. unfold check_nonce. destruct (disable_nonce_check c) eqn:Hd; simpl.
  { intros [= <- <-]. split_and!; [done|done|by destruct c|done]. }
  destruct (db_basic (oc_state c) (caller tx)) as [r s] eqn:Hb.
  destruct (db_basic_grows _ _ _ _ Hb) as [Hg _].
  destruct (db_basic_ok code_of w0 Hbase rep_db _ _ _ _ _ Hrep Hb) as [Hrep' Hv].
  destruct r as [info|e]; [|intros [= <- <-]; by split_and!].
  destruct (Hv info eq_refl) as [Heqv _]. apply nonce_of_eqv in Heqv. rewrite Heqv.
  case_bool_decide as Hm; simpl; [case_bool_decide as Hn; simpl|];
    try destruct (Z.compare_spec (tx_nonce tx) (nonce_of (w_account w (caller tx))));
    intros [= <- <-]; split_and!; try done; lia || (intros; split; congruence || lia).
Qed.

(** A settled reward is [apply_reward] of the specification. *)
Lemma apply_to_non_empty r info :
  (0 < deferred_amount r ≤ U256_MAX)%Z → (0 ≤ balance (default info_default info))%Z →
  info_is_empty (apply_to r info) = false.
Proof.
  intros Hr Hb. destruct (info_is_empty (apply_to r info)) eqn:He; [|done].
  apply info_is_empty_balance in He. unfold apply_to, checked_add in He.
  case_decide as Hle; simpl in He; lia.
Qed.

Lemma apply_to_code r v :
  code_hash (apply_to r v) = code_hash (default info_default v) ∧
  code (apply_to r v) = code (default info_default v).
Proof. unfold apply_to. by destruct (checked_add _ _ _). Qed.

Lemma apply_to_code_ok r v : code_ok code_of v → code_ok code_of (Some (apply_to r v)).
Proof.
  intros Hv i c [= <-]. rewrite (is_empty_code_hash_hash _ (default info_default v)) by apply apply_to_code.
  destruct (apply_to_code r v) as [-> ->]. destruct v as [j|]; simpl; [by apply Hv|].
  by rewrite info_default_empty_code_hash.
Qed.

Lemma touched_account_world ben r state w v :
  state !! ben = None → info_is_empty (apply_to r v) = false → acct_eqv v (w_account w ben) →
  world_eqv (apply_changes (<[ben := touched_account (apply_to r v)]> state) w)
    (apply_reward ben r (apply_changes state w)).
Proof.
  intros Hs He Hv. split.
  - intros a. simpl. destruct (decide (a = ben)) as [->|Hne].
    + rewrite lookup_insert_eq, Hs. unfold apply_account, FinalizedAccount_from, is_empty. simpl.
      rewrite He. simpl. constructor. by apply apply_to_proper.
    + by rewrite lookup_insert_ne.
  - intros a k. simpl. destruct (decide (a = ben)) as [->|Hne]; [|by rewrite lookup_insert_ne].
    rewrite lookup_insert_eq, Hs. unfold apply_account, FinalizedAccount_from, is_empty. simpl.
    rewrite He. simpl. unfold overlay, changed_storage_slots. simpl. by rewrite map_filter_empty, lookup_empty.
Qed.

Lemma settle_reward_ok c w sr :
  rep (oc_state c) w → result_committable c w sr →
  ∃ r c', settle_reward (sr_deferred_reward sr) (sr_state sr) c = Done (r, c') ∧
    rep (oc_state c') w ∧ cache_grows (cache (oc_state c)) (cache (oc_state c')) ∧
    c' = set_oc_state (oc_state c') c ∧
    ∀ state, r = Ok state →
      (∀ a acc, state !! a = Some acc → committable code_of (cache (oc_state c')) a acc) ∧
      world_eqv (apply_changes state w) (commit_result (oc_beneficiary c) w sr).
Proof.
  intros Hrep [Hacc Hrew]. unfold settle_reward, commit_result.
  destruct (sr_deferred_reward sr) as [r|] eqn:Hr.
  2: { eexists _, _. split_and!; [done|done|done|by destruct c|]. intros state [= <-]. split; [done|reflexivity]. }
  destruct (Hrew r eq_refl) as (Hnone & Hpos & Hbal). rewrite Hnone. simpl.
  destruct (db_basic (oc_state c) (oc_beneficiary c)) as [v s] eqn:Hb.
  destruct (db_basic_grows _ _ _ _ Hb) as [Hg Hin].
  destruct (db_basic_ok code_of w0 Hbase rep_db _ _ _ _ _ Hrep Hb) as [Hrep' Hv].
  eexists _, _. split_and!; [done|done|done|done|]. intros state Hst.
  destruct v as [v|]; [|done]. injection Hst as <-. destruct (Hv v eq_refl) as [Heqv Hcode]. simpl.
  assert (He : info_is_empty (apply_to r v) = false).
  { apply apply_to_non_empty; [done|]. destruct Heqv as [i j (Hij & _)|]; simpl in *; [by rewrite Hij|done]. }
  split; [|by apply touched_account_world].
  intros a acc [[<- <-]|[_ Ha]]%lookup_insert_Some; [|by eapply committable_grows; [|apply Hacc]].
  split_and!; simpl; [by apply apply_to_code_ok|by intros _; apply Hin|].
  unfold FinalizedAccount_from, is_empty. simpl. by rewrite He.
Qed.

(** Every way the stage can end; the cache only grows and the committer's configuration stays. *)
Lemma ordered_commit_ok txid tx sr out c w :
  rep (oc_state c) w → result_committable c w sr →
  ∃ r out' c', ordered_commit txid tx sr out c = Done (r, out', c') ∧
    c' = set_oc_state (oc_state c') c ∧ cache_grows (cache (oc_state c)) (cache (oc_state c')) ∧
    match r with
    | Ok (Committed e) =>
        outcomes out' = outcomes out ++ [ExecutedOutcome (sr_result sr)] ∧
        prefix_index e = S (length (outcomes out)) ∧
        rep (oc_state c') (commit_result (oc_beneficiary c) w sr) ∧
        (disable_nonce_check c = false →
           tx_nonce tx = nonce_of (w_account w (caller tx)) ∧ tx_nonce tx ≠ U64_MAX)
    | Ok NeedsSequentialFallback =>
        out' = out ∧ rep (oc_state c') w ∧ disable_nonce_check c = false ∧
        (tx_nonce tx ≠ nonce_of (w_account w (caller tx)) ∨ tx_nonce tx = U64_MAX)
    | Err e => out' = out ∧ rep (oc_state c') w ∧ ge_txid e = txid ∧ ∃ d, error e = Database d
    end.
Proof.
  intros Hrep Hrc. unfold ordered_commit. destruct (check_nonce tx c) as [v c1] eqn:Hn.
  destruct (check_nonce_ok _ _ _ _ _ Hrep Hn) as (Hrep1 & Hg1 & Hc1 & Hv).
  destruct v.
  2: { eexists _, _, _. split; [done|]. by simpl. }
  2: { eexists _, _, _. split; [done|]. simpl. by eauto 10. }
  assert (Hrc1 : result_committable c1 w sr) by (rewrite Hc1; by apply result_committable_grows).
  destruct (settle_reward_ok c1 w sr Hrep1 Hrc1) as (r & c2 & -> & Hrep2 & Hg2 & Hc2 & Hok). simpl.
  assert (Hc12 : ∀ st, set_oc_state st c2 = set_oc_state st c) by (intros; rewrite Hc2, Hc1; done).
  destruct r as [state|e].
  2: { eexists _, _, _. split; [done|]. simpl. split_and!; [by rewrite Hc2, Hc1|by etrans|done|done|done|eauto]. }
  destruct (Hok state eq_refl) as [Hcom Heqv]. destruct Hrep2 as [Hdb Hcache].
  destruct (apply_evm_state_ok code_of w0 Hbase _ _ _ Hcache Hcom) as (ts & c3 & Hap & Hg3 & Hok3).
  unfold commit. rewrite Hap. simpl. eexists _, _, _. split; [done|]. simpl. split_and!; [done| |done| | |exact Hv].
  - etrans; [exact Hg1|]. etrans; [exact Hg2|exact Hg3].
  - rewrite length_app. simpl. lia.
  - replace (oc_beneficiary c) with (oc_beneficiary c1) by (by rewrite Hc1).
    by eapply state_rep_proper.
Qed.

(** C9. Ordered commit of a committable result: its touched accounts are cached, its new accounts
    come with their code, a deferred reward is positive and comes without a write of the
    beneficiary, whose balance is not negative (Serial.v shows this of every final result). It
    then does not panic and ends in one of three ways. A committed result extends the outcomes by exactly its own result, publishes the new prefix
    length, carries the nonce the committed state expects, and leaves the state that the
    specification reaches by committing it: its account changes, and its deferred reward added
    exactly once. A nonce mismatch, or an exhausted nonce, asks for the sequential fallback, and
    a database error is reported with the transaction's id; both leave the represented state
    and the outcomes as they were. *)
Theorem ordered_commit_spec txid tx sr out c w :
  rep (oc_state c) w → result_committable c w sr →
  ∃ r out' c', ordered_commit txid tx sr out c = Done (r, out', c') ∧
    match r with
    | Ok (Committed e) =>
        outcomes out' = outcomes out ++ [ExecutedOutcome (sr_result sr)] ∧
        prefix_index e = S (length (outcomes out)) ∧
        rep (oc_state c') (commit_result (oc_beneficiary c) w sr) ∧
        (disable_nonce_check c = false →
           tx_nonce tx = nonce_of (w_account w (caller tx)) ∧ tx_nonce tx ≠ U64_MAX)
    | Ok NeedsSequentialFallback =>
        out' = out ∧ rep (oc_state c') w ∧ disable_nonce_check c = false ∧
        (tx_nonce tx ≠ nonce_of (w_account w (caller tx)) ∨ tx_nonce tx = U64_MAX)
    | Err e => out' = out ∧ rep (oc_state c') w ∧ ge_txid e = txid ∧ ∃ d, error e = Database d
    end.
Proof.
  intros Hrep Hrc. destruct (ordered_commit_ok txid tx sr out c w Hrep Hrc) as (r & out' & c' & ? & _ & _ & ?). eauto.
Qed.

End commit.

(** ** Witness *)

Section examples.
#[local] Existing Instance revm_example.
#[local] Existing Instance revm_example_laws.
#[local] Existing Instance revmdb_example.
#[local] Existing Instance revmdb_example_laws.
#[local] Existing Instance cv_db.
#[local] Existing Instance cv_view.

Definition oc_example : OrderedCommitter := mkCommitter 77 cv_state false.
Definition oc_tx : TxEnv := mkTxEnv 1 0 10 (Call 2) 21000 1.
Definition oc_result : SpeculativeResult := deferred (5%Z : ExecutionResult) cv_changes (mkDeferred 7).

(** The beneficiary did not exist; after the commit it holds the reward. *)
Lemma ordered_commit_spec_witness :
  ∃ e out' c', ordered_commit 0 oc_tx oc_result (mkOutput []) oc_example = Done (Ok (Committed e), out', c') ∧
    state_rep (λ h, [h]) cv_w0 cv_rep (oc_state c') (commit_result 77 (load_world cv_w0) oc_result) ∧
    balance <$> w_account (commit_result 77 (load_world cv_w0) oc_result) 77 = Some 7%Z.
Proof.
  destruct (ordered_commit_spec (λ h, [h]) cv_w0 cv_base cv_rep 0 oc_tx oc_result (mkOutput []) oc_example
    (load_world cv_w0)) as (r & out' & c' & Heq & Hr).
  - apply cv_state_rep.
  - split; simpl.
    + apply cv_committable.
    + intros r [= <-]. split; [by vm_compute|]. simpl. unfold U256_MAX. lia.
  - assert (Hc : match ordered_commit 0 oc_tx oc_result (mkOutput []) oc_example with
                 | Done (Ok (Committed _), _, _) => true | _ => false end = true) by (by vm_compute).
    rewrite Heq in Hc. destruct r as [[e|]|]; [|done|done].
    exists e, out', c'. split; [exact Heq|]. split; [apply Hr|by vm_compute].
Defined.

End examples.
