(* ===== verification/TxDependency.v ===== *)
(** Dependency scheduling: src/src/tx_dependency.rs.

    The graph decides when a transaction is offered to a worker again. Its operations run under
    the locks of the entries they touch; [next] takes its index before it locks the entry, and
    workers hold claimed transactions between operations. [dep_step] interleaves them at that
    granularity, and the invariant shows that no wakeup is lost. *)

From S2P Require Import Prelude Model.
From stdpp Require Import gmultiset.

Record DependentState := mkDependentState {
  onboard : bool;
  dependency : option TxId
}.

Definition DependentState_default : DependentState := mkDependentState true None.

Record TxDependency := mkTxDependency {
  num_txs : nat;
  dependent_state : list DependentState;
  affect_txs : list (gset TxId);
  dep_index : nat
}.

Definition TxDependency_new (num_txs : nat) : TxDependency :=
  mkTxDependency num_txs (replicate num_txs DependentState_default) (replicate num_txs ∅) 0.

Definition set_dep_index (i : nat) (d : TxDependency) : TxDependency :=
  mkTxDependency (num_txs d) (dependent_state d) (affect_txs d) i.
Definition set_dependent (l : list DependentState) (d : TxDependency) : TxDependency :=
  mkTxDependency (num_txs d) l (affect_txs d) (dep_index d).
Definition set_affect (l : list (gset TxId)) (d : TxDependency) : TxDependency :=
  mkTxDependency (num_txs d) (dependent_state d) l (dep_index d).

(** [self.index.fetch_min(tx)]. *)
Definition fetch_min (tx : TxId) (d : TxDependency) : TxDependency :=
  set_dep_index (Nat.min (dep_index d) tx) d.

(** The [fetch_add] of [next]; concurrent callers may push the cursor past the end. *)
Definition next_claim (d : TxDependency) : option TxId * TxDependency :=
  let i := dep_index d in
  (if decide (num_txs d ≤ i) then None else Some i, set_dep_index (S i) d).

(** The locked section of [next]: the entry is claimed when it is eligible. *)
Definition next_resolve (i : TxId) (d : TxDependency) : outcome (option TxId * TxDependency) :=
  let! st := index (dependent_state d) i in
  if onboard st && bool_decide (dependency st = None) then
    Done (Some i, set_dependent (<[i := mkDependentState false (dependency st)]> (dependent_state d)) d)
  else Done (None, d).

Definition next (d : TxDependency) : outcome (option TxId * TxDependency) :=
  if decide (num_txs d ≤ dep_index d) then Done (None, d)
  else
    match next_claim d with
    | (None, d) => Done (None, d)
    | (Some i, d) => next_resolve i d
    end.

(** One dependent of [remove]. *)
Definition remove_one (txid : TxId) (pop_next : bool) (tx : TxId) (s : option TxId * TxDependency) :
    outcome (option TxId * TxDependency) :=
  let '(next, d) := s in
  let! dependent := index (dependent_state d) tx in
  if bool_decide (dependency dependent = Some txid) then
    if onboard dependent then
      if pop_next && bool_decide (tx = txid + 1) && bool_decide (tx < dep_index d) then
        Done (Some tx, set_dependent (<[tx := mkDependentState false None]> (dependent_state d)) d)
      else
        Done (next, fetch_min tx (set_dependent (<[tx := mkDependentState true None]> (dependent_state d)) d))
    else Done (next, set_dependent (<[tx := mkDependentState false None]> (dependent_state d)) d)
  else Done (next, d).

Fixpoint remove_loop (txid : TxId) (pop_next : bool) (l : list TxId) (s : option TxId * TxDependency) :
    outcome (option TxId * TxDependency) :=
  match l with
  | [] => Done s
  | tx :: l => let! s := remove_one txid pop_next tx s in remove_loop txid pop_next l s
  end.

Definition remove (txid : TxId) (pop_next : bool) (d : TxDependency) :
    outcome (option TxId * TxDependency) :=
  let! affects := index (affect_txs d) txid in
  if decide (affects = ∅) then Done (None, d)
  else
    let! (next, d) := remove_loop txid pop_next (elements affects) (None, d) in
    Done (next, set_affect (<[txid := ∅]> (affect_txs d)) d).

Definition dep_commit (txid : TxId) (d : TxDependency) : outcome TxDependency :=
  let next := txid + 1 in
  if decide (next < num_txs d) then
    let! st := index (dependent_state d) next in
    if onboard st then
      Done (fetch_min next (set_dependent (<[next := mkDependentState true None]> (dependent_state d)) d))
    else Done d
  else Done d.

(** [commit_idx] is the value read from the committed cursor under the entry's lock. *)
Definition key_tx (txid : TxId) (commit_idx : nat) (d : TxDependency) : outcome TxDependency :=
  let! st := index (dependent_state d) txid in
  let dependency := if decide (commit_idx < txid) then Some txid else dependency st in
  let d := set_dependent (<[txid := mkDependentState true dependency]> (dependent_state d)) d in
  Done (if decide (dependency = None) then fetch_min txid d else d).

Definition add (txid : TxId) (dep_id : option TxId) (d : TxDependency) : outcome TxDependency :=
  match dep_id with
  | Some dep_id =>
    let! _ := assert_that (bool_decide (dep_id < txid)) in
    let! dep := index (affect_txs d) dep_id in
    let! dep_state := index (dependent_state d) dep_id in
    let! _ := index (dependent_state d) txid in
    let d := set_dependent (<[txid := mkDependentState true (Some dep_id)]> (dependent_state d)) d in
    let d := set_affect (<[dep_id := {[txid]} ∪ dep]> (affect_txs d)) d in
    let d := set_dependent (<[dep_id := mkDependentState true (dependency dep_state)]> (dependent_state d)) d in
    Done (if decide (dependency dep_state = None) then fetch_min dep_id d else d)
  | None =>
    let! st := index (dependent_state d) txid in
    if onboard st then Done d
    else Done (fetch_min txid (set_dependent (<[txid := mkDependentState true None]> (dependent_state d)) d))
  end.

(** ** Interleaving *)

(** The graph with what the workers hold: indices taken by [next] whose entry is not locked yet,
    transactions claimed by workers, and running [remove] calls with the dependents they have
    not visited. The commit thread publishes the committed prefix before it calls [commit]. *)
Record DepSys := mkDepSys {
  ds_dep : TxDependency;
  ds_flight : list TxId;
  ds_busy : gmultiset TxId;
  ds_removing : gmap TxId (list TxId);
  ds_committed : nat;
  ds_releasing : option TxId
}.

Definition DepSys_new (n : nat) : DepSys := mkDepSys (TxDependency_new n) [] ∅ ∅ 0 None.

Definition claimed (r : option TxId) (busy : gmultiset TxId) : gmultiset TxId :=
  match r with Some tx => {[+ tx +]} ⊎ busy | None => busy end.

Inductive dep_step : DepSys → DepSys → Prop :=
| step_claim d fl busy rm c rel r d' :
    next_claim d = (r, d') →
    dep_step (mkDepSys d fl busy rm c rel)
      (mkDepSys d' (match r with Some i => i :: fl | None => fl end) busy rm c rel)
| step_resolve d l1 i l2 busy rm c rel r d' :
    next_resolve i d = Done (r, d') →
    dep_step (mkDepSys d (l1 ++ i :: l2) busy rm c rel) (mkDepSys d' (l1 ++ l2) (claimed r busy) rm c rel)
| step_duplicate d fl busy rm c rel tx :
    tx ∈ busy →
    dep_step (mkDepSys d fl ({[+ tx +]} ⊎ busy) rm c rel) (mkDepSys d fl busy rm c rel)
| step_remove_begin d fl busy rm c rel txid affects :
    rm !! txid = None → index (affect_txs d) txid = Done affects →
    dep_step (mkDepSys d fl ({[+ txid +]} ⊎ busy) rm c rel)
      (mkDepSys d fl busy (<[txid := elements affects]> rm) c rel)
| step_remove_one d fl busy rm c rel txid pop tx l r d' :
    rm !! txid = Some (tx :: l) → remove_one txid pop tx (None, d) = Done (r, d') →
    dep_step (mkDepSys d fl busy rm c rel) (mkDepSys d' fl (claimed r busy) (<[txid := l]> rm) c rel)
| step_remove_end d fl busy rm c rel txid :
    rm !! txid = Some [] →
    dep_step (mkDepSys d fl busy rm c rel)
      (mkDepSys (set_affect (<[txid := ∅]> (affect_txs d)) d) fl busy (delete txid rm) c rel)
| step_add d fl busy rm c rel txid dep d' :
    (∀ e, dep = Some e → rm !! e = None) → add txid dep d = Done d' →
    dep_step (mkDepSys d fl busy rm c rel) (mkDepSys d' fl busy rm c rel)
| step_add_release d fl busy rm c rel txid dep d' :
    (∀ e, dep = Some e → rm !! e = None) → add txid dep d = Done d' →
    dep_step (mkDepSys d fl ({[+ txid +]} ⊎ busy) rm c rel) (mkDepSys d' fl busy rm c rel)
| step_key_tx d fl busy rm c rel txid d' :
    key_tx txid c d = Done d' →
    dep_step (mkDepSys d fl ({[+ txid +]} ⊎ busy) rm c rel) (mkDepSys d' fl busy rm c rel)
| step_publish d fl busy rm c :
    dep_step (mkDepSys d fl busy rm c None) (mkDepSys d fl busy rm (S c) (Some c))
| step_commit d fl busy rm c k d' :
    dep_commit k d = Done d' →
    dep_step (mkDepSys d fl busy rm c (Some k)) (mkDepSys d' fl busy rm c None).

(** ** Invariant *)

Definition dst (d : TxDependency) (tx : TxId) : DependentState :=
  default (mkDependentState false None) (dependent_state d !! tx).
Definition aff (d : TxDependency) (tx : TxId) : gset TxId := default ∅ (affect_txs d !! tx).

(** [tx] is blocked on [e] for a reason that will be resolved. *)
Definition blocked_on (s : DepSys) (tx e : TxId) : Prop :=
  (e = tx ∧ (ds_committed s < tx ∨ ∃ k, ds_releasing s = Some k ∧ tx = S k)) ∨
  (e < tx ∧ tx ∈ aff (ds_dep s) e ∧
     (onboard (dst (ds_dep s) e) = true ∨ e ∈ ds_busy s ∨ is_Some (ds_removing s !! e))).

Record dep_inv (s : DepSys) : Prop := {
  di_states : length (dependent_state (ds_dep s)) = num_txs (ds_dep s);
  di_affects : length (affect_txs (ds_dep s)) = num_txs (ds_dep s);
  di_affect_gt e tx : tx ∈ aff (ds_dep s) e → e < tx;
  di_claimable tx : onboard (dst (ds_dep s) tx) = true → dependency (dst (ds_dep s) tx) = None →
    dep_index (ds_dep s) ≤ tx ∨ tx ∈ ds_flight s;
  di_blocked tx e : dependency (dst (ds_dep s) tx) = Some e →
    onboard (dst (ds_dep s) tx) = true ∧ blocked_on s tx e;
  di_removing e l tx : ds_removing s !! e = Some l → dependency (dst (ds_dep s) tx) = Some e →
    e = tx ∨ tx ∈ l;
  di_releasing k : ds_releasing s = Some k → ds_committed s = S k
}.

Lemma dst_insert d i x tx :
  i < length (dependent_state d) →
  dst (set_dependent (<[i := x]> (dependent_state d)) d) tx = if decide (tx = i) then x else dst d tx.
Proof.
  intros. unfold dst. simpl. case_decide; [subst; by rewrite list_lookup_insert_eq|by rewrite list_lookup_insert_ne].
Qed.

Lemma dst_lookup d i st : dependent_state d !! i = Some st → dst d i = st ∧ i < length (dependent_state d).
Proof. intros Hi. unfold dst. rewrite Hi. split; [done|]. by eapply lookup_lt_Some. Qed.

Lemma dst_onboard_lt d i : onboard (dst d i) = true → i < length (dependent_state d).
Proof. unfold dst. destruct (dependent_state d !! i) eqn:Hi; [intros _; by eapply lookup_lt_Some|done]. Qed.

Lemma dep_inv_init n : dep_inv (DepSys_new n).
Proof.
  assert (Hst : ∀ tx, dependency (dst (TxDependency_new n) tx) = None).
  { intros tx. unfold dst. simpl. by destruct (replicate n DependentState_default !! tx) eqn:Ht;
      [apply lookup_replicate_1 in Ht as [-> _]|]. }
  split; simpl.
  - by rewrite length_replicate.
  - by rewrite length_replicate.
  - intros e tx. unfold aff. simpl. destruct (replicate n ∅ !! e) eqn:He; simpl; [|set_solver].
    apply lookup_replicate_1 in He as [-> _]. set_solver.
  - intros. left. lia.
  - intros tx e. by rewrite Hst.
  - intros e l tx ?. by rewrite Hst.
  - done.
Qed.

(** [e] is eligible, claimed by a worker, or being removed. *)
Definition held (s : DepSys) (e : TxId) : Prop :=
  onboard (dst (ds_dep s) e) = true ∨ e ∈ ds_busy s ∨ is_Some (ds_removing s !! e).

Lemma blocked_on_mono s s' tx e :
  ds_committed s' = ds_committed s → ds_releasing s' = ds_releasing s →
  (tx ∈ aff (ds_dep s) e → tx ∈ aff (ds_dep s') e) → (held s e → held s' e) →
  blocked_on s tx e → blocked_on s' tx e.
Proof. unfold blocked_on, held. intros -> ->. naive_solver. Qed.

Lemma claimed_mono r busy e : e ∈ busy → e ∈ claimed r busy.
Proof. destruct r; simpl; multiset_solver. Qed.

Lemma dep_inv_claim d fl busy rm c rel :
  dep_inv (mkDepSys d fl busy rm c rel) →
  dep_inv (mkDepSys (next_claim d).2
    (match (next_claim d).1 with Some i => i :: fl | None => fl end) busy rm c rel).
Proof.
  intros [? ? ? Hc Hb Hr Hrel]. unfold next_claim. split; simpl in *; try done.
  intros tx Hon Hdep. change (onboard (dst d tx) = true) in Hon.
  assert (Hlt := dst_onboard_lt _ _ Hon). destruct (Hc tx Hon Hdep) as [Hi|Hi].
  - destruct (decide (dep_index d = tx)) as [->|]; [|left; lia].
    right. rewrite decide_False by lia. left.
  - right. case_decide; [done|by right].
Qed.

Lemma dep_inv_resolve d l1 i l2 busy rm c rel r d' :
  dep_inv (mkDepSys d (l1 ++ i :: l2) busy rm c rel) → next_resolve i d = Done (r, d') →
  dep_inv (mkDepSys d' (l1 ++ l2) (claimed r busy) rm c rel).
Proof.
  intros [Hl ? ? Hc Hb Hr Hrel]. unfold next_resolve.
  intros (st & [Hst Hlt]%index_Done%dst_lookup & Hd)%outcome_bind_Done. simpl in *.
  destruct (onboard st && _) eqn:Hel; simplify_eq/=.
  - apply andb_true_iff in Hel as [Hon Hdep%bool_decide_eq_true].
    set (d' := set_dependent _ d).
    assert (Hdst : ∀ tx, dst d' tx = if decide (tx = i) then mkDependentState false (dependency (dst d i)) else dst d tx)
      by (intros; by apply dst_insert).
    split; simpl; rewrite ?length_insert; try done.
    + intros tx. rewrite Hdst. case_decide as Ht; [done|]. intros Ht1 Ht2. destruct (Hc tx Ht1 Ht2) as [|Hf]; [by left|].
      right. apply elem_of_app in Hf as [?|[?|?]%elem_of_cons]; [set_solver|done|set_solver].
    + intros tx e. rewrite Hdst. case_decide as Ht; [by subst; rewrite Hdep|]. intros He.
      destruct (Hb tx e He) as [? Hbl].
      split; [done|]. eapply blocked_on_mono, Hbl; try done. unfold held. simpl.
      rewrite Hdst. case_decide; [subst; intros _; right; left; multiset_solver|].
      intros [?|[?|?]]; [by left|right; left; multiset_solver|by right; right].
    + intros e l tx He. rewrite Hdst. case_decide as Ht; [by subst; rewrite Hdep|]. by apply Hr.
  - split; simpl; try done. intros tx Ht1 Ht2. destruct (Hc tx Ht1 Ht2) as [|Hf]; [by left|].
    apply elem_of_app in Hf as [?|[->|?]%elem_of_cons]; [right; set_solver| |right; set_solver].
    exfalso. rewrite Ht1, Ht2 in Hel. by rewrite bool_decide_true in Hel.
Qed.

Lemma dep_inv_duplicate d fl busy rm c rel tx :
  dep_inv (mkDepSys d fl ({[+ tx +]} ⊎ busy) rm c rel) → tx ∈ busy →
  dep_inv (mkDepSys d fl busy rm c rel).
Proof.
  intros [? ? ? Hc Hb Hr Hrel] Hin. split; simpl in *; try done. intros x e He.
  destruct (Hb x e He) as [? Hbl]. split; [done|]. eapply blocked_on_mono, Hbl; try done.
  unfold held. simpl. intros [?|[?|?]]; [by left| |by right; right]. right; left. multiset_solver.
Qed.

Lemma dep_inv_remove_begin d fl busy rm c rel txid affects :
  dep_inv (mkDepSys d fl ({[+ txid +]} ⊎ busy) rm c rel) → index (affect_txs d) txid = Done affects →
  dep_inv (mkDepSys d fl busy (<[txid := elements affects]> rm) c rel).
Proof.
  intros [? ? ? Hc Hb Hr Hrel] Ha%index_Done. split; simpl in *; try done.
  - intros x e He. destruct (Hb x e He) as [? Hbl]. split; [done|]. eapply blocked_on_mono, Hbl; try done.
    unfold held. simpl. destruct (decide (e = txid)) as [->|].
    + intros _. right; right. by rewrite lookup_insert_eq.
    + rewrite lookup_insert_ne by done. intros [?|[?|?]]; [by left| |by right; right]. right; left. multiset_solver.
  - intros e l tx [[<- <-]|[_ He]]%lookup_insert_Some Hd; [|by eapply Hr].
    destruct (Hb tx _ Hd) as [_ [[? _]|(_ & Hin & _)]]; [by left|]. right. simpl in Hin.
    apply elem_of_elements. unfold aff in Hin. by rewrite Ha in Hin.
Qed.

Lemma dep_inv_remove_end d fl busy rm c rel txid :
  dep_inv (mkDepSys d fl busy rm c rel) → rm !! txid = Some [] →
  dep_inv (mkDepSys (set_affect (<[txid := ∅]> (affect_txs d)) d) fl busy (delete txid rm) c rel).
Proof.
  intros [Hl Hla Hgt Hc Hb Hr Hrel] Hrm. simpl in *.
  assert (Hno : ∀ tx, dependency (dst d tx) = Some txid → txid = tx).
  { intros tx Hd. destruct (Hr _ _ _ Hrm Hd) as [|Hin]; [done|]. by apply not_elem_of_nil in Hin. }
  assert (Haff : ∀ e, e ≠ txid → aff (set_affect (<[txid := ∅]> (affect_txs d)) d) e = aff d e).
  { intros e He. unfold aff. simpl. by rewrite list_lookup_insert_ne. }
  split; simpl; rewrite ?length_insert; try done.
  - intros e tx. destruct (decide (e = txid)) as [->|He]; [|rewrite Haff by done; apply Hgt].
    unfold aff. simpl. destruct (decide (txid < length (affect_txs d))).
    + rewrite list_lookup_insert_eq by done. set_solver.
    + rewrite list_insert_ge by lia. apply Hgt.
  - intros tx e He. destruct (Hb tx e He) as [? Hbl]. split; [done|].
    destruct (decide (e = txid)) as [->|Hne].
    { left. destruct Hbl as [?|(? & _)]; [done|]. specialize (Hno tx He). simpl in *. lia. }
    eapply blocked_on_mono, Hbl; try done; simpl; [by rewrite Haff|].
    unfold held. simpl. by rewrite lookup_delete_ne.
  - intros e l tx [? He]%lookup_delete_Some. by apply Hr.
Qed.

(** The invariant after an operation that rewrites the entry [i] and may lower the cursor. *)
Lemma dep_inv_update d fl busy busy' rm rm' c rel rel' i x n :
  let s := mkDepSys d fl busy rm c rel in
  let s' := mkDepSys (set_dep_index n (set_dependent (<[i := x]> (dependent_state d)) d)) fl busy' rm' c rel' in
  dep_inv s → i < length (dependent_state d) → n ≤ dep_index d →
  (onboard x = true → dependency x = None → n ≤ i) →
  (∀ e, dependency x = Some e → onboard x = true ∧ blocked_on s' i e ∧ ∀ l, rm' !! e = Some l → e = i ∨ i ∈ l) →
  (∀ e, held s e → held s' e) →
  (∀ e l', rm' !! e = Some l' → ∃ l, rm !! e = Some l ∧ ∀ tx, tx ≠ i → tx ∈ l → tx ∈ l') →
  (rel' = rel ∨ rel' = None ∧ ∀ k, rel = Some k → i = S k) →
  dep_inv s'.
Proof.
  intros s s' [Hl Hla Hgt Hc Hb Hr Hrel] Hi Hn Hx1 Hx2 Hheld Hrm Hrel'. simpl in *.
  assert (Hdst : ∀ tx, dst (ds_dep s') tx = if decide (tx = i) then x else dst d tx)
    by (intros; by apply dst_insert).
  split; simpl; rewrite ?length_insert; try done.
  - intros tx. change (dst _ tx) with (dst (ds_dep s') tx). rewrite Hdst. case_decide as Ht.
    { subst. intros. left. auto. }
    intros Ht1 Ht2. destruct (Hc tx Ht1 Ht2) as [?|?]; [left; lia|by right].
  - intros tx e. change (dst _ tx) with (dst (ds_dep s') tx). rewrite Hdst. case_decide as Ht.
    { subst. intros He. by destruct (Hx2 e He) as (? & ? & _). }
    intros He. destruct (Hb tx e He) as [? Hbl]. split; [done|].
    destruct Hbl as [[? Hbar]|(? & ? & ?)]; [left|right; split_and!; [done|done|by apply Hheld]].
    split; [done|]. destruct Hbar as [?|(k & Hk & ?)]; [by left|]. right. simpl in *.
    destruct Hrel' as [->|[_ Hki]]; [eauto|]. specialize (Hki k Hk). lia.
  - intros e l' tx He. change (dst _ tx) with (dst (ds_dep s') tx). rewrite Hdst. case_decide as Ht.
    { subst. intros Hd. destruct (Hx2 e Hd) as (_ & _ & Hin). eauto. }
    intros Hd. destruct (Hrm e l' He) as (l & Hle & Hin). destruct (Hr e l tx Hle Hd); auto.
  - intros k Hk. destruct Hrel' as [->|[-> _]]; [by apply Hrel|done].
Qed.

Lemma held_update d fl busy busy' rm rm' c c' rel rel' i x n e :
  i < length (dependent_state d) →
  (onboard x = true ∨ i ∈ busy' ∨ is_Some (rm' !! i) ∨ ¬ held (mkDepSys d fl busy rm c rel) i) →
  (∀ e, e ≠ i → e ∈ busy → e ∈ busy') → (∀ e, e ≠ i → is_Some (rm !! e) → is_Some (rm' !! e)) →
  held (mkDepSys d fl busy rm c rel) e →
  held (mkDepSys (set_dep_index n (set_dependent (<[i := x]> (dependent_state d)) d)) fl busy' rm' c' rel') e.
Proof.
  intros Hi Hx Hbusy Hrm. unfold held. simpl.
  change (dst (set_dep_index _ ?d') e) with (dst d' e). rewrite dst_insert by done.
  case_decide as He; [subst|].
  - intros Hh. destruct Hx as [?|[?|[?|[]]]]; auto.
  - intros [?|[?|?]]; auto.
Qed.

Lemma dep_inv_remove_one d fl busy rm c rel txid pop tx l r d' :
  dep_inv (mkDepSys d fl busy rm c rel) → rm !! txid = Some (tx :: l) →
  remove_one txid pop tx (None, d) = Done (r, d') →
  dep_inv (mkDepSys d' fl (claimed r busy) (<[txid := l]> rm) c rel).
Proof.
  intros Hinv Hrm. unfold remove_one.
  intros (st & [Hst Hlt]%index_Done%dst_lookup & Hd)%outcome_bind_Done.
  assert (Hrm' : ∀ e l', <[txid := l]> rm !! e = Some l' →
    ∃ l0, rm !! e = Some l0 ∧ ∀ y, y ≠ tx → y ∈ l0 → y ∈ l').
  { intros e l' [[<- <-]|[_ He]]%lookup_insert_Some; [|eauto].
    eexists. split; [done|]. intros y Hy [?|?]%elem_of_cons; done. }
  assert (Hdom : ∀ e, e ≠ tx → is_Some (rm !! e) → is_Some (<[txid := l]> rm !! e)).
  { intros e _ He. apply lookup_insert_is_Some. destruct (decide (txid = e)); auto. }
  case_bool_decide as Hdep.
  2: { simplify_eq/=. destruct Hinv as [? ? ? ? Hb Hr ?]. split; simpl in *; try done.
    - intros y e He. destruct (Hb y e He) as [? Hbl]. split; [done|]. eapply blocked_on_mono, Hbl; try done.
      unfold held. simpl. intros [?|[?|?]]; [by left|by right; left|right; right].
      apply lookup_insert_is_Some. destruct (decide (txid = e)); auto.
    - intros e l' y [[<- <-]|[_ He]]%lookup_insert_Some Hy; [|by eapply Hr].
      destruct (Hr _ _ _ Hrm Hy) as [|[->|?]%elem_of_cons]; [by left|congruence|by right]. }
  destruct (onboard st) eqn:Hon; [destruct (pop && _ && _)|]; simplify_eq/=.
  - apply (dep_inv_update d fl busy _ rm _ c rel rel tx _ (dep_index d)); try done; [|by left].
    intros e. apply held_update; [done| | |done]; [right; left|intros]; simpl; multiset_solver.
  - apply (dep_inv_update d fl busy _ rm _ c rel rel tx); try done; [simpl; lia|simpl; lia| |by left].
    intros e. apply held_update; [done|by left|done|done].
  - destruct (di_blocked _ Hinv tx txid); simpl in *; congruence.
Qed.

Lemma dep_inv_publish d fl busy rm c :
  dep_inv (mkDepSys d fl busy rm c None) → dep_inv (mkDepSys d fl busy rm (S c) (Some c)).
Proof.
  intros [? ? ? ? Hb ? ?]. split; simpl in *; try done; [|by intros k [= ->]].
  intros tx e He. destruct (Hb tx e He) as [? Hbl]. split; [done|].
  destruct Hbl as [[-> [Hlt|(? & ? & _)]]|?]; [left; split; [done|]|done|by right]. simpl in *.
  destruct (decide (tx = S c)); [right; eauto|left; lia].
Qed.

Lemma dep_inv_commit d fl busy rm c k d' :
  dep_inv (mkDepSys d fl busy rm c (Some k)) → dep_commit k d = Done d' →
  dep_inv (mkDepSys d' fl busy rm c None).
Proof.
  intros Hinv. pose proof (di_releasing _ Hinv k eq_refl) as Hk. simpl in Hk. subst c. unfold dep_commit.
  assert (Hdrop : dependency (dst d (S k)) ≠ Some (S k) → dep_inv (mkDepSys d fl busy rm (S k) None)).
  { intros Hne. destruct Hinv as [? ? ? ? Hb ? ?]. split; simpl in *; try done.
    intros tx e He. destruct (Hb tx e He) as [? Hbl]. split; [done|].
    destruct Hbl as [[-> [?|(k' & [= <-] & ->)]]|?]; [left; eauto|done|by right]. }
  case_decide as Hlt.
  2: { intros [= <-]. apply Hdrop. intros Hd. destruct (di_blocked _ Hinv _ _ Hd) as [Hon _]. simpl in *.
       apply dst_onboard_lt in Hon. pose proof (di_states _ Hinv) as Hl. simpl in Hl. lia. }
  intros (st & [Hst Hlen]%index_Done%dst_lookup & Hd)%outcome_bind_Done.
  replace (k + 1) with (S k) in * by lia. destruct (onboard st) eqn:Hon; simplify_eq/=.
  - apply (dep_inv_update d fl busy busy rm rm (S k) (Some k) None (S k)); try done; simpl; [lia|lia| |eauto|].
    + intros e. apply held_update; [done|by left|done|done].
    + right. split; [done|]. by intros ? [= <-].
  - apply Hdrop. intros Hd. destruct (di_blocked _ Hinv _ _ Hd) as [Hon' _]. simpl in *. congruence.
Qed.

Lemma busy_release (busy : gmultiset TxId) txid e : e ≠ txid → e ∈ {[+ txid +]} ⊎ busy → e ∈ busy.
Proof. multiset_solver. Qed.

Lemma dep_inv_key_tx d fl busy busy' rm c rel txid d' :
  dep_inv (mkDepSys d fl busy rm c rel) → (∀ e, e ≠ txid → e ∈ busy → e ∈ busy') →
  key_tx txid c d = Done d' → dep_inv (mkDepSys d' fl busy' rm c rel).
Proof.
  intros Hinv Hbusy. unfold key_tx.
  intros (st & [Hst Hlt]%index_Done%dst_lookup & Hd)%outcome_bind_Done. injection Hd as <-.
  set (dep := if decide (c < txid) then Some txid else dependency st).
  assert (Hheld : ∀ n e, held (mkDepSys d fl busy rm c rel) e → held (mkDepSys (set_dep_index n
    (set_dependent (<[txid := mkDependentState true dep]> (dependent_state d)) d)) fl busy' rm c rel) e).
  { intros n e. apply held_update; [done|by left|done|done]. }
  assert (Hx2 : ∀ n e, dependency (mkDependentState true dep) = Some e →
    true = true ∧ blocked_on (mkDepSys (set_dep_index n
      (set_dependent (<[txid := mkDependentState true dep]> (dependent_state d)) d)) fl busy' rm c rel) txid e ∧
    ∀ l, rm !! e = Some l → e = txid ∨ txid ∈ l).
  { intros n e. simpl. unfold dep. case_decide; [intros [= <-]; split_and!; [done|by left; eauto|by left]|].
    intros He. rewrite <-Hst in He. split_and!; [done| |intros l Hl; by eapply (di_removing _ Hinv)].
    eapply blocked_on_mono, (di_blocked _ Hinv); try done. apply Hheld. }
  case_decide as Hdep.
  - apply (dep_inv_update d fl busy busy' rm rm c rel rel txid); try done; simpl; [lia|lia|apply Hx2|apply Hheld|eauto|auto].
  - apply (dep_inv_update d fl busy busy' rm rm c rel rel txid _ (dep_index d)); try done; simpl; [apply Hx2|apply Hheld|eauto|auto].
Qed.

Lemma dep_inv_add_none d fl busy busy' rm c rel txid d' :
  dep_inv (mkDepSys d fl busy rm c rel) → (∀ e, e ≠ txid → e ∈ busy → e ∈ busy') →
  add txid None d = Done d' → dep_inv (mkDepSys d' fl busy' rm c rel).
Proof.
  intros Hinv Hbusy. unfold add.
  intros (st & [Hst Hlt]%index_Done%dst_lookup & Hd)%outcome_bind_Done.
  destruct (onboard st) eqn:Hon; simplify_eq/=.
  - destruct Hinv as [? ? ? ? Hb ? ?]. split; simpl in *; try done.
    intros tx e He. destruct (Hb tx e He) as [? Hbl]. split; [done|]. eapply blocked_on_mono, Hbl; try done.
    unfold held. simpl. destruct (decide (e = txid)) as [->|]; [by left|]. intros [?|[?|?]]; auto.
  - apply (dep_inv_update d fl busy busy' rm rm c rel rel txid); try done; simpl; [lia|lia| |eauto|auto].
    intros e. apply held_update; [done|by left|done|done].
Qed.

(** Adding a reverse edge keeps the invariant. *)
Lemma dep_inv_affect d fl busy rm c rel e a tx :
  dep_inv (mkDepSys d fl busy rm c rel) → affect_txs d !! e = Some a → e < tx →
  dep_inv (mkDepSys (set_affect (<[e := {[tx]} ∪ a]> (affect_txs d)) d) fl busy rm c rel) ∧
  tx ∈ aff (set_affect (<[e := {[tx]} ∪ a]> (affect_txs d)) d) e.
Proof.
  intros [Hl Hla Hgt Hc Hb Hr Hrel] Ha Hlt. simpl in *. assert (He := lookup_lt_Some _ _ _ Ha).
  assert (Haff : ∀ x, aff (set_affect (<[e := {[tx]} ∪ a]> (affect_txs d)) d) x =
    if decide (x = e) then {[tx]} ∪ aff d e else aff d x).
  { intros x. unfold aff. simpl. case_decide; [subst; by rewrite list_lookup_insert_eq, Ha|by rewrite list_lookup_insert_ne]. }
  split; [|rewrite Haff, decide_True by done; set_solver].
  split; simpl; rewrite ?length_insert; try done.
  - intros x y. rewrite Haff. case_decide; [subst|apply Hgt].
    intros [->%elem_of_singleton|?]%elem_of_union; [done|by apply Hgt].
  - intros x y Hd. destruct (Hb x y Hd) as [? Hbl]. split; [done|]. eapply blocked_on_mono, Hbl; try done.
    simpl. rewrite Haff. case_decide; [subst; set_solver|done].
Qed.

Lemma dep_inv_add_some d fl busy busy' rm c rel txid e d' :
  dep_inv (mkDepSys d fl busy rm c rel) → (∀ x, x ≠ txid → x ∈ busy → x ∈ busy') →
  rm !! e = None → add txid (Some e) d = Done d' → dep_inv (mkDepSys d' fl busy' rm c rel).
Proof.
  intros Hinv Hbusy Hrm. unfold add.
  intros (? & Hlt%assert_that_Done%bool_decide_eq_true & (a & Ha%index_Done & (ste & He%index_Done &
    (stx & Hx%index_Done & Hd)%outcome_bind_Done)%outcome_bind_Done)%outcome_bind_Done)%outcome_bind_Done.
  destruct (dep_inv_affect d fl busy rm c rel e a txid Hinv Ha Hlt) as [Hinv1 Hin].
  set (d1 := set_affect (<[e := {[txid]} ∪ a]> (affect_txs d)) d) in *.
  apply dst_lookup in He as [He Hle]. apply dst_lookup in Hx as [Hx Hlx].
  (* the predecessor becomes eligible *)
  assert (Hinv2 : ∀ n, n ≤ dep_index d → (dependency ste = None → n ≤ e) → dep_inv (mkDepSys (set_dep_index n
    (set_dependent (<[e := mkDependentState true (dependency ste)]> (dependent_state d)) d1)) fl busy rm c rel)).
  { intros n Hn Hne.
    assert (Hheld : ∀ y, held (mkDepSys d1 fl busy rm c rel) y → held (mkDepSys (set_dep_index n
      (set_dependent (<[e := mkDependentState true (dependency ste)]> (dependent_state d1)) d1)) fl busy rm c rel) y).
    { intros y. apply held_update; [done|by left|done|done]. }
    apply (dep_inv_update d1 fl busy busy rm rm c rel rel e); try done; simpl; [ |eauto|auto].
    intros y Hy. rewrite <-He in Hy. split_and!; [done| |intros l Hl; by eapply (di_removing _ Hinv)].
    eapply blocked_on_mono, (di_blocked _ Hinv1); try done. apply Hheld. }
  (* the transaction waits for it *)
  set (n := if decide (dependency ste = None) then Nat.min (dep_index d) e else dep_index d).
  assert (Hn : n ≤ dep_index d ∧ (dependency ste = None → n ≤ e)).
  { unfold n. case_decide; lia || (split; [lia|done]). }
  specialize (Hinv2 n (proj1 Hn) (proj2 Hn)).
  set (d2 := set_dep_index n _) in Hinv2.
  assert (Hd' : d' = set_dep_index n (set_dependent (<[txid := mkDependentState true (Some e)]> (dependent_state d2)) d2)).
  { unfold d2, n. simpl. rewrite list_insert_insert_ne by lia.
    case_decide; injection Hd as <-; done. }
  rewrite Hd'. assert (Hlen : txid < length (dependent_state d2)) by (simpl; by rewrite length_insert).
  assert (Hheld : ∀ y, held (mkDepSys d2 fl busy rm c rel) y → held (mkDepSys (set_dep_index n
    (set_dependent (<[txid := mkDependentState true (Some e)]> (dependent_state d2)) d2)) fl busy' rm c rel) y).
  { intros y. apply held_update; [done|by left|done|done]. }
  apply (dep_inv_update d2 fl busy busy' rm rm c rel rel txid); try done; simpl; [|eauto|auto].
  intros y [= <-]. split_and!; [done| |by rewrite Hrm]. right. split_and!; [done|done|].
  apply Hheld. left. simpl. change (dst _ e) with (dst (set_dependent (<[e := mkDependentState true (dependency ste)]> (dependent_state d1)) d1) e).
  by rewrite dst_insert, decide_True.
Qed.

Lemma dep_inv_step s s' : dep_step s s' → dep_inv s → dep_inv s'.
Proof.
  intros Hstep Hinv. destruct Hstep as [d ????? r d' Hcl| | | | | |? ? ? ? ? ? ? [e|]|? ? ? ? ? ? ? [e|]| | |].
  - pose proof (dep_inv_claim _ _ _ _ _ _ Hinv) as Hi. by rewrite Hcl in Hi.
  - by eapply dep_inv_resolve.
  - by eapply dep_inv_duplicate.
  - by eapply dep_inv_remove_begin.
  - by eapply dep_inv_remove_one.
  - by apply dep_inv_remove_end.
  - eapply dep_inv_add_some; eauto.
  - eapply dep_inv_add_none; eauto.
  - eapply dep_inv_add_some; [done| |by eauto|done]. apply busy_release.
  - eapply dep_inv_add_none; [done| |done]. apply busy_release.
  - eapply dep_inv_key_tx; [done| |done]. apply busy_release.
  - by apply dep_inv_publish.
  - by eapply dep_inv_commit.
Qed.

Lemma dep_inv_reachable n s : rtc dep_step (DepSys_new n) s → dep_inv s.
Proof.
  intros Hr. assert (Hi := dep_inv_init n). induction Hr; [done|]. eauto using dep_inv_step.
Qed.

(** [x] is blocked by [y], and [y] has it among the transactions it releases. *)
Definition waits_for (d : TxDependency) (x y : TxId) : Prop :=
  dependency (dst d x) = Some y ∧ y < x ∧ x ∈ aff d y.

(** [e] will run or release its dependents without another wakeup: the cursor offers it, a worker has
    it, its [remove] is running and has not yet visited those that wait for it, or it is
    held behind the commit boundary, which has not reached it or is just being passed on. *)
Definition driving (s : DepSys) (e : TxId) : Prop :=
  (onboard (dst (ds_dep s) e) = true ∧ dependency (dst (ds_dep s) e) = None ∧
     (dep_index (ds_dep s) ≤ e ∨ e ∈ ds_flight s)) ∨
  e ∈ ds_busy s ∨
  (∃ l, ds_removing s !! e = Some l ∧ ∀ x, waits_for (ds_dep s) x e → x ∈ l) ∨
  (dependency (dst (ds_dep s) e) = Some e ∧ onboard (dst (ds_dep s) e) = true ∧
     (ds_committed s < e ∨ ∃ k, ds_releasing s = Some k ∧ e = S k)).

(** The chain of blockers of a waiting transaction ends at one that is driving. *)
Lemma dep_inv_driven s tx :
  dep_inv s → onboard (dst (ds_dep s) tx) = true →
  ∃ e, rtc (waits_for (ds_dep s)) tx e ∧ driving s e.
Proof.
  intros Hinv. induction tx as [tx IH] using lt_wf_ind. intros Hon.
  destruct (dependency (dst (ds_dep s) tx)) as [e|] eqn:Hd.
  2: { exists tx. split; [done|]. left. split_and!; [done|done|by apply Hinv]. }
  destruct (di_blocked _ Hinv _ _ Hd) as [_ [[-> Hbar]|(Hlt & Hin & He)]].
  { exists tx. split; [done|]. do 3 right. done. }
  assert (Hw : waits_for (ds_dep s) tx e) by done.
  destruct He as [He|[He|[l Hl]]].
  - destruct (IH e Hlt He) as (e' & Hr & ?). exists e'. split; [by eapply rtc_l|done].
  - exists e. split; [by apply rtc_once|by right; left].
  - exists e. split; [by apply rtc_once|]. do 2 right. left. exists l. split; [done|].
    intros x (Hx & ? & _). destruct (di_removing _ Hinv _ _ _ Hl Hx); [lia|done].
Qed.

Lemma waits_for_le d x y : rtc (waits_for d) x y → y ≤ x.
Proof. induction 1 as [|x y z (_ & ? & _)]; lia. Qed.

(** C13. No wakeup is lost. However the operations interleave, a transaction that waits to be executed
    is at the start of a chain of registered waits (each link: [x] records [y] as its blocker,
    and [y], an earlier transaction, has [x] among the dependents it will release) that ends at a
    transaction [e], possibly itself, which goes on without another wakeup: the cursor will offer
    it (it is eligible and the cursor has not passed it, or a worker took its index), a worker is
    executing it, the release of its dependents is running and every transaction that waits for it
    is still to be visited, or it is held behind the commit boundary, which has not reached it or
    is just being passed on. *)
Theorem no_lost_wakeup n s tx :
  rtc dep_step (DepSys_new n) s → onboard (dst (ds_dep s) tx) = true →
  ∃ e, rtc (waits_for (ds_dep s)) tx e ∧ driving s e.
Proof. intros Hinv%dep_inv_reachable. by apply dep_inv_driven. Qed.

(** The run of two workers: transaction 1 is claimed, waits for transaction 0, and is offered
    again when 0 completes. *)
Lemma no_lost_wakeup_witness :
  ∃ s, rtc dep_step (DepSys_new 2) s ∧ dependency (dst (ds_dep s) 1) = Some 0 ∧
    ∃ e, rtc (waits_for (ds_dep s)) 1 e ∧ driving s e.
Proof.
  assert (Hr : rtc dep_step (DepSys_new 2) (mkDepSys (mkTxDependency 2
    [mkDependentState true None; mkDependentState true (Some 0)] [{[1]}; ∅] 0) [] ∅ ∅ 0 None)).
  { eapply rtc_l; [by eapply step_claim|]. eapply rtc_l; [by eapply step_claim|]. simpl.
    eapply rtc_l; [by apply (step_resolve _ [1] 0 [])|]. eapply rtc_l; [by apply (step_resolve _ [] 1 [])|]. simpl.
    eapply rtc_l; [by apply (step_add_release _ _ _ _ _ _ 1 (Some 0))|].
    eapply rtc_l; [|apply rtc_refl]. simpl. unfold fetch_min, set_dep_index. simpl.
    eapply (step_add_release _ _ _ _ _ _ 0 None); [done|]. done. }
  eexists. split; [exact Hr|]. split; [done|]. apply (no_lost_wakeup 2); [exact Hr|done].
Defined.
