(* ===== verification/Context.v ===== *)
(** Cursors, logical timestamps and the execution frontier: src/src/scheduler/cursor.rs and
    src/src/scheduler/context.rs.

    The cursors are single atomic words, so an operation on one is a function of its value. The
    execution frontier is a lock-free structure of several words: [frontier_step] interleaves
    its publishers and helpers one atomic access at a time. *)

From S2P Require Import Prelude Model.

(** ** Cursors *)

(** [RewindableCursor::claim_before]: the compare-and-swap loop ends with the value it claimed,
    or without a claim once the cursor has reached the limit. *)
Definition claim_before (cursor limit : nat) : option nat * nat :=
  if decide (limit ≤ cursor) then (None, cursor) else (Some cursor, S cursor).

(** [RewindableCursor::rewind]: [fetch_min], returning the previous value. *)
Definition rewind (cursor value : nat) : nat * nat := (cursor, Nat.min cursor value).

(** ** Execution frontier *)

Record ExecutionFrontier := mkFrontier {
  executed_flags : list bool;
  frontier : nat
}.

Definition ExecutionFrontier_new (num_txs : nat) : ExecutionFrontier :=
  mkFrontier (replicate num_txs false) 0.

(** [end < executed.len() && executed[end]]. *)
Definition is_executed (f : ExecutionFrontier) (i : nat) : bool :=
  match executed_flags f !! i with Some b => b | None => false end.

(** The inner scan of [advance]; the flags bound its length. *)
Fixpoint scan (f : ExecutionFrontier) (fuel end_ : nat) : nat :=
  match fuel with
  | 0 => end_
  | S fuel => if is_executed f end_ then scan f fuel (S end_) else end_
  end.

Definition fetch_max (f : ExecutionFrontier) (v : nat) : nat * ExecutionFrontier :=
  (frontier f, mkFrontier (executed_flags f) (Nat.max (frontier f) v)).

(** The outer loop: every round but the last moves [start] past an executed index. *)
Fixpoint advance_loop (fuel : nat) (f : ExecutionFrontier) (start : nat) : ExecutionFrontier :=
  match fuel with
  | 0 => f
  | S fuel =>
    let end_ := scan f (length (executed_flags f)) start in
    if decide (end_ = start) then f
    else let '(current, f) := fetch_max f end_ in advance_loop fuel f (Nat.max current end_)
  end.

Definition advance (f : ExecutionFrontier) (start : nat) : ExecutionFrontier :=
  advance_loop (S (length (executed_flags f))) f start.

(** [self.executed[index].store(true)]; an index out of bounds panics. *)
Definition store_executed (f : ExecutionFrontier) (i : nat) : outcome ExecutionFrontier :=
  let! flags := modify_at (executed_flags f) i (λ _, true) in
  Done (mkFrontier flags (frontier f)).

Definition publish (f : ExecutionFrontier) (i : nat) : outcome ExecutionFrontier :=
  if decide (i < frontier f) then Done f
  else
    let! f := store_executed f i in
    Done (if decide (i = frontier f) then advance f (frontier f) else f).

Definition current (f : ExecutionFrontier) : nat * ExecutionFrontier :=
  if is_executed f (frontier f) then
    let f := advance f (frontier f) in (frontier f, f)
  else (frontier f, f).

(** ** The scheduler context *)

Record SchedulerContext := mkContext {
  ctx_num_txs : nat;
  validation : nat;
  finality : nat;
  committed : nat;
  execution_frontier : ExecutionFrontier;
  validation_resets : nat;
  logical_clock : nat;
  lower_timestamps : list nat;
  unconfirmed_timestamps : list nat
}.

Definition SchedulerContext_new (n : nat) : SchedulerContext :=
  mkContext n 0 0 0 (ExecutionFrontier_new n) 0 1 (replicate n 0) (replicate n 0).

Definition rewind_validation_to (i : nat) (c : SchedulerContext) : outcome SchedulerContext :=
  if decide (ctx_num_txs c ≤ i) then Done c
  else
    let timestamp := logical_clock c in
    let! lower := modify_at (lower_timestamps c) i (Nat.max timestamp) in
    let '(previous, v) := rewind (validation c) i in
    Done (mkContext (ctx_num_txs c) v (finality c) (committed c) (execution_frontier c)
            (if decide (i < previous) then S (validation_resets c) else validation_resets c)
            (S (logical_clock c)) lower (unconfirmed_timestamps c)).

Definition logical_timestamp (c : SchedulerContext) : nat * SchedulerContext :=
  (logical_clock c,
   mkContext (ctx_num_txs c) (validation c) (finality c) (committed c) (execution_frontier c)
     (validation_resets c) (S (logical_clock c)) (lower_timestamps c) (unconfirmed_timestamps c)).

Definition set_frontier (f : ExecutionFrontier) (c : SchedulerContext) : SchedulerContext :=
  mkContext (ctx_num_txs c) (validation c) (finality c) (committed c) f (validation_resets c)
    (logical_clock c) (lower_timestamps c) (unconfirmed_timestamps c).

Definition ctx_executed (i : nat) (c : SchedulerContext) : outcome SchedulerContext :=
  let! f := publish (execution_frontier c) i in Done (set_frontier f c).

Definition unconfirmed (i timestamp : nat) (c : SchedulerContext) : outcome SchedulerContext :=
  let! un := modify_at (unconfirmed_timestamps c) i (Nat.max timestamp) in
  Done (mkContext (ctx_num_txs c) (validation c) (finality c) (committed c) (execution_frontier c)
          (validation_resets c) (logical_clock c) (lower_timestamps c) un).

Definition finished (c : SchedulerContext) : bool := bool_decide (ctx_num_txs c ≤ finality c).

Definition publish_finality (i : nat) (c : SchedulerContext) : SchedulerContext :=
  mkContext (ctx_num_txs c) (validation c) i (committed c) (execution_frontier c)
    (validation_resets c) (logical_clock c) (lower_timestamps c) (unconfirmed_timestamps c).

Definition publish_commit (i : nat) (c : SchedulerContext) : SchedulerContext :=
  mkContext (ctx_num_txs c) (validation c) (finality c) i (execution_frontier c)
    (validation_resets c) (logical_clock c) (lower_timestamps c) (unconfirmed_timestamps c).

(** [execution_frontier()], helping to advance it. *)
Definition ctx_frontier (c : SchedulerContext) : nat * SchedulerContext :=
  let '(v, f) := current (execution_frontier c) in (v, set_frontier f c).

Definition should_schedule (executing_idx : nat) (c : SchedulerContext) : bool * SchedulerContext :=
  let validation_idx := validation c in
  let '(should_validate, c) :=
    if decide (validation_idx < executing_idx) then
      let '(v, c) := ctx_frontier c in (bool_decide (validation_idx < v), c)
    else (false, c) in
  (should_validate || bool_decide (executing_idx < ctx_num_txs c), c).

Definition next_validation_idx (executing_idx : nat) (c : SchedulerContext) :
    option nat * SchedulerContext :=
  let '(v, c) := ctx_frontier c in
  let '(r, cursor) := claim_before (validation c) (Nat.min executing_idx v) in
  (r, mkContext (ctx_num_txs c) cursor (finality c) (committed c) (execution_frontier c)
        (validation_resets c) (logical_clock c) (lower_timestamps c) (unconfirmed_timestamps c)).

(** ** The frontier under interleaving *)

(** Where a thread is: [FStart i] enters [publish i], [FStored i] has set the flag and will
    reload the frontier, [FScan start end_] scans, [FMax end_] is about to raise the frontier.
    [FHelp] enters [current]. *)
Inductive FrontierPc :=
| FStart (i : nat) | FStore (i : nat) | FStored (i : nat) | FScan (start end_ : nat) | FMax (end_ : nat)
| FHelp | FHelpTest (f : nat).

Record FrontierSys := mkFrontierSys { fs_frontier : ExecutionFrontier; fs_threads : list FrontierPc }.

(** One atomic access of one thread: the structure, and the thread's next position, if any. *)
Definition frontier_access (f : ExecutionFrontier) (pc : FrontierPc) :
    outcome (ExecutionFrontier * option FrontierPc) :=
  match pc with
  | FStart i => Done (f, if decide (i < frontier f) then None else Some (FStore i))
  | FStore i => let! f := store_executed f i in Done (f, Some (FStored i))
  | FStored i =>
    Done (f, if decide (i = frontier f) then Some (FScan (frontier f) (frontier f)) else None)
  | FScan start end_ =>
    Done (f, if is_executed f end_ then Some (FScan start (S end_))
             else if decide (end_ = start) then None else Some (FMax end_))
  | FMax end_ =>
    let '(current, f) := fetch_max f end_ in
    Done (f, Some (FScan (Nat.max current end_) (Nat.max current end_)))
  | FHelp => Done (f, Some (FHelpTest (frontier f)))
  | FHelpTest v => Done (f, if is_executed f v then Some (FScan v v) else None)
  end.

Inductive frontier_step : FrontierSys → FrontierSys → Prop :=
| fstep_publish f ts i : frontier_step (mkFrontierSys f ts) (mkFrontierSys f (FStart i :: ts))
| fstep_help f ts : frontier_step (mkFrontierSys f ts) (mkFrontierSys f (FHelp :: ts))
| fstep_access f l1 pc l2 f' next :
    frontier_access f pc = Done (f', next) →
    frontier_step (mkFrontierSys f (l1 ++ pc :: l2)) (mkFrontierSys f' (l1 ++ option_list next ++ l2)).

(** A thread knows that everything below its positions has executed. *)
Definition pc_ok (f : ExecutionFrontier) (pc : FrontierPc) : Prop :=
  match pc with
  | FScan start end_ => start ≤ frontier f ∧ start ≤ end_ ∧ ∀ j, j < end_ → is_executed f j = true
  | FMax end_ => ∀ j, j < end_ → is_executed f j = true
  | FStored i => is_executed f i = true
  | FHelpTest v => v ≤ frontier f
  | _ => True
  end.

(** A thread that is bound to move the frontier past an executed index [i]. *)
Definition pc_drives (i : nat) (pc : FrontierPc) : Prop :=
  match pc with FScan _ _ | FMax _ => True | FStored j => j = i | _ => False end.

Record frontier_inv (s : FrontierSys) : Prop := {
  fi_below j : j < frontier (fs_frontier s) → is_executed (fs_frontier s) j = true;
  fi_pc pc : pc ∈ fs_threads s → pc_ok (fs_frontier s) pc;
  fi_drive : is_executed (fs_frontier s) (frontier (fs_frontier s)) = true →
    ∃ pc, pc ∈ fs_threads s ∧ pc_drives (frontier (fs_frontier s)) pc
}.

(** Flags are only set, and the frontier only grows. *)
Definition frontier_le (f f' : ExecutionFrontier) : Prop :=
  (∀ j, is_executed f j = true → is_executed f' j = true) ∧ frontier f ≤ frontier f'.

Lemma pc_ok_mono f f' pc : frontier_le f f' → pc_ok f pc → pc_ok f' pc.
Proof. intros [Hx Hf]. destruct pc; simpl; try done; [auto| |auto|lia]. intros (? & ? & ?). split_and!; auto; lia. Qed.

Lemma store_executed_le f i f' :
  store_executed f i = Done f' →
  frontier_le f f' ∧ frontier f' = frontier f ∧ is_executed f' i = true ∧
  ∀ j, j ≠ i → is_executed f' j = is_executed f j.
Proof.
  unfold store_executed. intros (l & (b & Hb & ->)%modify_at_Done & [= <-])%outcome_bind_Done.
  assert (Hi := lookup_lt_Some _ _ _ Hb). unfold frontier_le, is_executed. simpl.
  split_and!; try done.
  - intros j. destruct (decide (i = j)) as [<-|]; [by rewrite list_lookup_insert_eq|by rewrite list_lookup_insert_ne].
  - by rewrite list_lookup_insert_eq.
  - intros j Hj. by rewrite list_lookup_insert_ne.
Qed.

(** What one access does to the invariant's parts. *)
Lemma frontier_access_ok f pc f' next :
  frontier_access f pc = Done (f', next) →
  (∀ j, j < frontier f → is_executed f j = true) → pc_ok f pc →
  frontier_le f f' ∧ (∀ j, j < frontier f' → is_executed f' j = true) ∧
  (∀ pc', next = Some pc' → pc_ok f' pc') ∧
  (is_executed f' (frontier f') = true →
     (∃ pc', next = Some pc' ∧ pc_drives (frontier f') pc') ∨
     (frontier f' = frontier f ∧ is_executed f (frontier f) = true ∧ ¬ pc_drives (frontier f) pc)).
Proof.
  intros Hacc Hbelow Hok. destruct pc as [i|i|i|st en|en| |v]; simpl in *.
  - simplify_eq. split_and!; [done|done| |].
    + intros pc'. case_decide; intros; by simplify_eq/=.
    + intros Hx. right. split_and!; [done|done|tauto].
  - apply outcome_bind_Done in Hacc as (f1 & Hst & ?). simplify_eq.
    destruct (store_executed_le _ _ _ Hst) as (Hle & Hfr & Hi & Hother). split_and!; [done| | |].
    + intros j. rewrite Hfr. intros Hj. by apply Hle, Hbelow.
    + by intros pc' [= <-].
    + rewrite Hfr. intros Hx. destruct (decide (frontier f = i)) as [<-|Hne]; [left; by eexists|].
      right. rewrite Hother in Hx by done. split_and!; [done|done|tauto].
  - simplify_eq. split_and!; [done|done| |].
    + intros pc'. case_decide; intros; simplify_eq/=. split_and!; auto.
    + intros Hx. case_decide as Hi; [left; by eexists|]. right. split_and!; [done|done|]. intros ->. done.
  - destruct Hok as (Hs & Hse & Hj). simplify_eq. split_and!; [done|done| |].
    + intros pc'. destruct (is_executed f' en) eqn:Hen; [|case_decide]; intros; simplify_eq/=; [|done].
      split_and!; [done|lia|]. intros j Hlt. destruct (decide (j = en)) as [->|]; [done|]. apply Hj. lia.
    + intros Hx. destruct (is_executed f' en) eqn:Hen; [left; by eexists|].
      case_decide as Heq; [|left; by eexists]. subst en. exfalso.
      destruct (decide (st = frontier f')) as [->|]; [congruence|]. rewrite Hbelow in Hen by lia. done.
  - simplify_eq/=. assert (Hbelow' : ∀ j, j < Nat.max (frontier f) en → is_executed f j = true).
    { intros j Hj. destruct (decide (j < en)); [by apply Hok|apply Hbelow; lia]. }
    split_and!; [split; simpl; [done|lia]|done| |].
    + intros pc' [= <-]. simpl. split_and!; [lia|done|done].
    + intros _. left. by eexists.
  - simplify_eq. split_and!; [done|done|intros pc' [= <-]; simpl; lia|]. intros Hx. right. split_and!; [done|done|tauto].
  - simplify_eq. split_and!; [done|done| |].
    + intros pc'. destruct (is_executed f' v) eqn:Hv; intros; simplify_eq/=. split_and!; [done|done|].
      intros j Hlt. apply Hbelow. lia.
    + intros Hx. destruct (is_executed f' v) eqn:Hv; [left; by eexists|]. right. split_and!; [done|done|tauto].
Qed.

Lemma frontier_inv_step s s' : frontier_step s s' → frontier_inv s → frontier_inv s'.
Proof.
  intros Hstep [Hb Hp Hd]. destruct Hstep as [f ts i|f ts|f l1 pc l2 f' next Hacc]; simpl in *.
  1,2: split; simpl; [done|by intros pc [->|?]%elem_of_cons; [|auto]|];
    intros Hx; destruct (Hd Hx) as (pc & ? & ?); exists pc; split; [by right|done].
  destruct (frontier_access_ok f pc f' next Hacc Hb) as (Hle & Hb' & Hnext & Hdr); [apply Hp; set_solver|].
  split; simpl; [done| |].
  - intros pc'. rewrite !elem_of_app. intros [Hin|[Hin|Hin]].
    + eapply pc_ok_mono; [done|]. apply Hp. set_solver.
    + destruct next; simpl in Hin; [|by apply not_elem_of_nil in Hin].
      apply Hnext. by apply list_elem_of_singleton in Hin as ->.
    + eapply pc_ok_mono; [done|]. apply Hp. set_solver.
  - intros Hx. destruct (Hdr Hx) as [(pc' & -> & ?)|(Hfr & Hx' & Hnd)].
    + exists pc'. split; [|done]. set_solver.
    + destruct (Hd Hx') as (pc' & Hin & Hdr'). rewrite Hfr. exists pc'. split; [|done].
      apply elem_of_app in Hin as [?|[->|?]%elem_of_cons]; [set_solver|done|set_solver].
Qed.

Lemma frontier_inv_reachable n s :
  rtc frontier_step (mkFrontierSys (ExecutionFrontier_new n) []) s → frontier_inv s.
Proof.
  assert (Hi : frontier_inv (mkFrontierSys (ExecutionFrontier_new n) [])).
  { split; simpl; [lia|by intros pc ?%not_elem_of_nil|]. unfold is_executed. simpl.
    destruct (replicate n false !! 0) eqn:H0; [|done]. by apply lookup_replicate_1 in H0 as [-> _]. }
  intros Hr. induction Hr; [done|]. eauto using frontier_inv_step.
Qed.

(** A step never takes back a flag or the frontier. *)
Lemma frontier_step_le s s' : frontier_inv s → frontier_step s s' → frontier_le (fs_frontier s) (fs_frontier s').
Proof.
  intros [Hb Hp _] Hs. destruct Hs as [f ts i|f ts|f l1 pc l2 f' next Hacc]; simpl in *; [by split..|].
  destruct (frontier_access_ok f pc f' next Hacc Hb) as (Hle & _); [apply Hp; set_solver|done].
Qed.

Lemma frontier_steps_le s s' : frontier_inv s → rtc frontier_step s s' → frontier_le (fs_frontier s) (fs_frontier s').
Proof.
  intros Hinv Hr. induction Hr as [s|s1 s2 s3 Hs _ IH]; [by split|].
  destruct (frontier_step_le _ _ Hinv Hs) as [Hx Hf]. destruct IH as [Hx' Hf']; [by eapply frontier_inv_step|].
  split; [auto|lia].
Qed.

(** ** The functions are runs of the step relation *)

Lemma is_executed_lt f i : is_executed f i = true → i < length (executed_flags f).
Proof. unfold is_executed. destruct (_ !! i) eqn:Hi; [intros _; by eapply lookup_lt_Some|done]. Qed.

Lemma scan_spec f fuel e :
  length (executed_flags f) ≤ fuel + e → e ≤ scan f fuel e ∧ is_executed f (scan f fuel e) = false.
Proof.
  revert e. induction fuel as [|fuel IH]; intros e Hl; simpl.
  - split; [lia|]. destruct (is_executed f e) eqn:He; [|done]. apply is_executed_lt in He. lia.
  - destruct (is_executed f e) eqn:He; [|done]. destruct (IH (S e)); [lia|]. split; [lia|done].
Qed.

Lemma scan_steps f fuel st e ts :
  rtc frontier_step (mkFrontierSys f (FScan st e :: ts)) (mkFrontierSys f (FScan st (scan f fuel e) :: ts)).
Proof.
  revert e. induction fuel as [|fuel IH]; intros e; simpl; [done|].
  destruct (is_executed f e) eqn:He; [|done].
  eapply rtc_l; [|apply IH]. apply (fstep_access f [] (FScan st e) ts f (Some (FScan st (S e)))).
  simpl. by rewrite He.
Qed.

Lemma advance_loop_steps fuel f st ts :
  length (executed_flags f) < fuel + st →
  rtc frontier_step (mkFrontierSys f (FScan st st :: ts)) (mkFrontierSys (advance_loop fuel f st) ts).
Proof.
  revert f st. induction fuel as [|fuel IH]; intros f st Hl; simpl.
  { eapply rtc_l; [|done]. apply (fstep_access f [] (FScan st st) ts f None). simpl.
    rewrite decide_True by done. destruct (is_executed f st) eqn:He; [|done].
    apply is_executed_lt in He. lia. }
  destruct (scan_spec f (length (executed_flags f)) st) as [Hge Hgap]; [lia|].
  etrans; [apply (scan_steps f (length (executed_flags f)))|].
  set (e := scan f (length (executed_flags f)) st) in *. case_decide as He.
  - eapply rtc_l; [|done]. apply (fstep_access f [] (FScan st e) ts f None). simpl.
    by rewrite Hgap, decide_True.
  - eapply rtc_l; [apply (fstep_access f [] (FScan st e) ts f (Some (FMax e)))|].
    { simpl. by rewrite Hgap, decide_False. }
    eapply rtc_l; [by eapply (fstep_access f [] (FMax e) ts)|]. simpl. apply IH. simpl. lia.
Qed.

Lemma advance_steps f ts :
  rtc frontier_step (mkFrontierSys f (FScan (frontier f) (frontier f) :: ts))
    (mkFrontierSys (advance f (frontier f)) ts).
Proof. apply advance_loop_steps. lia. Qed.

Lemma publish_steps f i f' ts :
  publish f i = Done f' → rtc frontier_step (mkFrontierSys f ts) (mkFrontierSys f' ts).
Proof.
  unfold publish. intros Hp. eapply rtc_l; [apply (fstep_publish f ts i)|].
  case_decide as Hi.
  { simplify_eq. eapply rtc_l; [|done]. apply (fstep_access f' [] (FStart i) ts f' None). simpl.
    by rewrite decide_True. }
  apply outcome_bind_Done in Hp as (f1 & Hst & Hf'). injection Hf' as <-.
  eapply rtc_l; [apply (fstep_access f [] (FStart i) ts f (Some (FStore i)))|].
  { simpl. by rewrite decide_False. }
  eapply rtc_l; [apply (fstep_access f [] (FStore i) ts f1 (Some (FStored i)))|].
  { simpl. by rewrite Hst. }
  eapply rtc_l; [by eapply (fstep_access f1 [] (FStored i) ts)|]. simpl.
  case_decide; [apply advance_steps|done].
Qed.

Lemma current_steps f ts : rtc frontier_step (mkFrontierSys f ts) (mkFrontierSys (current f).2 ts).
Proof.
  eapply rtc_l; [apply (fstep_help f ts)|].
  eapply rtc_l; [by eapply (fstep_access f [] FHelp ts)|].
  eapply rtc_l; [by eapply (fstep_access f [] (FHelpTest (frontier f)) ts)|]. unfold current. simpl.
  destruct (is_executed f (frontier f)); [apply advance_steps|done].
Qed.

(** C16. The lock-free execution frontier is exact. However publishers and helping readers
    interleave, every transaction below the frontier has executed; neither the frontier nor an
    executed flag is ever taken back; and once no thread is
    inside the structure the frontier is the first transaction that has not executed: no
    completed prefix is left behind by a racing publisher. A complete call of [publish] or
    [current] is such a sequence of accesses, so it leaves the frontier exact as well. *)
Theorem execution_frontier_exact n s :
  rtc frontier_step (mkFrontierSys (ExecutionFrontier_new n) []) s →
  (∀ j, j < frontier (fs_frontier s) → is_executed (fs_frontier s) j = true) ∧
  (∀ s', rtc frontier_step s s' → frontier (fs_frontier s) ≤ frontier (fs_frontier s') ∧
     ∀ j, is_executed (fs_frontier s) j = true → is_executed (fs_frontier s') j = true) ∧
  (fs_threads s = [] → is_executed (fs_frontier s) (frontier (fs_frontier s)) = false) ∧
  (∀ i f', publish (fs_frontier s) i = Done f' → rtc frontier_step s (mkFrontierSys f' (fs_threads s))) ∧
  rtc frontier_step s (mkFrontierSys (current (fs_frontier s)).2 (fs_threads s)).
Proof.
  intros Hinv%frontier_inv_reachable. pose proof Hinv as [Hb _ Hd]. split_and!; [done| | | |].
  - intros s' Hr. by destruct (frontier_steps_le _ _ Hinv Hr).
  - intros Hq. rewrite Hq in Hd. destruct (is_executed _ _); [|done].
    by destruct Hd as (pc & ?%not_elem_of_nil & _).
  - destruct s. intros. by eapply publish_steps.
  - destruct s. apply current_steps.
Qed.

(** Out-of-order completion: after 2 and 1 only the flags are set, 0 publishes all three. *)
Lemma execution_frontier_exact_witness :
  ∃ f, rtc frontier_step (mkFrontierSys (ExecutionFrontier_new 4) []) (mkFrontierSys f []) ∧
    frontier f = 3 ∧ is_executed f (frontier f) = false.
Proof.
  assert (Hr : rtc frontier_step (mkFrontierSys (ExecutionFrontier_new 4) [])
    (mkFrontierSys (mkFrontier [true; true; true; false] 3) [])).
  { etrans; [by apply (publish_steps _ 2)|].
    etrans; [by apply (publish_steps _ 1)|]. by apply (publish_steps _ 0). }
  eexists. split; [exact Hr|]. split; [done|].
  by apply (execution_frontier_exact 4 _ Hr).
Defined.
