(* ===== verification/Cursor.v ===== *)
(** The atomic cursors under interleaving: src/src/scheduler/cursor.rs.

    The rest of the development treats an operation on a cursor as one function of its value
    ([claim_before] and [rewind] of Context.v). Here the compare-and-swap loop of [claim_before]
    is taken apart: a thread loads the word, compares it with its limit and tries a weak
    exchange, which may fail for no reason, while other threads claim and rewind. The theorem
    says that the loops are nevertheless those functions, applied in some order. *)

From S2P Require Import Prelude Model Context.

(** ** Published cursors *)

Record PublishedCursor := mkPublishedCursor { published : nat }.
Definition PublishedCursor_new (value : nat) : PublishedCursor := mkPublishedCursor value.
Definition published_get (c : PublishedCursor) : nat := published c.

(** The debug assertion is part of the operation: a cursor that would move backwards panics. *)
Definition published_publish (value : nat) (c : PublishedCursor) : outcome PublishedCursor :=
  let! _ := assert_that (bool_decide (published_get c ≤ value)) in
  Done (mkPublishedCursor value).

(** A reader shares the word and can only load it. *)
Definition reader (c : PublishedCursor) : PublishedCursor := c.
Definition reader_get (r : PublishedCursor) : nat := published r.

(** ** The exchange loop *)

(** [compare_exchange_weak]: succeeds only when the word is the expected one, and may fail even
    then ([spurious]). *)
Definition compare_exchange_weak (spurious : bool) (expected new word : nat) : result nat nat * nat :=
  if negb spurious && bool_decide (word = expected) then (Ok word, new) else (Err word, word).

(** Where a call of [claim_before] is: about to load, about to exchange, or returned. *)
Inductive ClaimPc :=
| CLoad (limit : nat)
| CExchange (limit current : nat)
| CReturned (limit : nat) (r : option nat).

(** One atomic access of the loop. *)
Definition claim_access (spurious : bool) (pc : ClaimPc) (word : nat) : ClaimPc * nat :=
  match pc with
  | CLoad limit =>
    let current := word in
    (if decide (limit ≤ current) then CReturned limit None else CExchange limit current, word)
  | CExchange limit current =>
    match compare_exchange_weak spurious current (current + 1) word with
    | (Ok _, word) => (CReturned limit (Some current), word)
    | (Err _, word) => (CLoad limit, word)
    end
  | CReturned limit r => (CReturned limit r, word)
  end.

(** The calls of one block: claims in progress, by call, and what happened to the word, in
    order. No step depends on the history. *)
Inductive CursorEvent :=
| EvClaim (call limit : nat) (r : option nat)
| EvRewind (value : nat).

Record CursorSys := mkCursorSys {
  cs_word : nat;
  cs_calls : gmap nat ClaimPc;
  cs_history : list CursorEvent
}.

Definition returns (call : nat) (pc : ClaimPc) : list CursorEvent :=
  match pc with CReturned limit r => [EvClaim call limit r] | _ => [] end.

Inductive cursor_step : CursorSys → CursorSys → Prop :=
| cst_call w cs h call limit :
    cs !! call = None → cursor_step (mkCursorSys w cs h) (mkCursorSys w (<[call := CLoad limit]> cs) h)
| cst_access w cs h call pc spurious pc' w' :
    cs !! call = Some pc → returns call pc = [] → claim_access spurious pc w = (pc', w') →
    cursor_step (mkCursorSys w cs h) (mkCursorSys w' (<[call := pc']> cs) (h ++ returns call pc'))
| cst_rewind w cs h value :
    cursor_step (mkCursorSys w cs h) (mkCursorSys (rewind w value).2 cs (h ++ [EvRewind value])).

(** ** Specification *)

(** The atomic cursor: the word after an event, when the event is what the function returns. *)
Definition cursor_spec (w : nat) (e : CursorEvent) : option nat :=
  match e with
  | EvClaim _ limit r =>
    let '(r', w') := claim_before w limit in if decide (r' = r) then Some w' else None
  | EvRewind value => Some (rewind w value).2
  end.

Fixpoint cursor_history (w : nat) (h : list CursorEvent) : option nat :=
  match h with [] => Some w | e :: h => cursor_spec w e ≫= λ w, cursor_history w h end.

Lemma cursor_history_app w h h' : cursor_history w (h ++ h') = cursor_history w h ≫= λ w, cursor_history w h'.
Proof. revert w. induction h as [|e h IH]; intros w; simpl; [done|]. destruct (cursor_spec w e); simpl; [apply IH|done]. Qed.

(** The index an event hands out, the call it answers, and the passes over an index it starts. *)
Definition claimed (e : CursorEvent) : option nat := match e with EvClaim _ _ r => r | EvRewind _ => None end.
Definition call_of (e : CursorEvent) : option nat := match e with EvClaim call _ _ => Some call | EvRewind _ => None end.
Definition claims (k : nat) (h : list CursorEvent) : nat :=
  length (List.filter (λ e, bool_decide (claimed e = Some k)) h).
Definition rewinds (k : nat) (h : list CursorEvent) : nat :=
  length (List.filter (λ e, match e with EvRewind value => bool_decide (value ≤ k) | _ => false end) h).

(** ** The atomic cursor hands out every index, once per pass *)

Lemma cursor_spec_claim w e w' :
  cursor_spec w e = Some w' →
  match e with
  | EvClaim _ limit (Some k) => k = w ∧ w < limit ∧ w' = S w
  | EvClaim _ limit None => limit ≤ w ∧ w' = w
  | EvRewind value => w' = Nat.min w value
  end.
Proof.
  destruct e as [call limit r|value]; simpl; [|by intros [= <-]]. unfold claim_before.
  case_decide; case_decide; intros [= <-]; subst; split_and!; lia.
Qed.

Lemma claims_bound w h w' k :
  cursor_history w h = Some w' → claims k h ≤ (if decide (w ≤ k) then 1 else 0) + rewinds k h.
Proof.
  unfold claims, rewinds. revert w. induction h as [|e h IH]; intros w; simpl; [lia|].
  intros (w1 & Hs%cursor_spec_claim & Hh)%bind_Some. specialize (IH w1 Hh).
  destruct e as [call limit [j|]|value]; simpl.
  - destruct Hs as (-> & _ & ->). case_bool_decide; simplify_eq/=; repeat case_decide; lia.
  - destruct Hs as (_ & ->). done.
  - subst w1. repeat case_bool_decide; simplify_eq/=; repeat case_decide; lia.
Qed.

Lemma claims_reach w h w' k : cursor_history w h = Some w' → w ≤ k < w' → 1 ≤ claims k h.
Proof.
  unfold claims. revert w. induction h as [|e h IH]; intros w; simpl; [intros [= <-]; lia|].
  intros (w1 & Hs%cursor_spec_claim & Hh)%bind_Some Hk. specialize (IH w1 Hh).
  destruct e as [call limit [j|]|value]; simpl.
  - destruct Hs as (-> & _ & ->). case_bool_decide; simplify_eq/=; [lia|]. apply IH.
    assert (w ≠ k) by congruence. lia.
  - destruct Hs as (_ & ->). repeat case_bool_decide; simplify_eq/=; by apply IH.
  - subst w1. repeat case_bool_decide; simplify_eq/=; apply IH; lia.
Qed.

Lemma claims_after_rewind w h1 value h2 w' k :
  cursor_history w (h1 ++ EvRewind value :: h2) = Some w' → value ≤ k < w' → 1 ≤ claims k h2.
Proof.
  rewrite cursor_history_app. intros (w1 & _ & Hh)%bind_Some Hk. simpl in Hh.
  eapply claims_reach; [exact Hh|]. lia.
Qed.

(** ** The loops are atomic *)

Record cursor_inv (w0 : nat) (x : CursorSys) : Prop := {
  ci_history : cursor_history w0 (cs_history x) = Some (cs_word x);
  ci_limit call limit current : cs_calls x !! call = Some (CExchange limit current) → current < limit;
  ci_returned call limit r : cs_calls x !! call = Some (CReturned limit r) ↔ EvClaim call limit r ∈ cs_history x;
  ci_once : NoDup (omap call_of (cs_history x))
}.

(** A return is the event of an atomic claim; another access does not change the word. *)
Lemma claim_access_spec spurious pc w pc' w' call :
  returns call pc = [] → claim_access spurious pc w = (pc', w') →
  (∀ limit current, pc = CExchange limit current → current < limit) →
  cursor_history w (returns call pc') = Some w' ∧ ∀ limit current, pc' = CExchange limit current → current < limit.
Proof.
  destruct pc as [limit|limit current|limit r]; simpl; [|unfold compare_exchange_weak|done].
  - intros _. case_decide; intros [= <- <-] _; simpl.
    + split; [|done]. unfold claim_before. by rewrite !decide_True.
    + split; [done|]. intros ? ? [= <- <-]. lia.
  - intros _ Hx Hlt. specialize (Hlt _ _ eq_refl). destruct (negb spurious && _) eqn:Hc in Hx; injection Hx as <- <-; [|done].
    apply andb_true_iff in Hc as [_ ->%bool_decide_eq_true]. simpl. split; [|done].
    unfold claim_before. rewrite decide_False by lia. rewrite decide_True by done. simpl. f_equal. lia.
Qed.

Lemma returns_elem call pc call' limit r :
  EvClaim call' limit r ∈ returns call pc ↔ call' = call ∧ pc = CReturned limit r.
Proof. destruct pc; simpl; rewrite ?list_elem_of_singleton, ?elem_of_nil; naive_solver. Qed.

Lemma cursor_inv_step w0 x x' : cursor_step x x' → cursor_inv w0 x → cursor_inv w0 x'.
Proof.
  intros Hstep [Hh Hl Hr Hn]. destruct Hstep as [w cs h call limit Hc|w cs h call pc spurious pc' w' Hc Hnr Ha|w cs h value];
    cbn [cs_word cs_calls cs_history] in *.
  - split; cbn [cs_word cs_calls cs_history]; [done| | |done].
    + intros c l cur [[_ ?]|[_ ?]]%lookup_insert_Some; [done|eauto].
    + intros c l r. rewrite <-Hr, lookup_insert_Some. split; [intros [[_ ?]|[_ ?]]; done|].
      intros Hlk. right. split; [congruence|done].
  - destruct (claim_access_spec _ _ _ _ _ call Hnr Ha) as [Hspec Hlim]; [intros l cur ->; by eapply Hl|].
    split; cbn [cs_word cs_calls cs_history].
    + rewrite cursor_history_app, Hh. exact Hspec.
    + intros c l cur [[_ ->]|[_ ?]]%lookup_insert_Some; [by eapply Hlim|eauto].
    + intros c l r. rewrite elem_of_app, <-Hr, returns_elem, lookup_insert_Some.
      assert (cs !! call ≠ Some (CReturned l r)) by (rewrite Hc; intros [= ->]; done).
      destruct (decide (c = call)) as [->|]; naive_solver.
    + rewrite omap_app. apply NoDup_app. split_and!; [done| |by destruct pc'; simpl; repeat constructor; set_solver].
      intros c (e & He & Hce)%list_elem_of_omap Hin. destruct e as [c' l r|]; [|done]. injection Hce as ->.
      assert (c = call) as ->.
      { destruct pc'; simpl in Hin; try by apply elem_of_nil in Hin. by apply list_elem_of_singleton in Hin. }
      apply Hr in He. rewrite Hc in He. injection He as ->. done.
  - split; cbn [cs_word cs_calls cs_history].
    + by rewrite cursor_history_app, Hh.
    + done.
    + intros c l r. rewrite Hr, elem_of_app, list_elem_of_singleton. naive_solver.
    + rewrite omap_app. by rewrite app_nil_r.
Qed.

Lemma cursor_inv_run w0 x : rtc cursor_step (mkCursorSys w0 ∅ []) x → cursor_inv w0 x.
Proof.
  apply rtc_ind_r; [|intros; by eapply cursor_inv_step].
  split; cbn [cs_word cs_calls cs_history]; [done| | |constructor].
  - intros call limit cur. by rewrite lookup_empty.
  - intros call limit r. rewrite lookup_empty, elem_of_nil. done.
Qed.

(** A thread that runs alone returns within two accesses when its exchange does not fail for no
    reason. *)
Lemma claim_alone limit w :
  ∃ pc, claim_access false (CLoad limit) w = (pc, w) ∧
    (pc = CReturned limit None ∧ limit ≤ w ∨ claim_access false pc w = (CReturned limit (Some w), S w) ∧ w < limit).
Proof.
  simpl. case_decide; eexists; (split; [done|]); [by left|right]. simpl. unfold compare_exchange_weak.
  rewrite bool_decide_eq_true_2 by done. simpl. split; [do 2 f_equal; lia|lia].
Qed.

(** ** Properties *)

(** C14. Claims are linearizable. However the loads and exchanges of concurrent claims interleave
    with each other and with rewinds, and however often an exchange fails: the word and all
    returned values are those of the atomic functions applied one after the other, one event for
    each returned call. Between two rewinds an index is handed out at most once, and after a
    rewind every index from there up to the current position has been handed out again. *)
Theorem claims_linearizable w0 x :
  rtc cursor_step (mkCursorSys w0 ∅ []) x →
  cursor_history w0 (cs_history x) = Some (cs_word x) ∧
  (∀ call limit r, cs_calls x !! call = Some (CReturned limit r) ↔ EvClaim call limit r ∈ cs_history x) ∧
  NoDup (omap call_of (cs_history x)) ∧
  (∀ k, claims k (cs_history x) ≤ (if decide (w0 ≤ k) then 1 else 0) + rewinds k (cs_history x)) ∧
  (∀ h1 value h2 k, cs_history x = h1 ++ EvRewind value :: h2 → value ≤ k < cs_word x → 1 ≤ claims k h2).
Proof.
  intros [Hh _ Hr Hn]%cursor_inv_run. split_and!; [done|done|done| |].
  - intros k. by eapply claims_bound.
  - intros h1 value h2 k Heq. rewrite Heq in Hh. by eapply claims_after_rewind.
Qed.

(** ** Witness *)

(** Two calls load the same position; one exchange wins, the other fails, a rewind puts the
    position back, and the second call claims it again. *)
Definition cw_end : CursorSys :=
  mkCursorSys 2 (<[1 := CReturned 5 (Some 1)]> (<[1 := CExchange 5 1]> (<[1 := CLoad 5]> (<[0 := CReturned 5 (Some 1)]>
    (<[1 := CExchange 5 1]> (<[0 := CExchange 5 1]> (<[1 := CLoad 5]> (<[0 := CLoad 5]> ∅))))))))
    [EvClaim 0 5 (Some 1); EvRewind 1; EvClaim 1 5 (Some 1)].

Lemma cw_run : rtc cursor_step (mkCursorSys 1 ∅ []) cw_end.
Proof.
  eapply rtc_l; [apply (cst_call _ _ _ 0 5); done|]. eapply rtc_l; [apply (cst_call _ _ _ 1 5); done|].
  eapply rtc_l; [by eapply (cst_access _ _ _ 0 _ false)|]. eapply rtc_l; [by eapply (cst_access _ _ _ 1 _ false)|].
  eapply rtc_l; [by eapply (cst_access _ _ _ 0 _ false)|]. eapply rtc_l; [by eapply (cst_access _ _ _ 1 _ false)|].
  eapply rtc_l; [by apply (cst_rewind _ _ _ 1)|].
  eapply rtc_l; [by eapply (cst_access _ _ _ 1 _ false)|]. eapply rtc_l; [by eapply (cst_access _ _ _ 1 _ false)|].
  reflexivity.
Qed.

Lemma claims_linearizable_witness : claims 1 (cs_history cw_end) = 2 ∧ 1 ≤ claims 1 [EvClaim 1 5 (Some 1)].
Proof.
  split; [reflexivity|].
  destruct (claims_linearizable 1 cw_end cw_run) as (_ & _ & _ & _ & Hre).
  apply (Hre [EvClaim 0 5 (Some 1)] 1 [EvClaim 1 5 (Some 1)] 1); [reflexivity|simpl; lia].
Defined.
