(* ===== verification/Metrics.v ===== *)
(** Per-block counters: src/src/scheduler/metrics.rs, and the notification slots of
    src/src/scheduler/wait.rs. Both are fields of the scheduler. *)

From S2P Require Import Prelude Model.
From stdpp Require Import countable.

(** ** Counters *)

(** The counters of [define_execute_metrics!]. *)
Inductive Metric :=
| total_tx_cnt | conflict_cnt | validation_cnt | execution_cnt | reset_validation_idx_cnt
| useless_dependent_update | conflict_by_miner | conflict_by_error | conflict_by_estimate
| conflict_by_version | one_attempt_with_dependency | more_attempts_with_dependency
| no_dependency_txs | conflict_txs | execution_time | commit_time | total_time.

#[export] Instance Metric_eq_dec : EqDecision Metric.
Proof. solve_decision. Defined.

Definition Metric_index (m : Metric) : nat :=
  match m with
  | total_tx_cnt => 0 | conflict_cnt => 1 | validation_cnt => 2 | execution_cnt => 3
  | reset_validation_idx_cnt => 4 | useless_dependent_update => 5 | conflict_by_miner => 6
  | conflict_by_error => 7 | conflict_by_estimate => 8 | conflict_by_version => 9
  | one_attempt_with_dependency => 10 | more_attempts_with_dependency => 11
  | no_dependency_txs => 12 | conflict_txs => 13 | execution_time => 14 | commit_time => 15
  | total_time => 16
  end.

Definition all_metrics : list Metric :=
  [total_tx_cnt; conflict_cnt; validation_cnt; execution_cnt; reset_validation_idx_cnt;
   useless_dependent_update; conflict_by_miner; conflict_by_error; conflict_by_estimate;
   conflict_by_version; one_attempt_with_dependency; more_attempts_with_dependency;
   no_dependency_txs; conflict_txs; execution_time; commit_time; total_time].

#[export] Instance Metric_countable : Countable Metric.
Proof.
  apply (inj_countable' Metric_index (λ n, default total_tx_cnt (all_metrics !! n))). by intros [].
Defined.

(** The counters, by name; a counter that was never touched is zero. *)
Abbreviation ExecuteMetricsCollector := (gmap Metric nat) (only parsing).
Definition Collector_default : ExecuteMetricsCollector := ∅.

Definition load (c : ExecuteMetricsCollector) (m : Metric) : nat := default 0 (c !! m).
Definition store (m : Metric) (n : nat) (c : ExecuteMetricsCollector) : ExecuteMetricsCollector :=
  <[m := n]> c.
Definition fetch_add (m : Metric) (n : nat) (c : ExecuteMetricsCollector) : ExecuteMetricsCollector :=
  store m (load c m + n) c.

Definition record_block_start (total_txs : nat) := store total_tx_cnt total_txs.
Definition record_execution_attempt := fetch_add execution_cnt 1.
Definition record_validation_attempt := fetch_add validation_cnt 1.
Definition record_estimate_conflict (c : ExecuteMetricsCollector) :=
  fetch_add conflict_by_estimate 1 (fetch_add conflict_cnt 1 c).
Definition record_beneficiary_conflict (c : ExecuteMetricsCollector) :=
  fetch_add conflict_by_miner 1 (fetch_add conflict_cnt 1 c).
Definition record_evm_error_conflict (c : ExecuteMetricsCollector) :=
  fetch_add conflict_by_error 1 (fetch_add conflict_cnt 1 c).
Definition record_version_conflict (c : ExecuteMetricsCollector) :=
  fetch_add conflict_by_version 1 (fetch_add conflict_cnt 1 c).

Definition record_finalized (incarnation : nat) (has_dependency : bool) (c : ExecuteMetricsCollector) :=
  let c := if 1 <? incarnation then fetch_add conflict_txs 1 c else c in
  if has_dependency then
    if incarnation =? 1 then fetch_add one_attempt_with_dependency 1 c
    else if 2 <? incarnation then fetch_add more_attempts_with_dependency 1 c
    else c
  else fetch_add no_dependency_txs 1 c.

Definition record_useless_dependency_update := fetch_add useless_dependent_update 1.
Definition record_commit_time (elapsed : nat) := fetch_add commit_time elapsed.
Definition record_execution_time (elapsed : nat) := store execution_time elapsed.
Definition record_validation_resets (resets : nat) := store reset_validation_idx_cnt resets.
Definition record_total_time (elapsed : nat) := store total_time elapsed.

(** What [report] sends to the recorder: every counter, except a zero execution time. *)
Definition report (c : ExecuteMetricsCollector) : list (Metric * nat) :=
  (λ m, (m, load c m)) <$> filter (λ m, m ≠ execution_time ∨ 0 < load c m) all_metrics.

(** The names of the counters, and their values by name. *)
Definition metric_name (m : Metric) : string :=
  "grevm." +:+
  match m with
  | total_tx_cnt => "total_tx_cnt" | conflict_cnt => "conflict_cnt" | validation_cnt => "validation_cnt"
  | execution_cnt => "execution_cnt" | reset_validation_idx_cnt => "reset_validation_idx_cnt"
  | useless_dependent_update => "useless_dependent_update" | conflict_by_miner => "conflict_by_miner"
  | conflict_by_error => "conflict_by_error" | conflict_by_estimate => "conflict_by_estimate"
  | conflict_by_version => "conflict_by_version" | one_attempt_with_dependency => "one_attempt_with_dependency"
  | more_attempts_with_dependency => "more_attempts_with_dependency" | no_dependency_txs => "no_dependency_txs"
  | conflict_txs => "conflict_txs" | execution_time => "execution_time" | commit_time => "commit_time"
  | total_time => "total_time"
  end.

Definition snapshot (c : ExecuteMetricsCollector) : gmap string nat :=
  list_to_map ((λ m, (metric_name m, load c m)) <$> all_metrics).

(** Every conflict is counted under exactly one cause. *)
Definition conflicts_attributed (c : ExecuteMetricsCollector) : Prop :=
  load c conflict_cnt =
  load c conflict_by_estimate + load c conflict_by_miner + load c conflict_by_error + load c conflict_by_version.

Lemma load_store c m m' n : load (store m n c) m' = if decide (m' = m) then n else load c m'.
Proof.
  unfold load, store. case_decide; [subst; by rewrite lookup_insert_eq|by rewrite lookup_insert_ne].
Qed.

(** Rewriting with the counter updates. *)
Ltac metrics_solve :=
  intros; unfold conflicts_attributed, record_block_start, record_execution_attempt,
    record_validation_attempt, record_estimate_conflict, record_beneficiary_conflict,
    record_evm_error_conflict, record_version_conflict, record_finalized,
    record_useless_dependency_update, record_commit_time, record_execution_time,
    record_validation_resets, record_total_time, fetch_add in *;
  repeat case_match; rewrite ?load_store; simpl; lia.

Lemma attributed_estimate c : conflicts_attributed c → conflicts_attributed (record_estimate_conflict c).
Proof. metrics_solve. Qed.
Lemma attributed_beneficiary c : conflicts_attributed c → conflicts_attributed (record_beneficiary_conflict c).
Proof. metrics_solve. Qed.
Lemma attributed_evm_error c : conflicts_attributed c → conflicts_attributed (record_evm_error_conflict c).
Proof. metrics_solve. Qed.
Lemma attributed_version c : conflicts_attributed c → conflicts_attributed (record_version_conflict c).
Proof. metrics_solve. Qed.
Lemma attributed_execution c : conflicts_attributed c → conflicts_attributed (record_execution_attempt c).
Proof. metrics_solve. Qed.
Lemma attributed_validation c : conflicts_attributed c → conflicts_attributed (record_validation_attempt c).
Proof. metrics_solve. Qed.
Lemma attributed_useless c : conflicts_attributed c → conflicts_attributed (record_useless_dependency_update c).
Proof. metrics_solve. Qed.
Lemma attributed_finalized i b c : conflicts_attributed c → conflicts_attributed (record_finalized i b c).
Proof. metrics_solve. Qed.
Lemma attributed_commit_time n c : conflicts_attributed c → conflicts_attributed (record_commit_time n c).
Proof. metrics_solve. Qed.

#[export] Hint Resolve attributed_estimate attributed_beneficiary attributed_evm_error attributed_version
  attributed_execution attributed_validation attributed_useless attributed_finalized
  attributed_commit_time : grevm.

(** ** Wait slots *)

(** A slot with its registered consumer, and the consumer's park token. *)
Record WaitSlot := mkWaitSlot { registered : bool; token : bool }.

Definition WaitSlot_new : WaitSlot := mkWaitSlot false false.

(** A second registration panics. *)
Definition register_current_thread (s : WaitSlot) : outcome WaitSlot :=
  let! _ := assert_that (negb (registered s)) in Done (mkWaitSlot true (token s)).

Definition notify (s : WaitSlot) : WaitSlot :=
  if registered s then mkWaitSlot true true else s.

(** One call of [wait_while] by the registered consumer, without interruption. The predicate may
    change the slot and a state of its own; a park without a token ends with the timeout. *)
Inductive WaitEnd := NotBlocked | Unparked | TimedOut.

Definition wait_while {S} (blocked : WaitSlot * S → bool * (WaitSlot * S)) (s : WaitSlot * S) :
    WaitEnd * (WaitSlot * S) :=
  let '(b, s) := blocked s in
  if negb b then (NotBlocked, s)
  else
    let '(b, s) := blocked s in
    if b then
      if token s.1 then (Unparked, (mkWaitSlot (registered s.1) false, s.2)) else (TimedOut, s)
    else (NotBlocked, s).

(** The consumer's positions: before registration, before the first check of the predicate,
    before the second, about to park, and back in the scheduler loop. *)
Inductive WaitPc := WRegister | WCheck1 | WCheck2 | WPark | WReturned.

(** One producer that unblocks the consumer: it makes the predicate false, then notifies. *)
Record WaitSys := mkWaitSys {
  ws_slot : WaitSlot;
  ws_blocked : bool;
  ws_pc : WaitPc;
  ws_notified : bool
}.

Inductive wait_step : WaitSys → WaitSys → Prop :=
| wstep_register s s' b n : register_current_thread s = Done s' →
    wait_step (mkWaitSys s b WRegister n) (mkWaitSys s' b WCheck1 n)
| wstep_check1 s b n :
    wait_step (mkWaitSys s b WCheck1 n) (mkWaitSys s b (if b then WCheck2 else WReturned) n)
| wstep_check2 s b n :
    wait_step (mkWaitSys s b WCheck2 n) (mkWaitSys s b (if b then WPark else WReturned) n)
| wstep_unpark s b n : token s = true →
    wait_step (mkWaitSys s b WPark n) (mkWaitSys (mkWaitSlot (registered s) false) b WReturned n)
| wstep_timeout s b n :
    wait_step (mkWaitSys s b WPark n) (mkWaitSys s b WReturned n)
| wstep_loop s b n :
    wait_step (mkWaitSys s b WReturned n) (mkWaitSys s b WCheck1 n)
| wstep_unblock s pc n : wait_step (mkWaitSys s true pc n) (mkWaitSys s false pc n)
| wstep_notify s pc : wait_step (mkWaitSys s false pc false) (mkWaitSys (notify s) false pc true).

Definition wait_inv (w : WaitSys) : Prop :=
  (registered (ws_slot w) = false ↔ ws_pc w = WRegister) ∧
  (ws_notified w = true → ws_blocked w = false) ∧
  (ws_pc w = WPark → ws_notified w = true → token (ws_slot w) = true).

(** A consumer that is about to park after the second check saw the predicate blocked. *)
Lemma wait_inv_step w w' : wait_step w w' → wait_inv w → wait_inv w'.
Proof.
  intros Hs (Hr & Hn & Hp). destruct Hs; unfold wait_inv, notify in *; simpl in *.
  - apply outcome_bind_Done in H as (? & _ & [= <-]). simpl. naive_solver.
  - destruct b; naive_solver.
  - destruct b; naive_solver.
  - naive_solver.
  - naive_solver.
  - naive_solver.
  - naive_solver.
  - destruct (registered s) eqn:Hreg; simpl; naive_solver.
Qed.

(** C30. The check/park window loses no notification: in every reachable state in which the
    producer has unblocked the predicate and notified, a consumer about to park holds the park
    token, so it returns without waiting for the timeout. *)
Theorem notification_not_lost w :
  rtc wait_step (mkWaitSys WaitSlot_new true WRegister false) w →
  ws_pc w = WPark → ws_notified w = true → token (ws_slot w) = true.
Proof.
  intros Hr. assert (Hi : wait_inv w); [|by destruct Hi as (_ & _ & ?)].
  assert (H0 : wait_inv (mkWaitSys WaitSlot_new true WRegister false)) by (by split_and!).
  induction Hr; [done|]. eauto using wait_inv_step.
Qed.

(** The producer acts between the second check and the park. *)
Lemma notification_not_lost_witness :
  ∃ w, rtc wait_step (mkWaitSys WaitSlot_new true WRegister false) w ∧ ws_pc w = WPark ∧
    token (ws_slot w) = true.
Proof.
  exists (mkWaitSys (mkWaitSlot true true) false WPark true).
  assert (Hr : rtc wait_step (mkWaitSys WaitSlot_new true WRegister false)
    (mkWaitSys (mkWaitSlot true true) false WPark true)).
  { eapply rtc_l; [by apply wstep_register|]. eapply rtc_l; [apply wstep_check1|].
    eapply rtc_l; [apply wstep_check2|]. eapply rtc_l; [apply wstep_unblock|].
    eapply rtc_l; [apply wstep_notify|]. apply rtc_refl. }
  split; [exact Hr|]. split; [done|].
  apply (notification_not_lost _ Hr); reflexivity.
Defined.
