(* ===== verification/Scheduler.v ===== *)
(** The scheduling state machine: src/src/scheduler.rs, with the abort protocol of
    src/src/scheduler/control.rs.

    [Sched] is the state shared by the workers, the finality loop and the commit loop. A handler
    is a function on it. The handlers that hold a transaction's lock while other transactions
    proceed are written as the sequence of their critical parts ([execute_begin], publication by
    the executor, [execute_complete]; [validate_begin], [validate_read], [validate_finish]), so
    that the interleaving of Interleave.v uses the same definitions. *)

From S2P Require Import Prelude Model Reward History World IncarnationDb TxDependency Context Metrics.

Section scheduler.
Context `{!Revm} {E : Type}.

Record TransactionResult := mkTransactionResult {
  tr_read_set : gmap LocationAndType ReadVersion;
  tr_write_set : gset LocationAndType;
  execute_result : result (EVMError E) SpeculativeResult
}.

Inductive AbortReason :=
| FatalEvmError (t : TxId)
| CommitError (e : GrevmError E)
| ParallelError (t : TxId) (message : string)
| FallbackSequential.

(** The fields of [Scheduler] the parallel phase reads or writes; the beneficiary aggregate of
    the block, which the code passes by reference, is one of them. *)
Record Sched := mkSched {
  block_size : nat;
  txs : list TxEnv;
  tx_states : list TxState;
  tx_results : list (option TransactionResult);
  tx_dependency : TxDependency;
  mv_memory : MVMemory;
  scheduler_ctx : SchedulerContext;
  beneficiary : BeneficiaryAccount;
  abort_flag : bool;
  abort_reason : option AbortReason;
  finality_wait : WaitSlot;
  commit_wait : WaitSlot;
  metrics : ExecuteMetricsCollector
}.

Definition set_tx_states l s := mkSched (block_size s) (txs s) l (tx_results s) (tx_dependency s) (mv_memory s)
  (scheduler_ctx s) (beneficiary s) (abort_flag s) (abort_reason s) (finality_wait s) (commit_wait s) (metrics s).
Definition set_tx_results l s := mkSched (block_size s) (txs s) (tx_states s) l (tx_dependency s) (mv_memory s)
  (scheduler_ctx s) (beneficiary s) (abort_flag s) (abort_reason s) (finality_wait s) (commit_wait s) (metrics s).
Definition set_tx_dependency d s := mkSched (block_size s) (txs s) (tx_states s) (tx_results s) d (mv_memory s)
  (scheduler_ctx s) (beneficiary s) (abort_flag s) (abort_reason s) (finality_wait s) (commit_wait s) (metrics s).
Definition set_mv_memory m s := mkSched (block_size s) (txs s) (tx_states s) (tx_results s) (tx_dependency s) m
  (scheduler_ctx s) (beneficiary s) (abort_flag s) (abort_reason s) (finality_wait s) (commit_wait s) (metrics s).
Definition set_ctx c s := mkSched (block_size s) (txs s) (tx_states s) (tx_results s) (tx_dependency s) (mv_memory s)
  c (beneficiary s) (abort_flag s) (abort_reason s) (finality_wait s) (commit_wait s) (metrics s).
Definition set_beneficiary b s := mkSched (block_size s) (txs s) (tx_states s) (tx_results s) (tx_dependency s)
  (mv_memory s) (scheduler_ctx s) b (abort_flag s) (abort_reason s) (finality_wait s) (commit_wait s) (metrics s).
Definition set_metrics m s := mkSched (block_size s) (txs s) (tx_states s) (tx_results s) (tx_dependency s)
  (mv_memory s) (scheduler_ctx s) (beneficiary s) (abort_flag s) (abort_reason s) (finality_wait s) (commit_wait s) m.
Definition notify_finality s := mkSched (block_size s) (txs s) (tx_states s) (tx_results s) (tx_dependency s)
  (mv_memory s) (scheduler_ctx s) (beneficiary s) (abort_flag s) (abort_reason s) (notify (finality_wait s))
  (commit_wait s) (metrics s).
Definition notify_commit s := mkSched (block_size s) (txs s) (tx_states s) (tx_results s) (tx_dependency s)
  (mv_memory s) (scheduler_ctx s) (beneficiary s) (abort_flag s) (abort_reason s) (finality_wait s)
  (notify (commit_wait s)) (metrics s).

(** [Scheduler::build], with the beneficiary of [parallel_execute_inner]. *)
Definition Sched_new (txs : list TxEnv) (ben : Address) (anchor : option AccountInfo) : Sched :=
  let n := length txs in
  mkSched n txs (replicate n TxState_default) (replicate n None) (TxDependency_new n) ∅
    (SchedulerContext_new n) (Beneficiary_new ben anchor n) false None WaitSlot_new WaitSlot_new
    Collector_default.

(** ** Abort (src/src/scheduler/control.rs) *)

Definition cancel (s : Sched) : Sched :=
  let s := mkSched (block_size s) (txs s) (tx_states s) (tx_results s) (tx_dependency s) (mv_memory s)
    (scheduler_ctx s) (beneficiary s) true (abort_reason s) (finality_wait s) (commit_wait s) (metrics s) in
  notify_commit (notify_finality s).

(** The first reason is kept. *)
Definition abort (reason : AbortReason) (s : Sched) : Sched :=
  cancel (mkSched (block_size s) (txs s) (tx_states s) (tx_results s) (tx_dependency s) (mv_memory s)
    (scheduler_ctx s) (beneficiary s) (abort_flag s)
    (match abort_reason s with Some r => Some r | None => Some reason end)
    (finality_wait s) (commit_wait s) (metrics s)).

(** ** Helpers *)

Definition set_status (t : TxId) (st : TransactionStatus) (s : Sched) : outcome Sched :=
  let! l := modify_at (tx_states s) t (λ x, mkTxState st (ts_incarnation x) (ts_dependency x)) in
  Done (set_tx_states l s).

Definition rewind_to (i : nat) (s : Sched) : outcome Sched :=
  let! c := rewind_validation_to i (scheduler_ctx s) in Done (set_ctx c s).

Definition set_result (t : TxId) (r : TransactionResult) (s : Sched) : outcome Sched :=
  let! l := modify_at (tx_results s) t (λ _, Some r) in Done (set_tx_results l s).

Definition dep_add (t : TxId) (dep : option TxId) (s : Sched) : outcome Sched :=
  let! d := add t dep (tx_dependency s) in Done (set_tx_dependency d s).

(** [Option::max] over the blockers that are not final. *)
Definition latest_unfinalized_blocker (blockers : gset TxId) (s : Sched) : option TxId :=
  let finality_idx := finality (scheduler_ctx s) in
  foldl (λ m t, if decide (finality_idx ≤ t) then
           Some (match m with Some m => Nat.max m t | None => t end) else m) None (elements blockers).

Definition mark_one (t : TxId) (mv : MVMemory) (location : LocationAndType) : MVMemory :=
  match mv !! location with
  | Some written =>
    match written !! t with
    | Some e => <[location := <[t := mkMemoryEntry (me_incarnation e) (data e) true]> written]> mv
    | None => mv
    end
  | None => mv
  end.

Definition mark_mv_estimate (t : TxId) (write_set : gset LocationAndType) (mv : MVMemory) : MVMemory :=
  foldl (mark_one t) mv (elements write_set).

(** Drop the entries of the previous incarnation that the new one did not write. *)
Definition remove_entry (t : TxId) (mv : MVMemory) (location : LocationAndType) : MVMemory :=
  match mv !! location with
  | Some written => <[location := delete t written]> mv
  | None => mv
  end.

Definition remove_stale (t : TxId) (old new : gset LocationAndType) (mv : MVMemory) : MVMemory :=
  foldl (remove_entry t) mv (elements (old ∖ new)).

Definition execution_task (t : TxId) (s : Sched) : outcome (option Task * Sched) :=
  let! tx := index (tx_states s) t in
  match status tx with
  | Initial | Conflict =>
    let inc := S (ts_incarnation tx) in
    Done (Some (Execution (mkTxVersion t inc)),
          set_tx_states (<[t := mkTxState Executing inc (ts_dependency tx)]> (tx_states s)) s)
  | Executing => Done (None, s)
  | _ =>
    let! (_, d) := remove t false (tx_dependency s) in
    Done (None, set_metrics (record_useless_dependency_update (metrics s)) (set_tx_dependency d s))
  end.

(** ** Execution *)

Record IncarnationExecution := mkIncarnationExecution {
  ie_result : result (EVMError E) SpeculativeResult;
  ie_accesses : IncarnationAccesses
}.

(** The guards of [execute_task]; [false] makes it return without a task. *)
Definition execute_begin (v : TxVersion) (s : Sched) : outcome (bool * Sched) :=
  let! tx := index (tx_states s) (txid v) in
  if negb (bool_decide (status tx = Executing)) then Done (false, s)
  else if negb (bool_decide (ts_incarnation tx = tv_incarnation v)) then
    Done (false, abort (ParallelError (txid v) "inconsistent incarnation during execution") s)
  else Done (true, set_metrics (record_execution_attempt (metrics s)) s).

Definition count_block (blocked_by_beneficiary : bool) (s : Sched) : Sched :=
  set_metrics ((if blocked_by_beneficiary then record_beneficiary_conflict else record_estimate_conflict)
                 (metrics s)) s.

(** How an execution ends: [None] after an abort, else whether it conflicts, whether it wrote
    new locations, and the successor handed to this worker. *)
Abbreviation Completion := (option (bool * bool * option TxId) * Sched)%type (only parsing).

Definition complete_ok (v : TxVersion) (sr : SpeculativeResult) (a : IncarnationAccesses) (s : Sched) :
    outcome Completion :=
  let t := txid v in
  let conflict := is_blocked a in
  let! last_result := index (tx_results s) t in
  let '(write_new_locations, s) :=
    match last_result with
    | Some last => (bool_decide (¬ ia_write_set a ⊆ tr_write_set last),
                    set_mv_memory (remove_stale t (tr_write_set last) (ia_write_set a) (mv_memory s)) s)
    | None => (true, s)
    end in
  let! (history_published, b) :=
    if conflict then b_record_estimate v (beneficiary s) else b_record_execution v sr (beneficiary s) in
  let s := set_beneficiary b s in
  if negb history_published then
    Done (None, abort (ParallelError t "stale beneficiary history publication") s)
  else
    let! (next, s) :=
      if conflict then
        let s := count_block (ia_blocked_by_beneficiary a) s in
        let! s := dep_add t (latest_unfinalized_blocker (ia_blocking_txs a) s) s in Done (None, s)
      else
        let! (next, d) := remove t true (tx_dependency s) in Done (next, set_tx_dependency d s) in
    let! s := set_result t (mkTransactionResult (ia_read_set a) (ia_write_set a) (Ok sr)) s in
    Done (Some (conflict, write_new_locations, next), s).

Definition complete_err (v : TxVersion) (e : EVMError E) (a : IncarnationAccesses) (s : Sched) :
    outcome Completion :=
  let t := txid v in
  let blocked_on_estimate := is_blocked a in
  let invalid_transaction := match e with Transaction _ => true | _ => false end in
  let! last_result := index (tx_results s) t in
  let '(write_set, s) :=
    match last_result with
    | Some last => (tr_write_set last, set_mv_memory (mark_mv_estimate t (tr_write_set last) (mv_memory s))
        (set_tx_results (<[t := Some (mkTransactionResult (tr_read_set last) ∅ (execute_result last))]> (tx_results s)) s))
    | None => (∅, s)
    end in
  let! (published, b) := b_record_estimate v (beneficiary s) in
  let s := set_beneficiary b s in
  if negb published then
    Done (None, abort (ParallelError t "stale beneficiary estimate publication") s)
  else
    let! s := set_result t (mkTransactionResult ∅ write_set (Err e)) s in
    let! s :=
      if blocked_on_estimate then
        let s := count_block (ia_blocked_by_beneficiary a) s in
        dep_add t (latest_unfinalized_blocker (ia_blocking_txs a) s) s
      else
        let s := set_metrics (record_evm_error_conflict (metrics s)) s in
        let s :=
          if decide (committed (scheduler_ctx s) = t) then
            abort (if invalid_transaction then FallbackSequential else FatalEvmError t) s
          else s in
        let! d := key_tx t (committed (scheduler_ctx s)) (tx_dependency s) in
        Done (set_tx_dependency d s) in
    Done (Some (true, false, None), s).

(** What the worker does after it released the transaction's lock. *)
Inductive Continuation :=
| CReturn
| CValidate (v : TxVersion)
| CHandoff (next : TxId).

(** The rest of [execute_task] after the executor has returned, up to the release of the lock. *)
Definition execute_settle (v : TxVersion) (x : IncarnationExecution) (s : Sched) :
    outcome (Continuation * Sched) :=
  let t := txid v in
  let! (c, s) :=
    match ie_result x with
    | Ok sr => complete_ok v sr (ie_accesses x) s
    | Err e => complete_err v e (ie_accesses x) s
    end in
  match c with
  | None => Done (CReturn, s)
  | Some (conflict, write_new_locations, next) =>
    let! s := set_status t (if conflict : bool then Conflict else Executed) s in
    let! c := ctx_executed t (scheduler_ctx s) in
    let s := set_ctx c s in
    match next with
    | Some next => let! s := rewind_to t s in Done (CHandoff next, s)
    | None =>
      if conflict : bool then let! s := rewind_to (t + 1) s in Done (CReturn, s)
      else if write_new_locations : bool then let! s := rewind_to t s in Done (CReturn, s)
      else
        let! s := set_status t Validating s in
        Done (CValidate (mkTxVersion t (tv_incarnation v)), s)
    end
  end.

Definition execute_complete (v : TxVersion) (x : IncarnationExecution) (s : Sched) :
    outcome (option Task * Sched) :=
  let! (c, s) := execute_settle v x s in
  match c with
  | CReturn => Done (None, s)
  | CValidate v => Done (Some (Validation v), s)
  | CHandoff next => execution_task next s
  end.

(** [execute_task] over an executor, which runs the incarnation and publishes its writes. *)
Definition execute_task {X} (executor : TxVersion → TxEnv → BeneficiaryAccount → MVMemory → X →
      outcome (IncarnationExecution * MVMemory * X))
    (v : TxVersion) (st : Sched * X) : outcome (option Task * (Sched * X)) :=
  let '(s, x) := st in
  let! (go, s) := execute_begin v s in
  if negb go then Done (None, (s, x))
  else
    let! tx_env := index (txs s) (txid v) in
    let! (exec, mv, x) := executor v tx_env (beneficiary s) (mv_memory s) x in
    let! (task, s) := execute_complete v exec (set_mv_memory mv s) in
    Done (task, (s, x)).

(** ** Validation *)

(** The guards of [validate] and the timestamp it takes before scanning. *)
Definition validate_begin (v : TxVersion) (s : Sched) :
    outcome (option (nat * TransactionResult) * Sched) :=
  let t := txid v in
  let! tx := index (tx_states s) t in
  let! tx_result := index (tx_results s) t in
  if negb (bool_decide (status tx = Validating)) then Done (None, s)
  else if negb (bool_decide (ts_incarnation tx = tv_incarnation v)) then
    Done (None, abort (ParallelError t "inconsistent incarnation during validation") s)
  else
    let s := set_metrics (record_validation_attempt (metrics s)) s in
    match tx_result with
    | None => Done (None, abort (ParallelError t "transaction has no result during validation") s)
    | Some r =>
      if negb (is_ok (execute_result r)) then
        Done (None, abort (ParallelError t "failed transaction reached validation") s)
      else
        let '(ts, c) := logical_timestamp (scheduler_ctx s) in
        Done (Some (ts, r), set_ctx c s)
    end.

Definition max_dependency (d : option TxId) (t : TxId) : option TxId :=
  Some (match d with Some d => Nat.max d t | None => t end).

(** One read of the loop of [validate]: the new conflict flag and dependency. *)
Definition validate_read (t : TxId) (s : Sched) (read : LocationAndType * ReadVersion)
    (acc : bool * option TxId) : outcome (bool * option TxId) :=
  let '(location, version) := read in
  let '(conflict, dependency) := acc in
  match version with
  | RVBeneficiary expected =>
    let! val := History.validate (b_history (beneficiary s)) t expected in
    Done (if valid val then conflict else true,
          match bv_dependency val with Some p => max_dependency dependency p | None => dependency end)
  | _ =>
    let is_storage := match version with RVStorage => true | _ => false end in
    Done (match mv_memory s !! location with
          | Some written =>
            match range_next_back t written with
            | Some (previous_id, latest) =>
              (if estimate latest then true
               else match version with
                    | MvMemory v =>
                      if negb (bool_decide (txid v = previous_id))
                         || negb (bool_decide (tv_incarnation v = me_incarnation latest))
                      then true else conflict
                    | _ => true
                    end,
               max_dependency dependency previous_id)
            | None => (if is_storage then conflict else true, dependency)
            end
          | None => (if is_storage then conflict else true, dependency)
          end)
  end.

Fixpoint validate_reads (t : TxId) (s : Sched) (reads : list (LocationAndType * ReadVersion))
    (acc : bool * option TxId) : outcome (bool * option TxId) :=
  match reads with
  | [] => Done acc
  | r :: reads => let! acc := validate_read t s r acc in validate_reads t s reads acc
  end.

(** The verdict of [validate]. *)
Definition validate_finish (v : TxVersion) (ts : nat) (r : TransactionResult)
    (conflict : bool) (dependency : option TxId) (s : Sched) : outcome Sched :=
  let t := txid v in
  let! (aborted, s) :=
    if conflict then
      let s := set_metrics (record_version_conflict (metrics s)) s in
      let s := set_mv_memory (mark_mv_estimate t (tr_write_set r) (mv_memory s)) s in
      let! (ok, b) := b_invalidate v (beneficiary s) in
      let s := set_beneficiary b s in
      if negb ok then Done (true, abort (ParallelError t "stale beneficiary history validation") s)
      else Done (false, s)
    else Done (false, s) in
  if aborted : bool then Done s
  else
    let! s :=
      if conflict then rewind_to (t + 1) s
      else let! c := unconfirmed t ts (scheduler_ctx s) in Done (set_ctx c s) in
    let! l := modify_at (tx_states s) t
      (λ x, mkTxState (if conflict then Conflict else Unconfirmed) (ts_incarnation x) dependency) in
    let s := set_tx_states l s in
    let! s :=
      if conflict then
        let dep_tx :=
          match dependency with
          | Some d => if decide (finality (scheduler_ctx s) ≤ d) then Some d else None
          | None => None
          end in
        dep_add t dep_tx s
      else Done s in
    Done (if decide (t = finality (scheduler_ctx s)) then notify_finality s else s).

Definition validate (v : TxVersion) (s : Sched) : outcome (option Task * Sched) :=
  let! (go, s) := validate_begin v s in
  match go with
  | None => Done (None, s)
  | Some (ts, r) =>
    let! (conflict, dependency) := validate_reads (txid v) s (map_to_list (tr_read_set r)) (false, None) in
    let! s := validate_finish v ts r conflict dependency s in
    Done (None, s)
  end.

(** ** Task selection *)

(** The claimed validation task, if the locked status still asks for one. *)
Definition validation_task (i : TxId) (s : Sched) : outcome (option Task * Sched) :=
  let! tx := index (tx_states s) i in
  match status tx with
  | Executed | Unconfirmed =>
    Done (Some (Validation (mkTxVersion i (ts_incarnation tx))),
          set_tx_states (<[i := mkTxState Validating (ts_incarnation tx) (ts_dependency tx)]> (tx_states s)) s)
  | _ => Done (None, s)
  end.

Definition next_validation (s : Sched) : outcome (option Task * Sched) :=
  let '(idx, c) := next_validation_idx (dep_index (tx_dependency s)) (scheduler_ctx s) in
  let s := set_ctx c s in
  match idx with
  | None => Done (None, s)
  | Some i => validation_task i s
  end.

Definition next_execution (s : Sched) : outcome (option Task * Sched) :=
  let! (r, d) := TxDependency.next (tx_dependency s) in
  let s := set_tx_dependency d s in
  match r with
  | Some t => execution_task t s
  | None => Done (None, s)
  end.

(** One iteration of the loop of [next]. *)
Definition next_iteration (s : Sched) : outcome (option Task * Sched) :=
  if finished (scheduler_ctx s) || abort_flag s then Done (None, s)
  else
    let '(_, c) := should_schedule (dep_index (tx_dependency s)) (scheduler_ctx s) in
    let! (task, s) := next_validation (set_ctx c s) in
    match task with
    | Some task => Done (Some task, s)
    | None => next_execution s
    end.

(** [next]: the loop until a task is found or the block ends. [None] without an answer means that the
    fuel ran out: the loop is still looking. *)
Fixpoint next_loop (fuel : nat) (s : Sched) : outcome (option (option Task) * Sched) :=
  match fuel with
  | 0 => Done (None, s)
  | S fuel =>
    if finished (scheduler_ctx s) || abort_flag s then Done (Some None, s)
    else
      let! (task, s) := next_iteration s in
      match task with
      | Some task => Done (Some (Some task), s)
      | None => next_loop fuel s
      end
  end.

(** ** Finality *)

Definition lock_finality_candidate (finality_idx lower_ts : nat) (s : Sched) :
    outcome (option (TxState * nat)) :=
  if bool_decide (block_size s ≤ finality_idx) || bool_decide (validation (scheduler_ctx s) ≤ finality_idx)
  then Done None
  else
    let! tx := index (tx_states s) finality_idx in
    if negb (bool_decide (status tx = Unconfirmed)) then Done None
    else
      let! lower := index (lower_timestamps (scheduler_ctx s)) finality_idx in
      let! un := index (unconfirmed_timestamps (scheduler_ctx s)) finality_idx in
      let effective_lower_ts := Nat.max lower_ts lower in
      Done (if decide (effective_lower_ts < un) then Some (tx, effective_lower_ts) else None).

(** One finalized transaction of [run_finality_loop]: the new lower bound, and the state;
    [first] says whether it is the first of its batch. *)
Definition finality_iteration (finality_idx lower_ts : nat) (first : bool) (s : Sched) :
    outcome (option nat * Sched) :=
  let! candidate := lock_finality_candidate finality_idx lower_ts s in
  match candidate with
  | None => Done (None, s)
  | Some (tx, effective_lower_ts) =>
    let! s := set_status finality_idx Finality s in
    let s := set_ctx (publish_finality (S finality_idx) (scheduler_ctx s)) s in
    let s := if first then notify_commit s else s in
    let s := set_metrics (record_finalized (ts_incarnation tx) (bool_decide (is_Some (ts_dependency tx)))
                            (metrics s)) s in
    Done (Some effective_lower_ts, s)
  end.

End scheduler.
Arguments Sched {_}.
Arguments TransactionResult {_}.
Arguments AbortReason {_}.
Arguments IncarnationExecution {_}.
