(* ===== verification/Interleave.v ===== *)
(** The scheduler under interleaving, and the safety of finality (src/src/scheduler.rs).

    [sys_step] interleaves the workers and the finality loop at the granularity of the shared
    accesses: publication of one location, the check of one recorded read, the sections under a
    transaction lock. A transaction with an entry in [phase] is locked by the worker that
    executes or validates it. What an execution read and returned is arbitrary, and so is what
    the dependency graph, the cursors and the abort flag do: they do not matter for safety.

    The result is that a finalized transaction's recorded reads are valid in the current
    memory, and that the consistency failures the code checks for cannot occur. *)

From S2P Require Import Prelude Model Reward History World IncarnationDb TxDependency Context Metrics Scheduler.

Section interleave.
Context `{!Revm} {E : Type}.
Abbreviation Sched := (Scheduler.Sched E).
Abbreviation TransactionResult := (Scheduler.TransactionResult E).
Abbreviation IncarnationExecution := (Scheduler.IncarnationExecution E).

(** ** The system *)

Inductive Phase :=
| PPublish (v : TxVersion) (x : IncarnationExecution) (ps todo : list (LocationAndType * MemoryValue))
| PScan (v : TxVersion) (ts : nat) (r : TransactionResult) (seen todo : list (LocationAndType * ReadVersion))
    (conflict : bool) (dep : option TxId).

(** [fin_lower] is the local [lower_ts] of the finality loop. *)
Record Sys := mkSys { sch : Sched; phase : gmap TxId Phase; fin_lower : nat }.

Definition Sys_new (txs : list TxEnv) (ben : Address) (anchor : option AccountInfo) : Sys :=
  mkSys (Sched_new txs ben anchor) ∅ 0.

(** The publications of a successful execution, in program order, and its accesses. *)
Definition publications (s : Sched) (sr : SpeculativeResult) (idb : IncarnationDb) :=
  map_to_list (sr_state sr) ≫= account_writes (beneficiary s) (account_snapshots idb).
Definition accesses_of (ps : list (LocationAndType * MemoryValue)) (idb : IncarnationDb) :=
  mkIncarnationAccesses (read_set idb) (list_to_set ps.*1) (blocking_txs idb) (blocked_by_beneficiary idb).

(** States that agree on everything finality depends on. *)
Record same_core (s s' : Sched) : Prop := {
  sc_size : block_size s' = block_size s;
  sc_txs : txs s' = txs s;
  sc_abort : abort_flag s = true → abort_flag s' = true;
  sc_states : tx_states s' = tx_states s;
  sc_results : tx_results s' = tx_results s;
  sc_memory : mv_memory s' = mv_memory s;
  sc_beneficiary : beneficiary s' = beneficiary s;
  sc_num : ctx_num_txs (scheduler_ctx s') = ctx_num_txs (scheduler_ctx s);
  sc_committed : committed (scheduler_ctx s') = committed (scheduler_ctx s);
  sc_finality : finality (scheduler_ctx s') = finality (scheduler_ctx s);
  sc_clock : logical_clock (scheduler_ctx s') = logical_clock (scheduler_ctx s);
  sc_lower : lower_timestamps (scheduler_ctx s') = lower_timestamps (scheduler_ctx s);
  sc_unconfirmed : unconfirmed_timestamps (scheduler_ctx s') = unconfirmed_timestamps (scheduler_ctx s)
}.

(** The workers and the finality loop. *)
Inductive worker_step : Sys → Sys → Prop :=
| ss_execute s ph fl v s1 sr idb ps :
    ph !! txid v = None → execute_begin v s = Done (true, s1) → ps = publications s sr idb →
    worker_step (mkSys s ph fl)
      (mkSys s1 (<[txid v := PPublish v (mkIncarnationExecution (Ok sr) (accesses_of ps idb)) ps ps]> ph) fl)
| ss_execute_error s ph fl v s1 e idb :
    ph !! txid v = None → execute_begin v s = Done (true, s1) →
    worker_step (mkSys s ph fl)
      (mkSys s1 (<[txid v := PPublish v (mkIncarnationExecution (Err e) (discard_incarnation idb).1) [] []]> ph) fl)
| ss_publish s ph fl t v x ps l val todo :
    ph !! t = Some (PPublish v x ps ((l, val) :: todo)) →
    worker_step (mkSys s ph fl)
      (mkSys (set_mv_memory (publish_value v l val (is_blocked (ie_accesses x)) (∅, mv_memory s)).2 s)
         (<[t := PPublish v x ps todo]> ph) fl)
| ss_settle s ph fl t v x ps c s' :
    ph !! t = Some (PPublish v x ps []) → execute_settle v x s = Done (c, s') →
    worker_step (mkSys s ph fl) (mkSys s' (delete t ph) fl)
| ss_execution_task s ph fl t task s' :
    ph !! t = None → execution_task t s = Done (task, s') → worker_step (mkSys s ph fl) (mkSys s' ph fl)
| ss_validation_task s ph fl t task s' :
    ph !! t = None → validation_task t s = Done (task, s') → worker_step (mkSys s ph fl) (mkSys s' ph fl)
| ss_validate s ph fl v ts r s' :
    ph !! txid v = None → validate_begin v s = Done (Some (ts, r), s') →
    worker_step (mkSys s ph fl)
      (mkSys s' (<[txid v := PScan v ts r [] (map_to_list (tr_read_set r)) false None]> ph) fl)
| ss_read s ph fl t v ts r seen rd todo c d c' d' :
    ph !! t = Some (PScan v ts r seen (rd :: todo) c d) → validate_read t s rd (c, d) = Done (c', d') →
    worker_step (mkSys s ph fl) (mkSys s (<[t := PScan v ts r (seen ++ [rd]) todo c' d']> ph) fl)
| ss_verdict s ph fl t v ts r seen c d s' :
    ph !! t = Some (PScan v ts r seen [] c d) → validate_finish v ts r c d s = Done s' →
    worker_step (mkSys s ph fl) (mkSys s' (delete t ph) fl)
| ss_finality s ph fl first fl' s' :
    ph !! finality (scheduler_ctx s) = None →
    finality_iteration (finality (scheduler_ctx s)) fl first s = Done (Some fl', s') →
    worker_step (mkSys s ph fl) (mkSys s' ph fl')
| ss_other s ph fl s' :
    same_core s s' → worker_step (mkSys s ph fl) (mkSys s' ph fl).

(** The whole system: the commit loop takes the results of final transactions and publishes
    its cursor. *)
Inductive sys_step : Sys → Sys → Prop :=
| ss_worker σ σ' : worker_step σ σ' → sys_step σ σ'
| ss_take s ph fl c l :
    c < finality (scheduler_ctx s) → modify_at (tx_results s) c (λ _, None) = Done l →
    sys_step (mkSys s ph fl) (mkSys (set_tx_results l s) ph fl)
| ss_commit s ph fl i :
    sys_step (mkSys s ph fl) (mkSys (set_ctx (publish_commit i (scheduler_ctx s)) s) ph fl).

(** ** Views of the state *)

Definition status_at (s : Sched) (t : TxId) : option TransactionStatus := status <$> tx_states s !! t.
Definition inc_at (s : Sched) (t : TxId) : nat := default 0 (ts_incarnation <$> tx_states s !! t).
Definition res_at (s : Sched) (t : TxId) : option TransactionResult := tx_results s !! t ≫= id.
Definition ent (s : Sched) (l : LocationAndType) (t : TxId) : option MemoryEntry := mv_entry (mv_memory s) l t.
Definition hist_at (s : Sched) (t : TxId) : option EntryState := entries (b_history (beneficiary s)) !! t.
Definition anchor_of (s : Sched) : option AccountInfo := block_anchor (b_history (beneficiary s)).
Definition lower_at (s : Sched) (t : TxId) : nat := default 0 (lower_timestamps (scheduler_ctx s) !! t).
Definition unconf_at (s : Sched) (t : TxId) : nat := default 0 (unconfirmed_timestamps (scheduler_ctx s) !! t).
Definition clock (s : Sched) : nat := logical_clock (scheduler_ctx s).
Definition final_idx (s : Sched) : nat := finality (scheduler_ctx s).

(** The newest entry below [t] is the one of [w]. *)
Definition latest (s : Sched) (l : LocationAndType) (t w : TxId) (e : MemoryEntry) : Prop :=
  w < t ∧ ent s l w = Some e ∧ ∀ k, w < k < t → ent s l k = None.

(** A recorded read is still what a read would return now, and not from an estimate. *)
Definition read_ok (s : Sched) (t : TxId) (rd : LocationAndType * ReadVersion) : Prop :=
  match rd.2 with
  | RVBeneficiary expected => ∃ sc,
      scan_loop (anchor_of s) (hist_at s) t [] [] = Done (Ok sc) ∧ scan_version sc = expected
  | MvMemory w => ∃ e, latest s rd.1 t (txid w) e ∧ estimate e = false ∧ me_incarnation e = tv_incarnation w
  | RVStorage => ∀ k, k < t → ent s rd.1 k = None
  end.

Lemma ent_lookup s l m j : mv_memory s !! l = Some m → ent s l j = m !! j.
Proof. intros Hm. unfold ent, mv_entry. by rewrite Hm. Qed.

Lemma ent_lookup_None s l j : mv_memory s !! l = None → ent s l j = None.
Proof. intros Hm. unfold ent, mv_entry. rewrite Hm. apply lookup_empty. Qed.

(** The check of [validate] keeps the conflict flag down only for a valid read. *)
Lemma validate_read_sound t s rd c d d' :
  validate_read t s rd (c, d) = Done (false, d') → c = false ∧ read_ok s t rd.
Proof.
  destruct rd as [l v]. unfold validate_read, read_ok. simpl. destruct v as [w|exp|].
  - intros [= Hc]. destruct (mv_memory s !! l) as [m|] eqn:Hm; [|done].
    destruct (range_next_back t m) as [[p e]|] eqn:Hr; [|done]. injection Hc as Hc _.
    destruct (estimate e) eqn:He; [done|]. case_bool_decide as Hp; [|done].
    case_bool_decide as Hi; [|done]. simpl in Hc. split; [done|]. exists e.
    apply range_next_back_Some in Hr as (? & ? & Hn). split_and!; [|done|done]. subst p.
    unfold latest. split_and!; [done|by erewrite ent_lookup|]. intros k Hk. erewrite ent_lookup by done. by apply Hn.
  - intros (val & Hval & [= Hc _])%outcome_bind_Done. unfold History.validate in Hval.
    apply outcome_bind_Done in Hval as (r & [_ Hs]%scan_before_Done & [= <-]).
    destruct r as [sc|b]; simpl in Hc; [|done].
    case_bool_decide; [|done]. split; [done|]. by exists sc.
  - intros [= Hc]. destruct (mv_memory s !! l) as [m|] eqn:Hm.
    + destruct (range_next_back t m) as [[p e]|] eqn:Hr; [by destruct (estimate e)|].
      injection Hc as -> _. split; [done|]. intros k Hk. erewrite ent_lookup by done. by eapply range_next_back_None.
    + injection Hc as -> _. split; [done|]. intros k _. by apply ent_lookup_None.
Qed.

(** A scan that succeeds has not met an estimate, so resolving estimates does not change it. *)
Lemma scan_loop_estimates anchor o o' t sc :
  (∀ j, j < t → o' j = o j ∨ ∃ inc, o j = Some (mkEntryState inc Estimate)) →
  scan_loop anchor o t [] [] = Done (Ok sc) → scan_loop anchor o' t [] [] = Done (Ok sc).
Proof.
  revert sc. induction t as [|w IH]; intros sc Ho Hs; [done|]. rewrite scan_loop_S in Hs |- *.
  destruct (Ho w) as [->|[inc Hw]]; [lia| |by rewrite Hw in Hs].
  destruct (o w) as [[inc [|[|rw|a]]]|]; try done.
  all: apply outcome_bind_Done in Hs as ([sc'|] & Hs & Heq); [|done]; simplify_eq/=.
  all: rewrite (IH sc'); [done| |done]; intros; apply Ho; lia.
Qed.

(** Valid reads survive every change of entries that were estimates. *)
Lemma read_ok_estimates s s' t rd :
  anchor_of s' = anchor_of s →
  (∀ l j, j < t → ent s' l j = ent s l j ∨ ∃ e, ent s l j = Some e ∧ estimate e = true) →
  (∀ l j, j < t → ent s l j = None → ent s' l j = None) →
  (∀ j, j < t → hist_at s' j = hist_at s j ∨ ∃ inc, hist_at s j = Some (mkEntryState inc Estimate)) →
  read_ok s t rd → read_ok s' t rd.
Proof.
  intros Ha He Hn Hh. unfold read_ok. destruct rd.2 as [w|exp|]; simpl.
  - intros (e & (Hw & Hew & Hk) & Hest & Hinc). exists e. split_and!; [|done|done].
    split_and!; [done| |].
    + destruct (He rd.1 (txid w) Hw) as [->|(e' & Hew' & ?)]; [done|]. rewrite Hew in Hew'. simplify_eq. congruence.
    + intros k Hk'. apply Hn; [lia|]. by apply Hk.
  - intros (sc & Hs & Hv). exists sc. split; [|done]. rewrite Ha. eapply scan_loop_estimates, Hs. done.
  - intros Hk k Hlt. apply Hn; [done|]. by apply Hk.
Qed.

(** ** Memory updates, entry by entry *)

Definition as_estimate (e : MemoryEntry) : MemoryEntry := mkMemoryEntry (me_incarnation e) (data e) true.

Lemma mark_one_entry t mv loc l j :
  mv_entry (mark_one t mv loc) l j =
  if decide (j = t ∧ l = loc) then as_estimate <$> mv_entry mv l j else mv_entry mv l j.
Proof.
  unfold mark_one, mv_entry. destruct (mv !! loc) as [m|] eqn:Hm; [destruct (m !! t) as [e|] eqn:He|].
  - destruct (decide (l = loc)) as [->|]; [rewrite lookup_insert_eq, Hm; simpl|rewrite lookup_insert_ne by done].
    + destruct (decide (j = t)) as [->|]; [|by rewrite lookup_insert_ne, decide_False by naive_solver].
      by rewrite lookup_insert_eq, He, decide_True.
    + by rewrite decide_False by naive_solver.
  - case_decide as Hd; [|done]. destruct Hd as [-> ->]. rewrite Hm. simpl. by rewrite He.
  - case_decide as Hd; [|done]. destruct Hd as [-> ->]. rewrite Hm. simpl. by rewrite lookup_empty.
Qed.

Lemma as_estimate_idemp (o : option MemoryEntry) : as_estimate <$> (as_estimate <$> o) = as_estimate <$> o.
Proof. by destruct o. Qed.

Lemma mark_mv_estimate_entry t ws mv l j :
  mv_entry (mark_mv_estimate t ws mv) l j =
  if decide (j = t ∧ l ∈ ws) then as_estimate <$> mv_entry mv l j else mv_entry mv l j.
Proof.
  unfold mark_mv_estimate.
  assert (Hls : ∀ ls, mv_entry (foldl (mark_one t) mv ls) l j =
    if decide (j = t ∧ l ∈ ls) then as_estimate <$> mv_entry mv l j else mv_entry mv l j).
  { intros ls. induction ls as [|loc ls IH] using rev_ind; [by rewrite decide_False by set_solver|].
    rewrite foldl_app. simpl. rewrite mark_one_entry, !IH.
    repeat case_decide; rewrite ?as_estimate_idemp; done || set_solver. }
  rewrite Hls. repeat case_decide; done || set_solver.
Qed.

Lemma remove_entry_entry t mv loc l j :
  mv_entry (remove_entry t mv loc) l j = if decide (j = t ∧ l = loc) then None else mv_entry mv l j.
Proof.
  unfold remove_entry, mv_entry. destruct (mv !! loc) as [m|] eqn:Hm.
  - destruct (decide (l = loc)) as [->|]; [rewrite lookup_insert_eq, Hm; simpl|rewrite lookup_insert_ne by done].
    + destruct (decide (j = t)) as [->|]; [by rewrite lookup_delete_eq, decide_True|].
      by rewrite lookup_delete_ne, decide_False by naive_solver.
    + by rewrite decide_False by naive_solver.
  - case_decide as Hd; [|done]. destruct Hd as [-> ->]. rewrite Hm. apply lookup_empty.
Qed.

Lemma remove_stale_entry t old new mv l j :
  mv_entry (remove_stale t old new mv) l j =
  if decide (j = t ∧ l ∈ old ∖ new) then None else mv_entry mv l j.
Proof.
  unfold remove_stale.
  assert (Hls : ∀ ls, mv_entry (foldl (remove_entry t) mv ls) l j =
    if decide (j = t ∧ l ∈ ls) then None else mv_entry mv l j).
  { intros ls. induction ls as [|loc ls IH] using rev_ind; [by rewrite decide_False by set_solver|].
    rewrite foldl_app. simpl. rewrite remove_entry_entry, !IH. repeat case_decide; done || set_solver. }
  rewrite Hls. repeat case_decide; done || set_solver.
Qed.

(** ** What a handler of transaction [t] leaves alone *)

Record frame (t : TxId) (s s' : Sched) : Prop := {
  fr_size : block_size s' = block_size s;
  fr_txs : txs s' = txs s;
  fr_abort : abort_flag s = true → abort_flag s' = true;
  fr_num : ctx_num_txs (scheduler_ctx s') = ctx_num_txs (scheduler_ctx s);
  fr_states_len : length (tx_states s') = length (tx_states s);
  fr_results_len : length (tx_results s') = length (tx_results s);
  fr_hist_len : length (entries (b_history (beneficiary s'))) = length (entries (b_history (beneficiary s)));
  fr_lower_len : length (lower_timestamps (scheduler_ctx s')) = length (lower_timestamps (scheduler_ctx s));
  fr_unconf_len : length (unconfirmed_timestamps (scheduler_ctx s')) = length (unconfirmed_timestamps (scheduler_ctx s));
  fr_state j : j ≠ t → tx_states s' !! j = tx_states s !! j;
  fr_result j : j ≠ t → tx_results s' !! j = tx_results s !! j;
  fr_entry l j : j ≠ t → ent s' l j = ent s l j;
  fr_hist j : j ≠ t → hist_at s' j = hist_at s j;
  fr_anchor : anchor_of s' = anchor_of s;
  fr_address : b_address (beneficiary s') = b_address (beneficiary s);
  fr_unconf j : j ≠ t → unconf_at s' j = unconf_at s j;
  fr_committed : committed (scheduler_ctx s') = committed (scheduler_ctx s);
  fr_final : final_idx s' = final_idx s;
  fr_clock : clock s ≤ clock s';
  fr_lower_below i : i < t → lower_at s' i = lower_at s i;
  fr_lower_mono i : lower_at s i ≤ lower_at s' i;
  fr_lower_clock i : lower_at s i < clock s → lower_at s' i < clock s'
}.

Lemma frame_refl t s : frame t s s.
Proof. by split. Qed.

Lemma frame_trans t s1 s2 s3 : frame t s1 s2 → frame t s2 s3 → frame t s1 s3.
Proof.
  intros [] []. split; try congruence; try lia; intros;
    repeat match goal with
    | H : ∀ j, j ≠ t → _ |- _ => first [rewrite H by done|clear H]
    | H : ∀ l j, j ≠ t → _ |- _ => first [rewrite H by done|clear H]
    end; try done.
  - auto.
  - rewrite fr_lower_below1 by done. auto.
  - etrans; eauto.
  - eauto.
Qed.

Lemma same_core_frame t s s' : same_core s s' → frame t s s'.
Proof.
  intros []. unfold ent, hist_at, anchor_of, unconf_at, lower_at, clock, final_idx.
  split; unfold ent, hist_at, anchor_of, unconf_at, lower_at, clock, final_idx; intros; congruence || lia || auto.
  all: rewrite ?sc_lower0, ?sc_clock0; lia.
Qed.

Lemma same_core_abort reason s : same_core s (abort reason s).
Proof. by split. Qed.
Lemma same_core_metrics m s : same_core s (set_metrics m s).
Proof. by split. Qed.
Lemma same_core_dependency d s : same_core s (set_tx_dependency d s).
Proof. by split. Qed.
Lemma same_core_refl s : same_core s s.
Proof. by split. Qed.
Lemma same_core_trans s1 s2 s3 : same_core s1 s2 → same_core s2 s3 → same_core s1 s3.
Proof. intros [] []. split; congruence || auto. Qed.

Lemma dep_add_core t d s s' : dep_add t d s = Done s' → same_core s s'.
Proof. intros (? & _ & [= <-])%outcome_bind_Done. apply same_core_dependency. Qed.

Lemma ctx_executed_core t s c : ctx_executed t (scheduler_ctx s) = Done c → same_core s (set_ctx c s).
Proof. intros (? & _ & [= <-])%outcome_bind_Done. by split. Qed.

(** Updates of one slot. *)
Lemma frame_status t st s s' :
  set_status t st s = Done s' →
  frame t s s' ∧ status_at s' t = Some st ∧ inc_at s' t = inc_at s t ∧ tx_results s' = tx_results s ∧
  mv_memory s' = mv_memory s ∧ beneficiary s' = beneficiary s ∧ scheduler_ctx s' = scheduler_ctx s.
Proof.
  intros (l & (x & Hx & ->)%modify_at_Done & [= <-])%outcome_bind_Done.
  assert (Hlt := lookup_lt_Some _ _ _ Hx). unfold status_at, inc_at. simpl.
  rewrite list_lookup_insert_eq by done. rewrite Hx. split_and!; try done.
  split; try done; simpl; [by rewrite length_insert|]. intros. by rewrite list_lookup_insert_ne.
Qed.

Lemma frame_result t r s s' :
  set_result t r s = Done s' →
  frame t s s' ∧ res_at s' t = Some r ∧ tx_states s' = tx_states s ∧
  mv_memory s' = mv_memory s ∧ beneficiary s' = beneficiary s ∧ scheduler_ctx s' = scheduler_ctx s.
Proof.
  intros (l & (x & Hx & ->)%modify_at_Done & [= <-])%outcome_bind_Done.
  assert (Hlt := lookup_lt_Some _ _ _ Hx). unfold res_at. simpl.
  rewrite list_lookup_insert_eq by done. split_and!; try done.
  split; try done; simpl; [by rewrite length_insert|]. intros. by rewrite list_lookup_insert_ne.
Qed.

Lemma frame_memory t mv s :
  (∀ l j, j ≠ t → mv_entry mv l j = ent s l j) → frame t s (set_mv_memory mv s).
Proof. intros Hmv. split; done || (intros; by apply Hmv). Qed.

Lemma frame_beneficiary t f s ok h :
  with_entry t f (b_history (beneficiary s)) = Done (ok, h) →
  ∃ x, hist_at s t = Some x ∧ ok = (f x).1 ∧
  let s' := set_beneficiary (mkBeneficiary (b_address (beneficiary s)) h) s in
  frame t s s' ∧ hist_at s' t = Some (f x).2.
Proof.
  intros (x & Hx & -> & ->)%with_entry_Done. exists x. split_and!; [done|done|]. simpl.
  assert (Hlt := lookup_lt_Some _ _ _ Hx). unfold hist_at. simpl. split; [|by rewrite list_lookup_insert_eq].
  split; try done; unfold hist_at; simpl; [by rewrite length_insert|].
  intros. by rewrite list_lookup_insert_ne.
Qed.

Lemma rewind_to_frame t i s s' :
  t ≤ i → rewind_to i s = Done s' →
  frame t s s' ∧ tx_states s' = tx_states s ∧ tx_results s' = tx_results s ∧ mv_memory s' = mv_memory s ∧
  beneficiary s' = beneficiary s ∧ (∀ j, unconf_at s' j = unconf_at s j) ∧
  (i < ctx_num_txs (scheduler_ctx s) → clock s ≤ lower_at s' i).
Proof.
  intros Hti (c & Hc & [= <-])%outcome_bind_Done. unfold rewind_validation_to in Hc. case_decide as Hi.
  { simplify_eq. assert (set_ctx (scheduler_ctx s) s = s) as -> by (by destruct s).
    split; [apply frame_refl|]. split_and!; try done. lia. }
  apply outcome_bind_Done in Hc as (l & (x & Hx & ->)%modify_at_Done & [= <-]).
  assert (Hlt := lookup_lt_Some _ _ _ Hx).
  assert (Hlow : ∀ j, lower_at (set_ctx (mkContext (ctx_num_txs (scheduler_ctx s))
      (Nat.min (validation (scheduler_ctx s)) i) (finality (scheduler_ctx s)) (committed (scheduler_ctx s))
      (execution_frontier (scheduler_ctx s)) (if decide (i < validation (scheduler_ctx s)) then
        S (validation_resets (scheduler_ctx s)) else validation_resets (scheduler_ctx s))
      (S (logical_clock (scheduler_ctx s))) (<[i := Nat.max (logical_clock (scheduler_ctx s)) x]>
        (lower_timestamps (scheduler_ctx s))) (unconfirmed_timestamps (scheduler_ctx s))) s) j =
    if decide (j = i) then Nat.max (clock s) (lower_at s i) else lower_at s j).
  { intros j. unfold lower_at, clock. simpl. case_decide; [subst; by rewrite list_lookup_insert_eq, Hx|].
    by rewrite list_lookup_insert_ne. }
  split_and!; try done.
  - split; try done; simpl; [by rewrite length_insert|unfold clock; simpl; lia|..]; intros j; rewrite ?Hlow.
    + intros. by rewrite decide_False by lia.
    + destruct (decide (j = i)) as [->|]; [apply Nat.le_max_r|done].
    + unfold clock in *. simpl. clear Hlow. destruct (decide (j = i)) as [->|]; lia.
  - intros _. rewrite Hlow, decide_True by done. lia.
Qed.

(** ** Effects of the handlers *)

(** The locations of the previous incarnation's entries. *)
Definition in_old (s : Sched) (t : TxId) (l : LocationAndType) : Prop :=
  ∃ r, res_at s t = Some r ∧ l ∈ tr_write_set r.

#[export] Instance in_old_dec s t l : Decision (in_old s t l).
Proof.
  unfold in_old. destruct (res_at s t) as [r|]; [|right; naive_solver].
  destruct (decide (l ∈ tr_write_set r)); [left|right]; naive_solver.
Defined.

(** The history of [t] is behind the incarnation that is about to be recorded. *)
Definition recordable (s : Sched) (t inc : nat) : Prop :=
  ∀ x, hist_at s t = Some x → es_incarnation x < inc.

Lemma res_at_lookup s t o : tx_results s !! t = Some o → res_at s t = o.
Proof. unfold res_at. by intros ->. Qed.

(** What an execution records in the history, as a function of its result. *)
Definition effect_of (ben : Address) (sr : SpeculativeResult) : outcome BeneficiaryEffect :=
  from_execution (sr_deferred_reward sr) (sr_state sr !! ben).

(** The history entry of a completed execution. *)
Definition recorded (ben : Address) (a : IncarnationAccesses) (sr : SpeculativeResult) (x : EntryValue) : Prop :=
  (is_blocked a = true → x = Estimate) ∧
  (is_blocked a = false → ∃ e, x = Exact e ∧ effect_of ben sr = Done e).

(** Recording never finds a stale incarnation. *)
Lemma b_record_execution_effect v sr s ok b :
  b_record_execution v sr (beneficiary s) = Done (ok, b) → recordable s (txid v) (tv_incarnation v) →
  ok = true ∧ frame (txid v) s (set_beneficiary b s) ∧
  ∃ e, hist_at (set_beneficiary b s) (txid v) = Some (mkEntryState (tv_incarnation v) (Exact e)) ∧
    effect_of (b_address (beneficiary s)) sr = Done e.
Proof.
  unfold b_record_execution, record_execution, record_effect.
  intros (_ & _ & ([ok' h] & (e & He & Hw)%outcome_bind_Done & [= <- <-])%outcome_bind_Done)%outcome_bind_Done Hrec.
  apply frame_beneficiary in Hw as (x & Hx & -> & Hfr & Hh). specialize (Hrec x Hx).
  unfold entry_record in *. rewrite (proj2 (Nat.leb_gt _ _)) in * by done. eauto.
Qed.

Lemma b_record_estimate_effect v s ok b :
  b_record_estimate v (beneficiary s) = Done (ok, b) → recordable s (txid v) (tv_incarnation v) →
  ok = true ∧ frame (txid v) s (set_beneficiary b s) ∧
  hist_at (set_beneficiary b s) (txid v) = Some (mkEntryState (tv_incarnation v) Estimate).
Proof.
  unfold b_record_estimate, record_estimate.
  intros ([ok' h] & Hw & [= <- <-])%outcome_bind_Done Hrec.
  apply frame_beneficiary in Hw as (x & Hx & -> & Hfr & Hh). specialize (Hrec x Hx).
  unfold entry_record in *. rewrite (proj2 (Nat.leb_gt _ _)) in * by done. eauto.
Qed.

Lemma b_invalidate_effect v s ok b x :
  b_invalidate v (beneficiary s) = Done (ok, b) → hist_at s (txid v) = Some x → es_incarnation x = tv_incarnation v →
  ok = true ∧ frame (txid v) s (set_beneficiary b s) ∧
  hist_at (set_beneficiary b s) (txid v) = Some (mkEntryState (tv_incarnation v) Estimate).
Proof.
  unfold b_invalidate, invalidate.
  intros ([ok' h] & Hw & [= <- <-])%outcome_bind_Done Hx Hinc.
  apply frame_beneficiary in Hw as (x' & Hx' & -> & Hfr & Hh). simplify_eq.
  unfold entry_invalidate in *. rewrite (proj2 (Nat.eqb_eq _ _)) in * by done. simpl in *.
  split_and!; [done|done|]. rewrite Hh. destruct x' as [i [|e]]; simpl in *; by subst.
Qed.

(** The common result of [complete_ok] and [complete_err]. *)
Record completed (v : TxVersion) (s s' : Sched) : Prop := {
  cp_frame : frame (txid v) s s';
  cp_states : tx_states s' = tx_states s;
  cp_ctx : scheduler_ctx s' = scheduler_ctx s
}.

Lemma completed_trans v s1 s2 s3 : completed v s1 s2 → completed v s2 s3 → completed v s1 s3.
Proof. intros [] []. split; [by eapply frame_trans|congruence|congruence]. Qed.

Lemma completed_core v s s' : same_core s s' → scheduler_ctx s' = scheduler_ctx s → completed v s s'.
Proof. intros Hc ?. split; [by apply same_core_frame|apply Hc|done]. Qed.

Lemma completed_memory v mv s :
  (∀ l j, j ≠ txid v → mv_entry mv l j = ent s l j) → completed v s (set_mv_memory mv s).
Proof. intros. split; [by apply frame_memory|done|done]. Qed.

(** Whether the new write set leaves the old one. *)
Definition write_new (s : Sched) (t : TxId) (ws : gset LocationAndType) : bool :=
  match res_at s t with Some r => bool_decide (¬ ws ⊆ tr_write_set r) | None => true end.

Lemma in_old_iff s t l r : res_at s t = Some r → in_old s t l ↔ l ∈ tr_write_set r.
Proof. unfold in_old. intros ->. naive_solver. Qed.

(** Dropping the stale entries. *)
Lemma stale_effect v s r ws :
  res_at s (txid v) = Some r →
  completed v s (set_mv_memory (remove_stale (txid v) (tr_write_set r) ws (mv_memory s)) s) ∧
  ∀ l, ent (set_mv_memory (remove_stale (txid v) (tr_write_set r) ws (mv_memory s)) s) l (txid v) =
    if decide (in_old s (txid v) l ∧ l ∉ ws) then None else ent s l (txid v).
Proof.
  intros Hr. split.
  - apply completed_memory. intros l j Hj. rewrite remove_stale_entry, decide_False by naive_solver. done.
  - intros l. unfold ent. simpl. rewrite remove_stale_entry.
    pose proof (in_old_iff s (txid v) l r Hr). repeat case_decide; done || set_solver.
Qed.

Lemma complete_ok_effect v sr a s c s' :
  complete_ok v sr a s = Done (c, s') → recordable s (txid v) (tv_incarnation v) →
  completed v s s' ∧
  (∃ next, c = Some (is_blocked a, write_new s (txid v) (ia_write_set a), next)) ∧
  res_at s' (txid v) = Some (mkTransactionResult (ia_read_set a) (ia_write_set a) (Ok sr)) ∧
  (∀ l, ent s' l (txid v) = if decide (in_old s (txid v) l ∧ l ∉ ia_write_set a) then None else ent s l (txid v)) ∧
  ∃ x, hist_at s' (txid v) = Some (mkEntryState (tv_incarnation v) x) ∧ recorded (b_address (beneficiary s)) a sr x.
Proof.
  unfold complete_ok. intros (o & Ho%index_Done%res_at_lookup & Hrest)%outcome_bind_Done Hrec.
  (* the stale entries *)
  set (p := match o with Some last => _ | None => _ end) in Hrest.
  assert (Hp : ∃ s1, p = (write_new s (txid v) (ia_write_set a), s1) ∧ completed v s s1 ∧
    beneficiary s1 = beneficiary s ∧
    ∀ l, ent s1 l (txid v) = if decide (in_old s (txid v) l ∧ l ∉ ia_write_set a) then None else ent s l (txid v)).
  { unfold p, write_new. rewrite Ho. destruct o as [r|].
    - destruct (stale_effect v s r (ia_write_set a) Ho). eauto 10.
    - exists s. split_and!; [done|by apply completed_core, eq_refl; apply same_core_refl|done|].
      intros l. rewrite decide_False; [done|]. unfold in_old. rewrite Ho. naive_solver. }
  destruct Hp as (s1 & Hp & Hc1 & Hb1 & He1). rewrite Hp in Hrest. clear Hp p.
  apply outcome_bind_Done in Hrest as ([ok b] & Hpub & Hrest).
  (* the history *)
  assert (Hrec1 : recordable s1 (txid v) (tv_incarnation v)) by (unfold recordable, hist_at; by rewrite Hb1).
  assert (Hh : ok = true ∧ completed v s1 (set_beneficiary b s1) ∧
    ∃ x, hist_at (set_beneficiary b s1) (txid v) = Some (mkEntryState (tv_incarnation v) x) ∧
      recorded (b_address (beneficiary s)) a sr x).
  { unfold recorded. destruct (is_blocked a).
    - destruct (b_record_estimate_effect _ _ _ _ Hpub Hrec1) as (? & ? & ?). split_and!; [done|by split|]. eexists. split; [done|]. by split.
    - destruct (b_record_execution_effect _ _ _ _ _ Hpub Hrec1) as (? & ? & e & ? & ?). rewrite Hb1 in *.
      split_and!; [done|by split|]. eexists. split; [done|]. split; [done|]. eauto. }
  destruct Hh as (-> & Hc2 & x & Hx & Hxe). simpl in Hrest.
  apply outcome_bind_Done in Hrest as ([next s3] & Hdep & (s4 & Hres & [= <- <-])%outcome_bind_Done).
  (* the dependency graph *)
  assert (Hc3 : same_core (set_beneficiary b s1) s3 ∧ scheduler_ctx s3 = scheduler_ctx s1).
  { destruct (is_blocked a); apply outcome_bind_Done in Hdep as (y & Hy & Hz).
    - injection Hz as <- <-. split.
      + eapply same_core_trans; [|by eapply dep_add_core]. apply same_core_metrics.
      + unfold dep_add in Hy. apply outcome_bind_Done in Hy as (? & _ & [= <-]). done.
    - destruct y as [n d]. injection Hz as <- <-. split; [apply same_core_dependency|done]. }
  destruct Hc3 as [Hcore3 Hctx3]. destruct (frame_result _ _ _ _ Hres) as (Hf4 & Hr4 & Hs4 & Hm4 & Hb4 & Hctx4).
  destruct Hcore3 as [].
  split_and!.
  - eapply completed_trans; [exact Hc1|]. eapply completed_trans; [exact Hc2|].
    eapply completed_trans; [apply (completed_core _ _ s3); [by split|done]|]. by split.
  - eauto.
  - done.
  - intros l. rewrite <-He1. unfold ent. by rewrite Hm4, sc_memory0.
  - exists x. split; [|done]. rewrite <-Hx. unfold hist_at. by rewrite Hb4, sc_beneficiary0.
Qed.

(** Marking the entries of the previous incarnation. *)
Lemma mark_effect v s ws :
  completed v s (set_mv_memory (mark_mv_estimate (txid v) ws (mv_memory s)) s) ∧
  ∀ l, ent (set_mv_memory (mark_mv_estimate (txid v) ws (mv_memory s)) s) l (txid v) =
    if decide (l ∈ ws) then as_estimate <$> ent s l (txid v) else ent s l (txid v).
Proof.
  split.
  - apply completed_memory. intros l j Hj. rewrite mark_mv_estimate_entry, decide_False by naive_solver. done.
  - intros l. unfold ent. simpl. rewrite mark_mv_estimate_entry. repeat case_decide; done || naive_solver.
Qed.

Lemma complete_err_effect v e a s c s' :
  complete_err v e a s = Done (c, s') → recordable s (txid v) (tv_incarnation v) →
  completed v s s' ∧ c = Some (true, false, None) ∧
  (∃ r, res_at s' (txid v) = Some r ∧ execute_result r = Err e ∧ ∀ l, l ∈ tr_write_set r ↔ in_old s (txid v) l) ∧
  (∀ l, ent s' l (txid v) = if decide (in_old s (txid v) l) then as_estimate <$> ent s l (txid v) else ent s l (txid v)) ∧
  hist_at s' (txid v) = Some (mkEntryState (tv_incarnation v) Estimate).
Proof.
  unfold complete_err. intros (o & Hl%index_Done & Hrest)%outcome_bind_Done Hrec.
  assert (Ho := res_at_lookup _ _ _ Hl).
  set (p := match o with Some last => _ | None => _ end) in Hrest.
  assert (Hp : ∃ ws s1, p = (ws, s1) ∧ (∀ l, l ∈ ws ↔ in_old s (txid v) l) ∧ completed v s s1 ∧
    beneficiary s1 = beneficiary s ∧
    ∀ l, ent s1 l (txid v) = if decide (in_old s (txid v) l) then as_estimate <$> ent s l (txid v) else ent s l (txid v)).
  { unfold p. destruct o as [r|].
    - destruct (mark_effect v s (tr_write_set r)) as [Hc He].
      eexists _, _. split; [done|]. split_and!.
      + intros l. by rewrite (in_old_iff _ _ _ _ Ho).
      + destruct Hc as [Hf ? ?]. split; [|done|done]. eapply frame_trans; [exact Hf|]. split; try done; simpl.
        * by rewrite length_insert.
        * intros j Hj. by rewrite list_lookup_insert_ne.
      + done.
      + intros l. pose proof (in_old_iff s (txid v) l r Ho) as Hi. etrans; [exact (He l)|]. repeat case_decide; done || naive_solver.
    - exists ∅, s. assert (Hno : ∀ l, ¬ in_old s (txid v) l) by (unfold in_old; rewrite Ho; naive_solver).
      split; [done|]. split_and!; [set_solver|by apply completed_core; [apply same_core_refl|]|done|].
      intros l. by rewrite decide_False. }
  destruct Hp as (ws & s1 & Hp & Hws & Hc1 & Hb1 & He1). rewrite Hp in Hrest. clear Hp p.
  apply outcome_bind_Done in Hrest as ([ok b] & Hpub & Hrest).
  assert (Hrec1 : recordable s1 (txid v) (tv_incarnation v)) by (unfold recordable, hist_at; by rewrite Hb1).
  destruct (b_record_estimate_effect _ _ _ _ Hpub Hrec1) as (-> & Hf2 & Hh2). simpl in Hrest.
  apply outcome_bind_Done in Hrest as (s3 & Hres & (s4 & Hdep & [= <- <-])%outcome_bind_Done).
  destruct (frame_result _ _ _ _ Hres) as (Hf3 & Hr3 & Hs3 & Hm3 & Hb3 & Hctx3).
  assert (Hc4 : same_core s3 s4 ∧ scheduler_ctx s4 = scheduler_ctx s3).
  { destruct (is_blocked a).
    - split; [eapply same_core_trans; [|by eapply dep_add_core]; apply same_core_metrics|].
      unfold dep_add in Hdep. apply outcome_bind_Done in Hdep as (? & _ & [= <-]). done.
    - apply outcome_bind_Done in Hdep as (d & _ & [= <-]). case_decide; by split. }
  destruct Hc4 as [Hcore4 Hctx4]. assert (Hcore4' := Hcore4). destruct Hcore4 as [].
  split_and!.
  - eapply completed_trans; [exact Hc1|]. eapply completed_trans; [by split|].
    eapply completed_trans; [by split|]. by apply completed_core.
  - done.
  - eexists. split; [unfold res_at; by rewrite sc_results0|]. done.
  - intros l. rewrite <-He1. unfold ent. by rewrite sc_memory0, Hm3.
  - rewrite <-Hh2. unfold hist_at. by rewrite sc_beneficiary0, Hb3.
Qed.

(** Every validation after [t] that was taken before the step is outdated by it. *)
Definition outdated (s s' : Sched) (t : TxId) : Prop :=
  ∀ k, t < k → k < ctx_num_txs (scheduler_ctx s) → ∃ i, i ≤ k ∧ clock s ≤ lower_at s' i.

Lemma outdated_rewind s i s' t :
  t ≤ i → i ≤ S t → rewind_to i s = Done s' → outdated s s' t.
Proof.
  intros Hti Hit Hr k Hk Hlt. destruct (rewind_to_frame t i s s' Hti Hr) as (_ & _ & _ & _ & _ & _ & Hl).
  exists i. split; [lia|]. apply Hl. lia.
Qed.

(** The tail of [execute_settle]: status, frontier and rewind. *)
Definition settle_tail (v : TxVersion) (conflict new : bool) (next : option TxId) (s : Sched) :
    outcome (Continuation * Sched) :=
  let t := txid v in
  let! s := set_status t (if conflict then Conflict else Executed) s in
  let! c := ctx_executed t (scheduler_ctx s) in
  let s := set_ctx c s in
  match next with
  | Some next => let! s := rewind_to t s in Done (CHandoff next, s)
  | None =>
    if conflict then let! s := rewind_to (t + 1) s in Done (CReturn, s)
    else if new then let! s := rewind_to t s in Done (CReturn, s)
    else
      let! s := set_status t Validating s in
      Done (CValidate (mkTxVersion t (tv_incarnation v)), s)
  end.

(** Statuses of a transaction whose latest execution succeeded and is not final. *)
Definition executed_status (st : option TransactionStatus) : Prop :=
  st = Some Executed ∨ st = Some Validating ∨ st = Some Unconfirmed.

Lemma settle_tail_effect v conflict new next s c s' :
  settle_tail v conflict new next s = Done (c, s') →
  frame (txid v) s s' ∧ tx_results s' = tx_results s ∧ mv_memory s' = mv_memory s ∧ beneficiary s' = beneficiary s ∧
  inc_at s' (txid v) = inc_at s (txid v) ∧ (∀ j, unconf_at s' j = unconf_at s j) ∧
  (if conflict then status_at s' (txid v) = Some Conflict
   else status_at s' (txid v) = Some Executed ∨ status_at s' (txid v) = Some Validating) ∧
  (conflict || new = true → outdated s s' (txid v)).
Proof.
  unfold settle_tail. intros (s1 & Hs1 & (ctx & Hctx%ctx_executed_core & Hrest)%outcome_bind_Done)%outcome_bind_Done.
  destruct (frame_status _ _ _ _ Hs1) as (Hf1 & Hst1 & Hi1 & Hr1 & Hm1 & Hb1 & Hc1).
  set (s2 := set_ctx ctx s1) in *. assert (Hctx' := Hctx). destruct Hctx' as [].
  assert (Hf2 : frame (txid v) s s2) by (eapply frame_trans; [exact Hf1|by apply same_core_frame]).
  assert (Hrw : ∀ i s', txid v ≤ i → i ≤ S (txid v) → rewind_to i s2 = Done s' →
    frame (txid v) s s' ∧ tx_results s' = tx_results s ∧ mv_memory s' = mv_memory s ∧
    beneficiary s' = beneficiary s ∧ inc_at s' (txid v) = inc_at s (txid v) ∧
    (∀ j, unconf_at s' j = unconf_at s j) ∧
    status_at s' (txid v) = Some (if conflict then Conflict else Executed) ∧ outdated s s' (txid v)).
  { intros i s3 Hi1' Hi2' Hrw. destruct (rewind_to_frame _ _ _ _ Hi1' Hrw) as (Hf3 & Hs3 & Hr3 & Hm3 & Hb3 & Hu3 & _).
    assert (Hout := outdated_rewind _ _ _ _ Hi1' Hi2' Hrw).
    split_and!; try congruence.
    - by eapply frame_trans.
    - rewrite <-Hi1. unfold inc_at. by rewrite Hs3.
    - intros j. rewrite Hu3. unfold unconf_at. by rewrite sc_unconfirmed0, Hc1.
    - rewrite <-Hst1. unfold status_at. by rewrite Hs3.
    - intros k Hk Hlt. destruct (Hout k Hk) as (i' & ? & Hl); [by rewrite sc_num0, Hc1|].
      exists i'. split; [done|]. unfold clock in *. by rewrite sc_clock0, Hc1 in Hl. }
  destruct next as [n|]; [|destruct conflict; [|destruct new]].
  - apply outcome_bind_Done in Hrest as (s3 & Hrw3 & [= <- <-]).
    destruct (Hrw (txid v) s3) as (? & ? & ? & ? & ? & ? & ? & ?); [lia|lia|done|].
    split_and!; try done. destruct conflict; auto.
  - apply outcome_bind_Done in Hrest as (s3 & Hrw3 & [= <- <-]).
    destruct (Hrw (txid v + 1) s3) as (? & ? & ? & ? & ? & ? & ? & ?); [lia|lia|done|]. by split_and!.
  - apply outcome_bind_Done in Hrest as (s3 & Hrw3 & [= <- <-]).
    destruct (Hrw (txid v) s3) as (? & ? & ? & ? & ? & ? & ? & ?); [lia|lia|done|]. split_and!; auto.
  - apply outcome_bind_Done in Hrest as (s3 & Hs3 & [= <- <-]).
    destruct (frame_status _ _ _ _ Hs3) as (Hf3 & Hst3 & Hi3 & Hr3 & Hm3 & Hb3 & Hc3).
    split_and!; try congruence; [by eapply frame_trans| | |by right|done].
    + rewrite Hi3, <-Hi1. done.
    + intros j. unfold unconf_at. by rewrite Hc3, sc_unconfirmed0, Hc1.
Qed.

Lemma execute_settle_ok_effect v sr a s c s' :
  execute_settle v (mkIncarnationExecution (Ok sr) a) s = Done (c, s') →
  recordable s (txid v) (tv_incarnation v) →
  frame (txid v) s s' ∧ inc_at s' (txid v) = inc_at s (txid v) ∧
  unconf_at s' (txid v) = unconf_at s (txid v) ∧
  res_at s' (txid v) = Some (mkTransactionResult (ia_read_set a) (ia_write_set a) (Ok sr)) ∧
  (∀ l, ent s' l (txid v) = if decide (in_old s (txid v) l ∧ l ∉ ia_write_set a) then None else ent s l (txid v)) ∧
  (∃ x, hist_at s' (txid v) = Some (mkEntryState (tv_incarnation v) x) ∧ recorded (b_address (beneficiary s)) a sr x) ∧
  (if is_blocked a then status_at s' (txid v) = Some Conflict
   else status_at s' (txid v) = Some Executed ∨ status_at s' (txid v) = Some Validating) ∧
  (is_blocked a || write_new s (txid v) (ia_write_set a) = true → outdated s s' (txid v)).
Proof.
  intros ([c1 s1] & Hc & Ht)%outcome_bind_Done Hrec. simpl in Hc.
  destruct (complete_ok_effect _ _ _ _ _ _ Hc Hrec) as ([Hf1 Hs1 Hctx1] & (next & ->) & Hr1 & He1 & x & Hx & Hxe).
  apply (settle_tail_effect v) in Ht as (Hf2 & Hr2 & Hm2 & Hb2 & Hi2 & Hu2 & Hst2 & Hout). split_and!.
  - by eapply frame_trans.
  - rewrite Hi2. unfold inc_at. by rewrite Hs1.
  - rewrite Hu2. unfold unconf_at. by rewrite Hctx1.
  - unfold res_at in *. by rewrite Hr2.
  - intros l. rewrite <-He1. unfold ent. by rewrite Hm2.
  - exists x. split; [|done]. rewrite <-Hx. unfold hist_at. by rewrite Hb2.
  - done.
  - intros Hn k Hk Hlt. destruct (Hout Hn k Hk) as (i & ? & Hl); [by rewrite Hctx1|].
    exists i. split; [done|]. unfold clock in *. by rewrite Hctx1 in Hl.
Qed.

Lemma execute_settle_err_effect v e a s c s' :
  execute_settle v (mkIncarnationExecution (Err e) a) s = Done (c, s') →
  recordable s (txid v) (tv_incarnation v) →
  frame (txid v) s s' ∧ inc_at s' (txid v) = inc_at s (txid v) ∧
  unconf_at s' (txid v) = unconf_at s (txid v) ∧
  (∃ r, res_at s' (txid v) = Some r ∧ execute_result r = Err e ∧ ∀ l, l ∈ tr_write_set r ↔ in_old s (txid v) l) ∧
  (∀ l, ent s' l (txid v) = if decide (in_old s (txid v) l) then as_estimate <$> ent s l (txid v) else ent s l (txid v)) ∧
  hist_at s' (txid v) = Some (mkEntryState (tv_incarnation v) Estimate) ∧
  status_at s' (txid v) = Some Conflict ∧ outdated s s' (txid v).
Proof.
  intros ([c1 s1] & Hc & Ht)%outcome_bind_Done Hrec. simpl in Hc.
  destruct (complete_err_effect _ _ _ _ _ _ Hc Hrec) as ([Hf1 Hs1 Hctx1] & -> & (r & Hr1 & Hr1' & Hr1'') & He1 & Hx).
  apply (settle_tail_effect v true false None) in Ht as (Hf2 & Hr2 & Hm2 & Hb2 & Hi2 & Hu2 & Hst2 & Hout). split_and!.
  - by eapply frame_trans.
  - rewrite Hi2. unfold inc_at. by rewrite Hs1.
  - rewrite Hu2. unfold unconf_at. by rewrite Hctx1.
  - exists r. split_and!; [|done|done]. unfold res_at in *. by rewrite Hr2.
  - intros l. rewrite <-He1. unfold ent. by rewrite Hm2.
  - rewrite <-Hx. unfold hist_at. by rewrite Hb2.
  - done.
  - intros k Hk Hlt. destruct (Hout eq_refl k Hk) as (i & ? & Hl); [by rewrite Hctx1|].
    exists i. split; [done|]. unfold clock in *. by rewrite Hctx1 in Hl.
Qed.

(** A verdict without a conflict. *)
Lemma validate_finish_ok_effect v ts r d s s' :
  validate_finish v ts r false d s = Done s' →
  frame (txid v) s s' ∧ tx_results s' = tx_results s ∧ mv_memory s' = mv_memory s ∧ beneficiary s' = beneficiary s ∧
  inc_at s' (txid v) = inc_at s (txid v) ∧ status_at s' (txid v) = Some Unconfirmed ∧
  unconf_at s' (txid v) = Nat.max ts (unconf_at s (txid v)) ∧ (∀ i, lower_at s' i = lower_at s i) ∧ clock s' = clock s.
Proof.
  unfold validate_finish. intros ([ab s0] & [= <- <-] & Hrest)%outcome_bind_Done.
  apply outcome_bind_Done in Hrest as (s1 & (c & Hc & [= <-])%outcome_bind_Done & Hrest).
  apply outcome_bind_Done in Hc as (un & (u & Hu & ->)%modify_at_Done & [= <-]).
  apply outcome_bind_Done in Hrest as (l & (x & Hx & ->)%modify_at_Done & Hrest).
  apply outcome_bind_Done in Hrest as (s2 & [= <-] & [= <-]). simpl in *.
  assert (Hlx := lookup_lt_Some _ _ _ Hx). assert (Hlu := lookup_lt_Some _ _ _ Hu).
  set (s1 := set_tx_states _ _).
  assert (Hs : same_core s1 (if decide (txid v = finality (scheduler_ctx s)) then notify_finality s1 else s1))
    by (case_decide; by split).
  destruct Hs as []. unfold inc_at, status_at, unconf_at, lower_at, clock.
  rewrite sc_states0, sc_results0, sc_memory0, sc_beneficiary0, sc_unconfirmed0, sc_lower0, sc_clock0. simpl.
  rewrite !list_lookup_insert_eq by done. rewrite Hx, Hu. split_and!; try done.
  eapply frame_trans; [|apply same_core_frame; by split].
  split; try done; simpl; rewrite ?length_insert; try done.
  - intros j Hj. by rewrite list_lookup_insert_ne.
  - intros j Hj. unfold unconf_at. simpl. by rewrite list_lookup_insert_ne.
Qed.

(** A verdict with a conflict. *)
Lemma validate_finish_conflict_effect v ts r d s s' x :
  validate_finish v ts r true d s = Done s' →
  hist_at s (txid v) = Some x → es_incarnation x = tv_incarnation v →
  frame (txid v) s s' ∧ tx_results s' = tx_results s ∧ inc_at s' (txid v) = inc_at s (txid v) ∧
  unconf_at s' (txid v) = unconf_at s (txid v) ∧ status_at s' (txid v) = Some Conflict ∧
  (∀ l, ent s' l (txid v) = if decide (l ∈ tr_write_set r) then as_estimate <$> ent s l (txid v) else ent s l (txid v)) ∧
  hist_at s' (txid v) = Some (mkEntryState (tv_incarnation v) Estimate) ∧ outdated s s' (txid v).
Proof.
  unfold validate_finish. intros ([ab s0] & Hb & Hrest)%outcome_bind_Done Hx Hinc.
  apply outcome_bind_Done in Hb as ([ok b] & Hinv & Hok).
  set (s1 := set_mv_memory _ _) in *.
  destruct (mark_effect v (set_metrics (record_version_conflict (metrics s)) s) (tr_write_set r)) as [[Hf1 Hs1 Hc1] He1].
  fold s1 in Hf1, He1.
  assert (Hx1 : hist_at s1 (txid v) = Some x) by done.
  destruct (b_invalidate_effect _ s1 _ _ _ Hinv Hx1 Hinc) as (-> & Hf2 & Hh2). simpl in Hok. injection Hok as <- <-.
  apply outcome_bind_Done in Hrest as (s3 & Hrw & Hrest).
  destruct (rewind_to_frame (txid v) _ _ _ (Nat.le_add_r _ _) Hrw) as (Hf3 & Hs3 & Hr3 & Hm3 & Hb3 & Hu3 & _).
  assert (Hle : txid v + 1 ≤ S (txid v)) by lia.
  assert (Hout := outdated_rewind _ _ _ (txid v) (Nat.le_add_r _ _) Hle Hrw).
  apply outcome_bind_Done in Hrest as (l & (y & Hy & ->)%modify_at_Done & Hrest).
  apply outcome_bind_Done in Hrest as (s4 & Hdep%dep_add_core & [= <-]).
  assert (Hly := lookup_lt_Some _ _ _ Hy).
  set (s5 := if decide (txid v = finality (scheduler_ctx s4)) then notify_finality s4 else s4).
  assert (Hs : same_core s4 s5) by (unfold s5; case_decide; by split).
  assert (Hcore := same_core_trans _ _ _ Hdep Hs). clear Hdep Hs. assert (Hcore' := Hcore). destruct Hcore' as [].
  assert (Hf4 : frame (txid v) s3 s5).
  { eapply frame_trans; [|by apply same_core_frame].
    split; try done; simpl; [by rewrite length_insert|]. intros j Hj. by rewrite list_lookup_insert_ne. }
  unfold inc_at, status_at, hist_at, ent. rewrite sc_states0, sc_results0, sc_memory0, sc_beneficiary0.
  cbn [tx_states set_tx_states tx_results mv_memory beneficiary].
  rewrite list_lookup_insert_eq by done. rewrite Hs3 in Hy. rewrite Hr3, Hm3, Hb3.
  change (tx_states s !! txid v = Some y) in Hy. rewrite Hy. split_and!; try done.
  - eapply frame_trans; [apply same_core_frame, same_core_metrics|].
    eapply frame_trans; [exact Hf1|]. eapply frame_trans; [exact Hf2|]. by eapply frame_trans.
  - unfold unconf_at in *. rewrite sc_unconfirmed0. cbn [scheduler_ctx set_tx_states]. by rewrite Hu3.
  - intros k Hk Hlt. destruct (Hout k Hk Hlt) as (i & ? & Hl). exists i. split; [done|]. etrans; [exact Hl|].
    apply (fr_lower_mono _ _ _ Hf4).
Qed.

End interleave.
