(* ===== verification/Progress.v ===== *)
(** Progress of the scheduler (src/src/scheduler.rs, src/src/scheduler/context.rs,
    src/src/tx_dependency.rs).

    [live_step] interleaves the workers with what each of them holds between two accesses: a claimed
    validation index, an index taken from the dependency cursor, a claimed transaction, a task, a
    locked execution or validation. What an execution returns and what it does to memory is
    arbitrary. The theorem says that the scheduler does not get stuck: when every worker is between tasks,
    the loop of [next] finds a task, or the finality loop or the commit loop can go on. *)

From stdpp Require Import gmultiset.
From S2P Require Import Prelude Model Reward History World IncarnationDb TxDependency Context Metrics Scheduler Interleave.

Section progress.
Context `{!Revm} {E : Type}.
Abbreviation Sched := (Scheduler.Sched E).
Abbreviation TransactionResult := (Scheduler.TransactionResult E).

(** ** The system *)

Inductive Worker :=
| WIdle
| WValidation (i : TxId)
| WFlight (i : TxId)
| WExecTask (t : TxId)
| WTask (task : Task)
| WRun (v : TxVersion)
| WScan (v : TxVersion) (ts : nat) (r : TransactionResult) (todo : list (LocationAndType * ReadVersion))
    (conflict : bool) (dep : option TxId).

(** The transaction whose lock a worker holds. *)
Definition holds (w : Worker) : option TxId :=
  match w with WRun v => Some (txid v) | WScan v _ _ _ _ _ => Some (txid v) | _ => None end.
(** The transaction a worker is going to execute or executes. *)
Definition owns (w : Worker) : option TxId :=
  match w with WTask (Execution v) => Some (txid v) | WRun v => Some (txid v) | _ => None end.
(** The transaction a worker is going to validate or validates. *)
Definition validates (w : Worker) : option TxId :=
  match w with WTask (Validation v) => Some (txid v) | WScan v _ _ _ _ _ => Some (txid v) | _ => None end.
(** The transaction a worker claimed from the dependency graph. *)
Definition claims (w : Worker) : option TxId :=
  match w with WExecTask t => Some t | _ => owns w end.
Definition flies (w : Worker) : option TxId := match w with WFlight i => Some i | _ => None end.

(** [l_lower] is the lower bound of the finality loop, [l_releasing] the transaction whose commit is published
    but not yet passed to the dependency graph. *)
Record Live := mkLive {
  l_sched : Sched;
  l_workers : list Worker;
  l_lower : nat;
  l_releasing : option TxId
}.

Definition Live_new (txs : list TxEnv) (ben : Address) (anchor : option AccountInfo) (workers : nat) : Live :=
  mkLive (Sched_new txs ben anchor) (replicate workers WIdle) 0 None.

Definition after_task (task : option Task) : Worker :=
  match task with Some task => WTask task | None => WIdle end.
Definition after_settle (c : Continuation) : Worker :=
  match c with CReturn => WIdle | CValidate v => WTask (Validation v) | CHandoff next => WExecTask next end.

Definition unlocked (ws : list Worker) (t : TxId) : Prop := t ∉ omap holds ws.

(** What one worker does next. *)
Inductive work (s : Sched) (ws : list Worker) : Worker → Sched → Worker → Prop :=
| wk_help : work s ws WIdle (set_ctx (ctx_frontier (scheduler_ctx s)).2 s) WIdle
| wk_claim_validation executing_idx r c :
    next_validation_idx executing_idx (scheduler_ctx s) = (r, c) →
    work s ws WIdle (set_ctx c s) (match r with Some i => WValidation i | None => WIdle end)
| wk_validation_task i task s' :
    unlocked ws i → validation_task i s = Done (task, s') → work s ws (WValidation i) s' (after_task task)
| wk_take r d :
    next_claim (tx_dependency s) = (r, d) →
    work s ws WIdle (set_tx_dependency d s) (match r with Some i => WFlight i | None => WIdle end)
| wk_resolve i r d :
    next_resolve i (tx_dependency s) = Done (r, d) →
    work s ws (WFlight i) (set_tx_dependency d s) (match r with Some t => WExecTask t | None => WIdle end)
| wk_execution_task t task s' :
    unlocked ws t → execution_task t s = Done (task, s') → work s ws (WExecTask t) s' (after_task task)
| wk_begin v go s' :
    unlocked ws (txid v) → execute_begin v s = Done (go, s') →
    work s ws (WTask (Execution v)) s' (if go : bool then WRun v else WIdle)
| wk_memory v mv : work s ws (WRun v) (set_mv_memory mv s) (WRun v)
| wk_settle v x c s' : execute_settle v x s = Done (c, s') → work s ws (WRun v) s' (after_settle c)
| wk_validate v go s' :
    unlocked ws (txid v) → validate_begin v s = Done (go, s') →
    work s ws (WTask (Validation v)) s'
      (match go with Some (ts, r) => WScan v ts r (map_to_list (tr_read_set r)) false None | None => WIdle end)
| wk_read v ts r rd todo c d c' d' :
    validate_read (txid v) s rd (c, d) = Done (c', d') →
    work s ws (WScan v ts r (rd :: todo) c d) s (WScan v ts r todo c' d')
| wk_verdict v ts r c d s' :
    validate_finish v ts r c d s = Done s' → work s ws (WScan v ts r [] c d) s' WIdle.

(** Workers, finality loop, commit loop, and an abort of any thread. *)
Inductive live_step : Live → Live → Prop :=
| ls_worker s l1 w l2 fl rel s' w' :
    work s (l1 ++ w :: l2) w s' w' →
    live_step (mkLive s (l1 ++ w :: l2) fl rel) (mkLive s' (l1 ++ w' :: l2) fl rel)
| ls_finality s ws fl rel first fl' s' :
    unlocked ws (final_idx s) → finality_iteration (final_idx s) fl first s = Done (Some fl', s') →
    live_step (mkLive s ws fl rel) (mkLive s' ws fl' rel)
| ls_take_result s ws fl rel i l :
    modify_at (tx_results s) i (λ _, None) = Done l → live_step (mkLive s ws fl rel) (mkLive (set_tx_results l s) ws fl rel)
| ls_publish s ws fl k :
    k = committed (scheduler_ctx s) → k < final_idx s →
    live_step (mkLive s ws fl None) (mkLive (set_ctx (publish_commit (S k) (scheduler_ctx s)) s) ws fl (Some k))
| ls_release s ws fl k d :
    dep_commit k (tx_dependency s) = Done d →
    live_step (mkLive s ws fl (Some k)) (mkLive (set_tx_dependency d s) ws fl None)
| ls_abort s ws fl rel reason :
    live_step (mkLive s ws fl rel) (mkLive (abort reason s) ws fl rel).

(** ** The invariant *)

Definition view (L : Live) : DepSys :=
  mkDepSys (tx_dependency (l_sched L)) (omap flies (l_workers L)) (list_to_set_disj (omap claims (l_workers L))) ∅
    (committed (scheduler_ctx (l_sched L))) (l_releasing L).

Definition flagged (s : Sched) (t : TxId) : Prop := is_executed (execution_frontier (scheduler_ctx s)) t = true.
(** The validation cursor will reach [t], or a worker took its index. *)
Definition offered (s : Sched) (ws : list Worker) (t : TxId) : Prop :=
  validation (scheduler_ctx s) ≤ t ∨ WValidation t ∈ ws.
(** The dependency graph has [t], or a worker took it. *)
Definition ready (s : Sched) (ws : list Worker) (t : TxId) : Prop :=
  onboard (dst (tx_dependency s) t) = true ∨ WExecTask t ∈ ws.
(** A timestamp later than every rewind at or below [t]. *)
Definition fresh (s : Sched) (t ts : nat) : Prop := ∀ i, i ≤ t → lower_at s i < ts.

Definition tx_ok (s : Sched) (ws : list Worker) (t : TxId) : Prop :=
  match status_at s t with
  | None => True
  | Some Initial => ready s ws t
  | Some Conflict => flagged s t ∧ ready s ws t
  | Some Executing => t ∈ omap owns ws
  | Some Executed => flagged s t ∧ offered s ws t
  | Some Validating => flagged s t ∧ t ∈ omap validates ws
  | Some Unconfirmed => flagged s t ∧ (fresh s t (unconf_at s t) ∨ offered s ws t)
  | Some Finality => flagged s t ∧ t < final_idx s
  end.

Definition worker_ok (s : Sched) (ws : list Worker) (w : Worker) : Prop :=
  match w with
  | WTask (Execution v) => status_at s (txid v) = Some Executing
  | WRun v => status_at s (txid v) = Some Executing
  | WScan v ts _ _ _ _ =>
    status_at s (txid v) = Some Validating ∧ (fresh s (txid v) ts ∨ offered s ws (txid v))
  | _ => True
  end.

(** The vectors of the scheduler have the length of the block. *)
Record shaped (s : Sched) : Prop := {
  sh_num : num_txs (tx_dependency s) = block_size s;
  sh_ctx : ctx_num_txs (scheduler_ctx s) = block_size s;
  sh_states : length (tx_states s) = block_size s;
  sh_lower : length (lower_timestamps (scheduler_ctx s)) = block_size s;
  sh_unconf : length (unconfirmed_timestamps (scheduler_ctx s)) = block_size s;
  sh_flags : length (executed_flags (execution_frontier (scheduler_ctx s))) = block_size s;
  sh_affects e t : t ∈ aff (tx_dependency s) e → t < block_size s
}.

(** The frontier is the length of the executed prefix. *)
Definition exact_frontier (s : Sched) : Prop :=
  frontier_inv (mkFrontierSys (execution_frontier (scheduler_ctx s)) []).

Record live_inv (L : Live) : Prop := {
  li_shape : shaped (l_sched L);
  li_dep : dep_inv (view L);
  li_tx t : tx_ok (l_sched L) (l_workers L) t;
  li_worker w : w ∈ l_workers L → worker_ok (l_sched L) (l_workers L) w;
  li_locks : NoDup (omap holds (l_workers L));
  li_owners : NoDup (omap owns (l_workers L));
  li_clock i : lower_at (l_sched L) i < clock (l_sched L);
  li_lower : l_lower L = 0 ∨ ∃ i, i < final_idx (l_sched L) ∧ l_lower L ≤ lower_at (l_sched L) i;
  li_frontier : exact_frontier (l_sched L);
  li_final t : t < final_idx (l_sched L) → flagged (l_sched L) t
}.


(** ** The dependency graph with atomic operations *)

Lemma dep_inv_ext d fl fl' (busy busy' : gmultiset TxId) rm c rel :
  (∀ i, i ∈ fl → i ∈ fl') → (∀ e, e ∈ busy → e ∈ busy') →
  dep_inv (mkDepSys d fl busy rm c rel) → dep_inv (mkDepSys d fl' busy' rm c rel).
Proof.
  intros Hfl Hbusy [? ? ? Hc Hb Hr Hrel]. split; simpl in *; try done.
  - intros tx H1 H2. destruct (Hc tx H1 H2); auto.
  - intros tx e He. destruct (Hb tx e He) as [? Hbl]. split; [done|]. eapply blocked_on_mono, Hbl; try done.
    unfold held. simpl. intros [?|[?|?]]; auto.
Qed.

(** One dependent of [remove], with the successor found so far. *)
Lemma remove_one_next txid pop tx nx d nx' d' :
  remove_one txid pop tx (nx, d) = Done (nx', d') →
  ∃ r, remove_one txid pop tx (None, d) = Done (r, d') ∧ (r = None ∧ nx' = nx ∨ pop = true ∧ r = Some (txid + 1) ∧ nx' = r).
Proof.
  unfold remove_one. intros (st & Hst & Hd)%outcome_bind_Done. rewrite Hst. simpl.
  case_bool_decide as Hdep; [|injection Hd as <- <-; eauto].
  destruct (onboard st); [|injection Hd as <- <-; eauto].
  destruct (pop && bool_decide (tx = txid + 1) && bool_decide (tx < dep_index d)) eqn:Hp; injection Hd as <- <-; [|eauto].
  apply andb_true_iff in Hp as [[? ?%bool_decide_eq_true]%andb_true_iff _]. subst. eauto 10.
Qed.

Lemma dep_inv_remove_loop txid pop l nx d nx' d' fl busy c rel :
  (nx = None ∨ nx = Some (txid + 1)) → remove_loop txid pop l (nx, d) = Done (nx', d') →
  dep_inv (mkDepSys d fl (claimed nx busy) {[ txid := l ]} c rel) →
  (nx' = None ∨ nx' = Some (txid + 1)) ∧ dep_inv (mkDepSys d' fl (claimed nx' busy) {[ txid := [] ]} c rel).
Proof.
  revert nx d. induction l as [|tx l IH]; intros nx d Hnx Hr Hinv; simpl in Hr; [by simplify_eq|].
  apply outcome_bind_Done in Hr as ([nx1 d1] & Hone & Hrest).
  destruct (remove_one_next _ _ _ _ _ _ _ Hone) as (r & Hr & Hcase).
  apply (IH nx1 d1); [destruct Hcase as [[_ ->]|(_ & -> & ->)]; auto|done|].
  eapply dep_inv_remove_one in Hr; [|exact Hinv|by rewrite lookup_singleton_eq].
  rewrite insert_singleton_eq in Hr. eapply dep_inv_ext, Hr; [done|].
  intros e. destruct Hcase as [[-> ->]|(_ & -> & ->)]; [done|]. destruct Hnx as [->| ->]; simpl; multiset_solver.
Qed.

Lemma dep_inv_remove txid pop d nx d' fl busy c rel :
  remove txid pop d = Done (nx, d') → dep_inv (mkDepSys d fl ({[+ txid +]} ⊎ busy) ∅ c rel) →
  dep_inv (mkDepSys d' fl (claimed nx busy) ∅ c rel).
Proof.
  unfold remove. intros (a & Ha & Hr)%outcome_bind_Done Hinv.
  apply (dep_inv_remove_begin _ _ _ _ _ _ _ a) in Hinv; [|done].
  case_decide as He.
  - simplify_eq/=. apply (dep_inv_remove_end _ _ _ _ _ _ txid) in Hinv; [|by rewrite lookup_insert_eq].
    rewrite delete_insert_eq in Hinv. simpl in Hinv. apply index_Done in Ha.
    by rewrite (list_insert_id _ _ _ Ha) in Hinv; destruct d'.
  - apply outcome_bind_Done in Hr as ([nx1 d1] & Hloop & [= <- <-]).
    eapply dep_inv_remove_loop in Hloop as [_ Hinv']; [|by left|exact Hinv].
    apply (dep_inv_remove_end _ _ _ _ _ _ txid) in Hinv'; [|by rewrite lookup_singleton_eq].
    by rewrite delete_singleton_eq in Hinv'.
Qed.

(** Operations keep entries on board, or hand them over; they keep the size of the graph. *)
Record dep_keeps (d d' : TxDependency) (r : option TxId) : Prop := {
  dk_num : num_txs d' = num_txs d;
  dk_states : length (dependent_state d') = length (dependent_state d);
  dk_affects : length (affect_txs d') = length (affect_txs d);
  dk_onboard t : onboard (dst d t) = true → onboard (dst d' t) = true ∨ r = Some t
}.

Lemma dep_keeps_refl d r : dep_keeps d d r.
Proof. split; auto. Qed.

Lemma dep_keeps_trans d1 d2 d3 r1 r2 r3 :
  (∀ t, r1 = Some t ∨ r2 = Some t → r3 = Some t) → dep_keeps d1 d2 r1 → dep_keeps d2 d3 r2 → dep_keeps d1 d3 r3.
Proof.
  intros Hr [] []. split; try congruence. intros t Ht. destruct (dk_onboard0 t Ht) as [Ht'|?]; [|auto].
  destruct (dk_onboard1 t Ht'); auto.
Qed.

Lemma dep_keeps_set d i x n r :
  i < length (dependent_state d) → (onboard x = true ∨ r = Some i ∨ onboard (dst d i) = false) →
  dep_keeps d (set_dep_index n (set_dependent (<[i := x]> (dependent_state d)) d)) r.
Proof.
  intros Hi Hx. split; simpl; [done|by rewrite length_insert|done|].
  intros t. change (dst (set_dep_index _ ?d') t) with (dst d' t). rewrite dst_insert by done.
  case_decide; [|auto]. subst. intros Ht. destruct Hx as [?|[?|?]]; auto. congruence.
Qed.

Lemma next_resolve_keeps i d r d' : next_resolve i d = Done (r, d') → dep_keeps d d' r ∧ affect_txs d' = affect_txs d.
Proof.
  unfold next_resolve. intros (st & [Hst Hlt]%index_Done%dst_lookup & Hd)%outcome_bind_Done.
  destruct (_ && _); simplify_eq/=; [|split; [apply dep_keeps_refl|done]]. split; [|done].
  apply (dep_keeps_set d i _ (dep_index d)); auto.
Qed.

Lemma remove_one_keeps txid pop tx d r d' :
  remove_one txid pop tx (None, d) = Done (r, d') → dep_keeps d d' r ∧ affect_txs d' = affect_txs d.
Proof.
  unfold remove_one. intros (st & [Hst Hlt]%index_Done%dst_lookup & Hd)%outcome_bind_Done.
  case_bool_decide; [|by simplify_eq; split; [apply dep_keeps_refl|]].
  destruct (onboard st) eqn:Hon; [destruct (_ && _)|]; simplify_eq/=; (split; [|done]).
  - apply (dep_keeps_set d tx _ (dep_index d)); auto.
  - apply dep_keeps_set; auto.
  - apply (dep_keeps_set d tx _ (dep_index d)); auto.
Qed.

Lemma remove_loop_keeps txid pop l nx d nx' d' :
  (nx = None ∨ nx = Some (txid + 1)) → remove_loop txid pop l (nx, d) = Done (nx', d') →
  dep_keeps d d' nx' ∧ affect_txs d' = affect_txs d ∧ (nx' = nx ∨ pop = true ∧ nx' = Some (txid + 1)).
Proof.
  revert nx d. induction l as [|tx l IH]; intros nx d Hnx Hr; simpl in Hr.
  { simplify_eq. split_and!; [apply dep_keeps_refl|done|by left]. }
  apply outcome_bind_Done in Hr as ([nx1 d1] & Hone & Hrest).
  destruct (remove_one_next _ _ _ _ _ _ _ Hone) as (r & [Hk Ha]%remove_one_keeps & Hcase).
  apply IH in Hrest as (Hk' & Ha' & Hnx'); [|destruct Hcase as [[_ ->]|(_ & -> & ->)]; auto].
  split_and!; [|congruence|naive_solver].
  eapply dep_keeps_trans, Hk'; [|exact Hk]. intros t. naive_solver.
Qed.

Lemma remove_keeps txid pop d nx d' :
  remove txid pop d = Done (nx, d') → dep_keeps d d' nx ∧ (∀ e t, t ∈ aff d' e → t ∈ aff d e) ∧ (pop = false → nx = None).
Proof.
  unfold remove. intros (a & Ha & Hr)%outcome_bind_Done.
  case_decide; [simplify_eq; split_and!; [apply dep_keeps_refl|done|done]|].
  apply outcome_bind_Done in Hr as ([nx1 d1] & (Hk & Haff & Hnx)%remove_loop_keeps & [= <- <-]); [|by left].
  split_and!.
  - destruct Hk as [? ? Hla Hon]. split; simpl; [done|done|by rewrite length_insert|done].
  - intros e t. unfold aff. simpl. rewrite Haff. destruct (decide (e = txid)) as [->|]; [|by rewrite list_lookup_insert_ne].
    destruct (decide (txid < length (affect_txs d))); [rewrite list_lookup_insert_eq by done; set_solver|].
    by rewrite list_insert_ge by lia.
  - intros ->. destruct Hnx as [->|[? _]]; done.
Qed.

Lemma dep_commit_keeps k d d' : dep_commit k d = Done d' → dep_keeps d d' None ∧ affect_txs d' = affect_txs d.
Proof.
  unfold dep_commit. case_decide; [|intros [= <-]; split; [apply dep_keeps_refl|done]].
  intros (st & [Hst Hlt]%index_Done%dst_lookup & Hd)%outcome_bind_Done.
  destruct (onboard st); simplify_eq/=; (split; [|done]); [|apply dep_keeps_refl]. apply dep_keeps_set; auto.
Qed.

Lemma key_tx_keeps t c d d' :
  key_tx t c d = Done d' → dep_keeps d d' None ∧ affect_txs d' = affect_txs d ∧ onboard (dst d' t) = true.
Proof.
  unfold key_tx. intros (st & [Hst Hlt]%index_Done%dst_lookup & [= Hd])%outcome_bind_Done.
  set (x := mkDependentState true (if decide (c < t) then Some t else dependency st)) in *.
  set (d1 := set_dependent (<[t := x]> (dependent_state d)) d) in *.
  assert (Hx : onboard (dst d1 t) = true) by (unfold d1; by rewrite dst_insert, decide_True).
  case_decide; subst d'.
  - split_and!; [apply dep_keeps_set; auto|done|done].
  - split_and!; [by apply (dep_keeps_set d t x (dep_index d)); auto|done|done].
Qed.

Lemma add_keeps t dep d d' :
  add t dep d = Done d' →
  dep_keeps d d' None ∧ onboard (dst d' t) = true ∧
  ∀ e x, x ∈ aff d' e → x ∈ aff d e ∨ x = t ∧ t < length (dependent_state d).
Proof.
  unfold add. destruct dep as [e|].
  - intros (_ & Hlt%assert_that_Done%bool_decide_eq_true & (a & Ha%index_Done & (ste & [He Hle]%index_Done%dst_lookup &
      (stx & [Hx Hlx]%index_Done%dst_lookup & [= Hd])%outcome_bind_Done)%outcome_bind_Done)%outcome_bind_Done)%outcome_bind_Done.
    set (d1 := set_dependent (<[t := mkDependentState true (Some e)]> (dependent_state d)) d) in *.
    assert (Hk1 : dep_keeps d d1 None) by (apply (dep_keeps_set d t _ (dep_index d)); auto).
    set (d2 := set_affect (<[e := {[t]} ∪ a]> (affect_txs d)) d1).
    assert (Hk2 : dep_keeps d1 d2 None).
    { split; simpl; [done|done|by rewrite length_insert|by left]. }
    set (x := mkDependentState true (dependency ste)) in *.
    set (n := if decide (dependency ste = None) then Nat.min (dep_index d) e else dep_index d).
    assert (Hd' : d' = set_dep_index n (set_dependent (<[e := x]> (dependent_state d2)) d2)).
    { unfold n. case_decide; by subst d'. }
    assert (Hle2 : e < length (dependent_state d2)) by (simpl; by rewrite length_insert).
    split_and!.
    + rewrite Hd'. eapply dep_keeps_trans; [|exact (dep_keeps_trans _ _ _ None None None ltac:(naive_solver) Hk1 Hk2)|apply (dep_keeps_set _ _ _ _ None); auto].
      naive_solver.
    + rewrite Hd'. change (dst (set_dep_index _ ?d') t) with (dst d' t). rewrite dst_insert by done.
      rewrite decide_False by lia. change (dst d2 t) with (dst d1 t). unfold d1. by rewrite dst_insert, decide_True.
    + intros y z. rewrite Hd'. unfold aff. simpl. destruct (decide (y = e)) as [->|]; [|rewrite list_lookup_insert_ne by done; by left].
      rewrite list_lookup_insert_eq by (by eapply lookup_lt_Some). rewrite Ha. simpl. set_solver.
  - intros (st & [Hst Hlt]%index_Done%dst_lookup & Hd)%outcome_bind_Done. destruct (onboard st) eqn:Hon; simplify_eq/=.
    + split_and!; [apply dep_keeps_refl|done|by left].
    + split_and!; [apply dep_keeps_set; auto| |by left].
      change (dst (fetch_min _ ?d') t) with (dst d' t). by rewrite dst_insert, decide_True.
Qed.


(** ** What the handlers do to graph and cursors *)

(** How a completed execution leaves the dependency graph. *)
Definition released (t : TxId) (committed : nat) (conflict : bool) (next : option TxId) (d d' : TxDependency) : Prop :=
  if conflict then next = None ∧ ((∃ dep, add t dep d = Done d') ∨ key_tx t committed d = Done d')
  else TxDependency.remove t true d = Done (next, d').

Definition same_but_graph (s s' : Sched) : Prop :=
  block_size s' = block_size s ∧ tx_states s' = tx_states s ∧ scheduler_ctx s' = scheduler_ctx s ∧
  abort_flag s' = abort_flag s.

Lemma complete_ok_graph v sr a s conflict new next s' :
  complete_ok v sr a s = Done (Some (conflict, new, next), s') →
  same_but_graph s s' ∧ released (txid v) (committed (scheduler_ctx s)) conflict next (tx_dependency s) (tx_dependency s').
Proof.
  unfold complete_ok. intros (last & _ & Hr)%outcome_bind_Done.
  assert (Hs1 : ∀ b s1, (let '(b, s1) := match last with
     | Some last => (bool_decide (¬ ia_write_set a ⊆ tr_write_set last),
                    set_mv_memory (remove_stale (txid v) (tr_write_set last) (ia_write_set a) (mv_memory s)) s)
     | None => (true, s) end in (b, s1)) = (b, s1) → same_but_graph s s1 ∧ tx_dependency s1 = tx_dependency s).
  { intros b s1. destruct last; intros [= <- <-]; done. }
  destruct (match last with Some _ => _ | None => _ end) as [b s1]. destruct (Hs1 b s1 eq_refl) as [(? & ? & ? & ?) Hd].
  apply outcome_bind_Done in Hr as ([pub ben] & _ & Hr). destruct pub; simpl in Hr; [|done].
  apply outcome_bind_Done in Hr as ([nx s2] & Hmid & (s3 & (l & _ & [= <-])%outcome_bind_Done & [= <- _ <- <-])%outcome_bind_Done).
  unfold same_but_graph, released. destruct (is_blocked a).
  - apply outcome_bind_Done in Hmid as (s4 & (d & Hadd & [= <-])%outcome_bind_Done & [= <- <-]).
    unfold count_block in *. simpl in *. rewrite Hd in Hadd. split_and!; eauto; congruence.
  - apply outcome_bind_Done in Hmid as ([nx' d] & Hrm & [= <- <-]). simpl in *. rewrite Hd in Hrm.
    split_and!; congruence.
Qed.

Lemma complete_err_graph v e a s conflict new next s' :
  complete_err v e a s = Done (Some (conflict, new, next), s') → abort_flag s' = false →
  conflict = true ∧ same_but_graph s s' ∧
  released (txid v) (committed (scheduler_ctx s)) conflict next (tx_dependency s) (tx_dependency s').
Proof.
  unfold complete_err. intros (last & _ & Hr)%outcome_bind_Done Hab.
  destruct (match last with Some _ => _ | None => _ end) as [ws s1] eqn:Hs1.
  assert (Hsame : same_but_graph s s1 ∧ tx_dependency s1 = tx_dependency s).
  { destruct last; injection Hs1 as <- <-; done. }
  destruct Hsame as [(Hz & Hst & Hctx & Hf) Hd]. clear Hs1.
  apply outcome_bind_Done in Hr as ([pub ben] & _ & Hr). destruct pub; simpl in Hr; [|done].
  apply outcome_bind_Done in Hr as (s2 & (l & _ & [= <-])%outcome_bind_Done & Hr).
  apply outcome_bind_Done in Hr as (s3 & Hmid & [= <- _ <- <-]). split; [done|]. unfold same_but_graph, released.
  destruct (is_blocked a).
  - apply outcome_bind_Done in Hmid as (d & Hadd & [= <-]). unfold count_block in *. simpl in *. rewrite Hd in Hadd.
    split_and!; eauto.
  - apply outcome_bind_Done in Hmid as (d & Hkey & [= <-]). simpl in *.
    case_decide; [done|]. simpl in *. rewrite Hctx, Hd in Hkey. split_and!; eauto.
Qed.

(** The cursor after an optional rewind. *)
Definition rewound (ro : option nat) (c c' : SchedulerContext) : Prop :=
  match ro with Some i => rewind_validation_to i c = Done c' | None => c' = c end.

(** The ways an execution settles: its status, the rewind and the continuation. *)
Inductive settled_as (v : TxVersion) : bool → option TxId → TransactionStatus → option nat → Continuation → Prop :=
| sa_conflict : settled_as v true None Conflict (Some (txid v + 1)) CReturn
| sa_handoff n : settled_as v false (Some n) Executed (Some (txid v)) (CHandoff n)
| sa_new : settled_as v false None Executed (Some (txid v)) CReturn
| sa_validate : settled_as v false None Validating None (CValidate (mkTxVersion (txid v) (tv_incarnation v))).

Record settles (v : TxVersion) (s : Sched) (c : Continuation) (s' : Sched) : Prop := {
  st_abort : abort_flag s = false;
  st_size : block_size s' = block_size s;
  st_cases : ∃ conflict next st ro x c1, settled_as v conflict next st ro c ∧
    released (txid v) (committed (scheduler_ctx s)) conflict next (tx_dependency s) (tx_dependency s') ∧
    tx_states s !! txid v = Some x ∧
    tx_states s' = <[txid v := mkTxState st (ts_incarnation x) (ts_dependency x)]> (tx_states s) ∧
    ctx_executed (txid v) (scheduler_ctx s) = Done c1 ∧ rewound ro c1 (scheduler_ctx s')
}.

Lemma set_status_Done t st (s s' : Sched) :
  set_status t st s = Done s' → ∃ x, tx_states s !! t = Some x ∧
    s' = set_tx_states (<[t := mkTxState st (ts_incarnation x) (ts_dependency x)]> (tx_states s)) s.
Proof. intros (l & (x & Hx & ->)%modify_at_Done & [= <-])%outcome_bind_Done. eauto. Qed.

Lemma rewind_to_Done i (s s' : Sched) :
  rewind_to i s = Done s' → ∃ c, rewind_validation_to i (scheduler_ctx s) = Done c ∧ s' = set_ctx c s.
Proof. intros (c & Hc & [= <-])%outcome_bind_Done. eauto. Qed.

Lemma execute_settle_settles v x s c s' :
  execute_settle v x s = Done (c, s') → abort_flag s' = false → settles v s c s'.
Proof.
  unfold execute_settle. intros ([o s1] & Hcomp & Hr)%outcome_bind_Done Hab.
  destruct o as [[[conflict new] next]|].
  2:{ injection Hr as <- <-. exfalso. destruct (ie_result x).
      - unfold complete_ok in Hcomp. apply outcome_bind_Done in Hcomp as (last & _ & Hr).
        destruct (match last with Some _ => _ | None => _ end) as [b s2].
        apply outcome_bind_Done in Hr as ([pub ben] & _ & Hr). destruct pub; simpl in Hr; [|by injection Hr as <-].
        apply outcome_bind_Done in Hr as ([nx s3] & _ & (s4 & _ & [=])%outcome_bind_Done).
      - unfold complete_err in Hcomp. apply outcome_bind_Done in Hcomp as (last & _ & Hr).
        destruct (match last with Some _ => _ | None => _ end) as [b s2].
        apply outcome_bind_Done in Hr as ([pub ben] & _ & Hr). destruct pub; simpl in Hr; [|by injection Hr as <-].
        by apply outcome_bind_Done in Hr as (s3 & _ & (s4 & _ & [=])%outcome_bind_Done). }
  apply outcome_bind_Done in Hr as (s2 & (y & Hy & ->)%set_status_Done & (c1 & Hc1 & Hr)%outcome_bind_Done).
  cbn [scheduler_ctx set_tx_states] in Hc1.
  assert (Hab1 : abort_flag s1 = false).
  { destruct next; [by apply outcome_bind_Done in Hr as (s3 & (? & _ & ->)%rewind_to_Done & [= _ <-])|].
    destruct conflict; [by apply outcome_bind_Done in Hr as (s3 & (? & _ & ->)%rewind_to_Done & [= _ <-])|].
    destruct new; [by apply outcome_bind_Done in Hr as (s3 & (? & _ & ->)%rewind_to_Done & [= _ <-])|].
    by apply outcome_bind_Done in Hr as (s3 & (? & _ & ->)%set_status_Done & [= _ <-]). }
  assert (Hc : same_but_graph s s1 ∧
    released (txid v) (committed (scheduler_ctx s)) conflict next (tx_dependency s) (tx_dependency s1)).
  { destruct (ie_result x); [by eapply complete_ok_graph|by eapply complete_err_graph in Hcomp as (_ & ? & ?)]. }
  destruct Hc as [(Hz & Hst & Hctx & Hfl) Hrel]. rewrite Hst in Hy. rewrite Hctx in Hc1.
  destruct next as [n|].
  - assert (conflict = false) as -> by (destruct conflict; [by destruct Hrel|done]).
    apply outcome_bind_Done in Hr as (s3 & (c2 & Hc2 & ->)%rewind_to_Done & [= <- <-]).
    split; [congruence|done|]. exists false, (Some n), Executed, (Some (txid v)), y, c1. simpl. rewrite Hst.
    split; [constructor|]. split; [exact Hrel|]. by split_and!.
  - destruct conflict; [|destruct new].
    + apply outcome_bind_Done in Hr as (s3 & (c2 & Hc2 & ->)%rewind_to_Done & [= <- <-]).
      split; [congruence|done|]. exists true, None, Conflict, (Some (txid v + 1)), y, c1. simpl. rewrite Hst.
      split; [constructor|]. split; [exact Hrel|]. by split_and!.
    + apply outcome_bind_Done in Hr as (s3 & (c2 & Hc2 & ->)%rewind_to_Done & [= <- <-]).
      split; [congruence|done|]. exists false, None, Executed, (Some (txid v)), y, c1. simpl. rewrite Hst.
      split; [constructor|]. split; [exact Hrel|]. by split_and!.
    + apply outcome_bind_Done in Hr as (s3 & (z & Hzz & ->)%set_status_Done & [= <- <-]). simpl in Hzz.
      rewrite list_lookup_insert_eq in Hzz by (rewrite Hst; by eapply lookup_lt_Some). injection Hzz as <-.
      split; [congruence|done|]. exists false, None, Validating, None, y, c1. simpl. rewrite Hst, list_insert_insert_eq.
      split; [constructor|]. split; [exact Hrel|]. by split_and!.
Qed.


Lemma validate_finish_cases v ts r (conflict : bool) dep (s s' : Sched) :
  validate_finish v ts r conflict dep s = Done s' → abort_flag s' = false →
  abort_flag s = false ∧ block_size s' = block_size s ∧ ∃ x, tx_states s !! txid v = Some x ∧
  tx_states s' = <[txid v := mkTxState (if conflict then Conflict else Unconfirmed) (ts_incarnation x) dep]> (tx_states s) ∧
  if conflict then rewind_validation_to (txid v + 1) (scheduler_ctx s) = Done (scheduler_ctx s') ∧
    ∃ e, add (txid v) e (tx_dependency s) = Done (tx_dependency s')
  else unconfirmed (txid v) ts (scheduler_ctx s) = Done (scheduler_ctx s') ∧ tx_dependency s' = tx_dependency s.
Proof.
  unfold validate_finish. intros ([ab s1] & H1 & Hr)%outcome_bind_Done Hab.
  destruct conflict.
  - apply outcome_bind_Done in H1 as ([ok b] & _ & H1). destruct ok; simpl in H1; injection H1 as <- <-; [|by simplify_eq].
    apply outcome_bind_Done in Hr as (s2 & (c & Hc & ->)%rewind_to_Done & Hr).
    apply outcome_bind_Done in Hr as (l & (x & Hx & ->)%modify_at_Done & Hr).
    apply outcome_bind_Done in Hr as (s3 & (d & Hd & [= <-])%outcome_bind_Done & Hr).
    simpl in Hr; case_decide; injection Hr as <-; simpl in *; (split_and!; [done|done|]; exists x; split_and!; eauto).
  - injection H1 as <- <-.
    apply outcome_bind_Done in Hr as (s2 & (c & Hc & [= <-])%outcome_bind_Done & Hr).
    apply outcome_bind_Done in Hr as (l & (x & Hx & ->)%modify_at_Done & Hr).
    simpl in Hr; case_decide; injection Hr as <-; simpl in *; (split_and!; [done|done|]; exists x; split_and!; eauto).
Qed.

(** ** Transactions and workers that a step does not handle *)

Record keeps (s : Sched) (ws : list Worker) (s' : Sched) (ws' : list Worker) (j : TxId) : Prop := {
  kp_status : status_at s' j = status_at s j;
  kp_unconf : unconf_at s' j = unconf_at s j;
  kp_flag : flagged s j → flagged s' j;
  kp_ready : ready s ws j → ready s' ws' j;
  kp_offered : offered s ws j → offered s' ws' j;
  kp_fresh ts : fresh s j ts → fresh s' j ts ∨ offered s' ws' j;
  kp_owned : j ∈ omap owns ws → j ∈ omap owns ws';
  kp_validated : j ∈ omap validates ws → j ∈ omap validates ws';
  kp_final : final_idx s ≤ final_idx s'
}.

Lemma tx_ok_keeps s ws s' ws' j : keeps s ws s' ws' j → tx_ok s ws j → tx_ok s' ws' j.
Proof.
  intros [Hst Hun ? ? ? Hfr ? ? ?]. unfold tx_ok. rewrite Hst, Hun.
  destruct (status_at s j) as [[]|]; try naive_solver. intros [? ?]. split; [auto|lia].
Qed.

Definition about (w : Worker) : option TxId :=
  match w with WTask (Execution v) => Some (txid v) | WRun v => Some (txid v) | WScan v _ _ _ _ _ => Some (txid v) | _ => None end.

Lemma worker_ok_keeps s ws s' ws' w :
  (∀ j, about w = Some j → keeps s ws s' ws' j) → worker_ok s ws w → worker_ok s' ws' w.
Proof.
  intros Hk. destruct w as [| | | |[v|v]|v|v ts r todo c d]; simpl; try done.
  - by rewrite (kp_status _ _ _ _ _ (Hk _ eq_refl)).
  - by rewrite (kp_status _ _ _ _ _ (Hk _ eq_refl)).
  - destruct (Hk _ eq_refl) as [-> _ _ _ ? Hfr _ _ _]. naive_solver.
Qed.

(** A worker moves from [w] to [w']. *)
Section swap.
Context (l1 l2 : list Worker) (w w' : Worker).
Abbreviation ws := (l1 ++ w :: l2).
Abbreviation ws' := (l1 ++ w' :: l2).

Lemma elem_swap x : x ∈ ws → x ∈ ws' ∨ x = w.
Proof. set_solver. Qed.

Lemma omap_swap {A} (f : Worker → option A) j : (f w = Some j → f w' = Some j) → j ∈ omap f ws → j ∈ omap f ws'.
Proof.
  rewrite !list_elem_of_omap. intros Hf (x & Hx & Hj). destruct (elem_swap x Hx) as [?| ->]; [eauto|].
  exists w'. split; [set_solver|auto].
Qed.

Lemma omap_other {A} (f : Worker → option A) j : j ∈ omap f (l1 ++ l2) → j ∈ omap f ws'.
Proof. rewrite !list_elem_of_omap. intros (x & ? & ?). exists x. split; [set_solver|done]. Qed.

Lemma nodup_swap {A} (f : Worker → option A) :
  (f w' = None ∨ f w' = f w ∨ ∃ t, f w' = Some t ∧ t ∉ omap f ws) → NoDup (omap f ws) → NoDup (omap f ws').
Proof.
  rewrite !omap_app. simpl. intros Hf. rewrite !NoDup_app. intros (H1 & H2 & H3).
  destruct Hf as [->|[->|(t & -> & Ht)]]; [| |].
  - split_and!; [done| |]; destruct (f w); [|done|by apply NoDup_cons in H3 as []|done].
    intros x Hx Hx'. apply (H2 x Hx). by right.
  - done.
  - rewrite !elem_of_app in Ht. assert ((t ∉ omap f l1) ∧ (t ∉ omap f l2)) as [Ht1 Ht2].
    { split; [tauto|]. intros ?. apply Ht. right. destruct (f w); [by right|done]. }
    split_and!; [done| |].
    + intros x Hx [->|Hx']%elem_of_cons; [done|]. apply (H2 x Hx). destruct (f w); [by right|done].
    + constructor; [done|]. destruct (f w); [by apply NoDup_cons in H3 as []|done].
Qed.

Lemma txs_ok_update s s' t :
  (∀ j, tx_ok s ws j) → (∀ j, j ≠ t → keeps s ws s' ws' j) → tx_ok s' ws' t → ∀ j, tx_ok s' ws' j.
Proof. intros Hok Hk Ht j. destruct (decide (j = t)) as [->|]; [done|]. eapply tx_ok_keeps; eauto. Qed.

Lemma workers_ok_update s s' t :
  (∀ x, x ∈ ws → worker_ok s ws x) → (∀ j, j ≠ t → keeps s ws s' ws' j) →
  (∀ x, x ∈ l1 ++ l2 → about x = Some t → worker_ok s' ws' x) → worker_ok s' ws' w' →
  ∀ x, x ∈ ws' → worker_ok s' ws' x.
Proof.
  intros Hok Hk Ht Hw' x Hx.
  assert (x ∈ l1 ++ l2 ∨ x = w') as [Hin| ->] by set_solver; [|done].
  destruct (decide (about x = Some t)) as [Ha|Ha]; [by apply Ht|].
  eapply worker_ok_keeps; [|apply Hok; set_solver]. intros j Hj. apply Hk. congruence.
Qed.

(** The graph with a worker changed. *)
Lemma dep_ok_swap d c rel :
  (∀ i, flies w = Some i → flies w' = Some i) → (∀ t, claims w = Some t → claims w' = Some t ∨ t ∈ omap claims (l1 ++ l2)) →
  dep_inv (mkDepSys d (omap flies ws) (list_to_set_disj (omap claims ws)) ∅ c rel) →
  dep_inv (mkDepSys d (omap flies ws') (list_to_set_disj (omap claims ws')) ∅ c rel).
Proof.
  intros Hf Hc. apply dep_inv_ext; [intros i; by apply omap_swap, Hf|].
  intros e. rewrite !elem_of_list_to_set_disj, !list_elem_of_omap. intros (x & Hx & He).
  destruct (elem_swap x Hx) as [?| ->]; [eauto|]. destruct (Hc e He) as [?|Hin]; [exists w'; split; [set_solver|done]|].
  apply list_elem_of_omap in Hin as (y & ? & ?). exists y. split; [set_solver|done].
Qed.

(** Give up the claim of [w], then take the one of [w']. *)
Lemma dep_ok_release d t c rel :
  claims w = Some t → dep_inv (mkDepSys d (omap flies ws) (list_to_set_disj (omap claims ws)) ∅ c rel) →
  dep_inv (mkDepSys d (omap flies ws) ({[+ t +]} ⊎ list_to_set_disj (omap claims (l1 ++ l2))) ∅ c rel).
Proof.
  intros Hw. apply dep_inv_ext; [done|]. intros e. rewrite elem_of_list_to_set_disj, list_elem_of_omap.
  intros (x & Hx & He). rewrite gmultiset_elem_of_disj_union, gmultiset_elem_of_singleton, elem_of_list_to_set_disj.
  assert (x ∈ l1 ++ l2 ∨ x = w) as [?| ->] by set_solver; [right; apply list_elem_of_omap; eauto|left; congruence].
Qed.

Lemma dep_ok_claim d r c rel :
  (∀ i, flies w = Some i → flies w' = Some i) → (∀ t, r = Some t → claims w' = Some t) →
  dep_inv (mkDepSys d (omap flies ws) (claimed r (list_to_set_disj (omap claims (l1 ++ l2)))) ∅ c rel) →
  dep_inv (mkDepSys d (omap flies ws') (list_to_set_disj (omap claims ws')) ∅ c rel).
Proof.
  intros Hf Hr. apply dep_inv_ext; [intros i; by apply omap_swap, Hf|]. intros e He.
  apply elem_of_list_to_set_disj. destruct r as [t|]; simpl in He.
  - apply gmultiset_elem_of_disj_union in He as [->%gmultiset_elem_of_singleton|He%elem_of_list_to_set_disj].
    + apply list_elem_of_omap. exists w'. split; [set_solver|by apply Hr].
    + by apply omap_other.
  - apply elem_of_list_to_set_disj in He. by apply omap_other.
Qed.

End swap.


(** ** Cursors and frontier *)

Lemma advance_flags fuel f start : executed_flags (advance_loop fuel f start) = executed_flags f.
Proof.
  revert f start. induction fuel as [|fuel IH]; intros f start; simpl; [done|]. case_decide; [done|]. by rewrite IH.
Qed.

Lemma exact_at f : frontier_inv (mkFrontierSys f []) → is_executed f (frontier f) = false.
Proof.
  intros [_ _ Hd]. destruct (is_executed f (frontier f)) eqn:Hx; [|done]. by destruct (Hd Hx) as (pc & ?%not_elem_of_nil & _).
Qed.

Lemma current_exact f : frontier_inv (mkFrontierSys f []) → current f = (frontier f, f).
Proof. intros Hf%exact_at. unfold current. by rewrite Hf. Qed.

Lemma ctx_frontier_exact c :
  frontier_inv (mkFrontierSys (execution_frontier c) []) → ctx_frontier c = (frontier (execution_frontier c), c).
Proof. intros Hf. unfold ctx_frontier. rewrite current_exact by done. by destruct c. Qed.

Lemma frontier_inv_run s s' : rtc frontier_step s s' → frontier_inv s → frontier_inv s'.
Proof. induction 1; eauto using frontier_inv_step. Qed.

Lemma publish_exact f i f' :
  frontier_inv (mkFrontierSys f []) → publish f i = Done f' →
  frontier_inv (mkFrontierSys f' []) ∧ (∀ j, is_executed f j = true → is_executed f' j = true) ∧
  is_executed f' i = true ∧ length (executed_flags f') = length (executed_flags f).
Proof.
  intros Hinv Hp. split.
  { by apply (publish_steps _ _ _ []), frontier_inv_run in Hp. }
  unfold publish in Hp. case_decide as Hi; [simplify_eq; split_and!; [done|by apply Hinv|done]|].
  apply outcome_bind_Done in Hp as (f1 & Hst & [= <-]).
  destruct (store_executed_le _ _ _ Hst) as ([Hm _] & _ & Hx & _).
  assert (Hl : length (executed_flags f1) = length (executed_flags f)).
  { apply outcome_bind_Done in Hst as (l & (b & _ & ->)%modify_at_Done & [= <-]). simpl. by rewrite length_insert. }
  case_decide; [|done]. unfold is_executed, advance in *. rewrite advance_flags. done.
Qed.

Definition low (c : SchedulerContext) (i : nat) : nat := default 0 (lower_timestamps c !! i).

(** The parts of the context a rewind or a publication of the frontier keeps. *)
Record ctx_same (c c' : SchedulerContext) : Prop := {
  cs_num : ctx_num_txs c' = ctx_num_txs c;
  cs_final : finality c' = finality c;
  cs_committed : committed c' = committed c;
  cs_unconf : unconfirmed_timestamps c' = unconfirmed_timestamps c;
  cs_lower : length (lower_timestamps c') = length (lower_timestamps c);
  cs_low i : low c i ≤ low c' i;
  cs_clock : (∀ i, low c i < logical_clock c) → ∀ i, low c' i < logical_clock c'
}.

Lemma rewound_same ro c c' :
  rewound ro c c' →
  ctx_same c c' ∧ execution_frontier c' = execution_frontier c ∧ validation c' ≤ validation c ∧
  (∀ i, ro = Some i → i < ctx_num_txs c → validation c' ≤ i) ∧
  (∀ j ts, (∀ i, i ≤ j → low c i < ts) → (∀ i, i ≤ j → low c' i < ts) ∨ validation c' ≤ j).
Proof.
  destruct ro as [i|]; simpl; [|intros ->; split_and!; [by split|done|done|done|auto]].
  unfold rewind_validation_to. case_decide as Hi.
  { intros [= <-]. split_and!; [by split|done|done|intros ? [= <-]; lia|auto]. }
  intros (l & (x & Hx & ->)%modify_at_Done & [= <-])%outcome_bind_Done.
  assert (Hlow : ∀ j v f r, low (mkContext (ctx_num_txs c) v (finality c) (committed c) f r (S (logical_clock c))
    (<[i := Nat.max (logical_clock c) x]> (lower_timestamps c)) (unconfirmed_timestamps c)) j =
    if decide (j = i) then Nat.max (logical_clock c) x else low c j).
  { intros. unfold low. simpl. case_decide as Hj; [subst; by rewrite list_lookup_insert_eq by (by eapply lookup_lt_Some)|].
    by rewrite list_lookup_insert_ne. }
  assert (Hxl : low c i = x) by (unfold low; by rewrite Hx).
  split_and!.
  - split; try done; simpl; [by rewrite length_insert|intros j|intros Hc j]; rewrite Hlow;
      (destruct (decide (j = i)) as [->|]; [|try done]).
    + lia.
    + specialize (Hc i). lia.
    + specialize (Hc j). lia.
  - done.
  - simpl. lia.
  - intros ? [= <-] _. simpl. lia.
  - intros j ts Hf. destruct (decide (i ≤ j)) as [?|Hij]; [right; simpl; lia|left]. intros k Hk. rewrite Hlow.
    rewrite decide_False by lia. by apply Hf.
Qed.

Lemma executed_same t c c1 :
  frontier_inv (mkFrontierSys (execution_frontier c) []) → ctx_executed t c = Done c1 →
  ctx_same c c1 ∧ frontier_inv (mkFrontierSys (execution_frontier c1) []) ∧ validation c1 = validation c ∧
  lower_timestamps c1 = lower_timestamps c ∧
  (∀ j, is_executed (execution_frontier c) j = true → is_executed (execution_frontier c1) j = true) ∧
  is_executed (execution_frontier c1) t = true ∧
  length (executed_flags (execution_frontier c1)) = length (executed_flags (execution_frontier c)).
Proof.
  intros Hinv (f & Hp & [= <-])%outcome_bind_Done. destruct (publish_exact _ _ _ Hinv Hp) as (? & ? & ? & ?).
  split_and!; try done.
Qed.

(** Everything of the context at once: an execution that settles, or a rewind. *)
Record moves (c c' : SchedulerContext) : Prop := {
  mo_same : ctx_same c c';
  mo_frontier : frontier_inv (mkFrontierSys (execution_frontier c') []);
  mo_flags j : is_executed (execution_frontier c) j = true → is_executed (execution_frontier c') j = true;
  mo_flags_len : length (executed_flags (execution_frontier c')) = length (executed_flags (execution_frontier c));
  mo_validation : validation c' ≤ validation c;
  mo_fresh j ts : (∀ i, i ≤ j → low c i < ts) → (∀ i, i ≤ j → low c' i < ts) ∨ validation c' ≤ j
}.

Lemma rewound_moves ro c c' :
  frontier_inv (mkFrontierSys (execution_frontier c) []) → rewound ro c c' → moves c c'.
Proof. intros Hf (? & Hx & ? & _ & ?)%rewound_same. split; try rewrite Hx; done. Qed.

Lemma settled_moves t ro c c1 c' :
  frontier_inv (mkFrontierSys (execution_frontier c) []) → ctx_executed t c = Done c1 → rewound ro c1 c' →
  moves c c' ∧ is_executed (execution_frontier c') t = true ∧
  (∀ i, ro = Some i → i < ctx_num_txs c → validation c' ≤ i).
Proof.
  intros Hf (Hs & Hf1 & Hv & Hl & Hfl & Ht & Hlen)%executed_same Hr; [|done].
  apply rewound_same in Hr as (Hs' & Hx & Hv' & Hi & Hfr). destruct Hs, Hs'.
  split_and!; [|by rewrite Hx|intros i ? ?; apply Hi; [done|congruence]].
  split; rewrite ?Hx; try done; [|lia|].
  - split; try congruence; [intros i; specialize (cs_low0 i); specialize (cs_low1 i); lia|]. intros. auto.
  - intros j ts Hlow. apply Hfr. unfold low. by rewrite Hl.
Qed.


(** ** The invariant after a step of one worker *)

Definition clocked (s s' : Sched) : Prop :=
  final_idx s' = final_idx s ∧ (∀ j, flagged s j → flagged s' j) ∧ (∀ i, lower_at s i ≤ lower_at s' i) ∧
  ((∀ i, lower_at s i < clock s) → ∀ i, lower_at s' i < clock s').

Lemma moves_clocked (s s' : Sched) : moves (scheduler_ctx s) (scheduler_ctx s') → clocked s s'.
Proof. intros [[] _ Hf _ _ _]. split_and!; [done|exact Hf|done|done]. Qed.

Lemma clocked_refl (s s' : Sched) : scheduler_ctx s' = scheduler_ctx s → clocked s s'.
Proof. unfold clocked, final_idx, flagged, lower_at, clock. by intros ->. Qed.

Lemma shaped_update (s s' : Sched) r :
  shaped s → block_size s' = block_size s → dep_keeps (tx_dependency s) (tx_dependency s') r →
  (∀ e t, t ∈ aff (tx_dependency s') e → t ∈ aff (tx_dependency s) e ∨ t < block_size s) →
  length (tx_states s') = length (tx_states s) → ctx_num_txs (scheduler_ctx s') = ctx_num_txs (scheduler_ctx s) →
  length (lower_timestamps (scheduler_ctx s')) = length (lower_timestamps (scheduler_ctx s)) →
  length (unconfirmed_timestamps (scheduler_ctx s')) = length (unconfirmed_timestamps (scheduler_ctx s)) →
  length (executed_flags (execution_frontier (scheduler_ctx s'))) = length (executed_flags (execution_frontier (scheduler_ctx s))) →
  shaped s'.
Proof.
  intros [] Hz [] Ha Hst Hn Hl Hu Hf. split; try congruence. intros e t Ht. rewrite Hz. destruct (Ha e t Ht); [|done]. eauto.
Qed.

Lemma moves_shaped (s s' : Sched) r :
  shaped s → block_size s' = block_size s → dep_keeps (tx_dependency s) (tx_dependency s') r →
  (∀ e t, t ∈ aff (tx_dependency s') e → t ∈ aff (tx_dependency s) e ∨ t < block_size s) →
  length (tx_states s') = length (tx_states s) → moves (scheduler_ctx s) (scheduler_ctx s') → shaped s'.
Proof. intros ? ? ? ? ? [[] _ _ ? _ _]. eapply shaped_update; try done; congruence. Qed.

Lemma moves_refl c : frontier_inv (mkFrontierSys (execution_frontier c) []) → moves c c.
Proof. intros. split; try done. auto. Qed.

Lemma status_insert (s s' : Sched) t x j :
  tx_states s' = <[t := x]> (tx_states s) → t < length (tx_states s) →
  status_at s' j = if decide (j = t) then Some (status x) else status_at s j.
Proof.
  intros Hs Ht. unfold status_at. rewrite Hs. case_decide; [subst; by rewrite list_lookup_insert_eq|by rewrite list_lookup_insert_ne].
Qed.

Section one_worker.
Context (l1 l2 : list Worker) (fl : nat) (rel : option TxId).
Implicit Types (s : Sched) (w : Worker).

Lemma keeps_swap s w s' w' j :
  status_at s' j = status_at s j → unconf_at s' j = unconf_at s j → (flagged s j → flagged s' j) → final_idx s ≤ final_idx s' →
  (onboard (dst (tx_dependency s) j) = true → ready s' (l1 ++ w' :: l2) j) → (w = WExecTask j → ready s' (l1 ++ w' :: l2) j) →
  (validation (scheduler_ctx s) ≤ j → offered s' (l1 ++ w' :: l2) j) → (w = WValidation j → offered s' (l1 ++ w' :: l2) j) →
  (∀ ts, fresh s j ts → fresh s' j ts ∨ offered s' (l1 ++ w' :: l2) j) →
  (owns w = Some j → owns w' = Some j) → (validates w = Some j → validates w' = Some j) →
  keeps s (l1 ++ w :: l2) s' (l1 ++ w' :: l2) j.
Proof.
  intros Hst Hun Hfl Hfi Hr Hwr Ho Hwo Hfr How Hva. split; try done.
  - intros [?|Hin]; [auto|]. destruct (elem_swap l1 l2 w w' _ Hin) as [?|He]; [by right|by apply Hwr].
  - intros [?|Hin]; [auto|]. destruct (elem_swap l1 l2 w w' _ Hin) as [?|He]; [by right|by apply Hwo].
  - by apply omap_swap.
  - by apply omap_swap.
Qed.

(** When the context moves and the graph keeps its entries. *)
Lemma keeps_moves s w s' w' r j :
  status_at s' j = status_at s j → moves (scheduler_ctx s) (scheduler_ctx s') →
  dep_keeps (tx_dependency s) (tx_dependency s') r → (r = Some j → w' = WExecTask j) →
  w ≠ WExecTask j → w ≠ WValidation j → (owns w = Some j → owns w' = Some j) → (validates w = Some j → validates w' = Some j) →
  keeps s (l1 ++ w :: l2) s' (l1 ++ w' :: l2) j.
Proof.
  intros Hst [[] ? ? ? ? Hfr] Hk Hr ? ? How Hva. apply keeps_swap; try done; unfold flagged, offered, fresh, unconf_at, final_idx in *.
  - by rewrite cs_unconf0.
  - auto.
  - lia.
  - intros Ho. destruct (dk_onboard _ _ _ Hk j Ho) as [?|Hrj]; [by left|]. right. rewrite (Hr Hrj). set_solver.
  - intros. left. lia.
  - intros ts Hlow. destruct (Hfr j ts Hlow); [by left|by right; left].
Qed.

Lemma live_inv_swap s w s' w' t :
  live_inv (mkLive s (l1 ++ w :: l2) fl rel) →
  shaped s' → exact_frontier s' → clocked s s' → dep_inv (view (mkLive s' (l1 ++ w' :: l2) fl rel)) →
  (∀ j, j ≠ t → keeps s (l1 ++ w :: l2) s' (l1 ++ w' :: l2) j) → tx_ok s' (l1 ++ w' :: l2) t →
  (∀ x, x ∈ l1 ++ l2 → about x = Some t → worker_ok s' (l1 ++ w' :: l2) x) → worker_ok s' (l1 ++ w' :: l2) w' →
  (holds w' = None ∨ holds w' = holds w ∨ ∃ t, holds w' = Some t ∧ unlocked (l1 ++ w :: l2) t) →
  (owns w' = None ∨ owns w' = owns w ∨ ∃ t, owns w' = Some t ∧ t ∉ omap owns (l1 ++ w :: l2)) →
  live_inv (mkLive s' (l1 ++ w' :: l2) fl rel).
Proof.
  intros [Hsh Hdep Htx Hwk Hlk How Hcl Hlo Hfr Hbel] Hsh' Hfr' (Hfi & Hflg & Hlow & Hclk) Hdep' Hk Ht Habout Hw' Hh Ho.
  cbn [l_sched l_workers l_lower l_releasing] in *. split; cbn [l_sched l_workers l_lower l_releasing]; try done.
  - eapply txs_ok_update; eauto.
  - eapply workers_ok_update; eauto.
  - eapply nodup_swap; eauto.
  - eapply nodup_swap; eauto.
  - auto.
  - destruct Hlo as [?|(i & ? & ?)]; [by left|]. right. exists i. rewrite Hfi. split; [done|]. specialize (Hlow i). lia.
  - intros t'. rewrite Hfi. auto.
Qed.

(** Another worker that handles the same transaction. *)
Lemma nodup_other {A} (f : Worker → option A) w x t :
  NoDup (omap f (l1 ++ w :: l2)) → f w = Some t → x ∈ l1 ++ l2 → f x = Some t → False.
Proof.
  rewrite omap_app. simpl. intros Hn Hw Hx Hfx. rewrite Hw in Hn. apply NoDup_app in Hn as (_ & H2 & [H3 _]%NoDup_cons).
  apply elem_of_app in Hx as [Hx|Hx].
  - apply (H2 t); [apply list_elem_of_omap; eauto|by left].
  - apply H3, list_elem_of_omap. eauto.
Qed.

Lemma about_cases x t :
  about x = Some t → owns x = Some t ∨ ∃ v ts r todo c d, x = WScan v ts r todo c d ∧ txid v = t.
Proof. destruct x as [| | | |[v|v]|v|v ts r todo c d]; simpl; naive_solver. Qed.

Lemma owner_status s ws x t : worker_ok s ws x → owns x = Some t → status_at s t = Some Executing.
Proof. destruct x as [| | | |[v|v]|v|v ts r todo c d]; simpl; naive_solver. Qed.

(** Nobody else handles a transaction that a worker holds or owns. *)
Lemma about_unique s w x t :
  live_inv (mkLive s (l1 ++ w :: l2) fl rel) → x ∈ l1 ++ l2 → about x = Some t →
  (owns w = Some t ∨ status_at s t ≠ Some Executing) → (holds w = Some t ∨ unlocked (l1 ++ w :: l2) t) → False.
Proof.
  intros Hinv Hx [Ho|(v & ts & r & todo & c & d & -> & <-)]%about_cases Hw Hh.
  - destruct Hw as [Hw|Hw].
    + by eapply (nodup_other owns); [apply (li_owners _ Hinv)|..].
    + apply Hw. eapply owner_status; [|done]. apply (li_worker _ Hinv). set_solver.
  - destruct Hh as [Hh|Hh].
    + eapply (nodup_other holds); [apply (li_locks _ Hinv)|done|done|done].
    + apply Hh, list_elem_of_omap. exists (WScan v ts r todo c d). split; [set_solver|done].
Qed.

Lemma released_dep_inv t c conflict next d d' fl' busy rel' :
  released t c conflict next d d' → dep_inv (mkDepSys d fl' ({[+ t +]} ⊎ busy) ∅ c rel') →
  dep_inv (mkDepSys d' fl' (claimed next busy) ∅ c rel').
Proof.
  unfold released. destruct conflict.
  - intros [-> [[[e|] Hadd]|Hkey]] Hinv; simpl.
    + eapply dep_inv_add_some; [exact Hinv|apply busy_release|done|done].
    + eapply dep_inv_add_none; [exact Hinv|apply busy_release|done].
    + eapply dep_inv_key_tx; [exact Hinv|apply busy_release|done].
  - intros. by eapply dep_inv_remove.
Qed.

Lemma released_keeps t c conflict next d d' :
  released t c conflict next d d' → length (dependent_state d) = num_txs d →
  dep_keeps d d' next ∧ (conflict = true → onboard (dst d' t) = true) ∧
  ∀ e x, x ∈ aff d' e → x ∈ aff d e ∨ x < num_txs d.
Proof.
  unfold released. intros Hr Hlen. destruct conflict.
  - destruct Hr as [-> [[e (? & ? & Ha)%add_keeps]|(? & Ha & ?)%key_tx_keeps]].
    + split_and!; [done|done|]. intros y x Hx. destruct (Ha y x Hx) as [?|[-> ?]]; [by left|right; lia].
    + split_and!; [done|done|]. intros y x. unfold aff. rewrite Ha. by left.
  - apply remove_keeps in Hr as (? & Ha & _). split_and!; [done|done|]. intros y x Hx. left. by apply Ha.
Qed.

Lemma live_settle s v c s' :
  live_inv (mkLive s (l1 ++ WRun v :: l2) fl rel) → settles v s c s' →
  live_inv (mkLive s' (l1 ++ after_settle c :: l2) fl rel).
Proof.
  intros Hinv [_ Hz (conflict & next & st & ro & x & c1 & Has & Hrel & Hx & Hst & Hc1 & Hrw)].
  assert (Hlt := lookup_lt_Some _ _ _ Hx). pose proof Hinv as [Hsh Hdep Htx Hwk Hlk How Hcl Hlo Hfr Hbel].
  cbn [l_sched l_workers l_lower l_releasing] in *. unfold view in Hdep. cbn [l_sched l_workers l_releasing] in Hdep.
  destruct (settled_moves _ _ _ _ _ Hfr Hc1 Hrw) as (Hmo & Hflag & Hval).
  assert (Hn : num_txs (tx_dependency s) = length (tx_states s)) by (by rewrite (sh_num _ Hsh), (sh_states _ Hsh)).
  destruct (released_keeps _ _ _ _ _ _ Hrel (di_states _ Hdep)) as (Hk & Hon & Haff). simpl in Hk.
  assert (Hstat : ∀ j, status_at s' j = if decide (j = txid v) then Some st else status_at s j)
    by (intros j; by rewrite (status_insert s s' _ _ j Hst Hlt)).
  assert (Hcommit : committed (scheduler_ctx s') = committed (scheduler_ctx s)) by apply Hmo.
  assert (Hnext : ∀ j, next = Some j → after_settle c = WExecTask j) by (intros j ->; by inversion Has).
  assert (Hplain : holds (after_settle c) = None ∧ owns (after_settle c) = None ∧ about (after_settle c) = None)
    by (by inversion Has).
  destruct Hplain as (Hp1 & Hp2 & Hp3).
  apply (live_inv_swap s (WRun v) s' (after_settle c) (txid v)); try done; try by left.
  - eapply moves_shaped; try done; [|by rewrite Hst, length_insert]. intros e t Ht. rewrite <-(sh_num _ Hsh). eauto.
  - apply Hmo.
  - by apply moves_clocked.
  - unfold view. cbn [l_sched l_workers l_releasing]. rewrite Hcommit.
    eapply (dep_ok_claim l1 l2 (WRun v)); [done| |].
    + intros t Ht. by rewrite (Hnext t Ht).
    + eapply released_dep_inv; [exact Hrel|]. by apply dep_ok_release.
  - intros j Hj. eapply keeps_moves; try done; [by rewrite Hstat, decide_False|apply Hnext|simpl; congruence].
  - unfold tx_ok. rewrite Hstat, decide_True by done. inversion Has; subst; simpl in *; (split; [done|]).
    + left. by apply Hon.
    + left. apply Hval; [done|]. rewrite (sh_ctx _ Hsh), <-(sh_states _ Hsh). done.
    + left. apply Hval; [done|]. rewrite (sh_ctx _ Hsh), <-(sh_states _ Hsh). done.
    + apply list_elem_of_omap. eexists. split; [apply elem_of_app; right; left|]. done.
  - intros y Hy Ha. exfalso. eapply about_unique; [exact Hinv|exact Hy|exact Ha|by left|by left].
  - by destruct c.
Qed.


(** A step that leaves every transaction as it is. *)
Lemma live_inv_swap_all s w s' w' :
  live_inv (mkLive s (l1 ++ w :: l2) fl rel) →
  shaped s' → exact_frontier s' → clocked s s' → dep_inv (view (mkLive s' (l1 ++ w' :: l2) fl rel)) →
  (∀ j, keeps s (l1 ++ w :: l2) s' (l1 ++ w' :: l2) j) → worker_ok s' (l1 ++ w' :: l2) w' →
  (holds w' = None ∨ holds w' = holds w ∨ ∃ t, holds w' = Some t ∧ unlocked (l1 ++ w :: l2) t) →
  (owns w' = None ∨ owns w' = owns w ∨ ∃ t, owns w' = Some t ∧ t ∉ omap owns (l1 ++ w :: l2)) →
  live_inv (mkLive s' (l1 ++ w' :: l2) fl rel).
Proof.
  intros Hinv ? ? ? ? Hk ? ? ?. apply (live_inv_swap s w s' w' 0); try done.
  - eapply tx_ok_keeps; [apply Hk|]. apply (li_tx _ Hinv).
  - intros x Hx _. eapply worker_ok_keeps; [intros; apply Hk|]. apply (li_worker _ Hinv). simpl. set_solver.
Qed.

(** Memory, metrics and results do not matter. *)
Lemma live_inv_same s w s' w' :
  block_size s' = block_size s → tx_states s' = tx_states s → tx_dependency s' = tx_dependency s →
  scheduler_ctx s' = scheduler_ctx s →
  live_inv (mkLive s (l1 ++ w :: l2) fl rel) →
  (∀ t, w ≠ WExecTask t) → (∀ t, w ≠ WValidation t) → flies w = None →
  owns w' = owns w → claims w' = claims w → validates w' = validates w →
  (worker_ok s (l1 ++ w :: l2) w → worker_ok s (l1 ++ w' :: l2) w') →
  (holds w' = holds w ∨ ∃ t, holds w' = Some t ∧ unlocked (l1 ++ w :: l2) t) →
  live_inv (mkLive s' (l1 ++ w' :: l2) fl rel).
Proof.
  intros Hz Hst Hd Hc Hinv Hne Hnv Hfl How Hcl Hva Hok Hh.
  assert (Hmo : moves (scheduler_ctx s) (scheduler_ctx s')) by (rewrite Hc; apply moves_refl, Hinv).
  assert (Hk : dep_keeps (tx_dependency s) (tx_dependency s') None) by (rewrite Hd; apply dep_keeps_refl).
  assert (Hkeep : ∀ j, keeps s (l1 ++ w :: l2) s' (l1 ++ w' :: l2) j).
  { intros j. eapply keeps_moves; try done; [unfold status_at; by rewrite Hst|by rewrite How|by rewrite Hva]. }
  apply (live_inv_swap_all s w); try done.
  - eapply moves_shaped; try done; [apply Hinv|by rewrite Hd; left|by rewrite Hst].
  - apply Hmo.
  - by apply moves_clocked.
  - unfold view. cbn [l_sched l_workers l_releasing]. rewrite Hd, Hc.
    apply (dep_ok_swap l1 l2 w); [by rewrite Hfl|intros t; rewrite Hcl; by left|apply Hinv].
  - eapply worker_ok_keeps with (s := s) (ws := l1 ++ w' :: l2).
    + intros j _. split; unfold status_at, unconf_at, flagged, ready, offered, fresh, final_idx, lower_at;
        rewrite ?Hst, ?Hd, ?Hc; auto.
    + apply Hok, (li_worker _ Hinv). simpl. set_solver.
  - destruct Hh as [->|?]; auto.
  - auto.
Qed.

Lemma add_dep_inv t e d d' fl' busy c rel' :
  add t e d = Done d' → dep_inv (mkDepSys d fl' busy ∅ c rel') → dep_inv (mkDepSys d' fl' busy ∅ c rel').
Proof.
  destruct e as [e|]; intros Hadd Hinv; [by eapply dep_inv_add_some|by eapply dep_inv_add_none].
Qed.

Lemma unconfirmed_Done t ts c c' :
  unconfirmed t ts c = Done c' →
  ctx_num_txs c' = ctx_num_txs c ∧ validation c' = validation c ∧ finality c' = finality c ∧ committed c' = committed c ∧
  execution_frontier c' = execution_frontier c ∧ logical_clock c' = logical_clock c ∧
  lower_timestamps c' = lower_timestamps c ∧ length (unconfirmed_timestamps c') = length (unconfirmed_timestamps c) ∧
  (∀ j, j ≠ t → unconfirmed_timestamps c' !! j = unconfirmed_timestamps c !! j) ∧
  ∃ x, unconfirmed_timestamps c' !! t = Some (Nat.max ts x).
Proof.
  intros (l & (x & Hx & ->)%modify_at_Done & [= <-])%outcome_bind_Done. simpl. split_and!; try done.
  - by rewrite length_insert.
  - intros. by rewrite list_lookup_insert_ne.
  - exists x. by rewrite list_lookup_insert_eq by (by eapply lookup_lt_Some).
Qed.

Lemma live_verdict_conflict s v ts r d s' x e :
  live_inv (mkLive s (l1 ++ WScan v ts r [] true d :: l2) fl rel) → block_size s' = block_size s →
  tx_states s !! txid v = Some x → tx_states s' = <[txid v := mkTxState Conflict (ts_incarnation x) d]> (tx_states s) →
  rewind_validation_to (txid v + 1) (scheduler_ctx s) = Done (scheduler_ctx s') →
  add (txid v) e (tx_dependency s) = Done (tx_dependency s') →
  live_inv (mkLive s' (l1 ++ WIdle :: l2) fl rel).
Proof.
  intros Hinv Hz Hx Hst Hrw Hadd. assert (Hlt := lookup_lt_Some _ _ _ Hx).
  pose proof Hinv as [Hsh Hdep Htx Hwk Hlk How Hcl Hlo Hfr Hbel]. cbn [l_sched l_workers l_lower l_releasing] in *.
  assert (Hmo := rewound_moves (Some _) _ _ Hfr Hrw).
  destruct (add_keeps _ _ _ _ Hadd) as (Hk & Hon & Haff).
  assert (Hn : length (dependent_state (tx_dependency s)) = block_size s).
  { rewrite <-(sh_num _ Hsh). apply (di_states _ Hdep). }
  assert (Hstat : ∀ j, status_at s' j = if decide (j = txid v) then Some Conflict else status_at s j)
    by (intros j; by rewrite (status_insert s s' _ _ j Hst Hlt)).
  destruct (Hwk (WScan v ts r [] true d)) as [Hv _]; [set_solver|].
  apply (live_inv_swap s (WScan v ts r [] true d) s' WIdle (txid v)); try done; try by left.
  - eapply moves_shaped; try done; [|by rewrite Hst, length_insert]. intros y t Ht.
    destruct (Haff y t Ht) as [?|[-> ?]]; [by left|right; lia].
  - apply Hmo.
  - by apply moves_clocked.
  - unfold view in *. cbn [l_sched l_workers l_releasing] in *. rewrite (cs_committed _ _ (mo_same _ _ Hmo)).
    apply (dep_ok_swap l1 l2 (WScan v ts r [] true d)); [done|done|]. by eapply add_dep_inv.
  - intros j Hj. eapply keeps_moves; try done; [by rewrite Hstat, decide_False|simpl; congruence].
  - unfold tx_ok. rewrite Hstat, decide_True by done. specialize (Htx (txid v)). unfold tx_ok in Htx. rewrite Hv in Htx.
    split; [apply (mo_flags _ _ Hmo), Htx|by left].
  - intros y Hy Ha. exfalso. eapply about_unique; [exact Hinv|exact Hy|exact Ha|right; congruence|by left].
Qed.

Lemma live_verdict_ok s v ts r d s' x :
  live_inv (mkLive s (l1 ++ WScan v ts r [] false d :: l2) fl rel) → block_size s' = block_size s →
  tx_states s !! txid v = Some x → tx_states s' = <[txid v := mkTxState Unconfirmed (ts_incarnation x) d]> (tx_states s) →
  unconfirmed (txid v) ts (scheduler_ctx s) = Done (scheduler_ctx s') → tx_dependency s' = tx_dependency s →
  live_inv (mkLive s' (l1 ++ WIdle :: l2) fl rel).
Proof.
  intros Hinv Hz Hx Hst (Hnum & Hva & Hfi & Hco & Hfr' & Hck & Hlow & Hul & Huo & u & Hu)%unconfirmed_Done Hd.
  assert (Hlt := lookup_lt_Some _ _ _ Hx).
  pose proof Hinv as [Hsh Hdep Htx Hwk Hlk How Hcl Hlo Hfr Hbel]. cbn [l_sched l_workers l_lower l_releasing] in *.
  assert (Hstat : ∀ j, status_at s' j = if decide (j = txid v) then Some Unconfirmed else status_at s j)
    by (intros j; by rewrite (status_insert s s' _ _ j Hst Hlt)).
  destruct (Hwk (WScan v ts r [] false d)) as [Hv Hfo]; [set_solver|].
  apply (live_inv_swap s (WScan v ts r [] false d) s' WIdle (txid v)); try done; try by left.
  - eapply (shaped_update s s' None); try done; [rewrite Hd; apply dep_keeps_refl|rewrite Hd; by left|by rewrite Hst, length_insert|by rewrite Hlow|by rewrite Hfr'].
  - unfold exact_frontier. by rewrite Hfr'.
  - unfold clocked, final_idx, flagged, lower_at, clock. by rewrite Hfi, Hfr', Hlow, Hck.
  - unfold view in *. cbn [l_sched l_workers l_releasing] in *. rewrite Hco, Hd.
    by apply (dep_ok_swap l1 l2 (WScan v ts r [] false d)).
  - intros j Hj. apply keeps_swap; try done; unfold unconf_at, flagged, final_idx, ready, offered, fresh, lower_at.
    + by rewrite Hstat, decide_False.
    + by rewrite Huo.
    + by rewrite Hfr'.
    + by rewrite Hfi.
    + rewrite Hd. by left.
    + rewrite Hva. by left.
    + intros ts' ?. left. by rewrite Hlow.
    + simpl. congruence.
  - unfold tx_ok. rewrite Hstat, decide_True by done. specialize (Htx (txid v)). unfold tx_ok in Htx. rewrite Hv in Htx.
    split; [unfold flagged; rewrite Hfr'; apply Htx|].
    destruct Hfo as [Hf|Ho].
    + left. intros i Hi. unfold lower_at, unconf_at. rewrite Hlow, Hu. simpl. specialize (Hf i Hi). unfold lower_at in Hf. lia.
    + right. unfold offered in *. rewrite Hva. destruct Ho as [?|Hin]; [by left|right].
      destruct (elem_swap l1 l2 _ WIdle _ Hin) as [?|?]; done.
  - intros y Hy Ha. exfalso. eapply about_unique; [exact Hinv|exact Hy|exact Ha|right; congruence|by left].
Qed.


(** A worker that is about a transaction nobody is validating does not notice what another one does. *)
Lemma unlocked_other s w t s2 w2 y :
  live_inv (mkLive s (l1 ++ w :: l2) fl rel) → unlocked (l1 ++ w :: l2) t → status_at s2 t = status_at s t →
  y ∈ l1 ++ l2 → about y = Some t → worker_ok s2 (l1 ++ w2 :: l2) y.
Proof.
  intros Hinv Hu Hs2 Hy [Ho|(v & ts & r & todo & c & d & -> & <-)]%about_cases.
  - assert (Hwk := li_worker _ Hinv y). cbn [l_sched l_workers] in Hwk.
    assert (Hst := owner_status _ _ _ _ (Hwk ltac:(set_solver)) Ho).
    destruct y as [| | | |[v|v]|v|v ts r todo c d]; simpl in *; congruence || done.
  - exfalso. apply Hu, list_elem_of_omap. exists (WScan v ts r todo c d). split; [set_solver|done].
Qed.

Lemma live_validation_task s i task s' :
  live_inv (mkLive s (l1 ++ WValidation i :: l2) fl rel) → unlocked (l1 ++ WValidation i :: l2) i →
  validation_task i s = Done (task, s') → live_inv (mkLive s' (l1 ++ after_task task :: l2) fl rel).
Proof.
  intros Hinv Hu (x & Hx%index_Done & Hr)%outcome_bind_Done. assert (Hlt := lookup_lt_Some _ _ _ Hx).
  pose proof Hinv as [Hsh Hdep Htx Hwk Hlk How Hcl Hlo Hfr Hbel]. cbn [l_sched l_workers l_lower l_releasing] in *.
  assert (Hsx : status_at s i = Some (status x)) by (unfold status_at; by rewrite Hx).
  assert (Hmo : moves (scheduler_ctx s) (scheduler_ctx s)) by (by apply moves_refl).
  assert (Hswap : ∀ w', claims w' = None → flies w' = None →
    dep_inv (view (mkLive s (l1 ++ w' :: l2) fl rel))).
  { intros w' ? ?. unfold view in *. cbn [l_sched l_workers l_releasing] in *.
    by apply (dep_ok_swap l1 l2 (WValidation i)). }
  destruct (decide (status x = Executed ∨ status x = Unconfirmed)) as [Hs|Hs].
  - assert (Hr' : task = Some (Validation (mkTxVersion i (ts_incarnation x))) ∧
      s' = set_tx_states (<[i := mkTxState Validating (ts_incarnation x) (ts_dependency x)]> (tx_states s)) s).
    { destruct Hs as [Hs|Hs]; rewrite Hs in Hr; by injection Hr as <- <-. }
    destruct Hr' as [-> ->]. simpl.
    set (s1 := set_tx_states _ s).
    assert (Hstat : ∀ j, status_at s1 j = if decide (j = i) then Some Validating else status_at s j)
      by (intros j; by rewrite (status_insert s s1 _ _ j eq_refl Hlt)).
    apply (live_inv_swap s (WValidation i) s1 _ i); try done; try by left.
    + eapply (moves_shaped s s1 None); try done; [apply dep_keeps_refl|by left|by unfold s1; simpl; rewrite length_insert].
    + by apply Hswap.
    + intros j Hj. apply (keeps_moves _ _ _ _ None); try done; [by rewrite Hstat, decide_False|apply dep_keeps_refl|by intros [= ->]].
    + unfold tx_ok. rewrite Hstat, decide_True by done. specialize (Htx i). unfold tx_ok in Htx. rewrite Hsx in Htx.
      split; [by destruct Hs as [Hs|Hs]; rewrite Hs in Htx; destruct Htx|].
      apply list_elem_of_omap. eexists. split; [apply elem_of_app; right; left|]. done.
    + intros y Hy Ha. exfalso. eapply about_unique; [exact Hinv|exact Hy|exact Ha| |by right].
      right. rewrite Hsx. intros [= ?]. destruct Hs; congruence.
  - assert (Hr' : task = None ∧ s' = s) by (destruct (status x); try (by injection Hr as <- <-); destruct Hs; by auto).
    destruct Hr' as [-> ->]. simpl.
    apply (live_inv_swap s (WValidation i) s WIdle i); try done; try by left.
    + by apply Hswap.
    + intros j Hj. apply (keeps_moves _ _ _ _ None); try done; [apply dep_keeps_refl|by intros [= ->]].
    + specialize (Htx i). unfold tx_ok in *. rewrite Hsx in *. destruct (status x); try (destruct Hs; by auto); try done.
      * destruct Htx as [?|Hin]; [by left|right]. by destruct (elem_swap l1 l2 _ WIdle _ Hin).
      * apply (omap_swap l1 l2 (WValidation i)); [done|exact Htx].
      * destruct Htx as [? Htx]. split; [done|]. by apply (omap_swap l1 l2 (WValidation i)).
      * destruct Htx as [? [?|Hin]]; (split; [done|]); [by left|right]. by destruct (elem_swap l1 l2 _ WIdle _ Hin).
    + intros y Hy Ha. by eapply unlocked_other.
Qed.

(** A task for a transaction that does not wait for execution is dropped, and its dependents are
    released. *)
Lemma live_useless_update s t x d :
  live_inv (mkLive s (l1 ++ WExecTask t :: l2) fl rel) → unlocked (l1 ++ WExecTask t :: l2) t → tx_states s !! t = Some x →
  ¬ (status x = Initial ∨ status x = Conflict) → status x ≠ Executing →
  TxDependency.remove t false (tx_dependency s) = Done (None, d) →
  live_inv (mkLive (set_metrics (record_useless_dependency_update (metrics s)) (set_tx_dependency d s)) (l1 ++ WIdle :: l2) fl rel).
Proof.
  intros Hinv Hu Hx Hs He Hrm. assert (Hlt := lookup_lt_Some _ _ _ Hx).
  pose proof Hinv as [Hsh Hdep Htx Hwk Hlk How Hcl Hlo Hfr Hbel]. cbn [l_sched l_workers l_lower l_releasing] in *.
  assert (Hsx : status_at s t = Some (status x)) by (unfold status_at; by rewrite Hx).
  assert (Hmo : moves (scheduler_ctx s) (scheduler_ctx s)) by (by apply moves_refl).
  unfold view in Hdep. cbn [l_sched l_workers l_releasing] in Hdep.
  destruct (remove_keeps _ _ _ _ _ Hrm) as (Hk & Ha & _). set (s1 := set_metrics _ _).
  apply (live_inv_swap s (WExecTask t) s1 WIdle t); try done; try by left.
  + eapply (moves_shaped s s1); try done. intros e y Hy. left. by apply Ha.
  + unfold view. cbn [l_sched l_workers l_releasing].
    apply (dep_ok_claim l1 l2 (WExecTask t) WIdle _ None); [done|done|].
    eapply dep_inv_remove; [exact Hrm|]. by apply dep_ok_release.
  + intros j Hj. eapply keeps_moves; try done. by intros [= ->].
  + specialize (Htx t). unfold tx_ok in *. change (status_at s1 t) with (status_at s t). rewrite Hsx in *.
    destruct (status x); try (destruct Hs; by auto); try done.
    * destruct Htx as [? [?|Hin]]; (split; [done|]); [by left|right]. by destruct (elem_swap l1 l2 _ WIdle _ Hin).
    * destruct Htx as [? Htx]. split; [done|]. by apply (omap_swap l1 l2 (WExecTask t)).
    * destruct Htx as [? [?|[?|Hin]]]; (split; [done|]); [by left|by right; left|right; right].
      by destruct (elem_swap l1 l2 _ WIdle _ Hin).
  + intros y Hy Hab. by eapply unlocked_other.
Qed.

Lemma live_execution_task s t task s' :
  live_inv (mkLive s (l1 ++ WExecTask t :: l2) fl rel) → unlocked (l1 ++ WExecTask t :: l2) t →
  execution_task t s = Done (task, s') → live_inv (mkLive s' (l1 ++ after_task task :: l2) fl rel).
Proof.
  intros Hinv Hu (x & Hx%index_Done & Hr)%outcome_bind_Done. assert (Hlt := lookup_lt_Some _ _ _ Hx).
  pose proof Hinv as [Hsh Hdep Htx Hwk Hlk How Hcl Hlo Hfr Hbel]. cbn [l_sched l_workers l_lower l_releasing] in *.
  assert (Hsx : status_at s t = Some (status x)) by (unfold status_at; by rewrite Hx).
  assert (Hmo : moves (scheduler_ctx s) (scheduler_ctx s)) by (by apply moves_refl).
  unfold view in Hdep. cbn [l_sched l_workers l_releasing] in Hdep.
  destruct (decide (status x = Initial ∨ status x = Conflict)) as [Hs|Hs]; [|destruct (decide (status x = Executing)) as [He|He]].
  - set (s1 := set_tx_states (<[t := mkTxState Executing (S (ts_incarnation x)) (ts_dependency x)]> (tx_states s)) s).
    assert (Hr' : task = Some (Execution (mkTxVersion t (S (ts_incarnation x)))) ∧ s' = s1).
    { destruct Hs as [Hs|Hs]; rewrite Hs in Hr; by injection Hr as <- <-. }
    destruct Hr' as [-> ->]. simpl.
    assert (Hstat : ∀ j, status_at s1 j = if decide (j = t) then Some Executing else status_at s j)
      by (intros j; by rewrite (status_insert s s1 _ _ j eq_refl Hlt)).
    assert (Hno : t ∉ omap owns (l1 ++ WExecTask t :: l2)).
    { intros (y & Hy & Hoy)%list_elem_of_omap. pose proof (owner_status _ _ _ _ (Hwk y Hy) Hoy). destruct Hs; congruence. }
    apply (live_inv_swap s (WExecTask t) s1 _ t); try done; try by left.
    + eapply (moves_shaped s s1 None); try done; [apply dep_keeps_refl|by left|by unfold s1; simpl; rewrite length_insert].
    + apply (dep_ok_swap l1 l2 (WExecTask t)); [done| |exact Hdep]. by left.
    + intros j Hj. apply (keeps_moves _ _ _ _ None); try done; [by rewrite Hstat, decide_False|apply dep_keeps_refl|by intros [= ->]].
    + unfold tx_ok. rewrite Hstat, decide_True by done.
      apply list_elem_of_omap. eexists. split; [apply elem_of_app; right; left|]. done.
    + intros y Hy Ha. exfalso. eapply about_unique; [exact Hinv|exact Hy|exact Ha| |by right].
      right. rewrite Hsx. intros [= ?]. destruct Hs; congruence.
    + simpl. by rewrite Hstat, decide_True.
    + right. right. by exists t.
  - rewrite He in Hr. injection Hr as <- <-. simpl.
    apply (live_inv_swap s (WExecTask t) s WIdle t); try done; try by left.
    + unfold view. cbn [l_sched l_workers l_releasing].
      apply (dep_ok_swap l1 l2 (WExecTask t)); [done| |exact Hdep]. intros ? [= <-]. right.
      specialize (Htx t). unfold tx_ok in Htx. rewrite Hsx, He in Htx.
      apply list_elem_of_omap in Htx as (y & Hy & Hoy). apply list_elem_of_omap. exists y.
      split; [|by destruct y as [| | | |[v|v]|v|v ts r todo c d]]. destruct (elem_swap l1 l2 _ WIdle _ Hy); set_solver.
    + intros j Hj. apply (keeps_moves _ _ _ _ None); try done; [apply dep_keeps_refl|by intros [= ->]].
    + specialize (Htx t). unfold tx_ok in *. rewrite Hsx, He in *. by apply (omap_swap l1 l2 (WExecTask t)).
    + intros y Hy Ha. by eapply unlocked_other.
  - assert (Hr' : ∃ d, TxDependency.remove t false (tx_dependency s) = Done (None, d) ∧ task = None ∧
      s' = set_metrics (record_useless_dependency_update (metrics s)) (set_tx_dependency d s)).
    { destruct (status x); try (destruct Hs; by auto); try done.
      all: apply outcome_bind_Done in Hr as ([nx d] & Hrm & [= <- <-]); exists d; destruct (remove_keeps _ _ _ _ _ Hrm) as (_ & _ & Hnx);
        by rewrite (Hnx eq_refl) in Hrm. }
    destruct Hr' as (d & Hrm & -> & ->). by eapply live_useless_update.
Qed.

Lemma live_begin s v go s' :
  live_inv (mkLive s (l1 ++ WTask (Execution v) :: l2) fl rel) → unlocked (l1 ++ WTask (Execution v) :: l2) (txid v) →
  execute_begin v s = Done (go, s') → abort_flag s' = false →
  abort_flag s = false ∧ live_inv (mkLive s' (l1 ++ (if go then WRun v else WIdle) :: l2) fl rel).
Proof.
  intros Hinv Hu (x & Hx%index_Done & Hr)%outcome_bind_Done Hab.
  assert (Hst : status_at s (txid v) = Some Executing) by (apply (li_worker _ Hinv (WTask (Execution v))); simpl; set_solver).
  unfold status_at in Hst. rewrite Hx in Hst. injection Hst as Hst.
  rewrite bool_decide_true in Hr by done. simpl in Hr.
  case_bool_decide; simpl in Hr; [|by injection Hr as <- <-]. injection Hr as <- <-. split; [done|].
  eapply (live_inv_same s (WTask (Execution v))); try done. right. by exists (txid v).
Qed.

Lemma live_validate s v go s' :
  live_inv (mkLive s (l1 ++ WTask (Validation v) :: l2) fl rel) → unlocked (l1 ++ WTask (Validation v) :: l2) (txid v) →
  validate_begin v s = Done (go, s') → abort_flag s' = false →
  abort_flag s = false ∧ live_inv (mkLive s' (l1 ++ (match go with
    | Some (ts, r) => WScan v ts r (map_to_list (tr_read_set r)) false None | None => WIdle end) :: l2) fl rel).
Proof.
  intros Hinv Hu (x & Hx%index_Done & (o & _ & Hr)%outcome_bind_Done)%outcome_bind_Done Hab.
  pose proof Hinv as [Hsh Hdep Htx Hwk Hlk How Hcl Hlo Hfr Hbel]. cbn [l_sched l_workers l_lower l_releasing] in *.
  unfold view in Hdep. cbn [l_sched l_workers l_releasing] in Hdep.
  assert (Hsx : status_at s (txid v) = Some (status x)) by (unfold status_at; by rewrite Hx).
  assert (Hmo : moves (scheduler_ctx s) (scheduler_ctx s)) by (by apply moves_refl).
  case_bool_decide as Hst; simpl in Hr.
  2:{ injection Hr as <- <-. split; [done|]. apply (live_inv_swap s (WTask (Validation v)) s WIdle (txid v)); try done; try by left.
      - by apply (dep_ok_swap l1 l2 (WTask (Validation v))).
      - intros j Hj. apply (keeps_moves _ _ _ _ None); try done; [apply dep_keeps_refl|simpl; congruence].
      - specialize (Htx (txid v)). unfold tx_ok in *. rewrite Hsx in *. destruct (status x); try done.
        + destruct Htx as [?|Hin]; [by left|right]. by destruct (elem_swap l1 l2 _ WIdle _ Hin).
        + by apply (omap_swap l1 l2 (WTask (Validation v))).
        + destruct Htx as [? [?|Hin]]; (split; [done|]); [by left|right]. by destruct (elem_swap l1 l2 _ WIdle _ Hin).
        + destruct Htx as [? [?|[?|Hin]]]; (split; [done|]); [by left|by right; left|right; right].
          by destruct (elem_swap l1 l2 _ WIdle _ Hin).
        + destruct Htx as [? [?|Hin]]; (split; [done|]); [by left|right]. by destruct (elem_swap l1 l2 _ WIdle _ Hin).
      - intros y Hy [Ho|(v' & ts & r & todo & c & d & -> & Heq)]%about_cases.
        + assert (Hsty := owner_status _ _ _ _ (Hwk y ltac:(set_solver)) Ho).
          destruct y as [| | | |[v'|v']|v'|v' ts r todo c d]; simpl in *; congruence || done.
        + exfalso. apply Hu, list_elem_of_omap. exists (WScan v' ts r todo c d). split; [set_solver|by rewrite <-Heq]. }
  case_bool_decide; simpl in Hr; [|by injection Hr as <- <-].
  destruct o as [r|]; [|by injection Hr as <- <-]. destruct (is_ok _); simpl in Hr; [|by injection Hr as <- <-].
  injection Hr as <- <-. simpl. split; [done|].
  set (s1 := set_ctx _ _). rewrite Hst in Hsx.
  assert (Hlow : ∀ i, lower_at s1 i = lower_at s i) by done.
  apply (live_inv_swap_all s (WTask (Validation v)) s1); try done; try by left.
  - eapply (shaped_update s s1 None); try done; [apply dep_keeps_refl|by left].
  - split_and!; [done|done|done|]. intros Hlc i. rewrite Hlow. specialize (Hlc i). unfold clock in *. simpl. lia.
  - by apply (dep_ok_swap l1 l2 (WTask (Validation v))).
  - intros j. apply keeps_swap; try done; [by left|by left|by left].
  - split; [done|]. left. intros i _. rewrite Hlow. apply Hcl.
  - right. right. by exists (txid v).
Qed.

Lemma live_claim_validation s e r c :
  live_inv (mkLive s (l1 ++ WIdle :: l2) fl rel) → next_validation_idx e (scheduler_ctx s) = (r, c) →
  live_inv (mkLive (set_ctx c s) (l1 ++ (match r with Some i => WValidation i | None => WIdle end) :: l2) fl rel).
Proof.
  intros Hinv Hr. pose proof Hinv as [Hsh Hdep Htx Hwk Hlk How Hcl Hlo Hfr Hbel]. cbn [l_sched l_workers l_lower l_releasing] in *.
  unfold next_validation_idx in Hr. rewrite ctx_frontier_exact in Hr by done. unfold claim_before in Hr.
  set (c1 := scheduler_ctx s) in *.
  case_decide as Hlim; injection Hr as <- <-.
  - eapply (live_inv_same s WIdle); try done; [|by left].
    unfold c1. simpl. by destruct (scheduler_ctx s).
  - set (s1 := set_ctx _ s). assert (Hva : validation (scheduler_ctx s1) = S (validation c1)) by done.
    apply (live_inv_swap_all s WIdle s1); try done; try by left.
    + eapply (shaped_update s s1 None); try done; [apply dep_keeps_refl|by left].
    + by apply (dep_ok_swap l1 l2 WIdle).
    + intros j. apply keeps_swap; try done; [by left| |by left].
      intros Hj. unfold offered. rewrite Hva. destruct (decide (j = validation c1)) as [->|]; [|left; fold c1 in Hj; lia].
      right. apply elem_of_app. right. left.
Qed.

Lemma live_take s r d :
  live_inv (mkLive s (l1 ++ WIdle :: l2) fl rel) → next_claim (tx_dependency s) = (r, d) →
  live_inv (mkLive (set_tx_dependency d s) (l1 ++ (match r with Some i => WFlight i | None => WIdle end) :: l2) fl rel).
Proof.
  intros Hinv Hr. pose proof Hinv as [Hsh Hdep Htx Hwk Hlk How Hcl Hlo Hfr Hbel]. cbn [l_sched l_workers l_lower l_releasing] in *.
  assert (Hmo : moves (scheduler_ctx s) (scheduler_ctx s)) by (by apply moves_refl).
  unfold view in Hdep. cbn [l_sched l_workers l_releasing] in Hdep.
  assert (Hd : d = set_dep_index (S (dep_index (tx_dependency s))) (tx_dependency s)).
  { unfold next_claim in Hr. by injection Hr as _ <-. }
  assert (Hw : ∀ w', w' = (match r with Some i => WFlight i | None => WIdle end) →
    about w' = None ∧ holds w' = None ∧ owns w' = None ∧ claims w' = None) by (intros w' ->; by destruct r).
  destruct (Hw _ eq_refl) as (Hw1 & Hw2 & Hw3 & Hw4). set (w' := match r with Some i => WFlight i | None => WIdle end) in *.
  set (s1 := set_tx_dependency d s).
  apply (live_inv_swap_all s WIdle s1); try done; try by left.
  - eapply (shaped_update s s1 None); try done; subst d; [by split; [..|by left]|by left].
  - unfold view. cbn [l_sched l_workers l_releasing].
    pose proof (dep_inv_claim _ _ _ _ _ _ Hdep) as Hc. rewrite Hr in Hc. simpl in Hc.
    eapply dep_inv_ext; [..|exact Hc].
    + intros i Hi. apply list_elem_of_omap.
      assert (Hcase : flies w' = Some i ∨ i ∈ omap flies (l1 ++ WIdle :: l2)).
      { unfold w'. destruct r; simpl in *; [apply elem_of_cons in Hi as [->|]; auto|auto]. }
      destruct Hcase as [?|(y & Hy & Hfy)%list_elem_of_omap]; [exists w'; split; [set_solver|done]|].
      exists y. split; [|done]. destruct (elem_swap l1 l2 WIdle w' y Hy) as [?| ->]; done.
    + intros e. rewrite !elem_of_list_to_set_disj. by apply omap_swap.
  - intros j. apply (keeps_moves _ _ _ _ None); try done. subst d. by split; [..|by left].
  - by destruct r.
Qed.

Lemma live_resolve s i r d :
  live_inv (mkLive s (l1 ++ WFlight i :: l2) fl rel) → next_resolve i (tx_dependency s) = Done (r, d) →
  live_inv (mkLive (set_tx_dependency d s) (l1 ++ (match r with Some t => WExecTask t | None => WIdle end) :: l2) fl rel).
Proof.
  intros Hinv Hr. pose proof Hinv as [Hsh Hdep Htx Hwk Hlk How Hcl Hlo Hfr Hbel]. cbn [l_sched l_workers l_lower l_releasing] in *.
  assert (Hmo : moves (scheduler_ctx s) (scheduler_ctx s)) by (by apply moves_refl).
  unfold view in Hdep. cbn [l_sched l_workers l_releasing] in Hdep.
  destruct (next_resolve_keeps _ _ _ _ Hr) as [Hk Ha].
  set (w' := match r with Some t => WExecTask t | None => WIdle end).
  assert (Hw : about w' = None ∧ holds w' = None ∧ owns w' = None ∧ flies w' = None ∧ claims w' = r) by (unfold w'; by destruct r).
  destruct Hw as (Hw1 & Hw2 & Hw3 & Hw4 & Hw5). set (s1 := set_tx_dependency d s).
  apply (live_inv_swap_all s (WFlight i) s1); try done; try by left.
  - eapply (moves_shaped s s1); try done. intros e t. unfold aff. simpl. rewrite Ha. by left.
  - unfold view. cbn [l_sched l_workers l_releasing]. rewrite omap_app in Hdep. simpl in Hdep.
    eapply dep_inv_ext; [..|eapply dep_inv_resolve; [exact Hdep|exact Hr]].
    + intros j. rewrite omap_app. simpl. by rewrite Hw4.
    + intros e He. apply elem_of_list_to_set_disj.
      assert (Hcase : r = Some e ∨ e ∈ omap claims (l1 ++ WFlight i :: l2)).
      { destruct r as [t|]; simpl in He; [|right; by apply elem_of_list_to_set_disj in He].
        apply gmultiset_elem_of_disj_union in He as [->%gmultiset_elem_of_singleton|He]; [by left|].
        right. by apply elem_of_list_to_set_disj in He. }
      destruct Hcase as [Hre|Hin]; [apply list_elem_of_omap; exists w'; split; [set_solver|congruence]|].
      revert Hin. by apply omap_swap.
  - intros j. eapply keeps_moves; try done. intros ->. done.
  - by unfold w'; destruct r.
Qed.

End one_worker.

Lemma live_work s l1 w l2 fl rel s' w' :
  work s (l1 ++ w :: l2) w s' w' → abort_flag s' = false → live_inv (mkLive s (l1 ++ w :: l2) fl rel) →
  live_inv (mkLive s' (l1 ++ w' :: l2) fl rel).
Proof.
  intros Hw Hab Hinv. inversion Hw; subst; clear Hw.
  - eapply (live_inv_same _ _ _ _ s WIdle); try done; [|by left].
    simpl. by rewrite ctx_frontier_exact by apply Hinv.
  - by eapply live_claim_validation.
  - by eapply live_validation_task.
  - by eapply live_take.
  - by eapply live_resolve.
  - by eapply live_execution_task.
  - by eapply live_begin in Hinv as [_ ?].
  - eapply (live_inv_same _ _ _ _ s (WRun v)); try done. by left.
  - eapply live_settle; [done|]. by eapply execute_settle_settles.
  - by eapply live_validate in Hinv as [_ ?].
  - eapply (live_inv_same _ _ _ _ s' (WScan v ts r (rd :: todo) c d)); try done; [|by left].
    intros [? [?|[?|Hin]]]; (split; [done|]); [by left|by right; left|right; right].
    by destruct (elem_swap l1 l2 _ (WScan v ts r todo c' d') _ Hin).
  - match goal with H : validate_finish _ _ _ _ _ _ = _ |- _ => apply validate_finish_cases in H as (_ & ? & x & ? & ? & Hc); [|done] end.
    destruct c; destruct Hc as [? Hc]; [destruct Hc; by eapply live_verdict_conflict|by eapply live_verdict_ok].
Qed.

(** Aborts are not taken back. *)
Lemma work_abort s ws w s' w' : work s ws w s' w' → abort_flag s' = false → abort_flag s = false.
Proof.
  intros Hw Hab. destruct Hw as [| |? ? ? ? Hv| | |? ? ? ? Hv|? ? ? ? Hv| |? ? ? ? Hv|? ? ? ? Hv| |? ? ? ? ? ? Hv]; try done.
  - apply outcome_bind_Done in Hv as (x & _ & Hv). by destruct (status x); injection Hv as <- <-.
  - apply outcome_bind_Done in Hv as (x & _ & Hv).
    destruct (status x); try (by injection Hv as <- <-); by apply outcome_bind_Done in Hv as ([? ?] & _ & [= <- <-]).
  - apply outcome_bind_Done in Hv as (x & _ & Hv). by repeat case_bool_decide; injection Hv as <- <-.
  - by eapply execute_settle_settles in Hv as [? _ _].
  - apply outcome_bind_Done in Hv as (x & _ & (o & _ & Hv)%outcome_bind_Done).
    repeat case_bool_decide; simpl in Hv; try (by injection Hv as <- <-).
    destruct o as [r|]; [|by injection Hv as <- <-]. by destruct (is_ok _); injection Hv as <- <-.
  - by eapply validate_finish_cases in Hv as [? _].
Qed.

(** A step of another thread that keeps the transactions. *)
Lemma live_inv_global s ws fl rel s' rel' :
  live_inv (mkLive s ws fl rel) → shaped s' → tx_states s' = tx_states s →
  ctx_same (scheduler_ctx s) (set_frontier (execution_frontier (scheduler_ctx s)) (publish_commit (committed (scheduler_ctx s)) (scheduler_ctx s'))) →
  execution_frontier (scheduler_ctx s') = execution_frontier (scheduler_ctx s) →
  validation (scheduler_ctx s') = validation (scheduler_ctx s) →
  lower_timestamps (scheduler_ctx s') = lower_timestamps (scheduler_ctx s) →
  (∀ j, onboard (dst (tx_dependency s) j) = true → onboard (dst (tx_dependency s') j) = true) →
  dep_inv (view (mkLive s' ws fl rel')) → live_inv (mkLive s' ws fl rel').
Proof.
  intros [Hsh Hdep Htx Hwk Hlk How Hcl Hlo Hfr Hbel] Hsh' Hst [_ Hfi _ Hun _ _ Hck] Hx Hv Hl Hon Hdep'.
  cbn [l_sched l_workers l_lower l_releasing] in *. cbn in Hfi, Hun, Hck.
  assert (Hk : ∀ j, keeps s ws s' ws j).
  { intros j. split; unfold status_at, unconf_at, flagged, ready, offered, fresh, final_idx, lower_at;
      rewrite ?Hst, ?Hx, ?Hv, ?Hl, ?Hun, ?Hfi; auto. intros [?|?]; [left|by right]. by apply Hon. }
  split; cbn [l_sched l_workers l_lower l_releasing]; try done.
  - intros t. by eapply tx_ok_keeps.
  - intros w Hw. eapply worker_ok_keeps; [intros; apply Hk|by apply Hwk].
  - apply Hck, Hcl.
  - unfold final_idx, lower_at in *. by rewrite Hfi, Hl.
  - unfold exact_frontier. by rewrite Hx.
  - unfold final_idx, flagged in *. by rewrite Hfi, Hx.
Qed.

Lemma live_finality s ws fl rel first fl' s' :
  live_inv (mkLive s ws fl rel) → unlocked ws (final_idx s) →
  finality_iteration (final_idx s) fl first s = Done (Some fl', s') → live_inv (mkLive s' ws fl' rel).
Proof.
  intros Hinv Hu (cand & Hcand & Hr)%outcome_bind_Done. destruct cand as [[x el]|]; [|done].
  apply outcome_bind_Done in Hr as (s1 & (y & Hy & ->)%set_status_Done & [= <- <-]).
  unfold lock_finality_candidate in Hcand. destruct (_ || _); [done|].
  apply outcome_bind_Done in Hcand as (x' & Hx'%index_Done & Hcand). case_bool_decide as Hsx; [|done]. simpl in Hcand.
  apply outcome_bind_Done in Hcand as (lo & Hlow%index_Done & (un & Hun%index_Done & Hcand)%outcome_bind_Done).
  case_decide as Hlt; [|done]. injection Hcand as <- <-. rewrite Hx' in Hy. injection Hy as <-.
  pose proof Hinv as [Hsh Hdep Htx Hwk Hlk How Hcl Hlo Hfr Hbel]. cbn [l_sched l_workers l_lower l_releasing] in *.
  set (t := final_idx s) in *. assert (Hlt' := lookup_lt_Some _ _ _ Hx').
  match goal with |- live_inv (mkLive ?s2 _ _ _) => set (s' := s2) end.
  assert (Hs' : tx_states s' = <[t := mkTxState Finality (ts_incarnation x') (ts_dependency x')]> (tx_states s) ∧
    tx_dependency s' = tx_dependency s ∧ block_size s' = block_size s ∧
    scheduler_ctx s' = publish_finality (S t) (scheduler_ctx s)) by (unfold s'; by destruct first).
  destruct Hs' as (Hst & Hd & Hz & Hc).
  assert (Hsx' : status_at s t = Some Unconfirmed) by (unfold status_at; rewrite Hx'; simpl; by f_equal).
  assert (Hstat : ∀ j, status_at s' j = if decide (j = t) then Some Finality else status_at s j)
    by (intros j; by rewrite (status_insert s s' _ _ j Hst Hlt')).
  assert (Hfi : final_idx s' = S t) by (unfold final_idx; by rewrite Hc).
  assert (Hlo' : ∀ i, lower_at s' i = lower_at s i) by (intros; unfold lower_at; by rewrite Hc).
  assert (Hk : ∀ j, j ≠ t → keeps s ws s' ws j).
  { intros j Hj. split; unfold unconf_at, flagged, ready, offered, fresh; rewrite ?Hd, ?Hc; auto.
    - by rewrite Hstat, decide_False.
    - intros ts Hf. left. intros i Hi. rewrite Hlo'. by apply Hf.
    - rewrite Hfi. unfold t. lia. }
  split; cbn [l_sched l_workers l_lower l_releasing]; try done.
  - eapply (shaped_update s s' None); try done; [rewrite Hd; apply dep_keeps_refl|rewrite Hd; by left|by rewrite Hst, length_insert|by rewrite Hc..].
  - unfold view in *. cbn [l_sched l_workers l_releasing] in *. by rewrite Hd, Hc.
  - intros j. destruct (decide (j = t)) as [->|]; [|eapply tx_ok_keeps; eauto].
    unfold tx_ok. rewrite Hstat, decide_True by done. specialize (Htx t). unfold tx_ok in Htx. rewrite Hsx' in Htx.
    split; [unfold flagged; rewrite Hc; apply Htx|rewrite Hfi; lia].
  - intros w Hw. destruct (decide (about w = Some t)) as [Ha|Ha].
    + exfalso. apply about_cases in Ha as [Ho|(v & ts & r & todo & c & d & -> & <-)].
      * pose proof (owner_status _ _ _ _ (Hwk w Hw) Ho). congruence.
      * apply Hu, list_elem_of_omap. by exists (WScan v ts r todo c d).
    + eapply worker_ok_keeps; [|by apply Hwk]. intros j Hj. apply Hk. congruence.
  - intros i. rewrite Hlo'. unfold clock. rewrite Hc. apply Hcl.
  - right. destruct (decide (fl ≤ lo)).
    + exists t. rewrite Hfi, Hlo'. unfold lower_at. rewrite Hlow. simpl. lia.
    + destruct Hlo as [->|(i & Hi & Hfl)]; [lia|]. exists i. rewrite Hfi, Hlo'. lia.
  - unfold exact_frontier. by rewrite Hc.
  - intros j. rewrite Hfi. intros Hj. unfold flagged. rewrite Hc. destruct (decide (j = t)) as [->|]; [|apply Hbel; unfold t in *; lia].
    specialize (Htx t). unfold tx_ok in Htx. rewrite Hsx' in Htx. apply Htx.
Qed.

Lemma live_inv_step L L' :
  live_step L L' → abort_flag (l_sched L') = false → abort_flag (l_sched L) = false ∧ (live_inv L → live_inv L').
Proof.
  intros Hstep Hab. destruct Hstep as [s l1 w l2 fl rel s' w' Hw|s ws fl rel first fl' s' Hu Hf|s ws fl rel i l Hl|s ws fl k -> Hk|s ws fl k d Hd|];
    cbn [l_sched] in *; [| | | | |done].
  - split; [by eapply work_abort|]. by eapply live_work.
  - split; [|by intros; eapply live_finality].
    apply outcome_bind_Done in Hf as (cand & _ & Hf). destruct cand as [[x el]|]; [|done].
    apply outcome_bind_Done in Hf as (s1 & (y & _ & ->)%set_status_Done & [= <- <-]). by destruct first.
  - split; [done|]. intros Hinv. eapply live_inv_global; try done; try apply Hinv.
    eapply (shaped_update s _ None); try done; [apply Hinv|apply dep_keeps_refl|by left].
  - split; [done|]. intros Hinv. eapply live_inv_global; try done.
    + eapply (shaped_update s _ None); try done; [apply Hinv|apply dep_keeps_refl|by left].
    + unfold view. simpl. apply dep_inv_publish, Hinv.
  - split; [done|]. intros Hinv. destruct (dep_commit_keeps _ _ _ Hd) as [Hk Ha].
    eapply live_inv_global; try done.
    + eapply (shaped_update s _ None); try done; [apply Hinv|]. intros e t. unfold aff. simpl. rewrite Ha. by left.
    + intros j Hj. by destruct (dk_onboard _ _ _ Hk j Hj).
    + unfold view. simpl. eapply dep_inv_commit; [apply Hinv|done].
Qed.

Lemma live_inv_init txs ben anchor k : live_inv (Live_new txs ben anchor k).
Proof.
  assert (Hrep : ∀ w, w ∈ replicate k WIdle → w = WIdle) by (intros w [? _]%elem_of_replicate; done).
  assert (Hom : ∀ {A} (f : Worker → option A), f WIdle = None → omap f (replicate k WIdle) = []).
  { intros A f Hf. induction k as [|k' IH]; simpl; [done|]. rewrite Hf. apply IH. intros w [? _]%elem_of_replicate. done. }
  assert (Hd : TxDependency_new (length txs) = tx_dependency (Sched_new (E:=E) txs ben anchor)) by done.
  split; unfold Live_new; cbn [l_sched l_workers l_lower l_releasing].
  - split; simpl; rewrite ?length_replicate; try done.
    intros e t. unfold aff. simpl. destruct (replicate _ _ !! e) eqn:He; simpl; [|set_solver].
    apply lookup_replicate_1 in He as [-> _]. set_solver.
  - unfold view. cbn [l_sched l_workers l_releasing]. rewrite !Hom by done. apply (dep_inv_init (length txs)).
  - intros t. unfold tx_ok, status_at. simpl. destruct (replicate _ _ !! t) eqn:Ht; [|done].
    apply lookup_replicate_1 in Ht as [-> Ht]. simpl. left. unfold dst. simpl. by rewrite lookup_replicate_2.
  - intros w ->%Hrep. done.
  - rewrite Hom by done. constructor.
  - rewrite Hom by done. constructor.
  - intros i. unfold lower_at, clock. simpl. destruct (replicate _ _ !! i) eqn:Hi; simpl; [|lia].
    apply lookup_replicate_1 in Hi as [-> _]. lia.
  - by left.
  - unfold exact_frontier. simpl. by eapply frontier_inv_reachable.
  - intros t Ht. unfold final_idx in Ht. simpl in Ht. lia.
Qed.

Lemma live_inv_reachable txs ben anchor k L :
  rtc live_step (Live_new txs ben anchor k) L → abort_flag (l_sched L) = false → live_inv L.
Proof.
  intros Hr%rtc_nsteps_1. destruct Hr as [n Hr]. revert L Hr.
  induction n as [|n IH]; intros L Hr Hab.
  - inversion Hr; subst. apply live_inv_init.
  - apply nsteps_inv_r in Hr as (L1 & Hr & Hs). destruct (live_inv_step _ _ Hs Hab) as [Hab1 Hi]. auto.
Qed.

(** No worker appears or disappears. *)
Lemma live_workers L L' : rtc live_step L L' → length (l_workers L') = length (l_workers L).
Proof.
  induction 1 as [|L1 L2 L3 Hs _ IH]; [done|]. rewrite IH. destruct Hs; simpl; rewrite ?length_app; done.
Qed.

End progress.
