(* ===== verification/Liveness.v ===== *)
(** The scheduler does not get stuck (src/src/scheduler.rs).

    From the invariant of Progress.v: a worker that finds every other worker idle gets a task from the loop of
    [next] after finitely many iterations, or leaves a state in which the finality loop or the
    commit loop can go on. *)

From S2P Require Import Prelude Model Reward History World IncarnationDb TxDependency Context Metrics Scheduler Interleave Progress.

(** ** Counting the entries on board *)

Definition onboards (d : TxDependency) : nat := length (filter (λ b, b = true) (onboard <$> dependent_state d)).

Lemma count_insert_false (l : list bool) i :
  l !! i = Some true → S (length (filter (λ b, b = true) (<[i := false]> l))) = length (filter (λ b, b = true) l).
Proof.
  intros Hi. assert (Hlt := lookup_lt_Some _ _ _ Hi).
  rewrite <-(take_drop_middle l i true Hi) at 2. rewrite insert_take_drop by done.
  rewrite !filter_app, !length_app, !filter_cons. rewrite decide_False, decide_True by done. simpl. lia.
Qed.

Lemma next_resolve_total i d :
  i < length (dependent_state d) →
  ∃ r d', next_resolve i d = Done (r, d') ∧ dep_index d' = dep_index d ∧ num_txs d' = num_txs d ∧
    ((r = None ∧ d' = d) ∨ (r = Some i ∧ S (onboards d') = onboards d)).
Proof.
  intros [st Hst]%lookup_lt_is_Some_2. unfold next_resolve, index. rewrite Hst. simpl.
  destruct (onboard st && bool_decide (dependency st = None)) eqn:Hb; [|eauto 10].
  apply andb_true_iff in Hb as [Hon _]. do 2 eexists. split; [done|]. split_and!; [done|done|]. right. split; [done|].
  unfold onboards. simpl. rewrite list_fmap_insert. apply count_insert_false. rewrite list_lookup_fmap, Hst. simpl. by f_equal.
Qed.

(** [remove] without a successor finds every entry and keeps what is on board. *)
Lemma remove_one_total txid tx d :
  tx < length (dependent_state d) →
  ∃ d', remove_one txid false tx (None, d) = Done (None, d') ∧ onboard <$> dependent_state d' = onboard <$> dependent_state d.
Proof.
  intros [st Hst]%lookup_lt_is_Some_2. unfold remove_one, index. rewrite Hst. simpl.
  case_bool_decide; [|eauto]. destruct (onboard st) eqn:Hon; eexists; (split; [done|]); simpl; rewrite list_fmap_insert;
    apply list_insert_id; rewrite list_lookup_fmap, Hst; simpl; by rewrite Hon.
Qed.

Lemma remove_loop_total txid l d :
  (∀ tx, tx ∈ l → tx < length (dependent_state d)) →
  ∃ d', remove_loop txid false l (None, d) = Done (None, d') ∧ onboard <$> dependent_state d' = onboard <$> dependent_state d.
Proof.
  revert d. induction l as [|tx l IH]; intros d Hl; [by exists d|]. cbn [remove_loop].
  destruct (remove_one_total txid tx d) as (d1 & Hone & Hon1); [apply Hl; left|]. rewrite Hone. cbn [outcome_bind].
  assert (Hlen : length (dependent_state d1) = length (dependent_state d)).
  { rewrite <-(length_fmap onboard), Hon1. apply length_fmap. }
  destruct (IH d1) as (d' & Hloop & Hon'); [intros y Hy; rewrite Hlen; apply Hl; by right|].
  exists d'. split; [done|congruence].
Qed.

Lemma remove_total txid d :
  txid < length (affect_txs d) → (∀ tx, tx ∈ aff d txid → tx < length (dependent_state d)) →
  ∃ d', TxDependency.remove txid false d = Done (None, d') ∧ onboards d' = onboards d.
Proof.
  intros [a Ha]%lookup_lt_is_Some_2 Hin. unfold TxDependency.remove, index. rewrite Ha. cbn [outcome_bind].
  case_decide; [by exists d|].
  destruct (remove_loop_total txid (elements a) d) as (d' & Hloop & Hon).
  { intros tx Htx%elem_of_elements. apply Hin. unfold aff. by rewrite Ha. }
  rewrite Hloop. cbn [outcome_bind]. eexists. split; [done|]. unfold onboards. simpl. by rewrite Hon.
Qed.

Section liveness.
Context `{!Revm} {E : Type}.
Abbreviation Sched := (Scheduler.Sched E).
Abbreviation Worker := (Progress.Worker (E:=E)).
Implicit Types (s : Sched) (ws : list Worker).

Definition idle ws : Prop := ∀ w, w ∈ ws → w = WIdle.

Lemma idle_omap {A} (f : Worker → option A) ws : f WIdle = None → idle ws → omap f ws = [].
Proof.
  intros Hf. induction ws as [|w ws IH]; intros Hi; [done|]. simpl. rewrite (Hi w), Hf by left. apply IH.
  intros x Hx. apply Hi. by right.
Qed.

(** What the loop of [next] does not touch. *)
Definition same_place s s' : Prop :=
  block_size s' = block_size s ∧ abort_flag s' = abort_flag s ∧ final_idx s' = final_idx s ∧
  committed (scheduler_ctx s') = committed (scheduler_ctx s) ∧ num_txs (tx_dependency s') = num_txs (tx_dependency s).

Lemma frontier_le_size s : shaped s → exact_frontier s → frontier (execution_frontier (scheduler_ctx s)) ≤ block_size s.
Proof.
  intros Hsh [Hb _ _]. simpl in Hb. destruct (decide (frontier (execution_frontier (scheduler_ctx s)) ≤ block_size s)); [done|].
  assert (Hx : is_executed (execution_frontier (scheduler_ctx s)) (block_size s) = true) by (apply Hb; lia).
  apply is_executed_lt in Hx. rewrite (sh_flags _ Hsh) in Hx. lia.
Qed.

Lemma next_validation_idle s ws fl rel :
  live_inv (mkLive s (WIdle :: ws) fl rel) → idle ws →
  ∃ task s1, next_validation s = Done (task, s1) ∧ live_inv (mkLive s1 (after_task task :: ws) fl rel) ∧
    same_place s s1 ∧ tx_dependency s1 = tx_dependency s ∧
    (task = None →
      (s1 = s ∧ Nat.min (dep_index (tx_dependency s)) (frontier (execution_frontier (scheduler_ctx s))) ≤ validation (scheduler_ctx s)) ∨
      (validation (scheduler_ctx s) < validation (scheduler_ctx s1) ≤ block_size s)).
Proof.
  intros Hinv Hidle. pose proof (li_frontier _ Hinv) as Hfr. pose proof (li_shape _ Hinv) as Hsh. cbn [l_sched] in *.
  assert (Hle := frontier_le_size s Hsh Hfr).
  unfold next_validation. destruct (next_validation_idx (dep_index (tx_dependency s)) (scheduler_ctx s)) as [r c] eqn:Hr.
  assert (Hinv1 := live_claim_validation [] ws fl rel s _ r c Hinv Hr). simpl in Hinv1.
  unfold next_validation_idx in Hr. rewrite ctx_frontier_exact in Hr by done. unfold claim_before in Hr.
  case_decide as Hlim; injection Hr as <- <-.
  - exists None, s. assert (Heta : set_ctx (mkContext (ctx_num_txs (scheduler_ctx s)) (validation (scheduler_ctx s))
      (finality (scheduler_ctx s)) (committed (scheduler_ctx s)) (execution_frontier (scheduler_ctx s))
      (validation_resets (scheduler_ctx s)) (logical_clock (scheduler_ctx s)) (lower_timestamps (scheduler_ctx s))
      (unconfirmed_timestamps (scheduler_ctx s))) s = s) by (destruct s as [? ? ? ? ? ? [] ? ? ? ? ? ?]; done).
    rewrite Heta. split_and!; [done|done|by split_and!|done|]. intros _. left. split; [done|lia].
  - set (i := validation (scheduler_ctx s)) in *. set (s1 := set_ctx _ s) in *.
    destruct (lookup_lt_is_Some_2 (tx_states s1) i) as [x Hx].
    { simpl. rewrite (sh_states _ Hsh). lia. }
    destruct (validation_task i s1) as [[task s2]|] eqn:Ht.
    2:{ exfalso. unfold validation_task, index in Ht. rewrite Hx in Ht. simpl in Ht. by destruct (status x). }
    exists task, s2. split; [done|].
    assert (Hu : unlocked (WValidation i :: ws) i).
    { unfold unlocked. simpl. rewrite idle_omap by done. apply not_elem_of_nil. }
    assert (Hinv2 := live_validation_task [] ws fl rel s1 i task s2 Hinv1 Hu Ht).
    split; [exact Hinv2|]. unfold validation_task, index in Ht. rewrite Hx in Ht. simpl in Ht.
    assert (Hs2 : scheduler_ctx s2 = scheduler_ctx s1 ∧ tx_dependency s2 = tx_dependency s1 ∧ block_size s2 = block_size s1 ∧
      abort_flag s2 = abort_flag s1) by (destruct (status x); injection Ht as <- <-; done).
    destruct Hs2 as (Hc & Hd & Hz & Ha). unfold same_place, final_idx. rewrite Hc, Hd, Hz, Ha.
    split_and!; try done. intros _. right. simpl. lia.
Qed.

Lemma next_execution_idle s ws fl rel :
  live_inv (mkLive s (WIdle :: ws) fl rel) → idle ws →
  ∃ task s1, next_execution s = Done (task, s1) ∧ live_inv (mkLive s1 (after_task task :: ws) fl rel) ∧
    same_place s s1 ∧ (task = None → scheduler_ctx s1 = scheduler_ctx s ∧
      ((s1 = s ∧ block_size s ≤ dep_index (tx_dependency s)) ∨
       onboards (tx_dependency s1) < onboards (tx_dependency s) ∨
       onboards (tx_dependency s1) = onboards (tx_dependency s) ∧
         dep_index (tx_dependency s) < dep_index (tx_dependency s1) ≤ block_size s)).
Proof.
  intros Hinv Hidle. pose proof (li_shape _ Hinv) as Hsh. pose proof (li_dep _ Hinv) as Hdep. cbn [l_sched] in *.
  assert (Hn : length (dependent_state (tx_dependency s)) = block_size s).
  { rewrite <-(sh_num _ Hsh). apply (di_states _ Hdep). }
  unfold next_execution, TxDependency.next. case_decide as Hend.
  { exists None, s. assert (Heta : set_tx_dependency (tx_dependency s) s = s) by (by destruct s).
    cbn [outcome_bind]. rewrite Heta. split_and!; [done|done|by split_and!|]. intros _. split; [done|]. left.
    split; [done|]. by rewrite (sh_num _ Hsh) in Hend. }
  unfold next_claim. rewrite decide_False by done. set (i := dep_index (tx_dependency s)).
  set (d1 := set_dep_index (S i) (tx_dependency s)).
  assert (Hi : i < block_size s) by (rewrite (sh_num _ Hsh) in Hend; unfold i; lia).
  assert (Hinv1 := live_take [] ws fl rel s (Some i) d1 Hinv).
  specialize (Hinv1 ltac:(unfold next_claim; by rewrite decide_False)). simpl in Hinv1.
  destruct (next_resolve_total i d1) as (r & d2 & Hr & Hdi & Hnum & Hcase); [simpl; lia|]. rewrite Hr. cbn [outcome_bind].
  assert (Hinv2 := live_resolve [] ws fl rel (set_tx_dependency d1 s) i r d2 Hinv1 Hr). simpl in Hinv2.
  assert (Hs2 : set_tx_dependency d2 (set_tx_dependency d1 s) = set_tx_dependency d2 s) by done. rewrite Hs2 in Hinv2.
  destruct Hcase as [[-> ->]|[-> Hcount]].
  { exists None, (set_tx_dependency d1 s). split_and!; [done|done|by split_and!|]. intros _. split; [done|].
    right. right. simpl. split; [done|]. lia. }
  set (s2 := set_tx_dependency d2 s) in *.
  assert (Hu : unlocked (WExecTask i :: ws) i).
  { unfold unlocked. simpl. rewrite idle_omap by done. apply not_elem_of_nil. }
  destruct (lookup_lt_is_Some_2 (tx_states s2) i) as [x Hx]; [simpl; rewrite (sh_states _ Hsh); lia|].
  pose proof (li_tx _ Hinv2 i) as Htx. unfold tx_ok, status_at in Htx. cbn [l_sched l_workers] in Htx.
  change (tx_states s) with (tx_states s2) in Htx. rewrite Hx in Htx. simpl in Htx.
  assert (Hex : status x ≠ Executing).
  { intros Hst. rewrite Hst in Htx. rewrite idle_omap in Htx by done. by apply not_elem_of_nil in Htx. }
  pose proof (li_shape _ Hinv2) as Hsh2. pose proof (li_dep _ Hinv2) as Hdep2. cbn [l_sched] in Hsh2.
  assert (Hrm : ∃ d3, TxDependency.remove i false d2 = Done (None, d3) ∧ onboards d3 = onboards d2).
  { apply remove_total.
    - pose proof (di_affects _ Hdep2) as Hlen. simpl in Hlen. rewrite Hlen, Hnum. simpl. rewrite (sh_num _ Hsh). done.
    - intros t Ht. apply (sh_affects _ Hsh2) in Ht. simpl in Ht.
      pose proof (di_states _ Hdep2) as Hlen. simpl in Hlen. rewrite Hlen, Hnum. simpl. by rewrite (sh_num _ Hsh). }
  destruct Hrm as (d3 & Hrm & Hon3).
  assert (Hn3 : num_txs d3 = num_txs d2) by (by apply remove_keeps in Hrm as [[] _]).
  destruct (execution_task i s2) as [[task s3]|] eqn:Ht.
  2:{ exfalso. unfold execution_task, index in Ht. rewrite Hx in Ht. simpl in Ht. rewrite Hrm in Ht. by destruct (status x). }
  exists task, s3. split; [done|]. split; [by eapply (live_execution_task [])|].
  unfold execution_task, index in Ht. rewrite Hx in Ht. simpl in Ht. rewrite Hrm in Ht.
  destruct (status x); try done; injection Ht as <- <-;
    (split; [unfold same_place; simpl; rewrite ?Hn3, ?Hnum; by split_and!|]); try done;
    intros _; (split; [done|]); right; left; simpl; rewrite Hon3; change (onboards (tx_dependency s)) with (onboards d1); lia.
Qed.

(** ** The loop of [next] *)

Definition remaining s : nat :=
  onboards (tx_dependency s) * (2 * block_size s + 1) +
  ((block_size s - dep_index (tx_dependency s)) + (block_size s - validation (scheduler_ctx s))).

(** A worker that looks for work and finds nothing to change. *)
Definition quiet s : Prop :=
  block_size s ≤ dep_index (tx_dependency s) ∧
  Nat.min (dep_index (tx_dependency s)) (frontier (execution_frontier (scheduler_ctx s))) ≤ validation (scheduler_ctx s).

Lemma not_finished s :
  shaped s → abort_flag s = false → final_idx s < block_size s → finished (scheduler_ctx s) || abort_flag s = false.
Proof.
  intros Hsh -> Hfin. rewrite orb_false_r. unfold finished. apply bool_decide_eq_false_2.
  rewrite (sh_ctx _ Hsh). unfold final_idx in Hfin. lia.
Qed.

Lemma next_iteration_idle s ws fl rel :
  live_inv (mkLive s (WIdle :: ws) fl rel) → idle ws → abort_flag s = false → final_idx s < block_size s →
  ∃ task s', next_iteration s = Done (task, s') ∧
    (task = None → live_inv (mkLive s' (WIdle :: ws) fl rel) ∧ same_place s s' ∧
      ((s' = s ∧ quiet s) ∨ remaining s' < remaining s)).
Proof.
  intros Hinv Hidle Hab Hfin. unfold next_iteration.
  assert (Hgo := not_finished s (li_shape _ Hinv) Hab Hfin).
  rewrite Hgo.
  assert (Hss : ∃ b, should_schedule (dep_index (tx_dependency s)) (scheduler_ctx s) = (b, scheduler_ctx s)).
  { unfold should_schedule. case_decide; [rewrite ctx_frontier_exact by apply Hinv|]; eauto. }
  destruct Hss as [b ->]. assert (Heta : set_ctx (scheduler_ctx s) s = s) by (by destruct s). rewrite Heta.
  destruct (next_validation_idle s ws fl rel Hinv Hidle) as (task & s1 & Hv & Hinv1 & Hpl1 & Hd1 & Hcase1).
  rewrite Hv. cbn [outcome_bind]. destruct task as [task|]; [by exists (Some task), s1|].
  destruct (next_execution_idle s1 ws fl rel Hinv1 Hidle) as (task & s2 & He & Hinv2 & Hpl2 & Hcase2).
  exists task, s2. split; [done|]. intros ->. specialize (Hcase1 eq_refl). destruct (Hcase2 eq_refl) as [Hc2 Hcase].
  split; [done|]. destruct Hpl1 as (? & ? & ? & ? & ?), Hpl2 as (? & ? & ? & ? & ?).
  split; [split_and!; congruence|].
  assert (Hz : block_size s2 = block_size s) by congruence. unfold remaining. rewrite Hz, Hc2. rewrite Hd1 in Hcase.
  destruct Hcase1 as [[-> Hq]|Hlt].
  - destruct Hcase as [[-> ?]|[Hlt|[-> Hlt]]]; [left; by split_and!|right; nia|right; lia].
  - right. rewrite <-Hd1 in *. assert (Hbs : block_size s1 = block_size s) by done.
    destruct Hcase as [[-> ?]|[Hlt'|[-> Hlt']]]; [lia|nia|lia].
Qed.

Lemma next_loop_idle s ws fl rel :
  live_inv (mkLive s (WIdle :: ws) fl rel) → idle ws → abort_flag s = false → final_idx s < block_size s →
  ∃ fuel r s', next_loop fuel s = Done (r, s') ∧
    ((∃ task, r = Some (Some task)) ∨
     (r = None ∧ next_iteration s' = Done (None, s') ∧ quiet s' ∧ same_place s s' ∧ live_inv (mkLive s' (WIdle :: ws) fl rel))).
Proof.
  remember (remaining s) as m eqn:Hm. revert s Hm. induction m as [m IH] using lt_wf_ind. intros s -> Hinv Hidle Hab Hfin.
  destruct (next_iteration_idle s ws fl rel Hinv Hidle Hab Hfin) as (task & s1 & Hit & Hnone).
  assert (Hgo := not_finished s (li_shape _ Hinv) Hab Hfin).
  destruct task as [task|].
  { exists 1, (Some (Some task)), s1. simpl. rewrite Hgo, Hit. split; [done|]. left. eauto. }
  destruct (Hnone eq_refl) as (Hinv1 & Hpl & [[-> Hq]|Hlt]).
  { exists 0, None, s. split; [done|]. right. by split_and!. }
  destruct Hpl as (Hz & Ha & Hf & Hc & Hn).
  destruct (IH (remaining s1) Hlt s1 eq_refl Hinv1 Hidle) as (fuel & r & s' & Hloop & Hcase); [congruence|congruence|].
  exists (S fuel), r, s'. simpl. rewrite Hgo, Hit. split; [done|].
  destruct Hcase as [?|(? & ? & ? & (? & ? & ? & ? & ?) & ?)]; [by left|]. right. split_and!; try done. split_and!; congruence.
Qed.

(** ** The other threads *)

Lemma quiet_progress s ws fl :
  live_inv (mkLive s (WIdle :: ws) fl None) → idle ws → quiet s → final_idx s < block_size s →
  committed (scheduler_ctx s) < final_idx s ∨
  ∃ fl' s', finality_iteration (final_idx s) fl true s = Done (Some fl', s').
Proof.
  intros Hinv Hidle [Hdi Hmin] Hfin. pose proof Hinv as [Hsh Hdep Htx Hwk Hlk How Hcl Hlo Hfr Hbel].
  cbn [l_sched l_workers l_lower l_releasing] in *. set (t := final_idx s) in *. specialize (Htx t).
  assert (Hidle' : idle (WIdle :: ws)) by (intros w [->|?]%elem_of_cons; auto).
  assert (Hfl : flagged s t → t < validation (scheduler_ctx s)).
  { intros Ht. destruct (decide (frontier (execution_frontier (scheduler_ctx s)) ≤ t)) as [Hle|]; [|lia].
    exfalso. assert (Hx := exact_at _ Hfr). destruct (decide (frontier (execution_frontier (scheduler_ctx s)) = t)) as [Heq|].
    - rewrite Heq in Hx. unfold flagged in Ht. congruence.
    - assert (flagged s (frontier (execution_frontier (scheduler_ctx s)))) by (apply Hbel; unfold t in *; lia).
      unfold flagged in *. congruence. }
  assert (Hready : ready s (WIdle :: ws) t → committed (scheduler_ctx s) < t).
  { intros [Hon|Hin]; [|by apply Hidle' in Hin].
    destruct (dep_inv_driven _ t Hdep Hon) as (e & He%waits_for_le & Hcase). unfold driving, view in Hcase.
    cbn [ds_dep ds_flight ds_busy ds_removing ds_committed ds_releasing l_sched l_workers l_releasing] in Hcase.
    rewrite !idle_omap in Hcase by done.
    destruct Hcase as [(_ & _ & [?|?%not_elem_of_nil])|[Hb|[(l & Hr & _)|(_ & _ & [?|(k & ? & _)])]]]; try done; try lia.
    simpl in Hb. by apply gmultiset.gmultiset_elem_of_empty in Hb. }
  destruct (lookup_lt_is_Some_2 (tx_states s) t) as [x Hx]; [rewrite (sh_states _ Hsh); lia|].
  unfold tx_ok, status_at in Htx. rewrite Hx in Htx. simpl in Htx.
  destruct (status x) eqn:Hst.
  - left. by apply Hready.
  - rewrite idle_omap in Htx by done. by apply not_elem_of_nil in Htx.
  - exfalso. destruct Htx as [Hf [Ho|Hin]]; [apply Hfl in Hf; lia|by apply Hidle' in Hin].
  - destruct Htx as [_ Htx]. rewrite idle_omap in Htx by done. by apply not_elem_of_nil in Htx.
  - destruct Htx as [Hf [Hfresh|[Ho|Hin]]]; [|apply Hfl in Hf; lia|by apply Hidle' in Hin]. right.
    apply Hfl in Hf.
    destruct (lookup_lt_is_Some_2 (lower_timestamps (scheduler_ctx s)) t) as [lo Hl]; [rewrite (sh_lower _ Hsh); lia|].
    destruct (lookup_lt_is_Some_2 (unconfirmed_timestamps (scheduler_ctx s)) t) as [un Hu]; [rewrite (sh_unconf _ Hsh); lia|].
    assert (Hun : unconf_at s t = un) by (unfold unconf_at; by rewrite Hu). rewrite Hun in Hfresh.
    assert (Hmax : Nat.max fl lo < un).
    { assert (Hlot := Hfresh t ltac:(lia)). unfold lower_at in Hlot. rewrite Hl in Hlot. simpl in Hlot.
      destruct Hlo as [->|(i & Hi & Hfli)]; [lia|]. assert (Hloi := Hfresh i ltac:(lia)). lia. }
    unfold finality_iteration, lock_finality_candidate, set_status, modify_at, index.
    rewrite bool_decide_false by lia. rewrite bool_decide_false by lia. cbn [orb].
    rewrite Hx. cbn [outcome_bind]. rewrite bool_decide_true by done. cbn [negb].
    rewrite Hl, Hu. cbn [outcome_bind]. rewrite decide_True by done. cbn [outcome_bind]. eauto.
  - left. by apply Hready, Htx.
  - exfalso. destruct Htx as [_ ?]. unfold t in *. lia.
Qed.

End liveness.

(** ** Properties *)

(** C4. The scheduler does not get stuck. In every reachable state of the workers, the finality loop and the
    commit loop in which nothing was aborted, the block is not finished and every worker is between
    tasks: the loop of [next] ends with a task after finitely many iterations, or it comes to a state that a further
    iteration does not change, and there the finality loop can finalize the next transaction
    or the commit loop has a final transaction to commit. *)
Theorem scheduler_never_stuck `{!Revm} {E : Type} txs ben anchor k (L : Live (E:=E)) :
  rtc live_step (Live_new txs ben anchor (S k)) L →
  abort_flag (l_sched L) = false → idle (l_workers L) → l_releasing L = None →
  final_idx (l_sched L) < block_size (l_sched L) →
  ∃ fuel r s', next_loop fuel (l_sched L) = Done (r, s') ∧
    ((∃ task, r = Some (Some task)) ∨
     (r = None ∧ next_iteration s' = Done (None, s') ∧
       (committed (scheduler_ctx s') < final_idx s' ∨
        ∃ fl s'', finality_iteration (final_idx s') (l_lower L) true s' = Done (Some fl, s'')))).
Proof.
  intros Hr Hab Hidle Hrel Hfin. assert (Hinv := live_inv_reachable _ _ _ _ _ Hr Hab).
  assert (Hlen : length (l_workers L) = S k).
  { apply live_workers in Hr. rewrite Hr. simpl. by rewrite length_replicate. }
  destruct L as [s [|w ws] fl rel]; [done|]. cbn [l_sched l_workers l_lower l_releasing] in *. subst rel.
  assert (w = WIdle) as -> by (apply Hidle; left). assert (Hidle' : idle ws) by (intros x ?; apply Hidle; by right).
  destruct (next_loop_idle s ws fl None Hinv Hidle' Hab Hfin) as (fuel & r & s' & Hloop & Hcase).
  exists fuel, r, s'. split; [done|]. destruct Hcase as [?|(-> & Hit & Hq & (Hz & _ & Hf & _) & Hinv')]; [by left|].
  right. split_and!; [done|done|]. eapply quiet_progress; try done. congruence.
Qed.

(** ** Witness *)

Section witness.
#[local] Existing Instance revm_example.

(** One worker has executed the first of two transactions, and is looking for work. *)
Definition lv_txs : list TxEnv := [mkTxEnv 1 0 10 (Call 2) 21000 1; mkTxEnv 1 1 10 (Call 2) 21000 1].
Definition lv_execution : IncarnationExecution unit :=
  mkIncarnationExecution (Ok (mkSpeculativeResult (5%Z : ExecutionResult) ∅ None)) (mkIncarnationAccesses ∅ ∅ ∅ false).

Definition lv_done {A B} (b : B) (x : outcome (A * B)) : B := match x with Done (_, y) => y | Panic => b end.
Lemma lv_done_eq {A B} (b : B) (x : outcome (A * B)) a :
  match x with Done (a, _) => Some a | Panic => None end = Some a → x = Done (a, lv_done b x).
Proof. destruct x as [[a' y]|]; [by intros [= ->]|done]. Qed.

Definition lv_0 : Sched unit := Sched_new lv_txs 77 None.
Definition lv_1 : Sched unit := set_tx_dependency (next_claim (tx_dependency lv_0)).2 lv_0.
Definition lv_2 : Sched unit :=
  set_tx_dependency (lv_done (tx_dependency lv_1) (next_resolve 0 (tx_dependency lv_1))) lv_1.
Definition lv_3 : Sched unit := lv_done lv_2 (execution_task 0 lv_2).
Definition lv_4 : Sched unit := lv_done lv_3 (execute_begin (mkTxVersion 0 1) lv_3).
Definition lv_5 : Sched unit := lv_done lv_4 (execute_settle (mkTxVersion 0 1) lv_execution lv_4).
Definition lv_state : Live (E:=unit) := mkLive lv_5 [WIdle] 0 None.

Lemma lv_run : rtc live_step (Live_new lv_txs 77 None 1) lv_state.
Proof.
  apply (rtc_l _ _ (mkLive lv_1 [WFlight 0] 0 None)).
  { apply (ls_worker lv_0 [] WIdle [] 0 None lv_1 (WFlight 0)). exact (wk_take lv_0 _ (Some 0) _ eq_refl). }
  apply (rtc_l _ _ (mkLive lv_2 [WExecTask 0] 0 None)).
  { apply (ls_worker lv_1 [] (WFlight 0) [] 0 None lv_2 (WExecTask 0)).
    apply (wk_resolve lv_1 _ 0 (Some 0)), lv_done_eq. vm_compute. reflexivity. }
  apply (rtc_l _ _ (mkLive lv_3 [WTask (Execution (mkTxVersion 0 1))] 0 None)).
  { apply (ls_worker lv_2 [] (WExecTask 0) [] 0 None lv_3 (WTask (Execution (mkTxVersion 0 1)))).
    apply (wk_execution_task lv_2 _ 0 (Some (Execution (mkTxVersion 0 1))) lv_3); [apply not_elem_of_nil|].
    apply lv_done_eq. vm_compute. reflexivity. }
  apply (rtc_l _ _ (mkLive lv_4 [WRun (mkTxVersion 0 1)] 0 None)).
  { apply (ls_worker lv_3 [] (WTask (Execution (mkTxVersion 0 1))) [] 0 None lv_4 (WRun (mkTxVersion 0 1))).
    apply (wk_begin lv_3 _ (mkTxVersion 0 1) true lv_4); [apply not_elem_of_nil|]. apply lv_done_eq. vm_compute. reflexivity. }
  apply rtc_once, (ls_worker lv_4 [] (WRun (mkTxVersion 0 1)) [] 0 None lv_5 WIdle).
  apply (wk_settle lv_4 _ (mkTxVersion 0 1) lv_execution CReturn lv_5), lv_done_eq. vm_compute. reflexivity.
Qed.

Lemma scheduler_never_stuck_witness :
  validation (scheduler_ctx lv_5) < frontier (execution_frontier (scheduler_ctx lv_5)) ∧
  ∃ fuel r s', next_loop fuel lv_5 = Done (r, s') ∧
    ((∃ task, r = Some (Some task)) ∨
     (r = None ∧ next_iteration s' = Done (None, s') ∧
       (committed (scheduler_ctx s') < final_idx s' ∨
        ∃ fl s'', finality_iteration (final_idx s') 0 true s' = Done (Some fl, s'')))).
Proof.
  split; [vm_compute; lia|].
  apply (scheduler_never_stuck lv_txs 77 None 0 lv_state lv_run); [vm_compute; reflexivity| |reflexivity|vm_compute; lia].
  intros w Hw. by apply list_elem_of_singleton in Hw.
Defined.

End witness.
