(* ===== verification/Finality.v ===== *)
(** Safety of finality (src/src/scheduler.rs): the invariant of the interleaved scheduler.

    Per transaction, [tx_ok] relates its status, its published entries and its recorded reads.
    A validation is taken at a timestamp; [supported] says that its reads are still valid unless
    a rewind has outdated it or a predecessor that is publishing is bound to outdate it. *)

From S2P Require Import Prelude Model Reward History World IncarnationDb TxDependency Context Metrics Scheduler Interleave.

Section finality.
Context `{!Revm} {E : Type}.
Abbreviation Sched := (Scheduler.Sched E).
Abbreviation Sys := (Interleave.Sys (E:=E)).
Implicit Types (s : Sched) (σ : Sys) (t k : TxId).

(** ** Invariant *)

(** No rewind at or below [t] is as recent as [ts]. *)
Definition fresh s (ts : nat) t : Prop := ∀ i, i ≤ t → lower_at s i < ts.

(** Completing this execution rewinds validation. *)
Definition will_rewind s t (x : IncarnationExecution E) : bool :=
  match ie_result x with
  | Ok _ => is_blocked (ie_accesses x) || write_new s t (ia_write_set (ie_accesses x))
  | Err _ => true
  end.

(** Transaction [k] is publishing an execution that will rewind. *)
Definition rewinds σ k : Prop := ∃ v x ps todo,
  phase σ !! k = Some (PPublish v x ps todo) ∧ will_rewind (sch σ) k x = true.
Definition dirty σ t : Prop := ∃ k, k < t ∧ rewinds σ k.

Definition supported σ (ts : nat) t (reads : list (LocationAndType * ReadVersion)) : Prop :=
  fresh (sch σ) ts t → (∀ rd, rd ∈ reads → read_ok (sch σ) t rd) ∨ dirty σ t.

(** The entries of [t] are at the locations of its last result. *)
Definition entries_old s t : Prop :=
  (∀ l e, ent s l t = Some e → in_old s t l) ∧ (∀ l, in_old s t l → is_Some (ent s l t)).
Definition estimates s t : Prop := ∀ l e, ent s l t = Some e → estimate e = true.

(** [t] has no valid execution: its entries and its history are estimates. *)
Definition undone s t (P : nat → Prop) : Prop :=
  entries_old s t ∧ estimates s t ∧ ∃ i, hist_at s t = Some (mkEntryState i Estimate) ∧ P i.

(** The last execution of [t] succeeded and is published. *)
Definition done_ok s t : Prop :=
  (∃ r sr, res_at s t = Some r ∧ execute_result r = Ok sr) ∧ entries_old s t ∧
  ∃ x, hist_at s t = Some x ∧ es_incarnation x = inc_at s t.

Record publishing s t (x : IncarnationExecution E) (ps todo : list (LocationAndType * MemoryValue)) : Prop := {
  pb_fun l y z : (l, y) ∈ ps → (l, z) ∈ ps → y = z;
  pb_todo p : p ∈ todo → p ∈ ps;
  pb_entry l e : ent s l t = Some e →
    (∃ y, (l, y) ∈ ps ∧ e = mkMemoryEntry (inc_at s t) y (is_blocked (ie_accesses x))) ∨
    (estimate e = true ∧ in_old s t l);
  pb_old l : in_old s t l → is_Some (ent s l t);
  pb_done l y : (l, y) ∈ ps →
    (l, y) ∈ todo ∨ ent s l t = Some (mkMemoryEntry (inc_at s t) y (is_blocked (ie_accesses x)));
  pb_set : match ie_result x with
           | Ok _ => ∀ l, l ∈ ia_write_set (ie_accesses x) ↔ ∃ y, (l, y) ∈ ps
           | Err _ => ps = []
           end;
  pb_hist : ∃ i, hist_at s t = Some (mkEntryState i Estimate) ∧ i < inc_at s t
}.

Definition phase_ok σ t : Prop :=
  let s := sch σ in
  match status_at s t, phase σ !! t with
  | Some Initial, None | Some Conflict, None => undone s t (λ i, i ≤ inc_at s t)
  | Some Executing, None => undone s t (λ i, i < inc_at s t)
  | Some Executing, Some (PPublish v x ps todo) => v = mkTxVersion t (inc_at s t) ∧ publishing s t x ps todo
  | Some Executed, None | Some Validating, None => done_ok s t
  | Some Validating, Some (PScan v ts r seen todo c d) =>
      done_ok s t ∧ v = mkTxVersion t (inc_at s t) ∧ res_at s t = Some r ∧
      (∀ rd, rd ∈ map_to_list (tr_read_set r) → rd ∈ seen ∨ rd ∈ todo) ∧
      unconf_at s t < ts < clock s ∧ (c = false → supported σ ts t seen)
  | Some Unconfirmed, None =>
      done_ok s t ∧ ∀ r, res_at s t = Some r → supported σ (unconf_at s t) t (map_to_list (tr_read_set r))
  | Some Finality, None =>
      ∀ r, res_at s t = Some r → is_ok (execute_result r) = true ∧
        ∀ rd, rd ∈ map_to_list (tr_read_set r) → read_ok s t rd
  | None, None => True
  | _, _ => False
  end.

Record sys_inv σ : Prop := {
  si_num : ctx_num_txs (scheduler_ctx (sch σ)) = block_size (sch σ);
  si_states : length (tx_states (sch σ)) = block_size (sch σ);
  si_results : length (tx_results (sch σ)) = block_size (sch σ);
  si_final t : status_at (sch σ) t = Some Finality ↔ t < final_idx (sch σ);
  si_lower i : lower_at (sch σ) i < clock (sch σ);
  si_unconf i : unconf_at (sch σ) i < clock (sch σ);
  si_fin_lower i : i < final_idx (sch σ) → lower_at (sch σ) i ≤ fin_lower σ;
  si_tx t : phase_ok σ t
}.

(** ** Other transactions *)

(** What a step of [k] may do to the transactions after it: outdate their validations, leave
    them waiting for a rewind, or change only entries that were estimates. *)
Definition benign σ σ' k : Prop :=
  (∀ l, ent (sch σ') l k = ent (sch σ) l k ∨ ∃ e, ent (sch σ) l k = Some e ∧ estimate e = true) ∧
  (∀ l, ent (sch σ) l k = None → ent (sch σ') l k = None) ∧
  (hist_at (sch σ') k = hist_at (sch σ) k ∨ ∃ i, hist_at (sch σ) k = Some (mkEntryState i Estimate)) ∧
  ¬ rewinds σ k.

Definition affects σ σ' k : Prop :=
  outdated (sch σ) (sch σ') k ∨ rewinds σ' k ∨ benign σ σ' k.

Lemma rewinds_other σ σ' k j :
  frame k (sch σ) (sch σ') → (∀ j, j ≠ k → phase σ' !! j = phase σ !! j) → j ≠ k →
  rewinds σ j → rewinds σ' j.
Proof.
  intros Hf Hph Hj (v & x & ps & todo & Hp & Hw). exists v, x, ps, todo. rewrite Hph by done. split; [done|].
  unfold will_rewind, write_new, res_at in *. by rewrite (fr_result _ _ _ Hf j Hj).
Qed.

Lemma read_ok_below σ σ' k t rd :
  frame k (sch σ) (sch σ') → t ≤ k → read_ok (sch σ) t rd → read_ok (sch σ') t rd.
Proof.
  intros Hf Ht. apply read_ok_estimates; [apply Hf|..].
  - intros l j Hj. left. apply Hf. lia.
  - intros l j Hj. by rewrite (fr_entry _ _ _ Hf l j) by lia.
  - intros j Hj. left. apply Hf. lia.
Qed.

Lemma read_ok_benign σ σ' k t rd :
  frame k (sch σ) (sch σ') → benign σ σ' k → read_ok (sch σ) t rd → read_ok (sch σ') t rd.
Proof.
  intros Hf (He & Hn & Hh & _). eapply read_ok_estimates; [apply Hf|..].
  - intros l j _. destruct (decide (j = k)) as [->|]; [auto|]. left. by apply Hf.
  - intros l j _. destruct (decide (j = k)) as [->|]; [auto|]. by rewrite (fr_entry _ _ _ Hf).
  - intros j _. destruct (decide (j = k)) as [->|]; [auto|]. left. by apply Hf.
Qed.

Lemma supported_other σ σ' k t ts reads :
  frame k (sch σ) (sch σ') → (∀ j, j ≠ k → phase σ' !! j = phase σ !! j) → t ≠ k →
  ts ≤ clock (sch σ) → (k < t → t < ctx_num_txs (scheduler_ctx (sch σ)) ∧ affects σ σ' k) →
  supported σ ts t reads → supported σ' ts t reads.
Proof.
  intros Hf Hph Ht Hts Haff Hsup Hfresh.
  assert (Hfresh0 : fresh (sch σ) ts t).
  { intros i Hi. eapply Nat.le_lt_trans; [apply (fr_lower_mono _ _ _ Hf)|by apply Hfresh]. }
  destruct (decide (k < t)) as [Hk|Hk].
  - destruct (Haff Hk) as [Hnum [Hout|[Hrw|(He & Hn & Hh & Hnr)]]].
    + destruct (Hout t Hk Hnum) as (i & Hi & Hl). specialize (Hfresh i Hi). lia.
    + right. by exists k.
    + destruct (Hsup Hfresh0) as [Hr|(j & Hj & Hrj)].
      * left. intros rd Hrd. eapply read_ok_benign; [done|by split_and!|by apply Hr].
      * right. exists j. split; [done|]. eapply rewinds_other; [done|done| |done]. by intros ->.
  - destruct (Hsup Hfresh0) as [Hr|(j & Hj & Hrj)].
    + left. intros rd Hrd. eapply read_ok_below; [done|lia|by apply Hr].
    + right. exists j. split; [done|]. eapply rewinds_other; [done|done| |done]. lia.
Qed.

(** The parts of the invariant that only look at the slots of [t]. *)
Record same_slot s s' t : Prop := {
  ss_state : tx_states s' !! t = tx_states s !! t;
  ss_result : res_at s' t = res_at s t;
  ss_entry l : ent s' l t = ent s l t;
  ss_hist : hist_at s' t = hist_at s t
}.

Lemma frame_same_slot k s s' t : frame k s s' → t ≠ k → same_slot s s' t.
Proof.
  intros Hf Ht. split; [by apply Hf| |intros; by apply Hf|by apply Hf].
  unfold res_at. by rewrite (fr_result _ _ _ Hf).
Qed.

Lemma in_old_slot s s' t l : same_slot s s' t → in_old s' t l ↔ in_old s t l.
Proof. intros []. unfold in_old. by rewrite ss_result0. Qed.

Lemma entries_old_slot s s' t : same_slot s s' t → entries_old s t → entries_old s' t.
Proof.
  intros Hs [H1 H2]. split.
  - intros l e. rewrite (ss_entry _ _ _ Hs), (in_old_slot s s') by done. apply H1.
  - intros l. rewrite (ss_entry _ _ _ Hs), (in_old_slot s s') by done. apply H2.
Qed.

Lemma inc_at_slot s s' t : same_slot s s' t → inc_at s' t = inc_at s t.
Proof. intros []. unfold inc_at. by rewrite ss_state0. Qed.

Lemma undone_slot s s' t P : same_slot s s' t → undone s t P → undone s' t P.
Proof.
  intros Hs (Ho & He & Hh). split_and!; [by eapply entries_old_slot| |by rewrite (ss_hist _ _ _ Hs)].
  intros l e. rewrite (ss_entry _ _ _ Hs). apply He.
Qed.

Lemma done_ok_slot s s' t : same_slot s s' t → done_ok s t → done_ok s' t.
Proof.
  intros Hs (Hr & Ho & Hh). split_and!; [by rewrite (ss_result _ _ _ Hs)|by eapply entries_old_slot|].
  by rewrite (ss_hist _ _ _ Hs), (inc_at_slot s s').
Qed.

Lemma publishing_slot s s' t x ps todo :
  same_slot s s' t → publishing s t x ps todo → publishing s' t x ps todo.
Proof.
  intros Hs []. split; try done.
  - intros l e. rewrite (ss_entry _ _ _ Hs), (in_old_slot s s'), (inc_at_slot s s') by done. apply pb_entry0.
  - intros l. rewrite (ss_entry _ _ _ Hs), (in_old_slot s s') by done. apply pb_old0.
  - intros l y. rewrite (ss_entry _ _ _ Hs), (inc_at_slot s s') by done. apply pb_done0.
  - by rewrite (ss_hist _ _ _ Hs), (inc_at_slot s s').
Qed.

Lemma status_lt s t st : status_at s t = Some st → t < length (tx_states s).
Proof.
  unfold status_at. destruct (tx_states s !! t) eqn:Ht; [|done]. intros _. by eapply lookup_lt_Some.
Qed.

(** A step of [k] keeps the invariant of every other transaction. *)
Lemma phase_ok_other σ σ' k t :
  sys_inv σ → frame k (sch σ) (sch σ') → (∀ j, j ≠ k → phase σ' !! j = phase σ !! j) → t ≠ k →
  final_idx (sch σ) ≤ k ∨ benign σ σ' k → affects σ σ' k → phase_ok σ' t.
Proof.
  intros Hinv Hf Hph Ht Hk Haff. assert (Hs := frame_same_slot _ _ _ t Hf Ht).
  assert (Hinc := inc_at_slot _ _ _ Hs). assert (Hp := si_tx _ Hinv t).
  assert (Hlt : ∀ st, status_at (sch σ) t = Some st → k < t →
    t < ctx_num_txs (scheduler_ctx (sch σ)) ∧ affects σ σ' k).
  { intros st Hst%status_lt _. split; [|done]. by rewrite (si_num _ Hinv), <-(si_states _ Hinv). }
  unfold phase_ok in *. rewrite (Hph t Ht).
  assert (status_at (sch σ') t = status_at (sch σ) t) as -> by (unfold status_at; by rewrite (ss_state _ _ _ Hs)).
  destruct (status_at (sch σ) t) as [st|] eqn:Hst; [|done]. specialize (Hlt st eq_refl).
  destruct st; destruct (phase σ !! t) as [[v x ps todo|v ts r seen todo c d]|]; try done; rewrite ?Hinc.
  - by eapply undone_slot.
  - destruct Hp. split; [done|]. by eapply publishing_slot.
  - by eapply undone_slot.
  - by eapply done_ok_slot.
  - destruct Hp as (? & ? & ? & ? & [? ?] & Hsup). split_and!; [by eapply done_ok_slot|done| |done| | |].
    + by rewrite (ss_result _ _ _ Hs).
    + by rewrite (fr_unconf _ _ _ Hf).
    + eapply Nat.lt_le_trans; [done|apply Hf].
    + intros Hc. eapply supported_other; [done|done|done|lia|done|by apply Hsup].
  - by eapply done_ok_slot.
  - destruct Hp as [? Hsup]. split; [by eapply done_ok_slot|]. intros r Hr.
    rewrite (ss_result _ _ _ Hs) in Hr. rewrite (fr_unconf _ _ _ Hf) by done.
    eapply supported_other; [done|done|done| |done|by apply Hsup]. apply Nat.lt_le_incl, (si_unconf _ Hinv).
  - by eapply undone_slot.
  - intros r Hr. rewrite (ss_result _ _ _ Hs) in Hr. destruct (Hp r Hr) as [? Hrd]. split; [done|].
    intros rd Hin. destruct Hk as [Hk|Hk]; [|eapply read_ok_benign; [done|done|by apply Hrd]].
    eapply read_ok_below; [done| |by apply Hrd]. apply (si_final _ Hinv) in Hst. lia.
Qed.

(** The invariant after a step of a transaction that is not final. *)
Lemma sys_inv_of σ σ' k :
  sys_inv σ → frame k (sch σ) (sch σ') → (∀ j, j ≠ k → phase σ' !! j = phase σ !! j) →
  fin_lower σ' = fin_lower σ → status_at (sch σ) k ≠ Some Finality → status_at (sch σ') k ≠ Some Finality →
  unconf_at (sch σ') k < clock (sch σ') → affects σ σ' k → phase_ok σ' k → sys_inv σ'.
Proof.
  intros Hinv Hf Hph Hfl Hst Hst' Hun Haff Hok.
  assert (Hk : final_idx (sch σ) ≤ k).
  { destruct (decide (final_idx (sch σ) ≤ k)); [done|]. destruct Hst. apply (si_final _ Hinv). lia. }
  split.
  - rewrite (fr_num _ _ _ Hf), (fr_size _ _ _ Hf). apply Hinv.
  - rewrite (fr_states_len _ _ _ Hf), (fr_size _ _ _ Hf). apply Hinv.
  - rewrite (fr_results_len _ _ _ Hf), (fr_size _ _ _ Hf). apply Hinv.
  - intros t. rewrite (fr_final _ _ _ Hf). destruct (decide (t = k)) as [->|Ht].
    + split; [done|lia].
    + unfold status_at. rewrite (fr_state _ _ _ Hf) by done. apply (si_final _ Hinv).
  - intros i. apply (fr_lower_clock _ _ _ Hf), (si_lower _ Hinv).
  - intros i. destruct (decide (i = k)) as [->|Hi]; [done|]. rewrite (fr_unconf _ _ _ Hf) by done.
    eapply Nat.lt_le_trans; [apply (si_unconf _ Hinv)|apply Hf].
  - intros i. rewrite (fr_final _ _ _ Hf), Hfl. intros Hi. rewrite (fr_lower_below _ _ _ Hf) by lia.
    by apply (si_fin_lower _ Hinv).
  - intros t. destruct (decide (t = k)) as [->|Ht]; [done|]. eapply phase_ok_other; eauto.
Qed.

(** States with the same content satisfy the same invariant. *)
Lemma phase_ok_ext s s' ph fl fl' t :
  tx_states s' = tx_states s → tx_results s' = tx_results s → mv_memory s' = mv_memory s →
  beneficiary s' = beneficiary s → clock s' = clock s →
  lower_timestamps (scheduler_ctx s') = lower_timestamps (scheduler_ctx s) →
  unconfirmed_timestamps (scheduler_ctx s') = unconfirmed_timestamps (scheduler_ctx s) →
  phase_ok (mkSys s ph fl) t → phase_ok (mkSys s' ph fl') t.
Proof.
  destruct s as [? ? ? ? ? ? [] ? ? ? ? ? ?], s' as [? ? ? ? ? ? [] ? ? ? ? ? ?].
  unfold clock. simpl. intros ??????? Hok. subst.
  unfold phase_ok, status_at in *. simpl in *. destruct (_ <$> _) as [[]|], (ph !! t) as [[]|]; try exact Hok.
  destruct Hok. split; [done|]. by eapply publishing_slot; [|done].
Qed.

Lemma sys_inv_core s s' ph fl : same_core s s' → sys_inv (mkSys s ph fl) → sys_inv (mkSys s' ph fl).
Proof.
  intros [H1' _ _ H2' H3' H4' H5' H6' _ H7' H8' H9' H10'] [I1 I2 I3 I4 I5 I6 I7 I8].
  split; simpl in *; unfold status_at, lower_at, unconf_at, clock, final_idx in *.
  - congruence.
  - congruence.
  - congruence.
  - intros t. rewrite H2', H7'. apply I4.
  - intros i. rewrite H9', H8'. apply I5.
  - intros i. rewrite H10', H8'. apply I6.
  - intros i. rewrite H7', H9'. apply I7.
  - intros t. by eapply phase_ok_ext, I8.
Qed.

Lemma sys_inv_commit s ph fl i :
  sys_inv (mkSys s ph fl) → sys_inv (mkSys (set_ctx (publish_commit i (scheduler_ctx s)) s) ph fl).
Proof. intros [I1 I2 I3 I4 I5 I6 I7 I8]. split; try done. intros t. by eapply phase_ok_ext, I8. Qed.

(** Only the worker of [k] sees its own phase. *)
Lemma not_rewinds_None σ k : phase σ !! k = None → ¬ rewinds σ k.
Proof. intros Hk (v & x & ps & todo & Hp & _). congruence. Qed.

Lemma not_rewinds_scan σ k v ts r seen todo c d : phase σ !! k = Some (PScan v ts r seen todo c d) → ¬ rewinds σ k.
Proof. intros Hk (? & ? & ? & ? & Hp & _). congruence. Qed.

Lemma benign_same σ σ' k :
  (∀ l, ent (sch σ') l k = ent (sch σ) l k) → hist_at (sch σ') k = hist_at (sch σ) k → ¬ rewinds σ k → benign σ σ' k.
Proof. intros He Hh Hr. split_and!; [by left|intros l; by rewrite He|by left|done]. Qed.

(** ** Execution steps *)

Lemma execute_begin_true v s s1 :
  execute_begin v s = Done (true, s1) →
  same_core s s1 ∧ status_at s (txid v) = Some Executing ∧ v = mkTxVersion (txid v) (inc_at s (txid v)).
Proof.
  intros (x & Hx%index_Done & Hrest)%outcome_bind_Done. unfold status_at, inc_at. rewrite Hx. simpl.
  case_bool_decide as Hst; [|done]. case_bool_decide as Hi; [|done]. injection Hrest as <-.
  split_and!; [apply same_core_metrics|by rewrite Hst|]. destruct v. simpl in *. congruence.
Qed.

Lemma start_publishing s t x ps :
  undone s t (λ i, i < inc_at s t) → (∀ l y z, (l, y) ∈ ps → (l, z) ∈ ps → y = z) →
  match ie_result x with
  | Ok _ => ∀ l, l ∈ ia_write_set (ie_accesses x) ↔ ∃ y, (l, y) ∈ ps
  | Err _ => ps = []
  end → publishing s t x ps ps.
Proof.
  intros ([Ho1 Ho2] & He & i & Hi & Hlt) Hfun Hset. split; try done; [|by left|eauto].
  intros l e Hl. right. eauto.
Qed.

Lemma sys_inv_start s ph fl t v x ps s1 :
  sys_inv (mkSys s ph fl) → ph !! t = None → t = txid v → execute_begin v s = Done (true, s1) →
  (∀ l y z, (l, y) ∈ ps → (l, z) ∈ ps → y = z) →
  match ie_result x with
  | Ok _ => ∀ l, l ∈ ia_write_set (ie_accesses x) ↔ ∃ y, (l, y) ∈ ps
  | Err _ => ps = []
  end → sys_inv (mkSys s1 (<[t := PPublish v x ps ps]> ph) fl).
Proof.
  intros Hinv Hph -> (Hcore & Hst & Hv)%execute_begin_true Hfun Hset.
  apply (sys_inv_core _ _ _ _ Hcore) in Hinv as Hinv1. clear Hinv.
  assert (Hst1 : status_at s1 (txid v) = Some Executing) by (unfold status_at; by rewrite (sc_states _ _ Hcore)).
  assert (Hv1 : v = mkTxVersion (txid v) (inc_at s1 (txid v))) by (unfold inc_at; by rewrite (sc_states _ _ Hcore)).
  apply (sys_inv_of (mkSys s1 ph fl) _ (txid v)); simpl; [done|apply frame_refl| |done|congruence|congruence|apply Hinv1| |].
  - intros j Hj. by rewrite lookup_insert_ne.
  - right; right. apply benign_same; [done|done|by apply not_rewinds_None].
  - pose proof (si_tx _ Hinv1 (txid v)) as Hok. unfold phase_ok in *. simpl in *.
    rewrite Hst1, Hph in Hok. rewrite Hst1, lookup_insert_eq. split; [done|]. by apply start_publishing.
Qed.

(** The phase of a transaction determines its status. *)
Lemma publishing_status σ t v x ps todo :
  sys_inv σ → phase σ !! t = Some (PPublish v x ps todo) →
  status_at (sch σ) t = Some Executing ∧ v = mkTxVersion t (inc_at (sch σ) t) ∧ publishing (sch σ) t x ps todo.
Proof.
  intros Hinv Hph. pose proof (si_tx _ Hinv t) as Hok. unfold phase_ok in Hok. rewrite Hph in Hok.
  destruct (status_at (sch σ) t) as [[]|]; done || naive_solver.
Qed.

Lemma scanning_status σ t v ts r seen todo c d :
  sys_inv σ → phase σ !! t = Some (PScan v ts r seen todo c d) →
  status_at (sch σ) t = Some Validating ∧ done_ok (sch σ) t ∧ v = mkTxVersion t (inc_at (sch σ) t) ∧
  res_at (sch σ) t = Some r ∧ (∀ rd, rd ∈ map_to_list (tr_read_set r) → rd ∈ seen ∨ rd ∈ todo) ∧
  unconf_at (sch σ) t < ts < clock (sch σ) ∧ (c = false → supported σ ts t seen).
Proof.
  intros Hinv Hph. pose proof (si_tx _ Hinv t) as Hok. unfold phase_ok in Hok. rewrite Hph in Hok.
  destruct (status_at (sch σ) t) as [[]|]; done || naive_solver.
Qed.

(** Without new locations, an execution rewrites entries that were there. *)
Lemma no_rewind_old s t x l :
  will_rewind s t x = false → l ∈ ia_write_set (ie_accesses x) →
  is_ok (ie_result x) = true ∧ is_blocked (ie_accesses x) = false ∧ in_old s t l.
Proof.
  unfold will_rewind, write_new, in_old. destruct (ie_result x); [|done].
  intros [? Hw]%orb_false_iff Hl. split_and!; [done|done|]. destruct (res_at s t) as [r|]; [|done].
  exists r. split; [done|]. case_bool_decide as Hsub; [done|]. auto.
Qed.

Lemma ent_publish v l val est s l' t :
  ent (set_mv_memory (publish_value v l val est (∅, mv_memory s)).2 s) l' t =
  if decide (l' = l ∧ t = txid v) then Some (mkMemoryEntry (tv_incarnation v) val est) else ent s l' t.
Proof. apply mv_entry_publish. Qed.

Lemma publishing_step s t x ps l val todo :
  publishing s t x ps ((l, val) :: todo) →
  publishing (set_mv_memory (publish_value (mkTxVersion t (inc_at s t)) l val (is_blocked (ie_accesses x)) (∅, mv_memory s)).2 s)
    t x ps todo.
Proof.
  intros [Hfun Htodo He Hold Hdone Hset Hh]. set (s' := set_mv_memory _ s).
  assert (Hent : ∀ l', ent s' l' t = if decide (l' = l) then
    Some (mkMemoryEntry (inc_at s t) val (is_blocked (ie_accesses x))) else ent s l' t).
  { intros l'. unfold s'. rewrite ent_publish. simpl. repeat case_decide; naive_solver. }
  split; try done; try (change (inc_at s' t) with (inc_at s t)).
  - intros p Hp. apply Htodo. by right.
  - intros l' e. rewrite Hent. case_decide as Hl; [|by apply He]. subst. intros [= <-]. left.
    exists val. split; [|done]. apply Htodo. left.
  - intros l' Hl'. rewrite Hent. case_decide; [done|]. by apply Hold.
  - intros l' y Hy. rewrite Hent. case_decide as Hl.
    + subst. right. rewrite (Hfun l y val); [done|done|]. apply Htodo. left.
    + destruct (Hdone l' y Hy) as [[?|?]%elem_of_cons|?]; [naive_solver|by left|by right].
Qed.

Lemma sys_inv_publish s ph fl t v x ps l val todo :
  sys_inv (mkSys s ph fl) → ph !! t = Some (PPublish v x ps ((l, val) :: todo)) →
  sys_inv (mkSys (set_mv_memory (publish_value v l val (is_blocked (ie_accesses x)) (∅, mv_memory s)).2 s)
    (<[t := PPublish v x ps todo]> ph) fl).
Proof.
  intros Hinv Hph. destruct (publishing_status (mkSys s ph fl) _ _ _ _ _ Hinv Hph) as (Hst & -> & Hpub). cbn [sch phase fin_lower] in *.
  set (s' := set_mv_memory _ s). assert (Hst' : status_at s' t = Some Executing) by done.
  apply (sys_inv_of (mkSys s ph fl) _ t); cbn [sch phase fin_lower]; [done| | |done|congruence|congruence|apply Hinv| |].
  - apply frame_memory. intros l' j Hj. etrans; [apply (ent_publish (mkTxVersion t (inc_at s t)) l val (is_blocked (ie_accesses x)) s)|].
    cbn [txid]. by rewrite decide_False by naive_solver.
  - intros j Hj. by rewrite lookup_insert_ne.
  - destruct (will_rewind s t x) eqn:Hw.
    { right; left. eexists _, _, _, _. simpl. rewrite lookup_insert_eq. split; [done|]. done. }
    right; right. assert (Hnr : ¬ rewinds (mkSys s ph fl) t).
    { intros (? & ? & ? & ? & Hp & Hw'). simpl in *. rewrite Hph in Hp. injection Hp as <- <- <- <-. congruence. }
    assert (Hin : (l, val) ∈ ps) by (apply Hpub; left).
    assert (Hl : is_Some (ent s l t) ∧ is_ok (ie_result x) = true).
    { pose proof (pb_set _ _ _ _ _ Hpub) as Hset. destruct (ie_result x) eqn:Hr; [|by rewrite Hset in Hin; set_solver].
      destruct (no_rewind_old s t x l Hw) as (? & ? & Ho); [apply Hset; eauto|]. split; [by apply Hpub|done]. }
    destruct Hl as [[e He] _].
    split_and!; [| |by left|done]; cbn [sch]; intros l'; unfold s'; rewrite ent_publish; cbn [txid tv_incarnation]; case_decide as Hd; try by left.
    + destruct Hd as [-> _]. destruct (pb_entry _ _ _ _ _ Hpub l e He) as [(y & Hy & ->)|[? _]]; [left|eauto].
      by rewrite He, (pb_fun _ _ _ _ _ Hpub l val y).
    + destruct Hd as [-> _]. congruence.
    + done.
  - unfold phase_ok. simpl. rewrite Hst', lookup_insert_eq. split; [done|]. by apply publishing_step.
Qed.

(** The entries after a successful execution. *)
Lemma settled_entries s s' t x ps (ws : gset LocationAndType) :
  publishing s t x ps [] → (∀ l, l ∈ ws ↔ ∃ y, (l, y) ∈ ps) → (∀ l, in_old s' t l ↔ l ∈ ws) →
  (∀ l, ent s' l t = if decide (in_old s t l ∧ l ∉ ws) then None else ent s l t) →
  entries_old s' t ∧ (is_blocked (ie_accesses x) = true → estimates s' t).
Proof.
  intros Hpub Hset Hold Hent. split; [split|].
  - intros l e. rewrite Hent. case_decide as Hd; [done|]. intros He. apply Hold.
    destruct (pb_entry _ _ _ _ _ Hpub l e He) as [(y & Hy & _)|[_ Ho]]; [apply Hset; eauto|].
    destruct (decide (l ∈ ws)); [done|]. by destruct Hd.
  - intros l Hl%Hold. rewrite Hent, decide_False by naive_solver. apply Hset in Hl as [y Hy].
    destruct (pb_done _ _ _ _ _ Hpub l y Hy) as [?%not_elem_of_nil| ->]; [done|]. by eexists.
  - intros Hb l e. rewrite Hent. case_decide; [done|]. intros He.
    destruct (pb_entry _ _ _ _ _ Hpub l e He) as [(y & _ & ->)|[? _]]; done.
Qed.

Lemma publishing_recordable s t x ps todo :
  publishing s t x ps todo → recordable s t (inc_at s t).
Proof. intros Hp y Hy. destruct (pb_hist _ _ _ _ _ Hp) as (i & Hi & ?). by simplify_eq/=. Qed.

Lemma sys_inv_settle_ok s ph fl t v sr a ps c s' :
  sys_inv (mkSys s ph fl) → ph !! t = Some (PPublish v (mkIncarnationExecution (Ok sr) a) ps []) →
  execute_settle v (mkIncarnationExecution (Ok sr) a) s = Done (c, s') → sys_inv (mkSys s' (delete t ph) fl).
Proof.
  intros Hinv Hph Hset.
  destruct (publishing_status (mkSys s ph fl) _ _ _ _ _ Hinv Hph) as (Hst & -> & Hpub). cbn [sch phase fin_lower] in *.
  apply execute_settle_ok_effect in Hset as (Hf & Hi & Hu & Hr & He & (y & Hy & Hye & _) & Hst' & Hout);
    [|by eapply publishing_recordable]. cbn [txid tv_incarnation] in *.
  pose proof (pb_set _ _ _ _ _ Hpub) as Hws. cbn [ie_result ie_accesses] in Hws.
  assert (Hold' : ∀ l, in_old s' t l ↔ l ∈ ia_write_set a) by (intros l; by rewrite (in_old_iff _ _ _ _ Hr)).
  destruct (settled_entries _ _ _ _ _ _ Hpub Hws Hold' He) as [Hent Hest]. cbn [ie_accesses] in Hest.
  apply (sys_inv_of (mkSys s ph fl) _ t); cbn [sch phase fin_lower]; [done|done| |done|congruence| | | |].
  - intros j Hj. by rewrite lookup_delete_ne.
  - destruct (is_blocked a); [congruence|]. destruct Hst' as [->| ->]; done.
  - rewrite Hu. eapply Nat.lt_le_trans; [apply (si_unconf _ Hinv)|apply Hf].
  - destruct (is_blocked a || write_new s t (ia_write_set a)) eqn:Hw; [left; by apply Hout|right; right].
    split_and!; cbn [sch]; [| | |].
    + intros l. rewrite He. case_decide as Hd; [|by left]. destruct Hd as [Ho Hn]. right.
      destruct (pb_old _ _ _ _ _ Hpub l Ho) as [e Hel]. exists e. split; [done|].
      destruct (pb_entry _ _ _ _ _ Hpub l e Hel) as [(z & Hz & _)|[? _]]; [|done].
      destruct Hn. apply Hws. eauto.
    + intros l Hl. rewrite He. by case_decide.
    + right. destruct (pb_hist _ _ _ _ _ Hpub) as (i & ? & _). eauto.
    + intros (? & ? & ? & ? & Hp & Hw'). cbn [sch phase] in *. rewrite Hph in Hp. injection Hp as <- <- <- <-.
      unfold will_rewind in Hw'. cbn [ie_result ie_accesses] in Hw'. congruence.
  - unfold phase_ok. cbn [sch phase]. rewrite lookup_delete_eq.
    assert (Hdone : done_ok s' t).
    { split_and!; [eauto|done|]. exists (mkEntryState (inc_at s t) y). by rewrite Hi. }
    destruct (is_blocked a) eqn:Hbl.
    + rewrite Hst'. split_and!; [done|by apply Hest|]. exists (inc_at s t). rewrite Hy, Hi, Hye by done. split; [done|lia].
    + destruct Hst' as [->| ->]; done.
Qed.

Lemma sys_inv_settle_err s ph fl t v e a ps c s' :
  sys_inv (mkSys s ph fl) → ph !! t = Some (PPublish v (mkIncarnationExecution (Err e) a) ps []) →
  execute_settle v (mkIncarnationExecution (Err e) a) s = Done (c, s') → sys_inv (mkSys s' (delete t ph) fl).
Proof.
  intros Hinv Hph Hset.
  destruct (publishing_status (mkSys s ph fl) _ _ _ _ _ Hinv Hph) as (Hst & -> & Hpub). cbn [sch phase fin_lower] in *.
  apply execute_settle_err_effect in Hset as (Hf & Hi & Hu & (r & Hr & _ & Hrw) & He & Hy & Hst' & Hout);
    [|by eapply publishing_recordable]. cbn [txid tv_incarnation] in *.
  pose proof (pb_set _ _ _ _ _ Hpub) as Hps. cbn [ie_result] in Hps. subst ps.
  assert (Hentry : ∀ l x, ent s l t = Some x → estimate x = true ∧ in_old s t l).
  { intros l x Hx. destruct (pb_entry _ _ _ _ _ Hpub l x Hx) as [(? & []%not_elem_of_nil & _)|?]; done. }
  assert (Hold' : ∀ l, in_old s' t l ↔ in_old s t l) by (intros l; by rewrite (in_old_iff _ _ _ _ Hr), Hrw).
  apply (sys_inv_of (mkSys s ph fl) _ t); cbn [sch phase fin_lower]; [done|done| |done|congruence|congruence| |by left|].
  - intros j Hj. by rewrite lookup_delete_ne.
  - rewrite Hu. eapply Nat.lt_le_trans; [apply (si_unconf _ Hinv)|apply Hf].
  - unfold phase_ok. cbn [sch phase]. rewrite lookup_delete_eq, Hst'. split_and!; [split| |].
    + intros l x. rewrite He, Hold'. case_decide; [done|]. intros Hx. by apply (Hentry l x).
    + intros l Hl. rewrite He. apply Hold' in Hl. rewrite decide_True by done. apply fmap_is_Some. by apply Hpub.
    + intros l x. rewrite He. case_decide; [by intros (y & _ & ->)%fmap_Some|]. intros Hx. by apply (Hentry l x).
    + exists (inc_at s t). rewrite Hy, Hi. split; [done|lia].
Qed.

(** ** Claims *)

Lemma sys_inv_execution_task s ph fl t task s' :
  sys_inv (mkSys s ph fl) → ph !! t = None → execution_task t s = Done (task, s') → sys_inv (mkSys s' ph fl).
Proof.
  intros Hinv Hph (x & Hx%index_Done & Hrest)%outcome_bind_Done.
  assert (Hst : status_at s t = Some (status x)) by (unfold status_at; by rewrite Hx).
  assert (Hinc : inc_at s t = ts_incarnation x) by (unfold inc_at; by rewrite Hx).
  assert (Hclaim : status x = Initial ∨ status x = Conflict →
    sys_inv (mkSys (set_tx_states (<[t := mkTxState Executing (S (ts_incarnation x)) (ts_dependency x)]> (tx_states s)) s) ph fl)).
  { intros Hini. assert (Hlt := lookup_lt_Some _ _ _ Hx). set (s1 := set_tx_states _ s).
    assert (Hx1 : tx_states s1 !! t = Some (mkTxState Executing (S (ts_incarnation x)) (ts_dependency x))).
    { unfold s1. simpl. by rewrite list_lookup_insert_eq. }
    assert (Hst1 : status_at s1 t = Some Executing) by (unfold status_at; by rewrite Hx1).
    assert (Hinc1 : inc_at s1 t = S (ts_incarnation x)) by (unfold inc_at; by rewrite Hx1).
    apply (sys_inv_of (mkSys s ph fl) _ t); cbn [sch phase fin_lower]; [done| |done|done| |congruence|apply Hinv| |].
    - split; try done; simpl; [by rewrite length_insert|]. intros j Hj. by rewrite list_lookup_insert_ne.
    - rewrite Hst. destruct Hini as [->| ->]; done.
    - right; right. apply benign_same; [done|done|by apply not_rewinds_None].
    - pose proof (si_tx _ Hinv t) as Hok. unfold phase_ok in *. cbn [sch phase] in *. rewrite Hst, Hph in Hok.
      rewrite Hst1, Hph, Hinc1. rewrite Hinc in Hok.
      assert (Hun : undone s t (λ i, i ≤ ts_incarnation x)) by (destruct Hini as [Hini|Hini]; by rewrite Hini in Hok).
      destruct Hun as (Ho & He & i & Hi & Hle). split_and!; [done|done|]. exists i. split; [done|lia]. }
  destruct (status x) eqn:Hsx; try (injection Hrest as <- <-; auto; fail).
  all: apply outcome_bind_Done in Hrest as ([r d] & _ & [= <- <-]); eapply sys_inv_core, Hinv; by split.
Qed.

Lemma sys_inv_validation_task s ph fl t task s' :
  sys_inv (mkSys s ph fl) → ph !! t = None → validation_task t s = Done (task, s') → sys_inv (mkSys s' ph fl).
Proof.
  intros Hinv Hph (x & Hx%index_Done & Hrest)%outcome_bind_Done.
  assert (Hst : status_at s t = Some (status x)) by (unfold status_at; by rewrite Hx).
  assert (Hclaim : status x = Executed ∨ status x = Unconfirmed →
    sys_inv (mkSys (set_tx_states (<[t := mkTxState Validating (ts_incarnation x) (ts_dependency x)]> (tx_states s)) s) ph fl)).
  { intros Hini. assert (Hlt := lookup_lt_Some _ _ _ Hx). set (s1 := set_tx_states _ s).
    assert (Hx1 : tx_states s1 !! t = Some (mkTxState Validating (ts_incarnation x) (ts_dependency x))).
    { unfold s1. simpl. by rewrite list_lookup_insert_eq. }
    assert (Hst1 : status_at s1 t = Some Validating) by (unfold status_at; by rewrite Hx1).
    assert (Hinc1 : inc_at s1 t = inc_at s t) by (unfold inc_at; by rewrite Hx1, Hx).
    apply (sys_inv_of (mkSys s ph fl) _ t); cbn [sch phase fin_lower]; [done| |done|done| |congruence|apply Hinv| |].
    - split; try done; simpl; [by rewrite length_insert|]. intros j Hj. by rewrite list_lookup_insert_ne.
    - rewrite Hst. destruct Hini as [->| ->]; done.
    - right; right. apply benign_same; [done|done|by apply not_rewinds_None].
    - pose proof (si_tx _ Hinv t) as Hok. unfold phase_ok in *. cbn [sch phase] in *. rewrite Hst, Hph in Hok.
      rewrite Hst1, Hph. assert (Hd : done_ok s t) by (destruct Hini as [Hini|Hini]; rewrite Hini in Hok; tauto).
      destruct Hd as (? & ? & y & ? & ?). split_and!; [done|done|]. exists y. by rewrite Hinc1. }
  destruct (status x) eqn:Hsx; injection Hrest as <- <-; auto.
Qed.

(** ** Validation *)

Lemma validate_begin_some v s ts r s' :
  validate_begin v s = Done (Some (ts, r), s') →
  status_at s (txid v) = Some Validating ∧ v = mkTxVersion (txid v) (inc_at s (txid v)) ∧ res_at s (txid v) = Some r ∧
  ts = clock s ∧ clock s' = S (clock s) ∧ frame (txid v) s s' ∧
  tx_states s' = tx_states s ∧ tx_results s' = tx_results s ∧ mv_memory s' = mv_memory s ∧
  beneficiary s' = beneficiary s ∧ (∀ j, unconf_at s' j = unconf_at s j).
Proof.
  intros (x & Hx%index_Done & (o & Ho%index_Done & Hrest)%outcome_bind_Done)%outcome_bind_Done.
  unfold status_at, inc_at, res_at. rewrite Hx, Ho. simpl.
  case_bool_decide as Hst; [|done]. case_bool_decide as Hi; [|done]. simpl in Hrest.
  destruct o as [r'|]; [|done]. destruct (is_ok (execute_result r')); [|done]. simplify_eq/=.
  split_and!; try done; [by rewrite Hst|destruct v; simpl in *; congruence|].
  split; try done; unfold clock, lower_at; simpl; intros; lia.
Qed.

Lemma sys_inv_validate s ph fl v ts r s' :
  sys_inv (mkSys s ph fl) → ph !! txid v = None → validate_begin v s = Done (Some (ts, r), s') →
  sys_inv (mkSys s' (<[txid v := PScan v ts r [] (map_to_list (tr_read_set r)) false None]> ph) fl).
Proof.
  intros Hinv Hph (Hst & Hv & Hr & -> & Hc & Hf & Hs & Hrs & Hm & Hb & Hu)%validate_begin_some.
  assert (Hst' : status_at s' (txid v) = Some Validating) by (unfold status_at; by rewrite Hs).
  apply (sys_inv_of (mkSys s ph fl) _ (txid v)); cbn [sch phase fin_lower];
    [done|done| |done|congruence|congruence| | |].
  - intros j Hj. by rewrite lookup_insert_ne.
  - rewrite Hu, Hc. pose proof (si_unconf _ Hinv (txid v)). simpl in *. lia.
  - right; right. apply benign_same; cbn [sch]; [|unfold hist_at; by rewrite Hb|by apply not_rewinds_None].
    intros l. unfold ent. by rewrite Hm.
  - pose proof (si_tx _ Hinv (txid v)) as Hok. unfold phase_ok in *. cbn [sch phase] in *. rewrite Hst, Hph in Hok.
    rewrite Hst', lookup_insert_eq, Hu, Hc. pose proof (si_unconf _ Hinv (txid v)) as Hun. cbn [sch] in Hun.
    assert (Hi : inc_at s' (txid v) = inc_at s (txid v)) by (unfold inc_at; by rewrite Hs).
    split_and!; [|by rewrite Hi|unfold res_at in *; by rewrite Hrs|by right|lia|lia|].
    + eapply done_ok_slot, Hok. split; [by rewrite Hs|unfold res_at; by rewrite Hrs|unfold ent; by rewrite Hm|unfold hist_at; by rewrite Hb].
    + intros _ _. left. by intros rd ?%not_elem_of_nil.
Qed.

(** What validation knows about [t] survives a step of [t] that changes no entry. *)
Lemma supported_self σ σ' t ts reads :
  frame t (sch σ) (sch σ') → (∀ j, j ≠ t → phase σ' !! j = phase σ !! j) →
  supported σ ts t reads → supported σ' ts t reads.
Proof.
  intros Hf Hph Hsup Hfresh. destruct Hsup as [Hr|(j & Hj & Hrj)].
  - intros i Hi. eapply Nat.le_lt_trans; [apply (fr_lower_mono _ _ _ Hf)|by apply Hfresh].
  - left. intros rd Hrd. eapply read_ok_below; [done|lia|by apply Hr].
  - right. exists j. split; [done|]. eapply rewinds_other; [done|done|lia|done].
Qed.

Lemma sys_inv_read s ph fl t v ts r seen rd todo c d c' d' :
  sys_inv (mkSys s ph fl) → ph !! t = Some (PScan v ts r seen (rd :: todo) c d) →
  validate_read t s rd (c, d) = Done (c', d') →
  sys_inv (mkSys s (<[t := PScan v ts r (seen ++ [rd]) todo c' d']> ph) fl).
Proof.
  intros Hinv Hph Hread.
  destruct (scanning_status (mkSys s ph fl) _ _ _ _ _ _ _ _ Hinv Hph) as (Hst & Hd & Hv & Hr & Hall & Hts & Hsup).
  cbn [sch phase fin_lower] in *.
  assert (Hph' : ∀ j, j ≠ t → <[t := PScan v ts r (seen ++ [rd]) todo c' d']> ph !! j = ph !! j).
  { intros j Hj. by rewrite lookup_insert_ne. }
  apply (sys_inv_of (mkSys s ph fl) _ t); cbn [sch phase fin_lower];
    [done|apply frame_refl|done|done|congruence|congruence|apply Hinv| |].
  - right; right. apply benign_same; [done|done|]. by eapply not_rewinds_scan.
  - unfold phase_ok. cbn [sch phase]. rewrite Hst, lookup_insert_eq. split_and!; try done; [|lia|lia|].
    + intros rd' Hin. destruct (Hall rd' Hin) as [?|[->|?]%elem_of_cons]; [left|left|right]; set_solver.
    + intros ->. destruct (validate_read_sound _ _ _ _ _ _ Hread) as [-> Hok].
      intros Hfresh. destruct (Hsup eq_refl Hfresh) as [Hseen|(j & Hj & Hrj)].
      * left. intros rd' [?| ->%list_elem_of_singleton]%elem_of_app; [by apply Hseen|done].
      * right. exists j. split; [done|]. eapply (rewinds_other (mkSys s ph fl)); [apply frame_refl|done|lia|done].
Qed.

Lemma sys_inv_verdict_ok s ph fl t v ts r seen d s' :
  sys_inv (mkSys s ph fl) → ph !! t = Some (PScan v ts r seen [] false d) →
  validate_finish v ts r false d s = Done s' → sys_inv (mkSys s' (delete t ph) fl).
Proof.
  intros Hinv Hph Hfin.
  destruct (scanning_status (mkSys s ph fl) _ _ _ _ _ _ _ _ Hinv Hph) as (Hst & Hd & -> & Hr & Hall & Hts & Hsup).
  cbn [sch phase fin_lower] in *.
  apply validate_finish_ok_effect in Hfin as (Hf & Hrs & Hm & Hb & Hi & Hst' & Hu & Hl & Hc). cbn [txid] in *.
  assert (Hu' : unconf_at s' t = ts) by lia.
  assert (Hph' : ∀ j, j ≠ t → delete t ph !! j = ph !! j) by (intros j Hj; by rewrite lookup_delete_ne).
  apply (sys_inv_of (mkSys s ph fl) _ t); cbn [sch phase fin_lower]; [done|done|done|done|congruence|congruence|lia| |].
  - right; right. apply benign_same; cbn [sch]; [|unfold hist_at; by rewrite Hb|by eapply not_rewinds_scan].
    intros l. unfold ent. by rewrite Hm.
  - unfold phase_ok. cbn [sch phase]. rewrite Hst', lookup_delete_eq. split.
    + destruct Hd as (Hres & [Ho1 Ho2] & y & Hy & Hyi). unfold done_ok, entries_old, in_old, res_at, ent, hist_at in *.
      rewrite Hrs, Hm, Hb, Hi. eauto 10.
    + intros r' Hr'. unfold res_at in Hr'. rewrite Hrs in Hr'. unfold res_at in Hr. rewrite Hr in Hr'. injection Hr' as <-. rewrite Hu'.
      eapply (supported_self (mkSys s ph fl)); [done|done|]. intros Hfresh.
      destruct (Hsup eq_refl Hfresh) as [Hseen|?]; [left|by right]. intros rd Hin.
      destruct (Hall rd Hin) as [?|[]%not_elem_of_nil]. by apply Hseen.
Qed.

Lemma sys_inv_verdict_conflict s ph fl t v ts r seen d s' :
  sys_inv (mkSys s ph fl) → ph !! t = Some (PScan v ts r seen [] true d) →
  validate_finish v ts r true d s = Done s' → sys_inv (mkSys s' (delete t ph) fl).
Proof.
  intros Hinv Hph Hfin.
  destruct (scanning_status (mkSys s ph fl) _ _ _ _ _ _ _ _ Hinv Hph) as (Hst & Hd & -> & Hr & Hall & Hts & Hsup).
  cbn [sch phase fin_lower] in *. destruct Hd as (Hres & [Ho1 Ho2] & y & Hy & Hyi).
  eapply validate_finish_conflict_effect in Hfin as (Hf & Hrs & Hi & Hu & Hst' & He & Hh & Hout); [|done|done].
  cbn [txid tv_incarnation] in *.
  assert (Hold : ∀ l, in_old s t l ↔ l ∈ tr_write_set r) by (intros; by apply in_old_iff).
  assert (Hold' : ∀ l, in_old s' t l ↔ in_old s t l) by (intros; unfold in_old, res_at; by rewrite Hrs).
  apply (sys_inv_of (mkSys s ph fl) _ t); cbn [sch phase fin_lower]; [done|done| |done|congruence|congruence| |by left|].
  - intros j Hj. by rewrite lookup_delete_ne.
  - rewrite Hu. eapply Nat.lt_le_trans; [apply (si_unconf _ Hinv)|apply Hf].
  - unfold phase_ok. cbn [sch phase]. rewrite Hst', lookup_delete_eq, Hi. split_and!; [split| |].
    + intros l e. rewrite He, Hold'. case_decide as Hl; [intros _; by apply Hold|apply Ho1].
    + intros l Hl%Hold'. rewrite He. case_decide; [apply fmap_is_Some|]; by apply Ho2.
    + intros l e. rewrite He. case_decide as Hl; [by intros (z & _ & ->)%fmap_Some|].
      intros Hl'%Ho1%Hold. done.
    + eauto.
Qed.

(** ** Finality *)

Lemma final_idle σ t : sys_inv σ → t < final_idx (sch σ) → phase σ !! t = None.
Proof.
  intros Hinv Ht. pose proof (si_tx _ Hinv t) as Hok. apply (si_final _ Hinv) in Ht. unfold phase_ok in Hok.
  rewrite Ht in Hok. by destruct (phase σ !! t).
Qed.

Lemma not_dirty_at_final σ : sys_inv σ → ¬ dirty σ (final_idx (sch σ)).
Proof.
  intros Hinv (k & Hk & v & x & ps & todo & Hp & _). by rewrite (final_idle _ _ Hinv Hk) in Hp.
Qed.

(** The state after a finality step, up to notifications and counters. *)
Lemma finality_iteration_some s fl first fl' s' :
  finality_iteration (final_idx s) fl first s = Done (Some fl', s') →
  ∃ s1, set_status (final_idx s) Finality s = Done s1 ∧ status_at s (final_idx s) = Some Unconfirmed ∧
    same_core (set_ctx (publish_finality (S (final_idx s)) (scheduler_ctx s1)) s1) s' ∧
    fl' = Nat.max fl (lower_at s (final_idx s)) ∧ fl' < unconf_at s (final_idx s).
Proof.
  intros (cand & Hcand & Hrest)%outcome_bind_Done. destruct cand as [[tx el]|]; [|done].
  apply outcome_bind_Done in Hrest as (s1 & Hs1 & [= <- <-]). exists s1. split; [done|].
  unfold lock_finality_candidate in Hcand. destruct (_ || _); [done|].
  apply outcome_bind_Done in Hcand as (x & Hx%index_Done & Hcand).
  case_bool_decide as Hst; [|done]. simpl in Hcand.
  apply outcome_bind_Done in Hcand as (lo & Hlo%index_Done & (un & Hun%index_Done & [= Hc])%outcome_bind_Done).
  case_decide as Hlt; [|done]. injection Hc as <- <-.
  unfold status_at, lower_at, unconf_at. rewrite Hx, Hlo, Hun. simpl. split_and!; [by rewrite Hst| |done|done].
  by destruct first.
Qed.

Lemma sys_inv_finality s ph fl first fl' s' :
  sys_inv (mkSys s ph fl) → ph !! final_idx s = None →
  finality_iteration (final_idx s) fl first s = Done (Some fl', s') → sys_inv (mkSys s' ph fl').
Proof.
  intros Hinv Hph (s1 & Hs1 & Hst & Hcore & Hfl & Hlt)%finality_iteration_some.
  destruct (frame_status _ _ _ _ Hs1) as (Hf & Hst1 & Hi1 & Hr1 & Hm1 & Hb1 & Hc1).
  eapply sys_inv_core; [exact Hcore|]. clear Hcore s'. set (k := final_idx s) in *.
  (* the status change, with the old finality index *)
  assert (Hok : ∀ t, phase_ok (mkSys s1 ph fl) t).
  { intros t. destruct (decide (t = k)) as [->|Ht].
    - pose proof (si_tx _ Hinv k) as Hok. unfold phase_ok in *. cbn [sch phase] in *. rewrite Hst, Hph in Hok.
      rewrite Hst1, Hph. destruct Hok as (((r & sr & Hr & Hsr) & _) & Hsup).
      intros r' Hr'. assert (Hr2 : res_at s k = Some r') by (unfold res_at in *; by rewrite <-Hr1).
      assert (r' = r) as -> by congruence. split; [by rewrite Hsr|]. intros rd Hin.
      destruct (Hsup r) as [Hrd|Hdirty]; [done| | |].
      + intros i Hi. cbn [sch]. destruct (decide (i = k)) as [->|]; [lia|].
        pose proof (si_fin_lower _ Hinv i) as Hfi. cbn [sch fin_lower] in Hfi. unfold k in *.
        assert (i < final_idx s) as ?%Hfi by lia. lia.
      + eapply (read_ok_below (mkSys s ph fl) (mkSys s1 ph fl) k); [done|done|by apply Hrd].
      + by destruct (not_dirty_at_final _ Hinv).
    - eapply (phase_ok_other (mkSys s ph fl) _ k); [done|done|done|done|by left|].
      right; right. apply benign_same; cbn [sch]; [|unfold hist_at; by rewrite Hb1|by apply not_rewinds_None].
      intros l. unfold ent. by rewrite Hm1. }
  assert (Hctx : ∀ i, lower_at s1 i = lower_at s i ∧ unconf_at s1 i = unconf_at s i ∧ clock s1 = clock s).
  { intros i. unfold lower_at, unconf_at, clock. by rewrite Hc1. }
  split; cbn [sch fin_lower].
  - etrans; [|etrans; [apply (si_num _ Hinv)|]]; simpl; [by rewrite Hc1|by rewrite (fr_size _ _ _ Hf)].
  - simpl. rewrite (fr_states_len _ _ _ Hf), (fr_size _ _ _ Hf). apply Hinv.
  - simpl. rewrite (fr_results_len _ _ _ Hf), (fr_size _ _ _ Hf). apply Hinv.
  - intros t. unfold final_idx. simpl. destruct (decide (t = k)) as [->|Ht].
    + split; [intros _; lia|intros _; exact Hst1].
    + unfold status_at. simpl. rewrite (fr_state _ _ _ Hf) by done.
      pose proof (si_final _ Hinv t) as Hft. unfold k in *. cbn [sch] in Hft. unfold status_at in Hft. rewrite Hft. lia.
  - intros i. change (lower_at s1 i < clock s1). destruct (Hctx i) as (-> & _ & ->). apply (si_lower _ Hinv).
  - intros i. change (unconf_at s1 i < clock s1). destruct (Hctx i) as (_ & -> & ->). apply (si_unconf _ Hinv).
  - intros i Hi. change (lower_at s1 i ≤ fl'). destruct (Hctx i) as (-> & _ & _). unfold final_idx in Hi. simpl in Hi.
    destruct (decide (i = k)) as [->|]; [lia|].
    pose proof (si_fin_lower _ Hinv i) as Hfi. cbn [sch fin_lower] in Hfi. unfold k in *.
    assert (i < final_idx s) as ?%Hfi by lia. lia.
  - intros t. by eapply phase_ok_ext, Hok.
Qed.

(** The commit loop takes the result of a final transaction. *)
Lemma sys_inv_take s ph fl c l :
  sys_inv (mkSys s ph fl) → c < final_idx s → modify_at (tx_results s) c (λ _, None) = Done l →
  sys_inv (mkSys (set_tx_results l s) ph fl).
Proof.
  intros Hinv Hc (x & Hx & ->)%modify_at_Done. set (s' := set_tx_results _ s).
  assert (Hlt := lookup_lt_Some _ _ _ Hx).
  assert (Hf : frame c s s').
  { split; try done; simpl; [by rewrite length_insert|]. intros j Hj. by rewrite list_lookup_insert_ne. }
  assert (Hph := final_idle _ _ Hinv Hc). cbn [phase] in Hph.
  assert (Hben : benign (mkSys s ph fl) (mkSys s' ph fl) c).
  { apply benign_same; [done|done|by apply not_rewinds_None]. }
  split; try apply Hinv.
  - simpl. rewrite length_insert. apply Hinv.
  - intros t. destruct (decide (t = c)) as [->|Ht].
    + assert (Hst : status_at s' c = Some Finality) by (apply (si_final _ Hinv c); done).
      unfold phase_ok. cbn [sch phase]. rewrite Hst, Hph. intros r. unfold res_at. simpl.
      by rewrite list_lookup_insert_eq.
    + eapply (phase_ok_other (mkSys s ph fl) _ c); [done|done|done|done|by right|by right; right].
Qed.

(** ** The invariant holds in every reachable state *)

Lemma sys_inv_worker σ σ' : worker_step σ σ' → sys_inv σ → sys_inv σ'.
Proof.
  intros Hstep Hinv. destruct Hstep.
  - eapply sys_inv_start; [done|done|done|done| |]; subst ps.
    + intros l y z. unfold publications. rewrite !publications_spec. congruence.
    + simpl. intros l. rewrite elem_of_list_to_set, list_elem_of_fmap. split.
      * intros ([l' y] & -> & ?). eauto.
      * intros [y Hy]. by exists (l, y).
  - eapply sys_inv_start; [done|done|done|done| |done]. by intros l y z ?%not_elem_of_nil.
  - by apply sys_inv_publish.
  - destruct x as [[sr|e] a]; [by eapply sys_inv_settle_ok|by eapply sys_inv_settle_err].
  - by eapply sys_inv_execution_task.
  - by eapply sys_inv_validation_task.
  - by eapply sys_inv_validate.
  - by eapply sys_inv_read.
  - destruct c; [by eapply sys_inv_verdict_conflict|by eapply sys_inv_verdict_ok].
  - by eapply sys_inv_finality.
  - by eapply sys_inv_core.
Qed.

Lemma sys_inv_step σ σ' : sys_step σ σ' → sys_inv σ → sys_inv σ'.
Proof.
  intros Hstep Hinv. destruct Hstep.
  - by eapply sys_inv_worker.
  - by eapply sys_inv_take.
  - by apply sys_inv_commit.
Qed.

Lemma sys_inv_init txs ben anchor : sys_inv (Sys_new (E:=E) txs ben anchor).
Proof.
  assert (Hrep : ∀ t, status_at (sch (Sys_new (E:=E) txs ben anchor)) t = Some Initial ∨ status_at (sch (Sys_new (E:=E) txs ben anchor)) t = None).
  { intros t. unfold status_at. simpl. destruct (replicate (length txs) TxState_default !! t) eqn:Ht; [|by right].
    apply lookup_replicate_1 in Ht as [-> _]. by left. }
  assert (Hzero : ∀ n i, default 0 (replicate n 0 !! i) = 0).
  { intros n i. destruct (replicate n 0 !! i) eqn:Hi; [|done]. by apply lookup_replicate_1 in Hi as [-> _]. }
  split; simpl; try (by rewrite length_replicate); try done.
  - intros t. unfold final_idx. simpl. destruct (Hrep t) as [Ht|Ht]; simpl in Ht; rewrite Ht; split; done || lia.
  - intros i. unfold lower_at, clock. simpl. rewrite Hzero. lia.
  - intros i. unfold unconf_at, clock. simpl. rewrite Hzero. lia.
  - intros i. unfold final_idx. simpl. lia.
  - intros t. unfold phase_ok. destruct (Hrep t) as [Ht|Ht]; rewrite Ht; [|done].
    assert (Hlt : t < length txs).
    { apply status_lt in Ht. simpl in Ht. by rewrite length_replicate in Ht. }
    assert (Hres : res_at (sch (Sys_new (E:=E) txs ben anchor)) t = None).
    { unfold res_at. simpl. by rewrite lookup_replicate_2. }
    split; [split|split].
    + intros l e. unfold ent, mv_entry. simpl. by rewrite !lookup_empty.
    + intros l (r & Hr & _). congruence.
    + intros l e. unfold ent, mv_entry. simpl. by rewrite !lookup_empty.
    + exists 0. unfold hist_at. simpl. rewrite lookup_replicate_2 by done. split; [done|lia].
Qed.

Lemma sys_inv_reachable txs ben anchor σ : rtc sys_step (Sys_new txs ben anchor) σ → sys_inv σ.
Proof.
  intros Hr. assert (Hi := sys_inv_init txs ben anchor). induction Hr; [done|]. eauto using sys_inv_step.
Qed.

(** Claiming from the validation cursor is a step of its own. *)
Lemma ss_claim s ph fl idx :
  worker_step (mkSys s ph fl) (mkSys (set_ctx (next_validation_idx idx (scheduler_ctx s)).2 s) ph fl).
Proof.
  apply ss_other. unfold next_validation_idx, ctx_frontier. destruct (current _), (claim_before _ _). by split.
Qed.

(** ** Running a schedule *)

(** One step of a chosen role. *)
Inductive Action :=
| AExecutionTask (t : TxId) | AExecute (v : TxVersion) (sr : SpeculativeResult) (idb : IncarnationDb)
| APublish (t : TxId) | ASettle (t : TxId) | AValidationTask (t : TxId) | AValidate (v : TxVersion)
| ARead (t : TxId) | AVerdict (t : TxId) | AClaim (idx : nat) | AFinality.

Definition act (a : Action) σ : option Sys :=
  let '(mkSys s ph fl) := σ in
  match a with
  | AExecutionTask t =>
    match ph !! t, execution_task t s with None, Done (_, s') => Some (mkSys s' ph fl) | _, _ => None end
  | AExecute v sr idb =>
    match ph !! txid v, execute_begin v s with
    | None, Done (true, s1) =>
      let ps := publications s sr idb in
      Some (mkSys s1 (<[txid v := PPublish v (mkIncarnationExecution (Ok sr) (accesses_of ps idb)) ps ps]> ph) fl)
    | _, _ => None
    end
  | APublish t =>
    match ph !! t with
    | Some (PPublish v x ps ((l, val) :: todo)) =>
      Some (mkSys (set_mv_memory (publish_value v l val (is_blocked (ie_accesses x)) (∅, mv_memory s)).2 s)
              (<[t := PPublish v x ps todo]> ph) fl)
    | _ => None
    end
  | ASettle t =>
    match ph !! t with
    | Some (PPublish v x ps []) =>
      match execute_settle v x s with Done (_, s') => Some (mkSys s' (delete t ph) fl) | Panic => None end
    | _ => None
    end
  | AValidationTask t =>
    match ph !! t, validation_task t s with None, Done (_, s') => Some (mkSys s' ph fl) | _, _ => None end
  | AValidate v =>
    match ph !! txid v, validate_begin v s with
    | None, Done (Some (ts, r), s') =>
      Some (mkSys s' (<[txid v := PScan v ts r [] (map_to_list (tr_read_set r)) false None]> ph) fl)
    | _, _ => None
    end
  | ARead t =>
    match ph !! t with
    | Some (PScan v ts r seen (rd :: todo) c d) =>
      match validate_read t s rd (c, d) with
      | Done (c', d') => Some (mkSys s (<[t := PScan v ts r (seen ++ [rd]) todo c' d']> ph) fl)
      | Panic => None
      end
    | _ => None
    end
  | AVerdict t =>
    match ph !! t with
    | Some (PScan v ts r seen [] c d) =>
      match validate_finish v ts r c d s with Done s' => Some (mkSys s' (delete t ph) fl) | Panic => None end
    | _ => None
    end
  | AClaim idx => Some (mkSys (set_ctx (next_validation_idx idx (scheduler_ctx s)).2 s) ph fl)
  | AFinality =>
    match ph !! finality (scheduler_ctx s), finality_iteration (finality (scheduler_ctx s)) fl true s with
    | None, Done (Some fl', s') => Some (mkSys s' ph fl')
    | _, _ => None
    end
  end.

Definition run (acts : list Action) σ : option Sys := foldl (λ o a, o ≫= act a) (Some σ) acts.

Lemma act_sound a σ σ' : act a σ = Some σ' → worker_step σ σ'.
Proof.
  destruct σ as [s ph fl]. destruct a; simpl; intros Ha; repeat case_match; simplify_eq.
  - by eapply ss_execution_task.
  - by eapply ss_execute.
  - by eapply ss_publish.
  - by eapply ss_settle.
  - by eapply ss_validation_task.
  - by eapply ss_validate.
  - by eapply ss_read.
  - by eapply ss_verdict.
  - apply ss_claim.
  - by eapply ss_finality.
Qed.

Lemma run_sound acts σ σ' : run acts σ = Some σ' → rtc sys_step σ σ'.
Proof.
  unfold run. revert σ'. induction acts as [|a acts IH] using rev_ind; intros σ'; simpl; [by intros [= <-]|].
  rewrite foldl_app. simpl. intros (σ1 & Hr & Ha)%bind_Some. eapply rtc_r; [by apply IH|]. by eapply ss_worker, act_sound.
Qed.

(** ** Properties *)

(** C7. Finality is safe. In every reachable state of the interleaved scheduler the final
    transactions are exactly the prefix below the finality cursor, and the recorded reads of a
    final transaction whose result is not yet taken by the commit loop are all valid now: each
    still resolves to the same incarnation of the same writer, which is not an estimate, or to
    the state before the block when there is none. No validation that a concurrent publication
    or rewind has outdated reaches finality. *)
Theorem finality_safe txs ben anchor σ t r :
  rtc sys_step (Sys_new txs ben anchor) σ →
  (status_at (sch σ) t = Some Finality ↔ t < final_idx (sch σ)) ∧
  (t < final_idx (sch σ) → res_at (sch σ) t = Some r →
     is_ok (execute_result r) = true ∧
     ∀ l v, tr_read_set r !! l = Some v → read_ok (sch σ) t (l, v)).
Proof.
  intros Hinv%sys_inv_reachable. split; [apply Hinv|]. intros Ht%(si_final _ Hinv) Hr.
  pose proof (si_tx _ Hinv t) as Hok. unfold phase_ok in Hok. rewrite Ht in Hok.
  destruct (phase σ !! t); [by destruct p|]. destruct (Hok r Hr) as [? Hrd]. split; [done|].
  intros l v Hl. apply Hrd. by apply elem_of_map_to_list.
Qed.

End finality.

(** ** Witness *)

Section examples.
#[local] Existing Instance revm_example.

Definition fx_tx : TxEnv := mkTxEnv 1 0 10 (Call 2) 21000 1.
Definition fx_result : SpeculativeResult := settled (5%Z : ExecutionResult) ∅.
Definition fx_idb : IncarnationDb := insert_read (LBasic 1) RVStorage (begin_incarnation (mkTxVersion 0 1) IncarnationDb_new).

(** The read recorded by the only transaction of the block. *)
Definition fx_reads : gmap LocationAndType ReadVersion := {[LBasic 1 := RVStorage]}.

(** One transaction is executed, validated and finalized. *)
Definition fx_acts : list Action :=
  [AExecutionTask 0; AExecute (mkTxVersion 0 1) fx_result fx_idb; ASettle 0; AValidationTask 0;
   AValidate (mkTxVersion 0 1); ARead 0; AVerdict 0; AClaim 1; AFinality].

Lemma fx_run : ∃ σ r, rtc sys_step (Sys_new (E:=unit) [fx_tx] 77 None) σ ∧ final_idx (sch σ) = 1 ∧
  res_at (sch σ) 0 = Some r ∧ tr_read_set r = fx_reads.
Proof.
  assert (Hc : match run (E:=unit) fx_acts (Sys_new [fx_tx] 77 None) with
    | Some σ => bool_decide (final_idx (sch σ) = 1) &&
        bool_decide (tr_read_set <$> res_at (sch σ) 0 = Some fx_reads)
    | None => false end = true) by (vm_compute; reflexivity).
  destruct (run _ _) as [σ|] eqn:Hr; [|done].
  apply andb_true_iff in Hc as [Hf%bool_decide_eq_true Hres%bool_decide_eq_true].
  apply fmap_Some in Hres as (r & Hres & Heq).
  exists σ, r. split_and!; [by apply (run_sound fx_acts)|done|done|done].
Qed.

Lemma finality_safe_witness :
  ∃ σ, rtc sys_step (Sys_new (E:=unit) [fx_tx] 77 None) σ ∧ final_idx (sch σ) = 1 ∧
    read_ok (sch σ) 0 (LBasic 1, RVStorage).
Proof.
  destruct fx_run as (σ & r & Hrun & Hfin & Hr & Hreads). exists σ. split; [exact Hrun|]. split; [exact Hfin|].
  apply (finality_safe _ _ _ σ 0 r Hrun); [rewrite Hfin; lia|exact Hr|].
  rewrite Hreads. by apply lookup_singleton_Some.
Defined.

End examples.
