(* ===== verification/Published.v ===== *)
(** Published data is what its incarnation computed (src/src/scheduler.rs,
    src/src/incarnation_db.rs, src/src/beneficiary/history.rs).

    The log keeps, for every incarnation that ended successfully, its accesses, its result and
    its adapter. [slot_inv] relates the shared data of one transaction to the log: an entry of
    memory or of the beneficiary history with incarnation [i] is what incarnation [i] wrote, and
    a transaction whose execution stands shows exactly the writes of its current incarnation.
    Every step of the workers preserves it. *)

From S2P Require Import Prelude Model Reward History World IncarnationDb Access TxDependency Context Metrics Scheduler Interleave Finality.

Section published.
Context `{!Revm} {E : Type}.
Abbreviation Sched := (Scheduler.Sched E).
Abbreviation Sys := (Interleave.Sys (E:=E)).
Implicit Types (s : Sched) (σ : Sys) (t k : TxId).

(** ** The log *)

Record ExecRecord := mkRecord {
  er_trace : list (Event E);
  er_result : SpeculativeResult;
  er_db : IncarnationDb
}.

Abbreviation Log := (gmap (TxId * nat) ExecRecord).
Implicit Types (log : Log) (rec : ExecRecord) (ph : gmap TxId (Phase (E:=E))).

(** The beneficiary of the block; only its address matters here. *)
Context (b0 : BeneficiaryAccount).

Definition er_written rec : LocationAndType → option MemoryValue :=
  written_value b0 (account_snapshots (er_db rec)) (sr_state (er_result rec)).

(** Statuses of a transaction whose last execution stands. *)
Definition stands (st : option TransactionStatus) : bool :=
  match st with
  | Some Executed | Some Validating | Some Unconfirmed | Some Finality => true
  | _ => false
  end.

(** What [t] shows of its current incarnation. *)
Record current_ok rec s t : Prop := {
  cu_unblocked : blocking_txs (er_db rec) = ∅;
  cu_entries l : ent s l t = (λ x, mkMemoryEntry (inc_at s t) x false) <$> er_written rec l;
  cu_history : ∃ e, hist_at s t = Some (mkEntryState (inc_at s t) (Exact e)) ∧
    effect_of (b_address b0) (er_result rec) = Done e;
  cu_result r : res_at s t = Some r → execute_result r = Ok (er_result rec) ∧ tr_read_set r = read_set (er_db rec)
}.

Definition publishing_phase (p : option (Phase (E:=E))) : bool :=
  match p with Some (PPublish _ _ _ _) => true | _ => false end.

Record slot_inv log s (p : option (Phase (E:=E))) t : Prop := {
  sl_entry l e : ent s l t = Some e →
    ∃ rec, log !! (t, me_incarnation e) = Some rec ∧ er_written rec l = Some (data e);
  sl_history i e : hist_at s t = Some (mkEntryState i (Exact e)) →
    ∃ rec, log !! (t, i) = Some rec ∧ effect_of (b_address b0) (er_result rec) = Done e;
  sl_log i rec : log !! (t, i) = Some rec →
    i ≤ inc_at s t ∧ (i = inc_at s t → status_at s t = Some Executing → publishing_phase p = true);
  sl_publish v x ps todo sr : p = Some (PPublish v x ps todo) → ie_result x = Ok sr →
    ∃ rec, log !! (t, tv_incarnation v) = Some rec ∧ er_result rec = sr ∧
      ie_accesses x = accesses_of ps (er_db rec) ∧ ∀ l y, (l, y) ∈ ps ↔ er_written rec l = Some y;
  sl_current : stands (status_at s t) = true → ∃ rec, log !! (t, inc_at s t) = Some rec ∧ current_ok rec s t
}.

(** ** Frame *)

Lemma status_at_slot s s' t : same_slot s s' t → status_at s' t = status_at s t.
Proof. intros Hs. unfold status_at. by rewrite (ss_state _ _ _ Hs). Qed.

Lemma current_ok_slot rec s s' t : same_slot s s' t → current_ok rec s t → current_ok rec s' t.
Proof.
  intros Hs [Hb He Hh Hr]. split; [done| | |].
  - intros l. by rewrite (ss_entry _ _ _ Hs), (inc_at_slot s s').
  - by rewrite (ss_hist _ _ _ Hs), (inc_at_slot s s').
  - by rewrite (ss_result _ _ _ Hs).
Qed.

(** The slot is the same and the phase changes without starting or ending a publication. *)
Lemma slot_inv_slot log s s' p p' t :
  same_slot s s' t → p' = p ∨ publishing_phase p' = publishing_phase p ∧ publishing_phase p = false →
  slot_inv log s p t → slot_inv log s' p' t.
Proof.
  intros Hs Hp [He Hh Hl Hpub Hc]. split.
  - intros l e. rewrite (ss_entry _ _ _ Hs). apply He.
  - intros i e. rewrite (ss_hist _ _ _ Hs). apply Hh.
  - intros i rec. rewrite (inc_at_slot s s'), (status_at_slot s s') by done. intros Hi.
    destruct Hp as [->|[-> _]]; by apply Hl in Hi.
  - intros v x ps todo sr ->. destruct Hp as [<-|[Hp1 Hp2]]; [by eapply Hpub|]. by rewrite Hp2 in Hp1.
  - rewrite (inc_at_slot s s'), (status_at_slot s s') by done. intros (rec & ? & ?)%Hc.
    exists rec. split; [done|]. by eapply current_ok_slot.
Qed.

Lemma same_core_slot s s' t : same_core s s' → same_slot s s' t.
Proof. intros Hc. by apply (frame_same_slot (S t)); [apply same_core_frame|lia]. Qed.

(** A step of [k] keeps the other slots; the one of [k] is left to show. *)
Lemma slots_step log s s' ph (ph' : gmap TxId (Phase (E:=E))) k :
  frame k s s' → (∀ j, j ≠ k → ph' !! j = ph !! j) → slot_inv log s' (ph' !! k) k →
  (∀ t, slot_inv log s (ph !! t) t) → ∀ t, slot_inv log s' (ph' !! t) t.
Proof.
  intros Hf Hph Hk Hall t. destruct (decide (t = k)) as [->|Hne]; [done|]. rewrite Hph by done.
  eapply slot_inv_slot; [by eapply frame_same_slot|by left|done].
Qed.

(** ** Steps of one transaction *)

(** A change of status between two statuses in which the execution stands. *)
Lemma slot_inv_status log s s' p p' t :
  res_at s' t = res_at s t → mv_memory s' = mv_memory s → beneficiary s' = beneficiary s →
  inc_at s' t = inc_at s t → stands (status_at s t) = true → stands (status_at s' t) = true →
  publishing_phase p' = false →
  slot_inv log s p t → slot_inv log s' p' t.
Proof.
  intros Hr Hm Hb Hi Hst Hst' Hp' [He Hh Hl Hpub Hc].
  assert (He' : ∀ l, ent s' l t = ent s l t) by (intros l; unfold ent; by rewrite Hm).
  assert (Hh' : hist_at s' t = hist_at s t) by (unfold hist_at; by rewrite Hb).
  split.
  - intros l e. rewrite He'. apply He.
  - intros i e. rewrite Hh'. apply Hh.
  - intros i rec [? _]%Hl. rewrite Hi. split; [done|]. intros _ Hx. by rewrite Hx in Hst'.
  - intros v x ps todo sr ->. done.
  - intros _. rewrite Hi. destruct (Hc Hst) as (rec & Hrec & [Hbl Hen Hhi Hre]). exists rec. split; [done|].
    split; [done| | |]; rewrite ?Hi, ?Hh', ?Hr; try done. intros l. by rewrite He'.
Qed.

(** Entries turned into estimates: the execution does not stand any more. *)
Lemma slot_inv_estimates log s s' p t i :
  inc_at s' t = inc_at s t → status_at s' t = Some Conflict → hist_at s' t = Some (mkEntryState i Estimate) →
  (∀ l, ent s' l t = ent s l t ∨ ent s' l t = as_estimate <$> ent s l t) →
  slot_inv log s p t → slot_inv log s' None t.
Proof.
  intros Hi Hst Hh He [He0 Hh0 Hl Hpub Hc]. split.
  - intros l e Hle. destruct (He l) as [Heq|Heq]; rewrite Heq in Hle; [by apply He0|].
    apply fmap_Some in Hle as (e0 & Hle & ->). by apply He0 in Hle.
  - intros j e. by rewrite Hh.
  - intros j rec [? _]%Hl. rewrite Hi, Hst. done.
  - done.
  - by rewrite Hst.
Qed.

Lemma slot_inv_publish log s ph fl t v x ps l val todo :
  sys_inv (mkSys s ph fl) → ph !! t = Some (PPublish v x ps ((l, val) :: todo)) → slot_inv log s (ph !! t) t →
  slot_inv log (set_mv_memory (publish_value v l val (is_blocked (ie_accesses x)) (∅, mv_memory s)).2 s)
    (Some (PPublish v x ps todo)) t.
Proof.
  intros Hinv Hph [He Hh Hl Hpub Hc].
  destruct (publishing_status (mkSys s ph fl) _ _ _ _ _ Hinv Hph) as (Hst & -> & Hp). cbn [sch] in *.
  set (s' := set_mv_memory _ s). assert (Hst' : status_at s' t = Some Executing) by done.
  assert (Hin : (l, val) ∈ ps) by (apply Hp; left).
  pose proof (pb_set _ _ _ _ _ Hp) as Hset.
  destruct (ie_result x) as [sr|] eqn:Hx; [|by rewrite Hset in Hin; apply not_elem_of_nil in Hin].
  split.
  - intros l' e. unfold s'. rewrite ent_publish. case_decide as Hd; [|apply He]. destruct Hd as [-> _].
    intros [= <-]. destruct (Hpub _ _ _ _ sr Hph Hx) as (rec & ? & _ & _ & Hw). exists rec. split; [done|]. by apply Hw.
  - done.
  - intros i rec Hi. split; [by eapply Hl|done].
  - intros v' x' ps' todo' sr' [= <- <- <- <-]. by apply Hpub with (todo := (l, val) :: todo).
  - by rewrite Hst'.
Qed.

(** The entries of a published execution that does not conflict. *)
Lemma settled_exact s s' t x ps (ws : gset LocationAndType) rec :
  publishing s t x ps [] → is_blocked (ie_accesses x) = false → (∀ l, l ∈ ws ↔ ∃ y, (l, y) ∈ ps) →
  (∀ l y, (l, y) ∈ ps ↔ er_written rec l = Some y) →
  (∀ l, ent s' l t = if decide (in_old s t l ∧ l ∉ ws) then None else ent s l t) →
  ∀ l, ent s' l t = (λ y, mkMemoryEntry (inc_at s t) y false) <$> er_written rec l.
Proof.
  intros Hp Hb Hws Hw He l. rewrite He. destruct (er_written rec l) as [y|] eqn:Hy.
  - apply Hw in Hy. rewrite decide_False by (intros [_ Hn]; apply Hn, Hws; eauto).
    destruct (pb_done _ _ _ _ _ Hp _ _ Hy) as [?%not_elem_of_nil| ->]; [done|]. by rewrite Hb.
  - assert (Hn : l ∉ ws) by (intros [z Hz%Hw]%Hws; congruence). case_decide as Hd; [done|].
    destruct (ent s l t) as [e|] eqn:Hel; [|done].
    destruct (pb_entry _ _ _ _ _ Hp _ _ Hel) as [(z & Hz%Hw & _)|[_ ?]]; [congruence|]. by destruct Hd.
Qed.

Lemma slot_inv_settle_ok log s ph fl t v sr a ps c s' :
  sys_inv (mkSys s ph fl) → b_address (beneficiary s) = b_address b0 →
  ph !! t = Some (PPublish v (mkIncarnationExecution (Ok sr) a) ps []) →
  execute_settle v (mkIncarnationExecution (Ok sr) a) s = Done (c, s') →
  slot_inv log s (ph !! t) t → slot_inv log s' None t.
Proof.
  intros Hinv Hben Hph Hset [He Hh Hl Hpub Hc].
  destruct (publishing_status (mkSys s ph fl) _ _ _ _ _ Hinv Hph) as (Hst & -> & Hp). cbn [sch] in *.
  destruct (Hpub _ _ _ _ sr Hph eq_refl) as (rec & Hrec & <- & Hacc & Hw). cbn [tv_incarnation ie_accesses] in *.
  apply execute_settle_ok_effect in Hset as (Hf & Hi & _ & Hr & Hen & (y & Hy & Hye) & Hst' & _);
    [|by eapply publishing_recordable]. cbn [txid tv_incarnation] in *. rewrite Hben in Hye.
  assert (Hnex : status_at s' t ≠ Some Executing).
  { destruct (is_blocked a); [by rewrite Hst'|]. by destruct Hst' as [->| ->]. }
  pose proof (pb_set _ _ _ _ _ Hp) as Hws. cbn [ie_result ie_accesses] in Hws. split.
  - intros l e. rewrite Hen. case_decide; [done|]. apply He.
  - intros i e. rewrite Hy. intros [= <- ->]. exists rec. split; [done|]. destruct (is_blocked a) eqn:Hbl.
    + by apply (proj1 Hye) in Hbl.
    + destruct (proj2 Hye Hbl) as (e' & [= ->] & ?). done.
  - intros i rec' [? _]%Hl. rewrite Hi. split; [done|]. by intros _ ?.
  - done.
  - intros Hstand. rewrite Hi. exists rec. split; [done|].
    destruct (is_blocked a) eqn:Hbl; [by rewrite Hst' in Hstand|].
    split; rewrite ?Hi.
    + unfold is_blocked in Hbl. rewrite Hacc in Hbl. simpl in Hbl. by case_bool_decide.
    + by eapply (settled_exact s s' t).
    + rewrite Hy. destruct (proj2 Hye Hbl) as (e & -> & ?). eauto.
    + intros r. rewrite Hr. intros [= <-]. simpl. by rewrite Hacc.
Qed.

Lemma slot_inv_settle_err log s ph fl t v e a ps c s' :
  sys_inv (mkSys s ph fl) → ph !! t = Some (PPublish v (mkIncarnationExecution (Err e) a) ps []) →
  execute_settle v (mkIncarnationExecution (Err e) a) s = Done (c, s') →
  slot_inv log s (ph !! t) t → slot_inv log s' None t.
Proof.
  intros Hinv Hph Hset Hslot.
  destruct (publishing_status (mkSys s ph fl) _ _ _ _ _ Hinv Hph) as (Hst & -> & Hp). cbn [sch] in *.
  apply execute_settle_err_effect in Hset as (Hf & Hi & _ & _ & Hen & Hh & Hst' & _);
    [|by eapply publishing_recordable]. cbn [txid tv_incarnation] in *.
  eapply slot_inv_estimates; [done|done|done| |done]. intros l. rewrite Hen. case_decide; auto.
Qed.

(** The claim of a new incarnation. *)
Lemma slot_inv_execution_task log s t task s' :
  execution_task t s = Done (task, s') → slot_inv log s None t → slot_inv log s' None t.
Proof.
  intros (x & Hx%index_Done & Hrest)%outcome_bind_Done Hslot.
  assert (Hlt := lookup_lt_Some _ _ _ Hx).
  assert (Hclaim : slot_inv log (set_tx_states (<[t := mkTxState Executing (S (ts_incarnation x)) (ts_dependency x)]> (tx_states s)) s) None t).
  { set (s1 := set_tx_states _ s).
    assert (Hx1 : tx_states s1 !! t = Some (mkTxState Executing (S (ts_incarnation x)) (ts_dependency x))).
    { unfold s1. simpl. by rewrite list_lookup_insert_eq. }
    assert (Hst1 : status_at s1 t = Some Executing) by (unfold status_at; by rewrite Hx1).
    assert (Hinc1 : inc_at s1 t = S (inc_at s t)) by (unfold inc_at; by rewrite Hx1, Hx).
    destruct Hslot as [He Hh Hl Hpub Hc]. split; try done.
    - intros i rec [Hi _]%Hl. rewrite Hinc1. split; lia.
    - by rewrite Hst1. }
  assert (Hcore : ∀ s1, same_core s s1 → slot_inv log s1 None t).
  { intros s1 Hcore. eapply slot_inv_slot; [by apply same_core_slot|by left|done]. }
  destruct (status x) eqn:Hsx; try (injection Hrest as <- <-; auto; apply Hcore; apply same_core_refl).
  all: apply outcome_bind_Done in Hrest as ([r d] & _ & [= <- <-]); apply Hcore; by split.
Qed.

Lemma slot_inv_validation_task log s t task s' :
  validation_task t s = Done (task, s') → slot_inv log s None t → slot_inv log s' None t.
Proof.
  intros (x & Hx%index_Done & Hrest)%outcome_bind_Done Hslot.
  assert (Hlt := lookup_lt_Some _ _ _ Hx).
  assert (Hst : status_at s t = Some (status x)) by (unfold status_at; by rewrite Hx).
  assert (Hclaim : stands (Some (status x)) = true →
    slot_inv log (set_tx_states (<[t := mkTxState Validating (ts_incarnation x) (ts_dependency x)]> (tx_states s)) s) None t).
  { intros Hs. eapply slot_inv_status; [..|done]; try done.
    - unfold inc_at. simpl. rewrite list_lookup_insert_eq by done. by rewrite Hx.
    - by rewrite Hst.
    - unfold status_at. simpl. by rewrite list_lookup_insert_eq. }
  destruct (status x) eqn:Hsx; injection Hrest as <- <-; auto.
Qed.

Lemma slot_inv_verdict log s ph fl t v ts r seen c d s' :
  sys_inv (mkSys s ph fl) → ph !! t = Some (PScan v ts r seen [] c d) → validate_finish v ts r c d s = Done s' →
  slot_inv log s (ph !! t) t → frame t s s' ∧ slot_inv log s' None t.
Proof.
  intros Hinv Hph Hfin Hslot.
  destruct (scanning_status (mkSys s ph fl) _ _ _ _ _ _ _ _ Hinv Hph) as (Hst & (Hok & Hold & x & Hx & Hxi) & -> & Hr & _).
  cbn [sch] in *. destruct c.
  - eapply validate_finish_conflict_effect in Hfin as (Hf & _ & Hi & _ & Hst' & He & Hh & _); [|done|done].
    cbn [txid tv_incarnation] in *. split; [done|].
    eapply slot_inv_estimates; [done|done|done| |done]. intros l. rewrite He. case_decide; auto.
  - apply validate_finish_ok_effect in Hfin as (Hf & Hrs & Hm & Hb & Hi & Hst' & _). cbn [txid] in *. split; [done|].
    eapply slot_inv_status; [|done|done|done| | |done|done].
    + unfold res_at. by rewrite Hrs.
    + by rewrite Hst.
    + by rewrite Hst'.
Qed.

(** A claim changes only the slot of its transaction. *)
Lemma task_frame t s s' task :
  execution_task t s = Done (task, s') ∨ validation_task t s = Done (task, s') → frame t s s'.
Proof.
  intros [(x & Hx%index_Done & Hrest)%outcome_bind_Done|(x & Hx%index_Done & Hrest)%outcome_bind_Done].
  all: assert (Hins : ∀ y, frame t s (set_tx_states (<[t := y]> (tx_states s)) s))
    by (intros y; split; try done; simpl; [by rewrite length_insert|]; intros; by rewrite list_lookup_insert_ne).
  all: cbv zeta in Hrest; destruct (status x); simplify_eq; try apply frame_refl; try apply Hins.
  all: apply outcome_bind_Done in Hrest as ([? ?] & _ & [= <- <-]); apply same_core_frame; by split.
Qed.

(** ** Every step of the workers *)

(** No execution starts to publish in this step. *)
Definition no_start σ σ' : Prop :=
  ∀ t v x ps todo, phase σ' !! t = Some (PPublish v x ps todo) → ∃ todo', phase σ !! t = Some (PPublish v x ps todo').

Lemma slots_worker log σ σ' :
  sys_inv σ → b_address (beneficiary (sch σ)) = b_address b0 → worker_step σ σ' → no_start σ σ' →
  (∀ t, slot_inv log (sch σ) (phase σ !! t) t) → ∀ t, slot_inv log (sch σ') (phase σ' !! t) t.
Proof.
  intros Hinv Hben Hstep Hns Hall.
  destruct Hstep as [s ph fl v s1 sr idb ps Hph Hbeg ->|s ph fl v s1 e idb Hph Hbeg|s ph fl t v x ps l val todo Hph
    |s ph fl t v x ps c s' Hph Hset|s ph fl t task s' Hph Htask|s ph fl t task s' Hph Htask|s ph fl v ts r s' Hph Hbeg
    |s ph fl t v ts r seen rd todo c d c' d' Hph Hrd|s ph fl t v ts r seen c d s' Hph Hfin|s ph fl first fl' s' Hph Hfin
    |s ph fl s' Hcore]; cbn [sch phase] in *.
  - exfalso. edestruct (Hns (txid v)) as [todo' Hp]; cbn [phase] in *; [apply lookup_insert_eq|]. by rewrite Hph in Hp.
  - exfalso. edestruct (Hns (txid v)) as [todo' Hp]; cbn [phase] in *; [apply lookup_insert_eq|]. by rewrite Hph in Hp.
  - destruct (publishing_status (mkSys s ph fl) _ _ _ _ _ Hinv Hph) as (_ & Hv & _).
    apply (slots_step log s _ ph _ t); [|by intros; rewrite lookup_insert_ne| |done].
    + apply frame_memory. intros l' j Hj. etrans; [apply (ent_publish v l val (is_blocked (ie_accesses x)) s)|].
      rewrite Hv. cbn [txid]. by rewrite decide_False by naive_solver.
    + rewrite lookup_insert_eq. by eapply slot_inv_publish.
  - destruct (publishing_status (mkSys s ph fl) _ _ _ _ _ Hinv Hph) as (_ & Hv & Hp). cbn [sch] in *.
    apply (slots_step log s _ ph _ t); [|by intros; rewrite lookup_delete_ne| |done].
    + destruct x as [[sr|e] a].
      * apply execute_settle_ok_effect in Hset as (Hf & _); subst v; [done|by eapply publishing_recordable].
      * apply execute_settle_err_effect in Hset as (Hf & _); subst v; [done|by eapply publishing_recordable].
    + rewrite lookup_delete_eq. destruct x as [[sr|e] a]; [by eapply slot_inv_settle_ok|by eapply slot_inv_settle_err].
  - apply (slots_step log s _ ph _ t); [|done| |done]; rewrite ?Hph.
    + eapply task_frame; eauto.
    + specialize (Hall t). rewrite Hph in Hall. by eapply slot_inv_execution_task.
  - apply (slots_step log s _ ph _ t); [|done| |done]; rewrite ?Hph.
    + eapply task_frame; eauto.
    + specialize (Hall t). rewrite Hph in Hall. by eapply slot_inv_validation_task.
  - apply validate_begin_some in Hbeg as (Hst & Hv & Hr & _ & _ & Hf & Hs & Hrs & Hm & Hb & _).
    apply (slots_step log s _ ph _ (txid v)); [done|by intros; rewrite lookup_insert_ne| |done].
    rewrite lookup_insert_eq. specialize (Hall (txid v)). rewrite Hph in Hall.
    eapply (slot_inv_slot log s s' None); [|by right|exact Hall].
    split; [by rewrite Hs|unfold res_at; by rewrite Hrs|intros; unfold ent; by rewrite Hm|unfold hist_at; by rewrite Hb].
  - apply (slots_step log s s ph _ t); [apply frame_refl|by intros; rewrite lookup_insert_ne| |done].
    rewrite lookup_insert_eq. specialize (Hall t). rewrite Hph in Hall. by apply (slot_inv_slot log s s (Some (PScan v ts r seen (rd :: todo) c d))); [|right|].
  - destruct (slot_inv_verdict log s ph fl t v ts r seen c d s' Hinv Hph Hfin (Hall t)) as [Hf Hslot].
    apply (slots_step log s _ ph _ t); [done|by intros; rewrite lookup_delete_ne|by rewrite lookup_delete_eq|done].
  - apply finality_iteration_some in Hfin as (s1 & Hs1 & Hst & Hcore & _). fold (final_idx s) in Hph.
    destruct (frame_status _ _ _ _ Hs1) as (Hf & Hst1 & Hi1 & Hr1 & Hm1 & Hb1 & Hc1).
    assert (H1 : ∀ t, slot_inv log s1 (ph !! t) t).
    { apply (slots_step log s _ ph _ (final_idx s)); [done|done| |done]. rewrite Hph. specialize (Hall (final_idx s)).
      eapply slot_inv_status; [|done|done|done| | |done|exact Hall].
      - unfold res_at. by rewrite Hr1.
      - by rewrite Hst.
      - by rewrite Hst1. }
    intros t. eapply slot_inv_slot; [|by left|apply H1]. pose proof (same_core_slot _ _ t Hcore) as [Ha Hb Hc Hd]. by split.
  - intros t. eapply slot_inv_slot; [by apply same_core_slot|by left|done].
Qed.

(** ** The other steps *)

(** An execution that was running ends successfully: its record is new. *)
Lemma slots_finish log s ph t v rec ps :
  v = mkTxVersion t (inc_at s t) → status_at s t = Some Executing → ph !! t = None →
  (∀ l y, (l, y) ∈ ps ↔ er_written rec l = Some y) →
  (∀ k, slot_inv log s (ph !! k) k) →
  log !! (t, inc_at s t) = None ∧
  ∀ k, slot_inv (<[(t, inc_at s t) := rec]> log) s
    (<[t := PPublish v (mkIncarnationExecution (Ok (er_result rec)) (accesses_of ps (er_db rec))) ps ps]> ph !! k) k.
Proof.
  intros -> Hst Hph Hps Hall.
  assert (Hnew : log !! (t, inc_at s t) = None).
  { destruct (log !! (t, inc_at s t)) as [r|] eqn:Hr; [|done].
    destruct (sl_log _ _ _ _ (Hall t) _ _ Hr) as [_ Hp]. rewrite Hph in Hp. by apply Hp in Hst. }
  assert (Hmono : ∀ key r, log !! key = Some r → <[(t, inc_at s t) := rec]> log !! key = Some r).
  { intros key r Hr. rewrite lookup_insert_ne; [done|]. intros <-. congruence. }
  split; [done|]. intros k. destruct (Hall k) as [He Hh Hl Hp Hc]. split.
  - intros l e (r & ? & ?)%He. eauto.
  - intros i e (r & ? & ?)%Hh. eauto.
  - intros i r [[Hkey <-]|[Hne Hr]]%lookup_insert_Some.
    + injection Hkey as <- <-. split; [done|]. intros _ _. by rewrite lookup_insert_eq.
    + apply Hl in Hr as [Hi Hr]. split; [done|]. intros -> Hx. destruct (decide (k = t)) as [->|]; [done|].
      rewrite lookup_insert_ne by done. auto.
  - intros v x ps' todo sr [[<- [= <- <- <- <-]]|[Hne Hk]]%lookup_insert_Some Hx.
    + exists rec. rewrite lookup_insert_eq. simpl in *. by injection Hx as <-.
    + destruct (Hp _ _ _ _ _ Hk Hx) as (r & ? & ? & ? & ?). exists r. split_and!; auto.
  - intros (r & ? & ?)%Hc. eauto.
Qed.

(** A failed execution has no record. *)
Lemma slots_fail log s ph t v x :
  status_at s t = Some Executing → ph !! t = None → is_ok (ie_result x) = false →
  (∀ k, slot_inv log s (ph !! k) k) → ∀ k, slot_inv log s (<[t := PPublish v x [] []]> ph !! k) k.
Proof.
  intros Hst Hph Hx Hall k. destruct (decide (k = t)) as [->|]; [|rewrite lookup_insert_ne by done; apply Hall].
  rewrite lookup_insert_eq. specialize (Hall t). rewrite Hph in Hall. destruct Hall as [He Hh Hl Hp Hc]. split; try done.
  - intros i r [? _]%Hl. done.
  - intros v' x' ps todo sr [= <- <- <- <-] Hsr. by rewrite Hsr in Hx.
Qed.

(** The commit loop takes a result. *)
Lemma slots_results log s s' ph :
  tx_states s' = tx_states s → mv_memory s' = mv_memory s → beneficiary s' = beneficiary s →
  (∀ t, res_at s' t = res_at s t ∨ res_at s' t = None) →
  (∀ t, slot_inv log s (ph !! t) t) → ∀ t, slot_inv log s' (ph !! t) t.
Proof.
  intros Hs Hm Hb Hr Hall t. destruct (Hall t) as [He Hh Hl Hp Hc].
  split; unfold ent, hist_at, inc_at, status_at in *; rewrite ?Hs, ?Hm, ?Hb; try done.
  intros Hst. destruct (Hc Hst) as (rec & Hrec & [Hbl Hen Hhi Hre]). exists rec. split; [done|].
  split; unfold ent, hist_at, inc_at in *; rewrite ?Hs, ?Hm, ?Hb; try done.
  intros r. destruct (Hr t) as [->| ->]; [apply Hre|done].
Qed.

(** Nothing is published at the start of a block. *)
Lemma slots_init txs anchor ben :
  ∀ t, slot_inv ∅ (sch (Sys_new (E:=E) txs ben anchor)) ((∅ : gmap TxId (Phase (E:=E))) !! t) t.
Proof.
  intros t. split.
  - intros l e. unfold ent, mv_entry. simpl. rewrite lookup_empty. simpl. by rewrite lookup_empty.
  - intros i e. unfold hist_at. simpl. intros Hl%lookup_replicate_1. by destruct Hl.
  - intros i rec. by rewrite lookup_empty.
  - done.
  - unfold status_at. simpl. destruct (replicate _ _ !! t) as [x|] eqn:Hx; [|done]. by apply lookup_replicate_1 in Hx as [-> _].
Qed.

(** ** What the workers leave alone *)

(** The parts of the beneficiary that no step changes. *)
Record static s s' : Prop := {
  st_address : b_address (beneficiary s') = b_address (beneficiary s);
  st_anchor : anchor_of s' = anchor_of s;
  st_size : length (entries (b_history (beneficiary s'))) = length (entries (b_history (beneficiary s)))
}.

Lemma frame_static k s s' : frame k s s' → static s s'.
Proof. by intros []. Qed.

(** Only the executing thread touches an executing transaction, and nobody a final one. *)
Definition held (st : option TransactionStatus) : Prop := st = Some Executing ∨ st = Some Finality.

(** A step of [k]: what it may be when it touches the slot of [k]. *)
Definition moves σ σ' k : Prop :=
  (same_slot (sch σ) (sch σ') k ∧ phase σ' !! k = phase σ !! k) ∨ is_Some (phase σ !! k) ∨
  ¬ held (status_at (sch σ) k) ∨ publishing_phase (phase σ' !! k) = true.

Lemma shape_of σ σ' k :
  frame k (sch σ) (sch σ') → (∀ j, j ≠ k → phase σ' !! j = phase σ !! j) → moves σ σ' k →
  static (sch σ) (sch σ') ∧ ∃ k, (∀ j, j ≠ k → same_slot (sch σ) (sch σ') j ∧ phase σ' !! j = phase σ !! j) ∧ moves σ σ' k.
Proof.
  intros Hf Hph Hm. split; [by eapply frame_static|]. exists k. split; [|done].
  intros j Hj. split; [by eapply frame_same_slot|auto].
Qed.

Lemma task_moves s s' ph fl t task :
  execution_task t s = Done (task, s') ∨ validation_task t s = Done (task, s') → moves (mkSys s ph fl) (mkSys s' ph fl) t.
Proof.
  unfold moves. cbn [sch phase].
  intros [(x & Hx%index_Done & Hrest)%outcome_bind_Done|(x & Hx%index_Done & Hrest)%outcome_bind_Done].
  all: assert (Hst : status_at s t = Some (status x)) by (unfold status_at; by rewrite Hx).
  all: rewrite Hst; cbv zeta in Hrest; destruct (status x); simplify_eq.
  all: try (left; split; [by split|done]).
  all: try (right; right; left; intros [?|?]; done).
  all: apply outcome_bind_Done in Hrest as ([? ?] & _ & [= <- <-]); left; split; [by split|done].
Qed.

(** The end of an execution and a verdict change only the slot of their transaction. *)
Lemma settle_frame s ph fl t v x ps c s' :
  sys_inv (mkSys s ph fl) → ph !! t = Some (PPublish v x ps []) → execute_settle v x s = Done (c, s') → frame t s s'.
Proof.
  intros Hinv Hph Hset. destruct (publishing_status (mkSys s ph fl) _ _ _ _ _ Hinv Hph) as (_ & -> & Hp). cbn [sch] in Hp.
  destruct x as [[sr|e] a].
  - by apply execute_settle_ok_effect in Hset as (Hf & _); [|by eapply publishing_recordable].
  - by apply execute_settle_err_effect in Hset as (Hf & _); [|by eapply publishing_recordable].
Qed.

Lemma verdict_frame s ph fl t v ts r seen c d s' :
  sys_inv (mkSys s ph fl) → ph !! t = Some (PScan v ts r seen [] c d) → validate_finish v ts r c d s = Done s' → frame t s s'.
Proof.
  intros Hinv Hph Hfin.
  destruct (scanning_status (mkSys s ph fl) _ _ _ _ _ _ _ _ Hinv Hph) as (_ & (_ & _ & x & Hx & Hxi) & -> & _).
  cbn [sch] in *. destruct c; [by eapply validate_finish_conflict_effect in Hfin as (Hf & _)|].
  by apply validate_finish_ok_effect in Hfin as (Hf & _).
Qed.

Lemma worker_shape σ σ' : sys_inv σ → worker_step σ σ' →
  static (sch σ) (sch σ') ∧ ∃ k, (∀ j, j ≠ k → same_slot (sch σ) (sch σ') j ∧ phase σ' !! j = phase σ !! j) ∧ moves σ σ' k.
Proof.
  intros Hinv Hstep.
  destruct Hstep as [s ph fl v s1 sr idb ps Hph Hbeg ->|s ph fl v s1 e idb Hph Hbeg|s ph fl t v x ps l val todo Hph
    |s ph fl t v x ps c s' Hph Hset|s ph fl t task s' Hph Htask|s ph fl t task s' Hph Htask|s ph fl v ts r s' Hph Hbeg
    |s ph fl t v ts r seen rd todo c d c' d' Hph Hrd|s ph fl t v ts r seen c d s' Hph Hfin|s ph fl first fl' s' Hph Hfin
    |s ph fl s' Hcore].
  - apply execute_begin_true in Hbeg as (Hcore & _).
    apply (shape_of _ _ (txid v)); [by apply same_core_frame|by intros; apply lookup_insert_ne|].
    right; right; right. cbn [phase]. by rewrite lookup_insert_eq.
  - apply execute_begin_true in Hbeg as (Hcore & _).
    apply (shape_of _ _ (txid v)); [by apply same_core_frame|by intros; apply lookup_insert_ne|].
    right; right; right. cbn [phase]. by rewrite lookup_insert_eq.
  - destruct (publishing_status (mkSys s ph fl) _ _ _ _ _ Hinv Hph) as (_ & Hv & _).
    apply (shape_of _ _ t); [|by intros; apply lookup_insert_ne|right; left; eauto].
    apply frame_memory. intros l' j Hj. etrans; [apply (ent_publish v l val (is_blocked (ie_accesses x)) s)|].
    rewrite Hv. cbn [txid]. by rewrite decide_False by naive_solver.
  - apply (shape_of _ _ t); [by eapply settle_frame|by intros; apply lookup_delete_ne|right; left; eauto].
  - apply (shape_of _ _ t); [eapply task_frame; eauto|done|eapply task_moves; eauto].
  - apply (shape_of _ _ t); [eapply task_frame; eauto|done|eapply task_moves; eauto].
  - apply validate_begin_some in Hbeg as (Hst & Hv & Hr & _ & _ & Hf & Hs & Hrs & Hm & Hb & _).
    apply (shape_of _ _ (txid v)); [done|by intros; apply lookup_insert_ne|].
    right; right; left. cbn [sch]. rewrite Hst. by intros [?|?].
  - apply (shape_of _ _ t); [apply frame_refl|by intros; apply lookup_insert_ne|right; left; eauto].
  - apply (shape_of _ _ t); [by eapply verdict_frame|by intros; apply lookup_delete_ne|right; left; eauto].
  - apply finality_iteration_some in Hfin as (s1 & Hs1 & Hst & Hcore & _). fold (final_idx s) in Hph.
    destruct (frame_status _ _ _ _ Hs1) as (Hf & _). cbn [sch phase].
    pose proof (same_core_frame (final_idx s) _ _ Hcore) as Hf'. split.
    + destruct (frame_static _ _ _ Hf) as [Ha Hb Hc], (frame_static _ _ _ Hf') as [Ha' Hb' Hc'].
      split; [rewrite Ha'; exact Ha|rewrite Hb'; exact Hb|rewrite Hc'; exact Hc].
    + exists (final_idx s). split; [|right; right; left; cbn [sch]; rewrite Hst; by intros [?|?]].
      intros j Hj. split; [|done].
      pose proof (frame_same_slot _ _ _ _ Hf Hj) as [A1 A2 A3 A4]. pose proof (frame_same_slot _ _ _ _ Hf' Hj) as [B1 B2 B3 B4].
      split; [rewrite B1; exact A1|rewrite B2; exact A2|intros l; rewrite B3; apply A3|rewrite B4; exact A4].
  - apply (shape_of _ _ 0); [by apply same_core_frame|done|]. left. cbn [sch phase]. split; [by apply same_core_slot|done].
Qed.

(** An executing transaction between claim and publication, and a final one, stay as they are. *)
Lemma held_kept σ σ' t :
  sys_inv σ → worker_step σ σ' → no_start σ σ' → phase σ !! t = None → held (status_at (sch σ) t) →
  same_slot (sch σ) (sch σ') t ∧ phase σ' !! t = None.
Proof.
  intros Hinv Hstep Hns Hph Hheld. destruct (worker_shape _ _ Hinv Hstep) as (_ & k & Hother & Hm).
  destruct (decide (t = k)) as [->|Hne]; [|destruct (Hother t Hne) as [? Heq]; by rewrite Heq].
  destruct Hm as [[? Heq]|[[p Hp]|[?|Hpub]]]; [by rewrite Heq|by rewrite Hph in Hp|done|].
  destruct (phase σ' !! k) as [[v x ps todo|]|] eqn:Hk; try done.
  destruct (Hns _ _ _ _ _ Hk) as [todo' Hp]. by rewrite Hph in Hp.
Qed.

End published.
