(* ===== verification/Control.v ===== *)
(** The execution lifecycle around the parallel phase: the commit loop of src/src/scheduler.rs,
    sequential replay (src/src/scheduler/fallback.rs) and the one-shot control flow of
    src/src/scheduler/control.rs.

    [Runner] is the scheduler with the fields only these functions use: the outcomes, the
    started flag, the block state and the configuration they read. revm's execution of one
    transaction is the parameter [transact_one]. *)

From S2P Require Import Prelude Model Reward History World IncarnationDb ParallelState CacheView TxDependency Context Metrics Scheduler OrderedCommit.
From stdpp Require Import pretty.

Section control.
Context `{!Revm} `{!RevmDb} {DB E : Type} `{!DatabaseRef DB E}.
Abbreviation Sched := (Scheduler.Sched E).
Abbreviation OrderedCommitter := (OrderedCommit.OrderedCommitter (DB:=DB)).

(** ** The commit loop *)

Record CommitLoopResult := mkCommitLoopResult {
  clr_committed : OrderedCommitOutput;
  clr_error : option (GrevmError E)
}.

Inductive CommitStep :=
| CommitNext (commit_idx : nat)
| CommitReturn (error : option (GrevmError E)).

Definition take_result (i : TxId) (s : Sched) : outcome (option (TransactionResult E) * Sched) :=
  let! r := index (tx_results s) i in
  Done (r, set_tx_results (<[i := None]> (tx_results s)) s).

(** One iteration of the inner loop of [run_commit_loop], at [commit_idx < finality_idx];
    [elapsed] is the measured duration of the commit. *)
Definition commit_iteration (elapsed : nat) (commit_idx : nat)
    (st : Sched * OrderedCommitter * OrderedCommitOutput) :
    outcome (CommitStep * (Sched * OrderedCommitter * OrderedCommitOutput)) :=
  let '(s, c, output) := st in
  let! (tx_result, s) := take_result commit_idx s in
  match tx_result with
  | None =>
    Done (CommitReturn None,
          (abort (ParallelError commit_idx "finalized transaction has no execution result") s, c, output))
  | Some tx_result =>
    match execute_result tx_result with
    | Err _ =>
      Done (CommitReturn None, (abort (ParallelError commit_idx "failed transaction reached commit") s, c, output))
    | Ok result =>
      let! tx := index (txs s) commit_idx in
      let! (r, output, c) := ordered_commit commit_idx tx result output c in
      let s := set_metrics (record_commit_time elapsed (metrics s)) s in
      match r with
      | Ok (Committed committed) =>
        let next_commit_idx := prefix_index committed in
        let s := set_ctx (publish_commit next_commit_idx (scheduler_ctx s)) s in
        let! d := dep_commit commit_idx (tx_dependency s) in
        Done (CommitNext next_commit_idx, (set_tx_dependency d s, c, output))
      | Ok NeedsSequentialFallback =>
        Done (CommitReturn None, (abort FallbackSequential s, c, output))
      | Err error =>
        Done (CommitReturn (Some error), (abort (CommitError error) s, c, output))
      end
    end
  end.

(** ** Sequential replay *)

Record SequentialReplayOutput := mkReplay {
  sro_outcomes : list TxExecutionOutcome;
  sro_error : option (GrevmError E)
}.

(** The loop of [execute_sequential_suffix]: [remaining] transactions from [txid] on. The closure
    threads the state. *)
Fixpoint execute_sequential_loop {St} (transact : TxId → TxEnv → St → outcome (result (EVMError E) ExecutionResult * St))
    (txs : list TxEnv) (remaining txid : nat) (outcomes : list TxExecutionOutcome) (attempts : nat) (st : St) :
    outcome (SequentialReplayOutput * nat * St) :=
  match remaining with
  | 0 => Done (mkReplay outcomes None, attempts, st)
  | S remaining =>
    let! tx := index txs txid in
    let! (r, st) := transact txid tx st in
    match r with
    | Ok result =>
      execute_sequential_loop transact txs remaining (txid + 1) (outcomes ++ [ExecutedOutcome result]) (attempts + 1) st
    | Err (Transaction error) =>
      execute_sequential_loop transact txs remaining (txid + 1) (outcomes ++ [Skipped error]) (attempts + 1) st
    | Err error => Done (mkReplay outcomes (Some (mkGrevmError txid error)), attempts, st)
    end
  end.

Definition execute_sequential_suffix {St} transact (txs : list TxEnv) (start : nat) (st : St) :=
  execute_sequential_loop transact txs (length txs - start) start [] 0 st.

Definition reject_nonce_overflow (disable_nonce_check : bool) (tx : TxEnv) (st : ParallelState DB) :
    result (EVMError E) unit * ParallelState DB :=
  if negb disable_nonce_check && bool_decide (tx_nonce tx = U64_MAX) then
    let '(r, st) := db_basic st (caller tx) in
    match r with
    | Ok info =>
      (if bool_decide (nonce_of info = U64_MAX) then Err (Transaction NonceOverflowInTransaction) else Ok tt, st)
    | Err e => (Err (Database e), st)
    end
  else (Ok tt, st).

(** revm's run of one transaction with immediate settlement: the result, the journal, and the
    state with what the run loaded. *)
Context (transact_one : TxId → TxEnv → ParallelState DB →
  result (EVMError E) ExecutionResult * EvmState * ParallelState DB).

(** The closure of [replay_uncommitted_suffix]. *)
Definition replay_transact (disable_nonce_check : bool) (txid : TxId) (tx : TxEnv) (st : ParallelState DB) :
    outcome (result (EVMError E) ExecutionResult * ParallelState DB) :=
  match reject_nonce_overflow disable_nonce_check tx st with
  | (Err e, st) => Done (Err e, st)
  | (Ok _, st) =>
    let '(output, state, st) := transact_one txid tx st in
    match output with
    | Ok result => let! st := commit state st in Done (Ok result, st)
    | Err e => Done (Err e, st)
    end
  end.

(** ** The scheduler's lifecycle *)

Record Runner := mkRunner {
  rn_sched : Sched;
  rn_state : ParallelState DB;
  rn_results : list TxExecutionOutcome;
  started : bool;
  rn_disable_nonce_check : bool;
  force_sequential : bool;
  min_parallel_txs : nat;
  concurrency_level : nat
}.

Definition set_rn_sched s r := mkRunner s (rn_state r) (rn_results r) (started r) (rn_disable_nonce_check r)
  (force_sequential r) (min_parallel_txs r) (concurrency_level r).
Definition set_rn_state st r := mkRunner (rn_sched r) st (rn_results r) (started r) (rn_disable_nonce_check r)
  (force_sequential r) (min_parallel_txs r) (concurrency_level r).
Definition set_rn_results l r := mkRunner (rn_sched r) (rn_state r) l (started r) (rn_disable_nonce_check r)
  (force_sequential r) (min_parallel_txs r) (concurrency_level r).
Definition set_started r := mkRunner (rn_sched r) (rn_state r) (rn_results r) true (rn_disable_nonce_check r)
  (force_sequential r) (min_parallel_txs r) (concurrency_level r).

Abbreviation RunResult := (result (GrevmError E) unit * Runner)%type (only parsing).

Definition committed_prefix_mismatch (start result_count n : nat) : string :=
  "committed prefix mismatch: boundary=" +:+ pretty start +:+ ", outcomes=" +:+ pretty result_count +:+
  ", block_size=" +:+ pretty n.

Definition replay_uncommitted_suffix (committed : CommittedPrefixEnd) (r : Runner) : outcome RunResult :=
  let start := prefix_index committed in
  let n := block_size (rn_sched r) in
  let result_count := length (rn_results r) in
  if decide (n < start ∨ result_count ≠ start) then
    Done (Err (mkGrevmError (Nat.min start (n - 1)) (Custom (committed_prefix_mismatch start result_count n))), r)
  else if decide (start = n) then Done (Ok tt, r)
  else
    let! (replay, attempts, st) :=
      execute_sequential_suffix (replay_transact (rn_disable_nonce_check r)) (txs (rn_sched r)) start (rn_state r) in
    let s := set_metrics (fetch_add execution_cnt attempts (metrics (rn_sched r))) (rn_sched r) in
    let r := set_rn_results (rn_results r ++ sro_outcomes replay) (set_rn_state st (set_rn_sched s r)) in
    Done (match sro_error replay with None => Ok tt | Some e => Err e end, r).

(** [fallback_after_parallel_error] logs and replays. *)
Definition fallback_after_parallel_error (committed : CommittedPrefixEnd) (txid : TxId) (message : string)
    (r : Runner) : outcome RunResult :=
  replay_uncommitted_suffix committed r.

(** The error recorded for a transaction, if its last result has one. *)
Definition recorded_error (s : Sched) (t : TxId) : option (EVMError E) :=
  match tx_results s !! t with
  | Some (Some result) => match execute_result result with Err e => Some e | Ok _ => None end
  | _ => None
  end.

Definition post_execute (committed : CommittedPrefixEnd) (r : Runner) : outcome RunResult :=
  let s := rn_sched r in
  if abort_flag s then
    match abort_reason s with
    | Some (FatalEvmError t) =>
      match recorded_error s t with
      | Some error => Done (Err (mkGrevmError t error), r)
      | None =>
        fallback_after_parallel_error committed t "fatal execution abort has no matching transaction error" r
      end
    | Some (CommitError error) => Done (Err error, r)
    | Some (ParallelError t message) => fallback_after_parallel_error committed t message r
    | Some FallbackSequential => replay_uncommitted_suffix committed r
    | None =>
      fallback_after_parallel_error committed (Context.committed (scheduler_ctx s))
        "parallel execution aborted without a reason" r
    end
  else Done (Ok tt, r).

Definition install_commit_loop_result (clr : CommitLoopResult) (r : Runner) :
    outcome (result (GrevmError E) CommittedPrefixEnd * Runner) :=
  let committed := output_end (clr_committed clr) in
  let! _ := assert_that (bool_decide (prefix_index committed = Context.committed (scheduler_ctx (rn_sched r)))) in
  let! _ := assert_that (bool_decide (rn_results r = [])) in
  let r := set_rn_results (outcomes (clr_committed clr)) r in
  Done (match clr_error clr with None => Ok committed | Some e => Err e end, r).

(** The scoped threads of [parallel_execute_inner]: workers, finality and commit loop run to
    the end on the scheduler and the block state. *)
Context (parallel_phase : Address → Sched → ParallelState DB → outcome (CommitLoopResult * Sched * ParallelState DB)).

Definition parallel_execute_inner (beneficiary : Address) (r : Runner) : outcome RunResult :=
  if force_sequential r || bool_decide (block_size (rn_sched r) < min_parallel_txs r) then
    replay_uncommitted_suffix CommittedPrefixEnd_ZERO r
  else
    match db_basic (rn_state r) beneficiary with
    | (Err e, st) => Done (Err (mkGrevmError 0 (Database e)), set_rn_state st r)
    | (Ok anchor, st) =>
      let s := set_beneficiary (Beneficiary_new beneficiary anchor (block_size (rn_sched r))) (rn_sched r) in
      let! (clr, s, st) := parallel_phase beneficiary s st in
      let! (installed, r) := install_commit_loop_result clr (set_rn_state st (set_rn_sched s r)) in
      match installed with
      | Err e => Done (Err e, r)
      | Ok committed => post_execute committed r
      end
    end.

Definition run_once_message : string :=
  "a Scheduler can execute only once; create a new Scheduler for each block".

Definition run_once (execute : Runner → outcome RunResult) (elapsed : nat) (r : Runner) : outcome RunResult :=
  let txid := Nat.min (Context.committed (scheduler_ctx (rn_sched r))) (block_size (rn_sched r) - 1) in
  if started r then Done (Err (mkGrevmError txid (Custom run_once_message)), r)
  else
    let r := set_started r in
    let s := rn_sched r in
    let r := set_rn_sched (set_metrics (record_block_start (block_size s) (metrics s)) s) r in
    let! (result, r) := execute r in
    let s := rn_sched r in
    let m := record_total_time elapsed
      (record_validation_resets (validation_resets (scheduler_ctx s)) (metrics s)) in
    Done (result, set_rn_sched (set_metrics m s) r).

Definition parallel_execute (beneficiary : Address) (level : option nat) (elapsed : nat) (r : Runner) : outcome RunResult :=
  let concurrency := default (concurrency_level r) level in
  let! _ := assert_that (bool_decide (0 < concurrency)) in
  run_once (parallel_execute_inner beneficiary) elapsed r.

Definition fallback_sequential (elapsed : nat) (r : Runner) : outcome RunResult :=
  run_once (replay_uncommitted_suffix CommittedPrefixEnd_ZERO) elapsed r.

Definition take_result_and_state (r : Runner) : list TxExecutionOutcome * ParallelState DB :=
  (rn_results r, rn_state r).

(** ** Sequential execution as a specification *)

Section sequential.
Context {St : Type} (transact : TxId → TxEnv → St → outcome (result (EVMError E) ExecutionResult * St)).
Context (txs : list TxEnv).

(** [seq_run i j outs st st']: the transactions [i .. j-1] run one after the other from [st],
    with outcomes [outs]; an invalid transaction is skipped. *)
Inductive seq_run : nat → nat → list TxExecutionOutcome → St → St → Prop :=
| seq_nil i st : seq_run i i [] st st
| seq_executed i j tx r st st1 outs st' :
    txs !! i = Some tx → transact i tx st = Done (Ok r, st1) → seq_run (S i) j outs st1 st' →
    seq_run i j (ExecutedOutcome r :: outs) st st'
| seq_skipped i j tx e st st1 outs st' :
    txs !! i = Some tx → transact i tx st = Done (Err (Transaction e), st1) → seq_run (S i) j outs st1 st' →
    seq_run i j (Skipped e :: outs) st st'.

Lemma seq_run_length i j outs st st' : seq_run i j outs st st' → j = i + length outs.
Proof. induction 1; simpl; lia. Qed.

Lemma seq_run_app i j k outs1 outs2 st1 st2 st3 :
  seq_run i j outs1 st1 st2 → seq_run j k outs2 st2 st3 → seq_run i k (outs1 ++ outs2) st1 st3.
Proof. induction 1; [done|intros; by eapply seq_executed; [done|done|auto]|intros; by eapply seq_skipped; [done|done|auto]]. Qed.

(** A transaction that stops the replay. *)
Definition fatal_at (k : nat) (e : EVMError E) (st st' : St) : Prop :=
  ∃ tx, txs !! k = Some tx ∧ transact k tx st = Done (Err e, st') ∧ ∀ i, e ≠ Transaction i.

(** The loop runs the sequential specification up to the end or to a fatal error. *)
Lemma execute_sequential_loop_spec remaining txid acc attempts st replay n st' :
  execute_sequential_loop transact txs remaining txid acc attempts st = Done (replay, n, st') →
  ∃ outs st1, sro_outcomes replay = acc ++ outs ∧ n = attempts + length outs ∧
    seq_run txid (txid + length outs) outs st st1 ∧
    match sro_error replay with
    | None => length outs = remaining ∧ st' = st1
    | Some e => length outs < remaining ∧ ge_txid e = txid + length outs ∧ fatal_at (ge_txid e) (error e) st1 st'
    end.
Proof.
  revert txid acc attempts st. induction remaining as [|m IH]; intros t acc attempts st; simpl.
  { intros [= <- <- <-]. exists [], st. simpl. rewrite !Nat.add_0_r, !app_nil_r. split_and!; [done|done|constructor|done|done]. }
  intros (tx & Htx%index_Done & ([r st1] & Htr & Hrest)%outcome_bind_Done)%outcome_bind_Done.
  assert (Hstep : ∀ o, (∀ outs st2 j, seq_run (S t) j outs st1 st2 → seq_run t j (o :: outs) st st2) →
    execute_sequential_loop transact txs m (t + 1) (acc ++ [o]) (attempts + 1) st1 = Done (replay, n, st') →
    ∃ outs st1, sro_outcomes replay = acc ++ outs ∧ n = attempts + length outs ∧
      seq_run t (t + length outs) outs st st1 ∧
      match sro_error replay with
      | None => length outs = S m ∧ st' = st1
      | Some e => length outs < S m ∧ ge_txid e = t + length outs ∧ fatal_at (ge_txid e) (error e) st1 st'
      end).
  { intros o Ho (outs & st2 & Ho1 & Ho2 & Hrun & Herr)%IH. exists (o :: outs), st2.
    rewrite Ho1, <-app_assoc. simpl. split_and!; [done|lia| |].
    - apply Ho. by replace (S t) with (t + 1) by lia; replace (t + S (length outs)) with (t + 1 + length outs) by lia.
    - destruct (sro_error replay); [|destruct Herr; split; [lia|done]].
      destruct Herr as (? & He & ?). split_and!; [lia|lia|done]. }
  assert (Hfatal : ∀ e, r = Err e → (∀ i, e ≠ Transaction i) →
    Done (mkReplay acc (Some (mkGrevmError t e)), attempts, st1) = Done (replay, n, st') →
    ∃ outs st1, sro_outcomes replay = acc ++ outs ∧ n = attempts + length outs ∧
      seq_run t (t + length outs) outs st st1 ∧
      match sro_error replay with
      | None => length outs = S m ∧ st' = st1
      | Some e => length outs < S m ∧ ge_txid e = t + length outs ∧ fatal_at (ge_txid e) (error e) st1 st'
      end).
  { intros e -> He [= <- <- <-]. exists [], st. simpl. rewrite !Nat.add_0_r, app_nil_r.
    split_and!; [done|lia|constructor|lia|done|]. exists tx. by split_and!. }
  destruct r as [res|[i|d|msg|code]].
  - apply (Hstep (ExecutedOutcome res)); [|done]. intros. by eapply seq_executed.
  - apply (Hstep (Skipped i)); [|done]. intros. by eapply seq_skipped.
  - by eapply Hfatal.
  - by eapply Hfatal.
  - by eapply Hfatal.
Qed.

End sequential.

(** Sequential replay extends the committed prefix exactly. From a boundary that the
    outcomes match, the replay appends the outcomes of running the remaining transactions one
    after the other (invalid ones skipped) from the block state. It succeeds only when the
    whole block is covered; a fatal error names the first transaction without an outcome, and
    the state and the outcomes then describe the prefix before it. A boundary that the
    outcomes do not match is refused without touching anything. *)
Theorem replay_extends_prefix start r res r' :
  length (txs (rn_sched r)) = block_size (rn_sched r) →
  replay_uncommitted_suffix (mkPrefixEnd start) r = Done (res, r') →
  let n := block_size (rn_sched r) in
  let transact := replay_transact (rn_disable_nonce_check r) in
  if decide (length (rn_results r) = start ∧ start ≤ n) then
    ∃ k outs st, start ≤ k ∧ rn_results r' = rn_results r ++ outs ∧ length (rn_results r') = k ∧
      seq_run transact (txs (rn_sched r)) start k outs (rn_state r) st ∧
      match res with
      | Ok _ => k = n ∧ rn_state r' = st
      | Err e => k < n ∧ ge_txid e = k ∧ fatal_at transact (txs (rn_sched r)) k (error e) st (rn_state r')
      end
  else r' = r ∧ is_ok res = false.
Proof.
  intros Hlen Hrep. cbv zeta. unfold replay_uncommitted_suffix in Hrep. simpl in Hrep.
  case_decide as Hbad.
  { injection Hrep as <- <-. rewrite decide_False by lia. done. }
  rewrite decide_True by lia. assert (length (rn_results r) = start) as Hst by lia.
  case_decide as Hend.
  { injection Hrep as <- <-. exists start, [], (rn_state r). rewrite app_nil_r.
    split_and!; [lia|done|done|constructor|done|done]. }
  apply outcome_bind_Done in Hrep as ([[replay attempts] st] & Hloop & [= <- <-]).
  apply execute_sequential_loop_spec in Hloop as (outs & st1 & Ho & _ & Hrun & Herr). simpl in Ho.
  exists (start + length outs), outs, st1. simpl. rewrite Ho, length_app, Hst.
  split_and!; [lia|done|done|done|]. rewrite Hlen in Herr.
  destruct (sro_error replay) as [e|]; simpl.
  - destruct Herr as (? & He & Hf). rewrite He in Hf. split_and!; [lia|done|done].
  - destruct Herr. split; [lia|done].
Qed.

(** ** The lifecycle *)

Lemma replay_started c r res r' : replay_uncommitted_suffix c r = Done (res, r') → started r' = started r.
Proof.
  unfold replay_uncommitted_suffix. case_decide; [by intros [= _ <-]|]. case_decide; [by intros [= _ <-]|].
  intros ([[? ?] ?] & _ & [= _ <-])%outcome_bind_Done. done.
Qed.

Lemma post_execute_started c r res r' : post_execute c r = Done (res, r') → started r' = started r.
Proof.
  unfold post_execute, fallback_after_parallel_error.
  repeat case_match; try (by intros [= _ <-]); apply replay_started.
Qed.

Lemma install_Done clr r res r' :
  install_commit_loop_result clr r = Done (res, r') →
  r' = set_rn_results (outcomes (clr_committed clr)) r ∧
  length (outcomes (clr_committed clr)) = Context.committed (scheduler_ctx (rn_sched r)) ∧
  res = match clr_error clr with None => Ok (output_end (clr_committed clr)) | Some e => Err e end.
Proof.
  unfold install_commit_loop_result.
  intros (? & Hc%assert_that_Done & (? & _ & [= <- <-])%outcome_bind_Done)%outcome_bind_Done.
  apply bool_decide_eq_true in Hc. done.
Qed.

Lemma parallel_started b r res r' : parallel_execute_inner b r = Done (res, r') → started r' = started r.
Proof.
  unfold parallel_execute_inner. case_match; [apply replay_started|].
  destruct (db_basic _ _) as [[anchor|e] st]; [|by intros [= _ <-]].
  intros ([[clr s] st'] & _ & ([inst r1] & (-> & _)%install_Done & Hpost)%outcome_bind_Done)%outcome_bind_Done.
  destruct inst as [c|e]; [by apply post_execute_started in Hpost|by injection Hpost as _ <-].
Qed.

Lemma run_once_second execute elapsed r :
  started r = true → ∃ e, run_once execute elapsed r = Done (Err e, r).
Proof. intros Hs. unfold run_once. rewrite Hs. eauto. Qed.

Lemma run_once_started execute elapsed r res r' :
  (∀ r1 res1 r1', execute r1 = Done (res1, r1') → started r1' = started r1) →
  run_once execute elapsed r = Done (res, r') → started r' = true.
Proof.
  intros Hex. unfold run_once. destruct (started r) eqn:Hs; [by intros [= _ <-]|].
  intros ([res1 r1] & He & [= _ <-])%outcome_bind_Done. by apply Hex in He.
Qed.

(** A scheduler executes once. Whatever the first call was and however it ended, every
    later [execute], [parallel_execute] or [fallback_sequential] returns an error and leaves the
    outcomes, the state and the metrics as the first call left them. *)
Lemma execution_is_one_shot b level elapsed r res r' :
  parallel_execute b level elapsed r = Done (res, r') ∨ fallback_sequential elapsed r = Done (res, r') →
  ∀ b2 level2 elapsed2,
    (0 < default (concurrency_level r') level2 → ∃ e, parallel_execute b2 level2 elapsed2 r' = Done (Err e, r')) ∧
    ∃ e, fallback_sequential elapsed2 r' = Done (Err e, r').
Proof.
  intros Hrun b2 level2 elapsed2. assert (Hs : started r' = true).
  { destruct Hrun as [(? & _ & Hr)%outcome_bind_Done|Hr]; eapply run_once_started, Hr;
      intros; [by eapply parallel_started|by eapply replay_started]. }
  split; [|by apply run_once_second]. intros Hl. unfold parallel_execute.
  rewrite bool_decide_eq_true_2 by done. by apply run_once_second.
Qed.

(** A scheduler whose block has not been executed. *)
Definition fresh_sched (s : Sched) : Prop :=
  ∃ txs ben anchor m, s = set_metrics m (Sched_new txs ben anchor).

(** What the joined threads guarantee for a fresh scheduler and a state that satisfies [P]: the
    committed cursor is the number of outcomes, and without an abort or an error the whole
    block is committed. Pipeline.v proves it. *)
Definition joined_ok (P : ParallelState DB → Prop) (b : Address) : Prop := ∀ s st clr s' st',
  fresh_sched s → P st → parallel_phase b s st = Done (clr, s', st') →
  block_size s' = block_size s ∧ txs s' = txs s ∧
  Context.committed (scheduler_ctx s') = length (outcomes (clr_committed clr)) ∧
  (abort_flag s' = false → clr_error clr = None → length (outcomes (clr_committed clr)) = block_size s).

Lemma replay_covers c r r' :
  length (txs (rn_sched r)) = block_size (rn_sched r) →
  replay_uncommitted_suffix c r = Done (Ok tt, r') →
  length (rn_results r') = block_size (rn_sched r) ∧ block_size (rn_sched r') = block_size (rn_sched r).
Proof.
  intros Hlen Hrep. unfold replay_uncommitted_suffix in Hrep. case_decide as Hbad; [done|].
  case_decide as Hend; [injection Hrep as <-; lia|].
  apply outcome_bind_Done in Hrep as ([[replay attempts] st] & Hloop & Heq).
  apply execute_sequential_loop_spec in Hloop as (outs & st1 & Ho & _ & _ & Herr). simpl in Ho.
  destruct (sro_error replay); [done|]. injection Heq as <-. simpl. rewrite Ho, length_app. lia.
Qed.

Lemma post_execute_covers c r r' :
  length (txs (rn_sched r)) = block_size (rn_sched r) →
  (abort_flag (rn_sched r) = false → length (rn_results r) = block_size (rn_sched r)) →
  post_execute c r = Done (Ok tt, r') →
  length (rn_results r') = block_size (rn_sched r) ∧ block_size (rn_sched r') = block_size (rn_sched r).
Proof.
  intros Hlen Hfull. unfold post_execute, fallback_after_parallel_error.
  repeat case_match; try done; try by apply replay_covers. intros [= <-]. split; [by apply Hfull|done].
Qed.

(** An execution that succeeds has an outcome for every transaction of the block, on every
    path: parallel, sequential by configuration, or parallel with the rest replayed after an
    abort. *)
Theorem successful_execution_covers_block P b level elapsed r r' :
  joined_ok P b → fresh_sched (rn_sched r) → P (db_basic (rn_state r) b).2 →
  parallel_execute b level elapsed r = Done (Ok tt, r') →
  length (rn_results r') = block_size (rn_sched r).
Proof.
  intros Hphase (tx & ben & an & m & Hfresh) HP (? & _ & Hrun)%outcome_bind_Done. unfold run_once in Hrun.
  assert (Hlen : length (txs (rn_sched r)) = block_size (rn_sched r)) by (by rewrite Hfresh).
  case_match; [done|]. apply outcome_bind_Done in Hrun as ([res r1] & Hinner & [= -> <-]). simpl.
  unfold parallel_execute_inner in Hinner. case_match.
  { by apply replay_covers in Hinner as [? _]. }
  simpl in Hinner. destruct (db_basic _ _) as [[anchor|e] st]; [|done]. simpl in HP.
  apply outcome_bind_Done in Hinner as ([[clr s] st'] & Hph & Hinner).
  apply outcome_bind_Done in Hinner as ([inst r2] & (-> & _ & Hinst)%install_Done & Hpost).
  apply Hphase in Hph as (Hsize & Htxs & _ & Hfull); [|by rewrite Hfresh; eexists _, _, _, _|done]. simpl in *.
  destruct (clr_error clr); subst inst; [done|].
  apply post_execute_covers in Hpost as [Hl _]; simpl in *; [congruence|by rewrite Htxs, Hsize|].
  intros Ha. rewrite Hsize. by apply Hfull.
Qed.

End control.

(** ** Witnesses *)

Section examples.
#[local] Existing Instance revm_example.
#[local] Existing Instance revmdb_example.
#[local] Existing Instance cv_db.

Definition ct_tx : TxEnv := mkTxEnv 1 0 10 (Call 2) 21000 1.

(** Transaction 0 succeeds, transaction 1 is invalid, transaction 2 fails. *)
Definition ct_transact (i : TxId) (tx : TxEnv) (st : ParallelState unit) :
    result (EVMError unit) ExecutionResult * EvmState * ParallelState unit :=
  match i with
  | 0 => (Ok (5%Z : ExecutionResult), cv_changes, st)
  | 1 => (Err (Transaction (3%Z : InvalidTransaction)), ∅, st)
  | _ => (Err (Custom "fatal"), ∅, st)
  end.

Definition ct_runner (n : nat) : Runner (DB:=unit) (E:=unit) :=
  mkRunner (Sched_new (replicate n ct_tx) 77 None) cv_state [] false false false 0 4.

(** The joined threads leave the block to the sequential fallback. *)
Definition ct_phase (b : Address) (s : Scheduler.Sched unit) (st : ParallelState unit) :
    outcome (CommitLoopResult (E:=unit) * Scheduler.Sched unit * ParallelState unit) :=
  Done (mkCommitLoopResult (mkOutput []) None, abort FallbackSequential s, st).

Lemma replay_extends_prefix_witness :
  ∃ r e, replay_uncommitted_suffix ct_transact (mkPrefixEnd 0) (ct_runner 3) = Done (Err e, r) ∧
    ge_txid e = 2 ∧ length (rn_results r) = 2.
Proof.
  destruct (replay_uncommitted_suffix ct_transact (mkPrefixEnd 0) (ct_runner 3)) as [[res r]|] eqn:Hr.
  2: { exfalso. assert (Hc : match replay_uncommitted_suffix ct_transact (mkPrefixEnd 0) (ct_runner 3) with
         Done _ => true | Panic => false end = true) by (by vm_compute). by rewrite Hr in Hc. }
  assert (Hc : match replay_uncommitted_suffix ct_transact (mkPrefixEnd 0) (ct_runner 3) with
    | Done (Err e, _) => ge_txid e | _ => 9 end = 2) by (by vm_compute).
  rewrite Hr in Hc. destruct res as [u|e]; [done|].
  pose proof (replay_extends_prefix ct_transact 0 (ct_runner 3) (Err e) r eq_refl Hr) as H.
  cbv zeta in H. rewrite decide_True in H by (split; [done|apply Nat.le_0_l]).
  destruct H as (k & outs & st & _ & _ & Hk & _ & _ & He & _).
  exists r, e. split; [done|]. split; [done|]. by rewrite Hk, <-He.
Defined.

Lemma execution_is_one_shot_witness :
  ∃ r, fallback_sequential ct_transact 1 (ct_runner 2) = Done (Ok tt, r) ∧
    ∃ e, parallel_execute ct_transact ct_phase 77 None 1 r = Done (Err e, r).
Proof.
  destruct (fallback_sequential ct_transact 1 (ct_runner 2)) as [[res r]|] eqn:Hr.
  2: { exfalso. assert (Hc : match fallback_sequential ct_transact 1 (ct_runner 2) with
         Done _ => true | Panic => false end = true) by (by vm_compute). by rewrite Hr in Hc. }
  assert (Hc : match fallback_sequential ct_transact 1 (ct_runner 2) with
    | Done (Ok _, r) => concurrency_level r | _ => 0 end = 4) by (by vm_compute).
  rewrite Hr in Hc. destruct res as [[]|e]; [|done]. exists r. split; [done|].
  apply (execution_is_one_shot ct_transact ct_phase 77 None 1 (ct_runner 2) (Ok tt) r); [by right|].
  simpl. lia.
Defined.

Lemma successful_execution_covers_block_witness :
  ∃ r, parallel_execute ct_transact ct_phase 77 None 1 (ct_runner 2) = Done (Ok tt, r) ∧
    length (rn_results r) = 2.
Proof.
  destruct (parallel_execute ct_transact ct_phase 77 None 1 (ct_runner 2)) as [[res r]|] eqn:Hr.
  2: { exfalso. assert (Hc : match parallel_execute ct_transact ct_phase 77 None 1 (ct_runner 2) with
         Done _ => true | Panic => false end = true) by (by vm_compute). by rewrite Hr in Hc. }
  assert (Hc : match parallel_execute ct_transact ct_phase 77 None 1 (ct_runner 2) with
    | Done (r, _) => is_ok r | _ => false end = true) by (by vm_compute).
  rewrite Hr in Hc. destruct res as [[]|e]; [|done]. exists r. split; [done|].
  apply (successful_execution_covers_block ct_transact ct_phase (λ _, True) 77 None 1 (ct_runner 2) r); [| |done|done].
  - intros s st clr s' st' (tx & ben & an & m & ->) _ [= <- <- <-]. done.
  - by exists (replicate 2 ct_tx), 77%Z, None, Collector_default.
Defined.

End examples.
