(* ===== verification/Reserve.v ===== *)
(** The delegated-balance reserve: src/src/delegated_safety/reserve.rs, and the violation test
    of src/src/delegated_safety/handler.rs.

    [required_after] is the conservative cost of an account's later transactions, computed
    lazily and shared between workers. [delegated_debits_since] finds the delegated accounts
    that lost balance in the journal of a transaction and reconstructs what they had before.
    The theorems say that the planner returns the saturated sum whatever was asked before,
    that the reconstruction is exact, and which transactions the guard rejects. *)

From S2P Require Import Prelude Model.

(** ** Standard library *)

(** [slice::partition_point] on a slice that is partitioned: the length of the prefix that
    satisfies the predicate. *)
Fixpoint partition_point {A} (p : A → bool) (l : list A) : nat :=
  match l with
  | x :: l => if p x then S (partition_point p l) else 0
  | [] => 0
  end.

Section reserve.
Context `{!Revm}.

(** ** The planner *)

Record AccountReserveSchedule := mkSchedule {
  txids : list TxId;
  cost_from : list U256
}.

(** [None] is a [OnceLock] that is not initialized. *)
Record ReservePlanner := mkPlanner {
  rp_txs : list TxEnv;
  rp_index : option (gmap Address (list TxId));
  rp_schedules : gmap Address (option AccountReserveSchedule)
}.

Definition ReservePlanner_new (txs : list TxEnv) : ReservePlanner := mkPlanner txs None ∅.

Fixpoint build_index (txs : list TxEnv) (txid : TxId) (m : gmap Address (list TxId)) :
    gmap Address (list TxId) :=
  match txs with
  | [] => m
  | tx :: txs =>
    build_index txs (S txid) (<[caller tx := default [] (m !! caller tx) ++ [txid]]> m)
  end.

Definition sender_index (p : ReservePlanner) : gmap Address (list TxId) * ReservePlanner :=
  match rp_index p with
  | Some m => (m, p)
  | None =>
    let m := build_index (rp_txs p) 0 ∅ in (m, mkPlanner (rp_txs p) (Some m) (rp_schedules p))
  end.

(** [max_balance_spending().unwrap_or(U256::MAX)]. *)
Definition tx_cost (tx : TxEnv) : U256 := default U256_MAX (max_balance_spending tx).

(** The reverse loop of [build_schedule]: the running suffix and the costs stored so far. *)
Fixpoint build_costs (txs : list TxEnv) (txids : list TxId) : outcome (U256 * list U256) :=
  match txids with
  | [] => Done (0%Z, [])
  | txid :: txids =>
    let! (suffix, costs) := build_costs txs txids in
    let! tx := index txs txid in
    let suffix := saturating_add U256_MAX suffix (tx_cost tx) in
    Done (suffix, suffix :: costs)
  end.

Definition build_schedule (txs : list TxEnv) (ids : list TxId) : outcome AccountReserveSchedule :=
  let! (_, costs) := build_costs txs ids in Done (mkSchedule ids costs).

Definition schedule_required_after (s : AccountReserveSchedule) (txid : TxId) : U256 :=
  let i := partition_point (λ candidate, candidate <=? txid) (txids s) in
  if decide (i < length (cost_from s)) then default 0%Z (cost_from s !! i) else 0%Z.

Definition required_after (txid : TxId) (address : Address) (p : ReservePlanner) :
    outcome (U256 * ReservePlanner) :=
  let '(m, p) := sender_index p in
  match m !! address with
  | None => Done (0%Z, p)
  | Some ids =>
    if decide (partition_point (λ candidate, candidate <=? txid) ids = length ids) then Done (0%Z, p)
    else
      let! schedule :=
        match rp_schedules p !! address with
        | Some (Some schedule) => Done schedule
        | _ => build_schedule (rp_txs p) ids
        end in
      Done (schedule_required_after schedule txid,
            mkPlanner (rp_txs p) (rp_index p) (<[address := Some schedule]> (rp_schedules p)))
  end.

(** ** The journal *)

(** The entries of revm's journal that move a balance, and one constructor for the others. *)
Inductive JournalEntry :=
| BalanceTransfer (from to : Address) (value : U256)
| AccountDestroyed (destroyed target : Address) (had_balance : U256)
| BalanceChange (changed : Address) (old_balance : U256)
| OtherEntry.

Record DelegatedDebit := mkDebit {
  dd_address : Address;
  balance_before : U256;
  final_balance : U256
}.

Definition is_root_value_transfer (e : JournalEntry) (tx : TxEnv) : bool :=
  match e with
  | BalanceTransfer from to value =>
    if negb (bool_decide (from = caller tx)) || negb (bool_decide (value = tx_value tx)) then false
    else match tx_kind tx with Call target => bool_decide (to = target) | Create => true end
  | _ => false
  end.

(** The account an entry takes balance from. *)
Definition debit_source (e : JournalEntry) : option Address :=
  match e with
  | BalanceTransfer from to value =>
    if negb (bool_decide (from = to)) && negb (bool_decide (value = 0%Z)) then Some from else None
  | AccountDestroyed address _ had_balance =>
    if negb (bool_decide (had_balance = 0%Z)) then Some address else None
  | _ => None
  end.

Definition is_delegated (state : EvmState) (a : Address) : bool :=
  match state !! a with
  | Some account => match code (acc_info account) with Some c => is_eip7702 c | None => false end
  | None => false
  end.

(** The scan of the surviving entries from [entry_index] on. *)
Fixpoint first_debits (state : EvmState) (tx : TxEnv) (entries : list JournalEntry)
    (entry_index : nat) (root_value_pending : bool) (first_debit : gmap Address nat) : gmap Address nat :=
  match entries with
  | [] => first_debit
  | e :: entries =>
    if root_value_pending && is_root_value_transfer e tx then
      first_debits state tx entries (S entry_index) false first_debit
    else
      let first_debit :=
        match debit_source e with
        | Some source =>
          if is_delegated state source then
            match first_debit !! source with
            | Some _ => first_debit
            | None => <[source := entry_index]> first_debit
            end
          else first_debit
        | None => first_debit
        end in
      first_debits state tx entries (S entry_index) root_value_pending first_debit
  end.

(** One step of the reversed loop of [balance_before_entry]. *)
Definition undo_entry (a : Address) (b : U256) (e : JournalEntry) : U256 :=
  match e with
  | BalanceTransfer from to value =>
    if bool_decide (from = a) && negb (bool_decide (to = a)) then saturating_add U256_MAX b value
    else if bool_decide (to = a) && negb (bool_decide (from = a)) then saturating_sub b value
    else b
  | AccountDestroyed destroyed target had_balance =>
    if bool_decide (destroyed = a) then saturating_add U256_MAX b had_balance
    else if bool_decide (target = a) then saturating_sub b had_balance
    else b
  | BalanceChange changed old_balance => if bool_decide (changed = a) then old_balance else b
  | OtherEntry => b
  end.

Definition balance_before_entry (entries : list JournalEntry) (entry_index : nat) (a : Address)
    (final : U256) : U256 :=
  foldl (undo_entry a) final (rev (drop entry_index entries)).

Definition delegated_debits_since (state : EvmState) (entries : list JournalEntry) (checkpoint : nat)
    (tx : TxEnv) : list DelegatedDebit :=
  let pending := negb (bool_decide (tx_value tx = 0%Z)) in
  let first := first_debits state tx (drop checkpoint entries) checkpoint pending ∅ in
  omap (λ '(a, i),
    match state !! a with
    | Some account =>
      let final := balance (acc_info account) in
      Some (mkDebit a (balance_before_entry entries i a final) final)
    | None => None
    end) (map_to_list first).

(** The loop of [has_reserve_violation] over the candidates. *)
Fixpoint violation_loop (txid : TxId) (candidates : list DelegatedDebit) (p : ReservePlanner) :
    outcome (bool * ReservePlanner) :=
  match candidates with
  | [] => Done (false, p)
  | c :: candidates =>
    let! (future_cost, p) := required_after txid (dd_address c) p in
    if decide (future_cost = 0%Z) then violation_loop txid candidates p
    else
      let required := Z.min (balance_before c) future_cost in
      if decide (final_balance c < required)%Z then Done (true, p)
      else violation_loop txid candidates p
  end.

Definition has_reserve_violation (txid : TxId) (tx : TxEnv) (state : EvmState)
    (entries : list JournalEntry) (checkpoint : nat) (p : ReservePlanner) :
    outcome (bool * ReservePlanner) :=
  violation_loop txid (delegated_debits_since state entries checkpoint tx) p.

(** ** The planner is exact *)

(** The cost of the transactions of [a] strictly after [t], without a bound. *)
Fixpoint future_costs (i t : nat) (a : Address) (txs : list TxEnv) : Z :=
  match txs with
  | [] => 0
  | tx :: txs => (if decide (t < i ∧ caller tx = a) then tx_cost tx else 0) + future_costs (S i) t a txs
  end.

Definition required_spec (txs : list TxEnv) (t : TxId) (a : Address) : U256 :=
  Z.min U256_MAX (future_costs 0 t a txs).

(** The transactions of [a], in block order. *)
Fixpoint txids_of (i : nat) (a : Address) (txs : list TxEnv) : list TxId :=
  match txs with
  | [] => []
  | tx :: txs => if decide (caller tx = a) then i :: txids_of (S i) a txs else txids_of (S i) a txs
  end.

Lemma build_index_lookup txs i m a :
  build_index txs i m !! a =
  match txids_of i a txs with
  | [] => m !! a
  | ids => Some (default [] (m !! a) ++ ids)
  end.
Proof.
  revert i m. induction txs as [|tx txs IH]; intros i m; simpl; [done|].
  rewrite IH. destruct (decide (caller tx = a)) as [->|Hne].
  - rewrite lookup_insert_eq. destruct (txids_of (S i) a txs); simpl; by rewrite <-?app_assoc.
  - by rewrite lookup_insert_ne.
Qed.

Lemma txids_of_lookup txs i a x : x ∈ txids_of i a txs → ∃ tx, i ≤ x ∧ txs !! (x - i) = Some tx ∧ caller tx = a.
Proof.
  revert i. induction txs as [|tx txs IH]; intros i; simpl; [by intros ?%not_elem_of_nil|].
  assert (Hrec : x ∈ txids_of (S i) a txs → ∃ tx', i ≤ x ∧ (tx :: txs) !! (x - i) = Some tx' ∧ caller tx' = a).
  { intros (tx' & Hx & Hl & Ha)%IH. exists tx'. split_and!; [lia| |done].
    replace (x - i) with (S (x - S i)) by lia. done. }
  case_decide; [|done]. intros [->|?]%elem_of_cons; [|auto].
  exists tx. rewrite Nat.sub_diag. split_and!; [lia|done|done].
Qed.

Context (cost_nonneg : ∀ tx, (0 ≤ tx_cost tx)%Z).

Lemma future_costs_nonneg txs i t a : (0 ≤ future_costs i t a txs)%Z.
Proof.
  revert i. induction txs as [|tx txs IH]; intros i; simpl; [lia|].
  specialize (IH (S i)). specialize (cost_nonneg tx). case_decide; lia.
Qed.

(** The costs of a list of transactions. *)
Definition sum_costs (txs : list TxEnv) (ids : list TxId) : Z :=
  foldr (λ i acc, default 0 (tx_cost <$> txs !! i) + acc)%Z 0%Z ids.

Lemma sum_costs_nonneg txs ids : (0 ≤ sum_costs txs ids)%Z.
Proof.
  induction ids as [|i ids IH]; simpl; [lia|].
  destruct (txs !! i) as [tx|]; simpl; [specialize (cost_nonneg tx)|]; lia.
Qed.

Lemma build_costs_spec txs ids :
  (∀ i, i ∈ ids → i < length txs) →
  ∃ costs, build_costs txs ids = Done (Z.min U256_MAX (sum_costs txs ids), costs) ∧
    length costs = length ids ∧
    ∀ k, k < length ids → costs !! k = Some (Z.min U256_MAX (sum_costs txs (drop k ids))).
Proof.
  induction ids as [|i ids IH]; intros Hids; simpl.
  { exists []. split_and!; [done|done|]. intros k Hk. lia. }
  destruct IH as (costs & -> & Hlen & Hk); [set_solver|]. simpl.
  destruct (lookup_lt_is_Some_2 txs i) as [tx Htx]; [apply Hids; set_solver|].
  unfold index. rewrite Htx. simpl. unfold saturating_add.
  pose proof (sum_costs_nonneg txs ids). specialize (cost_nonneg tx).
  replace (Z.min (Z.min U256_MAX (sum_costs txs ids) + tx_cost tx) U256_MAX)
    with (Z.min U256_MAX (tx_cost tx + sum_costs txs ids)) by lia.
  eexists. split_and!; [done|simpl; by rewrite Hlen|].
  intros [|k] Hlt; simpl; [by rewrite Htx|]. apply Hk. lia.
Qed.

Lemma partition_point_none ids t : (∀ i, i ∈ ids → t < i) → partition_point (λ c, c <=? t) ids = 0.
Proof.
  destruct ids as [|i ids]; [done|]. intros Hi. simpl.
  destruct (Nat.leb_spec i t) as [Hle|]; [|done]. specialize (Hi i). set_solver by lia.
Qed.

Lemma partition_point_le {A} (p : A → bool) l : partition_point p l ≤ length l.
Proof. induction l as [|x l IH]; simpl; [done|]. destruct (p x); lia. Qed.

Lemma future_costs_ids txs pre rest t a :
  txs = pre ++ rest →
  let ids := txids_of (length pre) a rest in
  future_costs (length pre) t a rest = sum_costs txs (drop (partition_point (λ c, c <=? t) ids) ids).
Proof.
  revert pre. induction rest as [|tx rest IH]; intros pre ->; simpl; [done|].
  specialize (IH (pre ++ [tx])). rewrite length_app, Nat.add_1_r in IH. simpl in IH.
  rewrite IH by (by rewrite <-app_assoc). destruct (decide (caller tx = a)) as [Ha|Ha].
  2: { rewrite decide_False by tauto. done. }
  simpl. destruct (Nat.leb_spec (length pre) t).
  { rewrite decide_False by lia. done. }
  rewrite decide_True by (split; [lia|done]). simpl.
  rewrite partition_point_none by (intros i (? & ? & _)%txids_of_lookup; lia).
  by rewrite lookup_app_r, Nat.sub_diag by lia.
Qed.

(** The lazily initialized parts hold what they are initialized with. *)
Definition planner_ok (txs : list TxEnv) (p : ReservePlanner) : Prop :=
  rp_txs p = txs ∧ (rp_index p = None ∨ rp_index p = Some (build_index txs 0 ∅)) ∧
  ∀ a s, rp_schedules p !! a = Some (Some s) → build_schedule txs (txids_of 0 a txs) = Done s.

Lemma sender_index_ok txs p m p' :
  planner_ok txs p → sender_index p = (m, p') → m = build_index txs 0 ∅ ∧ planner_ok txs p'.
Proof.
  intros (Htxs & Hidx & Hs). unfold sender_index. destruct (rp_index p) as [m'|] eqn:Hm.
  - intros [= <- <-]. destruct Hidx as [|[= ->]]; [done|]. split; [done|]. split_and!; [done|by right; rewrite Hm|done].
  - intros [= <- <-]. rewrite Htxs. split; [done|]. split_and!; [done|by right|done].
Qed.

Lemma txids_of_lt txs a i : i ∈ txids_of 0 a txs → i < length txs.
Proof. intros (tx & _ & Hl & _)%txids_of_lookup. rewrite Nat.sub_0_r in Hl. by eapply lookup_lt_Some. Qed.

Lemma required_after_ok txs p t a :
  planner_ok txs p → ∃ p', required_after t a p = Done (required_spec txs t a, p') ∧ planner_ok txs p'.
Proof.
  intros Hp. unfold required_after, required_spec. destruct (sender_index p) as [m p'] eqn:Hi.
  destruct (sender_index_ok _ _ _ _ Hp Hi) as [-> Hp'].
  rewrite build_index_lookup, lookup_empty. simpl.
  pose proof (future_costs_ids txs [] txs t a eq_refl) as Hf. simpl in Hf. rewrite Hf.
  set (ids := txids_of 0 a txs) in *. set (k := partition_point (λ c, c <=? t) ids) in *.
  destruct (build_costs_spec txs ids) as (costs & Hb & Hlen & Hcosts); [intros i; apply txids_of_lt|].
  assert (Hsched : build_schedule txs ids = Done (mkSchedule ids costs)) by (unfold build_schedule; by rewrite Hb).
  assert (Hk : k ≤ length ids) by apply partition_point_le.
  assert (Hnone : drop k ids = [] → Z.min U256_MAX (sum_costs txs (drop k ids)) = 0%Z) by (by intros ->).
  assert (Hmain : ∃ p'', (if decide (k = length ids) then Done (0%Z, p') else
      let! schedule := match rp_schedules p' !! a with Some (Some s) => Done s | _ => build_schedule (rp_txs p') ids end in
      Done (schedule_required_after schedule t,
        mkPlanner (rp_txs p') (rp_index p') (<[a:=Some schedule]> (rp_schedules p')))) =
    Done (Z.min U256_MAX (sum_costs txs (drop k ids)), p'') ∧ planner_ok txs p'').
  { case_decide as Hd; [exists p'; rewrite Hnone by (by apply drop_ge; lia); done|].
    destruct Hp' as (Htxs & Hidx & Hs). rewrite Htxs.
    assert (Hcell : match rp_schedules p' !! a with Some (Some s) => Done s | _ => build_schedule txs ids end =
      Done (mkSchedule ids costs)).
    { destruct (rp_schedules p' !! a) as [[s|]|] eqn:Ha; [|done|done]. apply Hs in Ha. fold ids in Ha. congruence. }
    rewrite Hcell. simpl. unfold schedule_required_after. simpl. fold k.
    rewrite decide_True by lia. rewrite Hcosts by lia. simpl.
    eexists. split; [done|]. split_and!; [done|done|].
    intros a' s. simpl. intros [[<- [= <-]]|[_ ?]]%lookup_insert_Some; [done|by apply Hs]. }
  destruct ids as [|i ids']; [|exact Hmain].
  exists p'. by rewrite drop_nil.
Qed.

(** C21. The planner returns, whatever was asked before, the cost of the account's transactions
    strictly after the given one: the sum of their maximum costs, a cost that overflows counting
    as the maximum, saturated at 256 bits. A query never panics and keeps the planner
    consistent. *)
Theorem required_after_exact txs p t a :
  planner_ok txs p → ∃ p', required_after t a p = Done (required_spec txs t a, p') ∧ planner_ok txs p'.
Proof. apply required_after_ok. Qed.

(** ** The journal is read back exactly *)

(** What an entry says of the balances before and after it, as revm records it. *)
Definition entry_applies (e : JournalEntry) (b b' : Address → U256) : Prop :=
  match e with
  | BalanceTransfer from to v =>
    if decide (from = to) then ∀ a, b' a = b a
    else ∀ a, b' a = (if decide (a = from) then b a - v else if decide (a = to) then b a + v else b a)%Z
  | AccountDestroyed d t had =>
    b d = had ∧ ∀ a, b' a = (if decide (a = d) then 0 else if decide (a = t) then b a + had else b a)%Z
  | BalanceChange c old => b c = old ∧ ∀ a, a ≠ c → b' a = b a
  | OtherEntry => ∀ a, b' a = b a
  end.

Lemma undo_entry_exact e b b' a :
  (∀ a, in_range U256_MAX (b a)) → entry_applies e b b' → undo_entry a (b' a) e = b a.
Proof.
  intros Hr. specialize (Hr a). unfold in_range in Hr.
  destruct e as [from to v|d t had|c old|]; simpl; unfold saturating_add, saturating_sub.
  - case_decide as Hft; intros Hb; rewrite Hb; repeat case_bool_decide; simpl; repeat case_decide; subst; done || lia.
  - intros [<- Hb]. rewrite Hb. repeat case_bool_decide; simpl; repeat case_decide; subst; done || lia.
  - intros [<- Hb]. case_bool_decide; [by subst|]. by apply Hb.
  - done.
Qed.

(** [bal i] are the balances before entry [i]. *)
Definition balance_trace (entries : list JournalEntry) (checkpoint : nat) (bal : nat → Address → U256) : Prop :=
  (∀ i a, in_range U256_MAX (bal i a)) ∧
  ∀ i e, checkpoint ≤ i → entries !! i = Some e → entry_applies e (bal i) (bal (S i)).

Lemma balance_before_exact entries checkpoint bal i a :
  balance_trace entries checkpoint bal → checkpoint ≤ i ≤ length entries →
  balance_before_entry entries i a (bal (length entries) a) = bal i a.
Proof.
  intros [Hr He]. unfold balance_before_entry. intros [Hi Hl].
  remember (length entries - i) as n eqn:Hn. revert i Hi Hl Hn. induction n as [|n IH]; intros i Hi Hl Hn.
  { rewrite drop_ge by lia. simpl. by replace i with (length entries) by lia. }
  destruct (lookup_lt_is_Some_2 entries i) as [e Hei]; [lia|].
  rewrite (drop_S _ _ _ Hei). simpl. rewrite foldl_app, IH by lia. simpl.
  apply undo_entry_exact; [apply Hr|]. by apply He.
Qed.

(** ** The guard *)

(** The entries from [es] on whose debit of [a] is protected: every debit of a delegated
    account, except the first transfer that is the transaction's own value. *)
Definition protected (state : EvmState) (tx : TxEnv) (es : list JournalEntry) (pending : bool)
    (n : nat) (a : Address) : Prop :=
  ∃ e, es !! n = Some e ∧ debit_source e = Some a ∧ is_delegated state a = true ∧
    ¬ (pending = true ∧ is_root_value_transfer e tx = true ∧
       ∀ m e', m < n → es !! m = Some e' → is_root_value_transfer e' tx = false).

Lemma protected_S state tx e es pending n a :
  protected state tx (e :: es) pending (S n) a ↔
  protected state tx es (pending && negb (is_root_value_transfer e tx)) n a.
Proof.
  unfold protected. simpl. f_equiv. intros e'. do 3 f_equiv.
  rewrite andb_true_iff, negb_true_iff. split; intros Hn (Hp & Hr & Hm); apply Hn.
  - destruct Hp. split_and!; [done|done|]. intros [|m] e'' Hlt; simpl; [by intros [= <-]|].
    intros Hm'. eapply Hm; [|done]. lia.
  - split_and!; [done| |done|].
    + apply (Hm 0); [lia|done].
    + intros m e'' Hlt. apply (Hm (S m)). lia.
Qed.

Lemma protected_0 state tx e es pending a :
  protected state tx (e :: es) pending 0 a ↔
  debit_source e = Some a ∧ is_delegated state a = true ∧ pending && is_root_value_transfer e tx = false.
Proof.
  unfold protected. simpl. rewrite andb_false_iff. split.
  - intros (e' & [= <-] & Hs & Hd & Hn). split_and!; [done|done|].
    destruct pending, (is_root_value_transfer e tx); auto. exfalso. apply Hn. split_and!; [done|done|]. lia.
  - intros (Hs & Hd & Hn). exists e. split_and!; [done|done|done|]. intros (? & ? & _). destruct Hn; congruence.
Qed.

Definition first_protected state tx es pending n a : Prop :=
  protected state tx es pending n a ∧ ∀ m, m < n → ¬ protected state tx es pending m a.

Lemma first_debits_lookup state tx es k pending acc a i :
  first_debits state tx es k pending acc !! a = Some i ↔
  acc !! a = Some i ∨ (acc !! a = None ∧ ∃ n, i = k + n ∧ first_protected state tx es pending n a).
Proof.
  revert k pending acc. induction es as [|e es IH]; intros k pending acc; simpl.
  { split; [auto|]. intros [?|(_ & n & _ & (e & Hn & _) & _)]; [done|by rewrite lookup_nil in Hn]. }
  set (pending' := pending && negb (is_root_value_transfer e tx)).
  assert (Hshift : ∀ P : Prop, (P ↔ protected state tx (e :: es) pending 0 a) →
    (∃ n, i = k + n ∧ first_protected state tx (e :: es) pending n a) ↔
    (P ∧ i = k) ∨ (¬ P ∧ ∃ n, i = S k + n ∧ first_protected state tx es pending' n a)).
  { intros P HP. split.
    - intros ([|n] & -> & Hn & Hm).
      + left. split; [by apply HP|lia].
      + right. split; [rewrite HP; apply Hm; lia|]. exists n. split; [lia|]. split; [by apply protected_S|].
        intros m Hlt Hpr. apply (Hm (S m)); [lia|]. by apply protected_S.
    - intros [[Hp ->]|(Hp & n & -> & Hn & Hm)].
      + exists 0. split; [lia|]. split; [by apply HP|lia].
      + exists (S n). split; [lia|]. split; [by apply protected_S|].
        intros [|m] Hlt; [by rewrite <-HP|]. intros Hpr%protected_S. apply (Hm m); [lia|done]. }
  specialize (Hshift _ (iff_refl _)). rewrite Hshift, protected_0. clear Hshift.
  destruct (pending && is_root_value_transfer e tx) eqn:Hroot.
  { apply andb_true_iff in Hroot as [-> Hr]. rewrite IH. subst pending'. rewrite Hr. simpl.
    generalize (∃ n, i = S (k + n) ∧ first_protected state tx es false n a). naive_solver. }
  assert (pending' = pending) as ->.
  { subst pending'. destruct pending, (is_root_value_transfer e tx); done. }
  rewrite IH. generalize (∃ n, i = S k + n ∧ first_protected state tx es pending n a). intros X.
  assert (Hno : debit_source e ≠ Some a ∨ is_delegated state a = false →
    acc !! a = Some i ∨ (acc !! a = None ∧ X) ↔ acc !! a = Some i ∨ (acc !! a = None ∧
      ((debit_source e = Some a ∧ is_delegated state a = true ∧ false = false) ∧ i = k ∨
       ¬ (debit_source e = Some a ∧ is_delegated state a = true ∧ false = false) ∧ X))).
  { intros Hn. assert (¬ (debit_source e = Some a ∧ is_delegated state a = true ∧ false = false)).
    { intros (? & ? & _). destruct Hn; congruence. } tauto. }
  destruct (debit_source e) as [src|]; [|by apply Hno; left].
  destruct (decide (src = a)) as [->|Hne].
  - destruct (is_delegated state a); [|by apply Hno; right].
    destruct (acc !! a) as [x|] eqn:Ha; [rewrite Ha; naive_solver|].
    rewrite lookup_insert_eq. naive_solver.
  - destruct (is_delegated state src); [destruct (acc !! src); [|rewrite lookup_insert_ne by done]|];
      apply Hno; left; congruence.
Qed.

Lemma violation_loop_ok txs t cs p :
  planner_ok txs p → (∀ c, c ∈ cs → 0 ≤ final_balance c)%Z →
  ∃ v p', violation_loop t cs p = Done (v, p') ∧ planner_ok txs p' ∧
    (v = true ↔ ∃ c, c ∈ cs ∧ final_balance c < Z.min (balance_before c) (required_spec txs t (dd_address c)))%Z.
Proof.
  revert p. induction cs as [|c cs IH]; intros p Hp Hf; simpl.
  { exists false, p. split_and!; [done|done|]. split; [done|]. by intros (c & ?%not_elem_of_nil & _). }
  destruct (required_after_ok txs p t (dd_address c) Hp) as (p1 & -> & Hp1). simpl.
  destruct (IH p1 Hp1) as (v & p2 & Hloop & Hp2 & Hv); [set_solver|].
  assert (0 ≤ final_balance c)%Z by (apply Hf; set_solver).
  assert (Hskip : ¬ (final_balance c < Z.min (balance_before c) (required_spec txs t (dd_address c)))%Z →
    v = true ↔ ∃ c0, c0 ∈ c :: cs ∧ (final_balance c0 < Z.min (balance_before c0) (required_spec txs t (dd_address c0)))%Z).
  { intros Hc. rewrite Hv. split; intros (c0 & Hin & Hlt); [set_solver|].
    apply elem_of_cons in Hin as [->|?]; [done|eauto]. }
  case_decide as Hz; [exists v, p2; split_and!; [done|done|]; apply Hskip; lia|].
  case_decide as Hlt; [|exists v, p2; split_and!; [done|done|]; by apply Hskip].
  exists true, p1. split_and!; [done|done|]. split; [|done]. intros _. exists c. set_solver.
Qed.

(** C20. The reserve guard rejects exactly the transactions that break the reserve. It never
    panics; it reports a violation if and only if some account that is delegated at the end has
    a protected debit in the surviving journal (the transaction's own value transfer is exempt)
    and ends with less than both the balance it had before the first such debit and the cost of
    its later transactions in the block. *)
Theorem reserve_violation_exact txs p t tx state entries checkpoint bal :
  planner_ok txs p → checkpoint ≤ length entries → balance_trace entries checkpoint bal →
  (∀ a account, state !! a = Some account → bal (length entries) a = balance (acc_info account)) →
  ∃ v p', has_reserve_violation t tx state entries checkpoint p = Done (v, p') ∧ planner_ok txs p' ∧
    (v = true ↔ ∃ a n,
       first_protected state tx (drop checkpoint entries) (negb (bool_decide (tx_value tx = 0%Z))) n a ∧
       (bal (length entries) a < Z.min (bal (checkpoint + n)%nat a) (required_spec txs t a))%Z).
Proof.
  intros Hp Hck Htrace Hfinal.
  set (pending := negb (bool_decide (tx_value tx = 0%Z))).
  assert (Hcand : ∀ c, c ∈ delegated_debits_since state entries checkpoint tx ↔
    ∃ n, first_protected state tx (drop checkpoint entries) pending n (dd_address c) ∧
      balance_before c = bal (checkpoint + n) (dd_address c) ∧ final_balance c = bal (length entries) (dd_address c)).
  { intros [a before final]. unfold delegated_debits_since. rewrite list_elem_of_omap. fold pending. simpl. split.
    - intros ([a' i] & Hin%elem_of_map_to_list & Hc). destruct (state !! a') as [account|] eqn:Ha; [|done].
      injection Hc as -> <- <-. apply first_debits_lookup in Hin as [[]%lookup_empty_Some|(_ & n & -> & Hn)].
      exists n. rewrite <-(Hfinal _ _ Ha). split_and!; [done| |done].
      eapply balance_before_exact; [done|]. destruct Hn as [(e & He%lookup_lt_Some & _) _].
      rewrite length_drop in He. lia.
    - intros (n & Hn & Hb & Hf). exists (a, checkpoint + n). split.
      + apply elem_of_map_to_list, first_debits_lookup. right. rewrite lookup_empty. eauto.
      + destruct Hn as [(e & He%lookup_lt_Some & _ & Hd & _) _]. rewrite length_drop in He.
        unfold is_delegated in Hd. destruct (state !! a) as [account|] eqn:Ha; [|done].
        rewrite <-(Hfinal _ _ Ha), (balance_before_exact _ checkpoint bal) by (done || lia). by subst. }
  unfold has_reserve_violation.
  destruct (violation_loop_ok txs t (delegated_debits_since state entries checkpoint tx) p Hp) as (v & p' & Hv & Hp' & Hiff).
  { intros c (n & _ & _ & ->)%Hcand. apply Htrace. }
  exists v, p'. split_and!; [done|done|]. rewrite Hiff. split.
  - intros (c & (n & Hn & Hb & Hf)%Hcand & Hlt). exists (dd_address c), n. split; [done|]. by rewrite <-Hb, <-Hf.
  - intros (a & n & Hn & Hlt). exists (mkDebit a (bal (checkpoint + n) a) (bal (length entries) a)).
    split; [|done]. apply Hcand. by exists n.
Qed.

End reserve.

(** ** Witnesses *)

Section examples.
#[local] Existing Instance revm_example.

Lemma rx_cost_nonneg tx : (0 ≤ tx_cost tx)%Z.
Proof. unfold tx_cost. simpl. case_decide; simpl; [lia|]. unfold U256_MAX. lia. Qed.

(** Account 1 sends transactions 0 and 2; account 9 sends transaction 1. *)
Definition rx_txs : list TxEnv :=
  [mkTxEnv 1 0 10 (Call 2) 0 0; mkTxEnv 9 0 4 (Call 1) 0 0; mkTxEnv 1 1 50 (Call 2) 0 0].

Lemma rx_new_ok : planner_ok rx_txs (ReservePlanner_new rx_txs).
Proof. split_and!; [done|by left|]. by intros a s. Qed.

Lemma required_after_exact_witness :
  ∃ p p', required_after 0 1 (ReservePlanner_new rx_txs) = Done (50%Z, p) ∧
    required_after 2 1 p = Done (0%Z, p').
Proof.
  destruct (required_after_exact rx_cost_nonneg rx_txs (ReservePlanner_new rx_txs) 0 1 rx_new_ok) as (p & Hp & Hok).
  destruct (required_after_exact rx_cost_nonneg rx_txs p 2 1 Hok) as (p' & Hp' & _).
  exists p, p'. split; [exact Hp|exact Hp'].
Defined.

(** Transaction 1 calls account 1, which is delegated: its code forwards 80 of its 100. *)
Definition rx_info (b : Z) (c : option Bytecode) : AccountInfo := mkInfo b 0 11 c.
Definition rx_state : EvmState :=
  <[1%Z := mkAccount true false false (rx_info 24 (Some [239; 1; 0]%Z)) ∅]>
  (<[5%Z := mkAccount true false false (rx_info 80 None) ∅]> ∅).
Definition rx_journal : list JournalEntry := [BalanceTransfer 9 1 4; BalanceTransfer 1 5 80].
Definition rx_bal (i : nat) (a : Address) : U256 :=
  match i with
  | 0 => (if decide (a = 1) then 100 else if decide (a = 9) then 4 else 0)%Z
  | 1 => (if decide (a = 1) then 104 else 0)%Z
  | _ => (if decide (a = 1) then 24 else if decide (a = 5) then 80 else 0)%Z
  end.

(** It keeps 24, less than the 50 its transaction 2 may cost. *)
Lemma reserve_violation_exact_witness :
  ∃ p, has_reserve_violation 1 (mkTxEnv 9 0 4 (Call 1) 0 0) rx_state rx_journal 0 (ReservePlanner_new rx_txs) = Done (true, p).
Proof.
  destruct (reserve_violation_exact rx_cost_nonneg rx_txs (ReservePlanner_new rx_txs) 1
    (mkTxEnv 9 0 4 (Call 1) 0 0) rx_state rx_journal 0 rx_bal) as (v & p & Hv & _ & Hiff).
  - apply rx_new_ok.
  - simpl. lia.
  - split.
    + intros i a. unfold rx_bal, in_range, U256_MAX. destruct i as [|[|i]]; repeat case_decide; lia.
    + intros [|[|i]] e _ He; simplify_eq/=; intros a; unfold rx_bal; repeat case_decide; lia.
  - intros a account. unfold rx_state.
    intros [[<- <-]|[_ [[<- <-]|[_ []%lookup_empty_Some]]%lookup_insert_Some]]%lookup_insert_Some; done.
  - exists p. rewrite Hv. f_equal. f_equal. apply Hiff. exists 1%Z, 1. split; [|done].
    split.
    + exists (BalanceTransfer 1 5 80). split_and!; [done|done|done|]. by intros (_ & ? & _).
    + intros m Hm (e & He & Hs & _). replace m with 0 in * by lia. simplify_eq/=.
Defined.

End examples.
