(* ===== verification/Pipeline.v ===== *)
(** The commit pipeline: finality, ordered commit and the speculative workers together
    (src/src/scheduler.rs, src/src/scheduler/ordered_commit.rs, src/src/parallel_state.rs).

    [pipe_step] interleaves the workers and the finality loop of Interleave.v, reads of the
    shared cache, and the iterations of the commit loop. The theorems say that outcomes,
    committed cursor and state always describe the same prefix of finalized results, and that
    the joined threads give what Control.v relies on. *)

From S2P Require Import Prelude Model Reward History World IncarnationDb ParallelState CacheView TxDependency Context Metrics Scheduler OrderedCommit Interleave Finality Control.

Section pipeline.
Context `{!Revm} `{!RevmDb} {DB E : Type} `{!DatabaseRef DB E}.
Abbreviation Sched := (Scheduler.Sched E).
Abbreviation Sys := (Interleave.Sys (E:=E)).
Abbreviation OrderedCommitter := (OrderedCommit.OrderedCommitter (DB:=DB)).
Abbreviation TransactionResult := (Scheduler.TransactionResult E).

(** ** What a worker step does to results *)

(** The results are left alone, or one execution is settled. *)
Definition results_change (σ σ' : Sys) : Prop :=
  tx_results (sch σ') = tx_results (sch σ) ∨
  ∃ t v x ps r, phase σ !! t = Some (PPublish v x ps []) ∧ frame t (sch σ) (sch σ') ∧
    res_at (sch σ') t = Some r ∧ execute_result r = ie_result x.

Record worker_effect (σ σ' : Sys) : Prop := {
  we_size : block_size (sch σ') = block_size (sch σ);
  we_txs : txs (sch σ') = txs (sch σ);
  we_abort : abort_flag (sch σ) = true → abort_flag (sch σ') = true;
  we_committed : committed (scheduler_ctx (sch σ')) = committed (scheduler_ctx (sch σ));
  we_final : final_idx (sch σ) ≤ final_idx (sch σ');
  we_results : results_change σ σ';
  we_reads t rd : t < final_idx (sch σ) → read_ok (sch σ) t rd → read_ok (sch σ') t rd;
  we_new t : final_idx (sch σ) ≤ t < final_idx (sch σ') →
    ∃ r sr, res_at (sch σ') t = Some r ∧ execute_result r = Ok sr;
  we_phase t v x ps todo : phase σ' !! t = Some (PPublish v x ps todo) →
    phase σ !! t = None ∨ ∃ todo', phase σ !! t = Some (PPublish v x ps todo')
}.

(** A step of a transaction that is not final. *)
Lemma worker_effect_frame σ σ' k :
  frame k (sch σ) (sch σ') → final_idx (sch σ) ≤ k → results_change σ σ' →
  (∀ t v x ps todo, phase σ' !! t = Some (PPublish v x ps todo) →
    phase σ !! t = None ∨ ∃ todo', phase σ !! t = Some (PPublish v x ps todo')) →
  worker_effect σ σ'.
Proof.
  intros Hf Hk Hr Hph. split; try apply Hf; try done.
  - by rewrite (fr_final _ _ _ Hf).
  - intros t rd Ht. eapply read_ok_below; [done|lia].
  - intros t. rewrite (fr_final _ _ _ Hf). lia.
Qed.

Lemma not_final (σ : Sys) t st : sys_inv σ → status_at (sch σ) t = Some st → st ≠ Finality → final_idx (sch σ) ≤ t.
Proof. intros Hinv Hst Hne. destruct (decide (final_idx (sch σ) ≤ t)); [done|]. rewrite (proj2 (si_final _ Hinv t)) in Hst by lia. congruence. Qed.

Lemma task_status t (s s' : Sched) task :
  execution_task t s = Done (task, s') ∨ validation_task t s = Done (task, s') →
  same_core s s' ∨ (frame t s s' ∧ tx_results s' = tx_results s ∧
    ∃ st, status_at s t = Some st ∧ st ≠ Finality).
Proof.
  intros [(x & Hx%index_Done & Hrest)%outcome_bind_Done|(x & Hx%index_Done & Hrest)%outcome_bind_Done].
  all: assert (Hlt := lookup_lt_Some _ _ _ Hx).
  all: assert (Hins : ∀ y, frame t s (set_tx_states (<[t := y]> (tx_states s)) s))
    by (intros y; split; try done; simpl; [by rewrite length_insert|]; intros; by rewrite list_lookup_insert_ne).
  all: assert (Hst : status_at s t = Some (status x)) by (unfold status_at; by rewrite Hx).
  all: cbv zeta in Hrest; destruct (status x) eqn:Hs; simplify_eq.
  all: try (left; by apply same_core_refl).
  all: try (right; split; [apply Hins|]; split; [done|]; eexists; split; [done|]; congruence).
  all: apply outcome_bind_Done in Hrest as ([? ?] & _ & [= <- <-]); left; by split.
Qed.

Lemma worker_effect_core σ σ' :
  same_core (sch σ) (sch σ') →
  (∀ t v x ps todo, phase σ' !! t = Some (PPublish v x ps todo) →
    phase σ !! t = None ∨ ∃ todo', phase σ !! t = Some (PPublish v x ps todo')) →
  worker_effect σ σ'.
Proof.
  intros Hc Hph. eapply worker_effect_frame; [by apply same_core_frame|done| |done]. left. apply Hc.
Qed.

(** The phases of the other transactions stay; the one of [t] may start, go on or end. *)
Lemma phases_insert (ph : gmap TxId (Phase (E:=E))) t p :
  match p with
  | PPublish v x ps _ => ph !! t = None ∨ ∃ todo', ph !! t = Some (PPublish v x ps todo')
  | _ => True
  end →
  ∀ k v x ps todo, <[t := p]> ph !! k = Some (PPublish v x ps todo) →
    ph !! k = None ∨ ∃ todo', ph !! k = Some (PPublish v x ps todo').
Proof.
  intros Hp k v x ps todo [[<- ->]|[_ ?]]%lookup_insert_Some; [done|eauto].
Qed.

Lemma phases_delete (ph : gmap TxId (Phase (E:=E))) t :
  ∀ k v x ps todo, delete t ph !! k = Some (PPublish v x ps todo) →
    ph !! k = None ∨ ∃ todo', ph !! k = Some (PPublish v x ps todo').
Proof. intros k v x ps todo [_ ?]%lookup_delete_Some. eauto. Qed.

Lemma worker_settle s ph fl t v x ps c s' :
  sys_inv (mkSys s ph fl) → ph !! t = Some (PPublish v x ps []) → execute_settle v x s = Done (c, s') →
  worker_effect (mkSys s ph fl) (mkSys s' (delete t ph) fl).
Proof.
  intros Hinv Hph Hset.
  destruct (publishing_status (mkSys s ph fl) _ _ _ _ _ Hinv Hph) as (Hst & -> & Hpub). cbn [sch] in *.
  assert (Hrec := publishing_recordable _ _ _ _ _ Hpub).
  assert (Heff : frame t s s' ∧ ∃ r, res_at s' t = Some r ∧ execute_result r = ie_result x).
  { destruct x as [[sr|e] a].
    - apply execute_settle_ok_effect in Hset as (Hf & _ & _ & Hr & _); [|done]. eauto.
    - apply execute_settle_err_effect in Hset as (Hf & _ & _ & (r & Hr & He & _) & _); [|done]. eauto. }
  destruct Heff as (Hf & r & Hr & Hx). apply (worker_effect_frame _ _ t); [done| | |apply phases_delete].
  - by eapply (not_final (mkSys s ph fl)).
  - right. exists t, (mkTxVersion t (inc_at s t)), x, ps, r. done.
Qed.

Lemma worker_finality s ph fl first fl' s' :
  sys_inv (mkSys s ph fl) → ph !! final_idx s = None →
  finality_iteration (final_idx s) fl first s = Done (Some fl', s') →
  worker_effect (mkSys s ph fl) (mkSys s' ph fl').
Proof.
  intros Hinv Hph (s1 & Hs1 & Hst & Hcore & _)%finality_iteration_some.
  destruct (frame_status _ _ _ _ Hs1) as (Hf & Hst1 & Hi1 & Hr1 & Hm1 & Hb1 & Hc1).
  assert (Hres : tx_results s' = tx_results s) by (by rewrite (sc_results _ _ Hcore)).
  assert (Hfin : final_idx s' = S (final_idx s)) by (unfold final_idx; by rewrite (sc_finality _ _ Hcore)).
  split; cbn [sch phase].
  - by rewrite (sc_size _ _ Hcore), <-(fr_size _ _ _ Hf).
  - by rewrite (sc_txs _ _ Hcore), <-(fr_txs _ _ _ Hf).
  - intros Ha. apply (sc_abort _ _ Hcore). simpl. by apply (fr_abort _ _ _ Hf).
  - rewrite (sc_committed _ _ Hcore), <-(fr_committed _ _ _ Hf). done.
  - lia.
  - by left.
  - intros t rd Ht. apply read_ok_estimates; unfold anchor_of, hist_at, ent; rewrite ?(sc_memory _ _ Hcore), ?(sc_beneficiary _ _ Hcore); simpl;
      rewrite ?Hm1, ?Hb1; auto.
  - intros t Ht. replace t with (final_idx s) by lia. pose proof (si_tx _ Hinv (final_idx s)) as Hok.
    unfold phase_ok in Hok. cbn [sch phase] in Hok. rewrite Hst, Hph in Hok.
    destruct Hok as [((r & sr & Hr & Hsr) & _) _]. exists r, sr. split; [|done]. unfold res_at. by rewrite Hres.
  - eauto.
Qed.

Lemma worker_task s ph fl t task s' :
  sys_inv (mkSys s ph fl) → execution_task t s = Done (task, s') ∨ validation_task t s = Done (task, s') →
  worker_effect (mkSys s ph fl) (mkSys s' ph fl).
Proof.
  intros Hinv [Hc|(Hf & Hr & st & Hst & Hne)]%task_status; [apply worker_effect_core; eauto|].
  apply (worker_effect_frame _ _ t); [done| |by left|eauto]. by eapply (not_final (mkSys s ph fl)).
Qed.

Lemma worker_verdict s ph fl t v ts r seen c d s' :
  sys_inv (mkSys s ph fl) → ph !! t = Some (PScan v ts r seen [] c d) → validate_finish v ts r c d s = Done s' →
  worker_effect (mkSys s ph fl) (mkSys s' (delete t ph) fl).
Proof.
  intros Hinv Hph Hfin.
  destruct (scanning_status (mkSys s ph fl) _ _ _ _ _ _ _ _ Hinv Hph) as (Hst & Hd & -> & _). cbn [sch] in *.
  assert (Heff : frame t s s' ∧ tx_results s' = tx_results s).
  { destruct c.
    - destruct Hd as (_ & _ & y & Hy & Hyi).
      eapply validate_finish_conflict_effect in Hfin as (? & ? & _); [done|done|done].
    - apply validate_finish_ok_effect in Hfin as (? & ? & _). done. }
  destruct Heff as [Hf Hr]. apply (worker_effect_frame _ _ t); [done| |by left|apply phases_delete].
  by eapply (not_final (mkSys s ph fl)).
Qed.

Lemma worker_step_effect σ σ' : sys_inv σ → worker_step σ σ' → worker_effect σ σ'.
Proof.
  intros Hinv Hstep. destruct Hstep as
    [s ph fl v s1 sr idb ps Hph Hb ->|s ph fl v s1 e idb Hph Hb|s ph fl t v x ps l val todo Hph|s ph fl t v x ps c s' Hph Hset
    |s ph fl t task s' Hph Ht|s ph fl t task s' Hph Ht|s ph fl v ts r s' Hph Hv|s ph fl t v ts r seen rd todo c d c' d' Hph Hr
    |s ph fl t v ts r seen c d s' Hph Hv|s ph fl first fl' s' Hph Hf|s ph fl s' Hc].
  - apply execute_begin_true in Hb as (Hc & _). apply worker_effect_core; [done|]. apply phases_insert. by left.
  - apply execute_begin_true in Hb as (Hc & _). apply worker_effect_core; [done|]. apply phases_insert. by left.
  - destruct (publishing_status (mkSys s ph fl) _ _ _ _ _ Hinv Hph) as (Hst & -> & Hpub).
    apply (worker_effect_frame _ _ t); cbn [sch]; [|by eapply (not_final (mkSys s ph fl))|by left|].
    + apply frame_memory. intros l' j Hj.
      etrans; [apply (ent_publish (mkTxVersion t (inc_at s t)))|]. rewrite decide_False; [done|]. naive_solver.
    + apply phases_insert. eauto.
  - by eapply worker_settle.
  - by eapply worker_task; [|left].
  - by eapply worker_task; [|right].
  - apply validate_begin_some in Hv as (Hst & _ & _ & _ & _ & Hf & _ & Hr & _).
    apply (worker_effect_frame _ _ (txid v)); [done|by eapply (not_final (mkSys s ph fl))|by left|by apply phases_insert].
  - apply worker_effect_core; [by apply same_core_refl|by apply phases_insert].
  - by eapply worker_verdict.
  - by eapply worker_finality.
  - apply worker_effect_core; eauto.
Qed.

(** ** The pipeline *)

(** [p_return] is the error the commit loop returned with, once it has returned. *)
Record Pipe := mkPipe {
  p_sys : Sys;
  p_committer : OrderedCommitter;
  p_output : OrderedCommitOutput;
  p_idx : nat;
  p_return : option (option (GrevmError E))
}.

Definition Pipe_new (txs : list TxEnv) (ben : Address) (anchor : option AccountInfo) (st : ParallelState DB)
    (disable_nonce_check : bool) : Pipe :=
  mkPipe (Sys_new txs ben anchor) (mkCommitter ben st disable_nonce_check) (mkOutput []) 0 None.

(** A read of the shared cache, by any thread. *)
Inductive cache_read (s : ParallelState DB) : ParallelState DB → Prop :=
| cr_basic a : cache_read s (db_basic s a).2
| cr_code h : cache_read s (db_code_by_hash s h).2
| cr_storage a k : cache_read s (db_storage s a k).2
| cr_block_hash n : cache_read s (db_block_hash s n).2.

Section steps.
Context (code_of : B256 → Bytecode).

(** What revm and the reward policy promise of a result: the touched accounts were loaded
    through the cache, balances are unsigned, and a deferred reward is positive and comes
    without a beneficiary write. *)
Record result_ok (c : OrderedCommitter) (sr : SpeculativeResult) : Prop := {
  rk_accounts a acc : sr_state sr !! a = Some acc → committable code_of (cache (oc_state c)) a acc;
  rk_balances a acc : sr_state sr !! a = Some acc → (0 ≤ balance (acc_info acc))%Z;
  rk_reward r : sr_deferred_reward sr = Some r →
    sr_state sr !! oc_beneficiary c = None ∧ (0 < deferred_amount r ≤ U256_MAX)%Z
}.

(** The promise for the result that the commit loop takes next. *)
Definition next_result_ok (c : OrderedCommitter) (s : Sched) (i : TxId) : Prop :=
  ∀ r sr, res_at s i = Some r → execute_result r = Ok sr → result_ok c sr.

Inductive pipe_step : Pipe → Pipe → Prop :=
| ps_worker σ σ' c out i ret :
    worker_step σ σ' → pipe_step (mkPipe σ c out i ret) (mkPipe σ' c out i ret)
| ps_read σ c out i ret s' :
    cache_read (oc_state c) s' → pipe_step (mkPipe σ c out i ret) (mkPipe σ (set_oc_state s' c) out i ret)
| ps_commit s ph fl c out i elapsed step s' c' out' :
    i < final_idx s → next_result_ok c s i →
    commit_iteration elapsed i (s, c, out) = Done (step, (s', c', out')) →
    pipe_step (mkPipe (mkSys s ph fl) c out i None)
      (mkPipe (mkSys s' ph fl) c' out' (match step with CommitNext j => j | CommitReturn _ => i end)
         (match step with CommitNext _ => None | CommitReturn e => Some e end))
| ps_stop σ c out i :
    abort_flag (sch σ) = true ∨ block_size (sch σ) ≤ i →
    pipe_step (mkPipe σ c out i None) (mkPipe σ c out i (Some None)).

(** ** Invariant *)

Context `{!RevmLaws} `{!RevmDbLaws}.
Context (w0 : World) (Hbase : base_ok w0) (rep_db : DB → World → Prop)
  `{!DatabaseView DB E code_of w0 rep_db}.
Abbreviation rep := (state_rep code_of w0 rep_db).

Definition funded (ben : Address) (w : World) : Prop :=
  (0 ≤ balance (default info_default (w_account w ben)))%Z.

(** [trs] are the committed transactions' results and [rs] what they returned. *)
(** The sender's next nonce, unless the check is disabled. *)
Definition nonce_valid (disabled : bool) (tx : TxEnv) (w : World) : Prop :=
  disabled = false → tx_nonce tx = nonce_of (w_account w (caller tx)) ∧ tx_nonce tx ≠ U64_MAX.

Record committed_prefix (p : Pipe) (trs : list TransactionResult) (rs : list SpeculativeResult) : Prop := {
  cp_results : execute_result <$> trs = Ok <$> rs;
  cp_outcomes : outcomes (p_output p) = (λ sr, ExecutedOutcome (sr_result sr)) <$> rs;
  cp_cursor : committed (scheduler_ctx (sch (p_sys p))) = length rs;
  cp_final : length rs ≤ final_idx (sch (p_sys p));
  cp_reads t tr rd : trs !! t = Some tr → rd ∈ map_to_list (tr_read_set tr) → read_ok (sch (p_sys p)) t rd;
  cp_state : rep (oc_state (p_committer p))
    (world_at (oc_beneficiary (p_committer p)) (load_world w0) rs (length rs));
  cp_funded : funded (oc_beneficiary (p_committer p))
    (world_at (oc_beneficiary (p_committer p)) (load_world w0) rs (length rs));
  cp_nonce t sr : rs !! t = Some sr → ∃ tx, txs (sch (p_sys p)) !! t = Some tx ∧
    nonce_valid (disable_nonce_check (p_committer p)) tx
      (world_at (oc_beneficiary (p_committer p)) (load_world w0) rs t)
}.

(** How the commit loop can have returned. *)
Definition returned_ok (p : Pipe) (n : nat) : Prop :=
  match p_return p with
  | None => p_idx p = n ∧ ∀ t, n ≤ t < final_idx (sch (p_sys p)) →
      ∃ r sr, res_at (sch (p_sys p)) t = Some r ∧ execute_result r = Ok sr
  | Some None => abort_flag (sch (p_sys p)) = true ∨ n = block_size (sch (p_sys p))
  | Some (Some e) => ge_txid e = n ∧ ∃ d, error e = Database d
  end.

Record pipe_inv (p : Pipe) (trs : list TransactionResult) (rs : list SpeculativeResult) : Prop := {
  pi_sys : sys_inv (p_sys p);
  pi_prefix : committed_prefix p trs rs;
  pi_return : returned_ok p (length rs)
}.

(** A step keeps the committed results, or commits the next one. *)
Definition extends (p : Pipe) (trs trs' : list TransactionResult) (rs rs' : list SpeculativeResult) : Prop :=
  (trs' = trs ∧ rs' = rs) ∨
  ∃ r sr, trs' = trs ++ [r] ∧ rs' = rs ++ [sr] ∧ res_at (sch (p_sys p)) (length rs) = Some r ∧ execute_result r = Ok sr.

(** ** Preservation *)

Lemma cache_read_ok s s' w : cache_read s s' → rep s w → rep s' w ∧ cache_grows (cache s) (cache s').
Proof.
  intros [a|h|a k|n] Hrep.
  - destruct (db_basic s a) as [r s1] eqn:Hb. split; [by eapply (db_basic_ok code_of w0 Hbase rep_db)|].
    by apply db_basic_grows in Hb as [? _].
  - destruct (db_code_by_hash s h) as [r s1] eqn:Hb. split; [by eapply (db_code_by_hash_ok code_of w0 rep_db)|].
    unfold db_code_by_hash in Hb. destruct (contracts (cache s) !! h); [by injection Hb as <- <-|].
    destruct (code_by_hash_ref _ _) as [[c|e] db]; injection Hb as <- <-; [|done].
    split; [done|]. simpl. intros h' Hh. rewrite lookup_insert_is_Some. destruct (decide (h = h')); auto.
  - destruct (db_storage s a k) as [r s1] eqn:Hb. split; [by eapply (db_storage_ok code_of w0 rep_db)|].
    unfold db_storage in Hb. destruct (_ !! k); [by injection Hb as <- <-|].
    destruct (match accounts (cache s) !! a with Some _ => _ | None => _ end).
    + by injection Hb as <- <-.
    + destruct (storage_ref _ _ _) as [[v|e] db]; by injection Hb as <- <-.
  - destruct (db_block_hash s n) as [r s1] eqn:Hb.
    unfold db_block_hash in Hb. destruct (block_hashes s !! n); [by injection Hb as <- <-|].
    destruct (block_hash_ref (database s) n) as [rv db] eqn:Hv. destruct Hrep as [Hdb Hok].
    pose proof (view_block_hash _ _ _ _ _ Hdb Hv). by destruct rv; injection Hb as <- <-.
Qed.

(** Results of final transactions stay. *)
Lemma final_result_stays σ σ' t :
  sys_inv σ → worker_effect σ σ' → t < final_idx (sch σ) → res_at (sch σ') t = res_at (sch σ) t.
Proof.
  intros Hinv He Ht. unfold res_at. destruct (we_results _ _ He) as [->|(k & v & x & ps & r' & Hk & Hf & _)]; [done|].
  rewrite (fr_result _ _ _ Hf); [done|]. intros ->. rewrite (final_idle _ _ Hinv Ht) in Hk. done.
Qed.

Lemma pipe_inv_worker σ σ' c out i ret trs rs :
  worker_step σ σ' → pipe_inv (mkPipe σ c out i ret) trs rs → pipe_inv (mkPipe σ' c out i ret) trs rs.
Proof.
  intros Hstep [Hinv [Hr Ho Hc Hf Hrd Hst Hfu Hno] Hret]. cbn [p_sys p_committer p_output p_idx p_return] in *.
  assert (He := worker_step_effect _ _ Hinv Hstep). split; cbn [p_sys p_committer].
  - by eapply sys_inv_worker.
  - split; cbn [p_sys p_committer p_output]; try done.
    + by rewrite (we_committed _ _ He).
    + pose proof (we_final _ _ He). lia.
    + intros t tr rd Htr Hin. eapply (we_reads _ _ He); [|by eapply Hrd].
      apply lookup_lt_Some in Htr. rewrite <-(length_fmap execute_result), Hr, length_fmap in Htr. lia.
    + by rewrite (we_txs _ _ He).
  - unfold returned_ok in *. cbn [p_sys p_return p_idx] in *. destruct ret as [[e|]|].
    + done.
    + rewrite (we_size _ _ He). destruct Hret; [left; by apply He|by right].
    + destruct Hret as [-> Hpend]. split; [done|]. intros t Ht.
      destruct (decide (t < final_idx (sch σ))) as [Hlt|]; [|apply (we_new _ _ He); lia].
      rewrite (final_result_stays _ _ _ Hinv He Hlt). apply Hpend. lia.
Qed.

Lemma pipe_inv_read σ c out i ret s' trs rs :
  cache_read (oc_state c) s' → pipe_inv (mkPipe σ c out i ret) trs rs →
  pipe_inv (mkPipe σ (set_oc_state s' c) out i ret) trs rs.
Proof.
  intros Hread [Hinv [Hr Ho Hc Hf Hrd Hst Hfu Hno] Hret]. cbn [p_sys p_committer] in *.
  destruct (cache_read_ok _ _ _ Hread Hst) as [Hst' Hg]. split; cbn [p_sys p_committer]; [done|by split|done].
Qed.

Lemma funded_result ben w sr :
  (∀ a acc, sr_state sr !! a = Some acc → (0 ≤ balance (acc_info acc))%Z) →
  (∀ r, sr_deferred_reward sr = Some r → (0 < deferred_amount r)%Z) →
  funded ben w → funded ben (commit_result ben w sr).
Proof.
  intros Hb Hr Hw.
  assert (Hch : funded ben (apply_changes (sr_state sr) w)).
  { unfold funded. destruct (sr_state sr !! ben) as [acc|] eqn:Ha.
    - rewrite (proj1 (apply_changes_Some _ _ _ _ Ha)). apply Hb in Ha. unfold apply_account, FinalizedAccount_from.
      repeat case_match; simplify_eq/=; try done; by rewrite info_default_balance.
    - by rewrite (proj1 (apply_changes_None _ _ _ Ha)). }
  unfold commit_result. destruct (sr_deferred_reward sr) as [r|] eqn:Hd; [|done].
  generalize dependent (apply_changes (sr_state sr) w). intros w' Hch.
  specialize (Hr r eq_refl). unfold funded, apply_reward in *. simpl. rewrite decide_True by done. simpl.
  unfold apply_to, checked_add. case_decide; simpl; lia.
Qed.

Lemma funded_commit c w sr :
  result_ok c sr → funded (oc_beneficiary c) w → funded (oc_beneficiary c) (commit_result (oc_beneficiary c) w sr).
Proof. intros [_ Hb Hr]. apply funded_result; [done|]. intros r Hd. destruct (Hr r Hd). lia. Qed.

(** The scheduler state after the result of [i] was taken and its commit was timed. *)
Definition taken (i elapsed : nat) (s : Sched) : Sched :=
  set_metrics (record_commit_time elapsed (metrics s)) (set_tx_results (<[i := None]> (tx_results s)) s).

(** An iteration commits the result of the next transaction, or leaves it with a reason. *)
Lemma commit_iteration_cases elapsed i s c out step s' c' out' r sr w :
  res_at s i = Some r → execute_result r = Ok sr → rep (oc_state c) w → result_ok c sr →
  funded (oc_beneficiary c) w → length (outcomes out) = i →
  commit_iteration elapsed i (s, c, out) = Done (step, (s', c', out')) →
  ∃ tx, txs s !! i = Some tx ∧ c' = set_oc_state (oc_state c') c ∧
    cache_grows (cache (oc_state c)) (cache (oc_state c')) ∧
    match step with
    | CommitNext j => j = S i ∧ outcomes out' = outcomes out ++ [ExecutedOutcome (sr_result sr)] ∧
        (∃ d, s' = set_tx_dependency d (set_ctx (publish_commit (S i) (scheduler_ctx s)) (taken i elapsed s))) ∧
        rep (oc_state c') (commit_result (oc_beneficiary c) w sr) ∧ nonce_valid (disable_nonce_check c) tx w
    | CommitReturn None => s' = abort FallbackSequential (taken i elapsed s) ∧ out' = out ∧ rep (oc_state c') w ∧
        disable_nonce_check c = false ∧ (tx_nonce tx ≠ nonce_of (w_account w (caller tx)) ∨ tx_nonce tx = U64_MAX)
    | CommitReturn (Some e) => s' = abort (CommitError e) (taken i elapsed s) ∧ out' = out ∧ rep (oc_state c') w ∧
        ge_txid e = i ∧ ∃ d, error e = Database d
    end.
Proof.
  intros Hr Hsr Hrep Hok Hfu Hlen Hit. unfold commit_iteration in Hit.
  apply outcome_bind_Done in Hit as ([tr s1] & Htake & Hit).
  apply outcome_bind_Done in Htake as (o & Ho%index_Done & [= <- <-]).
  assert (o = Some r) as -> by (rewrite <-Hr; unfold res_at; by rewrite Ho). rewrite Hsr in Hit.
  apply outcome_bind_Done in Hit as (tx & Htx%index_Done & Hit).
  assert (Hrc : result_committable code_of c w sr).
  { destruct Hok as [Ha Hb Hrw]. split; [done|]. intros rw Hrw'. destruct (Hrw rw Hrw') as [? ?]. done. }
  destruct (ordered_commit_ok code_of w0 Hbase rep_db i tx sr out c w Hrep Hrc) as (res & out1 & c1 & Hoc & Hc1 & Hg & Hcase).
  rewrite Hoc in Hit. simpl in Hit. exists tx. split; [done|].
  destruct res as [[e|]|e].
  - destruct Hcase as (Ho' & He & Hrep' & Hnv). apply outcome_bind_Done in Hit as (d & _ & [= <- <- <- <-]).
    rewrite He, Hlen. split_and!; try done. by exists d.
  - injection Hit as <- <- <- <-. destruct Hcase as (-> & ? & ? & ?). by split_and!.
  - injection Hit as <- <- <- <-. destruct Hcase as (-> & ? & ? & ?). by split_and!.
Qed.

Lemma sys_inv_taken s ph fl i elapsed :
  sys_inv (mkSys s ph fl) → i < final_idx s → sys_inv (mkSys (taken i elapsed s) ph fl).
Proof.
  intros Hinv Hi. eapply sys_inv_core; [apply same_core_metrics|].
  assert (Hlt : i < length (tx_results s)).
  { pose proof (si_results _ Hinv) as Hl1. pose proof (si_states _ Hinv) as Hl2. cbn [sch] in *.
    rewrite Hl1, <-Hl2. eapply status_lt. by apply (si_final _ Hinv). }
  apply lookup_lt_is_Some_2 in Hlt as [x Hx]. eapply sys_inv_take; [done|done|]. apply modify_at_Done. eauto.
Qed.

Lemma pipe_inv_commit s ph fl c out i elapsed step s' c' out' trs rs :
  i < final_idx s → next_result_ok c s i → commit_iteration elapsed i (s, c, out) = Done (step, (s', c', out')) →
  pipe_inv (mkPipe (mkSys s ph fl) c out i None) trs rs →
  ∃ trs' rs', pipe_inv (mkPipe (mkSys s' ph fl) c' out' (match step with CommitNext j => j | CommitReturn _ => i end)
    (match step with CommitNext _ => None | CommitReturn e => Some e end)) trs' rs' ∧
    extends (mkPipe (mkSys s ph fl) c out i None) trs trs' rs rs'.
Proof.
  intros Hi Hnext Hit [Hinv [Hr Ho Hc Hf Hrd Hst Hfu Hno] [Hidx Hpend]].
  cbn [p_sys p_committer p_output p_idx sch] in *.
  destruct (Hpend i) as (r & sr & Hri & Hsr); [lia|].
  assert (Hok : result_ok c sr) by (by eapply Hnext).
  assert (Hlen : length (outcomes out) = i) by (by rewrite Ho, length_fmap).
  destruct (commit_iteration_cases _ _ _ _ _ _ _ _ _ _ _ _ Hri Hsr Hst Hok Hfu Hlen Hit) as (tx & Htx & Hc' & Hg & Hcase).
  assert (Hdis : disable_nonce_check c' = disable_nonce_check c) by (by rewrite Hc').
  assert (Hben : oc_beneficiary c' = oc_beneficiary c) by (by rewrite Hc').
  assert (Hinv1 := sys_inv_taken s ph fl i elapsed Hinv Hi).
  destruct step as [j|[e|]].
  - destruct Hcase as (-> & Hout & [d ->] & Hrep & Hnv). exists (trs ++ [r]), (rs ++ [sr]).
    assert (Hlen' : length trs = length rs) by (rewrite <-(length_fmap execute_result trs), Hr; apply length_fmap).
    split; [|right; exists r, sr; cbn [p_sys sch]; by rewrite <-Hidx].
    split; cbn [p_sys p_committer].
    + eapply sys_inv_core; [apply same_core_dependency|]. by apply (sys_inv_commit (taken i elapsed s)).
    + split; cbn [p_sys p_committer p_output sch].
      * rewrite !fmap_app, Hr. simpl. by rewrite Hsr.
      * by rewrite Hout, Ho, fmap_app.
      * simpl. rewrite length_app. simpl. lia.
      * rewrite length_app. simpl. unfold final_idx in *. simpl. lia.
      * intros t tr rd [Htr|[Hge Htr]]%lookup_app_Some Hin; [by eapply Hrd|].
        apply list_lookup_singleton_Some in Htr as [Ht <-]. replace t with i by lia.
        assert (Hst' : status_at s i = Some Finality) by (by apply (si_final _ Hinv)).
        pose proof (si_tx _ Hinv i) as Hph. unfold phase_ok in Hph. cbn [sch phase] in Hph.
        pose proof (final_idle _ _ Hinv Hi) as Hidle. cbn [phase] in Hidle. rewrite Hst', Hidle in Hph. by apply (Hph r Hri).
      * rewrite Hben, length_app. simpl. rewrite Nat.add_1_r.
        rewrite (world_at_S _ _ _ _ sr) by (by rewrite lookup_app_r, Nat.sub_diag).
        unfold world_at in *. by rewrite take_app_le by lia.
      * rewrite Hben, length_app. simpl. rewrite Nat.add_1_r.
        rewrite (world_at_S _ _ _ _ sr) by (by rewrite lookup_app_r, Nat.sub_diag).
        apply funded_commit; [done|]. unfold world_at in *. by rewrite take_app_le by lia.
      * rewrite Hben, Hdis. intros t sr' [[Ht Hs']|[-> <-]]%lookup_snoc_Some; unfold world_at; rewrite take_app_le by lia.
        -- by eapply Hno.
        -- exists tx. split; [by rewrite <-Hidx|exact Hnv].
    + rewrite length_app. simpl. split; [simpl; lia|]. intros t Ht. cbn [p_sys sch] in *.
      destruct (Hpend t) as (r' & sr' & Hr' & Hsr'); [unfold final_idx in *; simpl in *; lia|].
      exists r', sr'. split; [|done]. unfold res_at in *. simpl. by rewrite list_lookup_insert_ne by lia.
  - destruct Hcase as (-> & -> & Hrep & He & Hd). exists trs, rs. split; [|by left]. split; cbn [p_sys p_committer].
    + eapply sys_inv_core; [apply same_core_abort|done].
    + split; cbn [p_sys p_committer p_output sch]; rewrite ?Hben, ?Hdis; done.
    + split; [congruence|done].
  - destruct Hcase as (-> & -> & Hrep & _). exists trs, rs. split; [|by left]. split; cbn [p_sys p_committer].
    + eapply sys_inv_core; [apply same_core_abort|done].
    + split; cbn [p_sys p_committer p_output sch]; rewrite ?Hben, ?Hdis; done.
    + by left.
Qed.

Lemma final_le_size (σ : Sys) : sys_inv σ → final_idx (sch σ) ≤ block_size (sch σ).
Proof.
  intros Hinv. destruct (decide (final_idx (sch σ) ≤ block_size (sch σ))) as [|Hlt]; [done|].
  assert (Hst : status_at (sch σ) (block_size (sch σ)) = Some Finality) by (apply (si_final _ Hinv); lia).
  apply status_lt in Hst. rewrite (si_states _ Hinv) in Hst. lia.
Qed.

Lemma pipe_inv_stop σ c out i trs rs :
  abort_flag (sch σ) = true ∨ block_size (sch σ) ≤ i →
  pipe_inv (mkPipe σ c out i None) trs rs → pipe_inv (mkPipe σ c out i (Some None)) trs rs.
Proof.
  intros Hstop [Hinv Hp [Hidx _]]. split; [done|by destruct Hp; split|].
  unfold returned_ok. cbn [p_sys p_return p_idx] in *.
  destruct Hstop as [?|Hle]; [by left|]. right.
  pose proof (cp_final _ _ _ Hp). pose proof (final_le_size _ Hinv). simpl in *. lia.
Qed.

Lemma pipe_inv_step p p' trs rs :
  pipe_step p p' → pipe_inv p trs rs → ∃ trs' rs', pipe_inv p' trs' rs' ∧ extends p trs trs' rs rs'.
Proof.
  intros [] Hinv.
  - exists trs, rs. split; [by eapply pipe_inv_worker|by left].
  - exists trs, rs. split; [by apply pipe_inv_read|by left].
  - by eapply pipe_inv_commit.
  - exists trs, rs. split; [by apply pipe_inv_stop|by left].
Qed.

(** Before any transaction has run. *)
Lemma pipe_inv_start σ b st check :
  sys_inv σ → committed (scheduler_ctx (sch σ)) = 0 →
  final_idx (sch σ) = 0 → rep st (load_world w0) → funded b (load_world w0) →
  pipe_inv (mkPipe σ (mkCommitter b st check) (mkOutput []) 0 None) [] [].
Proof.
  intros Hinv Hc Hf Hst Hfu. split; [done|split; try done; cbn [p_sys length]; lia|split; [done|]].
  intros t. cbn [p_sys length]. lia.
Qed.

Lemma pipe_inv_init txs ben anchor st check :
  rep st (load_world w0) → funded ben (load_world w0) → pipe_inv (Pipe_new txs ben anchor st check) [] [].
Proof. intros. apply pipe_inv_start; try done. apply sys_inv_init. Qed.

Lemma pipe_inv_reachable txs ben anchor st check p :
  rep st (load_world w0) → funded ben (load_world w0) →
  rtc pipe_step (Pipe_new txs ben anchor st check) p → ∃ trs rs, pipe_inv p trs rs.
Proof.
  intros Hst Hfu Hr. assert (Hi := pipe_inv_init txs ben anchor st check Hst Hfu).
  revert Hi. generalize ([] : list TransactionResult), ([] : list SpeculativeResult).
  induction Hr as [|p1 p2 p3 Hs Hr IH]; [eauto|]. intros trs rs (trs' & rs' & Hi & _)%(pipe_inv_step _ _ _ _ Hs). eauto.
Qed.

(** ** Properties *)

(** C8. Committed state, outcomes and cursor describe one prefix, in every interleaving of
    workers, finality, cache reads and commit loop. There are results [trs] of the first
    transactions, each of an execution that succeeded and whose recorded reads are all valid in
    memory now, such that the outcomes are theirs in block order, the committed cursor is their
    number, and the block state represents the world that committing them one after the other
    reaches from the block start, deferred rewards included. If the commit loop has returned,
    it was with a database error of the next transaction, after an abort, or with the whole
    block committed. *)
Theorem commit_pipeline_prefix txs ben anchor st check p :
  rep st (load_world w0) → funded ben (load_world w0) →
  rtc pipe_step (Pipe_new txs ben anchor st check) p →
  ∃ (trs : list TransactionResult) rs, execute_result <$> trs = Ok <$> rs ∧
    outcomes (p_output p) = (λ sr, ExecutedOutcome (sr_result sr)) <$> rs ∧
    committed (scheduler_ctx (sch (p_sys p))) = length rs ∧
    rep (oc_state (p_committer p)) (world_at (oc_beneficiary (p_committer p)) (load_world w0) rs (length rs)) ∧
    (∀ t tr rd, trs !! t = Some tr → rd ∈ map_to_list (tr_read_set tr) → read_ok (sch (p_sys p)) t rd) ∧
    match p_return p with
    | None => True
    | Some None => abort_flag (sch (p_sys p)) = true ∨ length rs = block_size (sch (p_sys p))
    | Some (Some e) => ge_txid e = length rs ∧ ∃ d, error e = Database d
    end.
Proof.
  intros Hst Hfu Hr. destruct (pipe_inv_reachable _ _ _ _ _ _ Hst Hfu Hr) as (trs & rs & [_ [] Hret]).
  exists trs, rs. split_and!; try done. unfold returned_ok in Hret. by destruct (p_return p) as [[e|]|].
Qed.

(** The commit loop never meets an inconsistency: when a transaction is final and not yet
    committed, an iteration takes a successful result. It commits it, or it stops because the
    nonce does not match the committed state (sequential fallback) or because the database
    failed (error with this transaction's id); the aborts for a missing or a failed result
    cannot happen. *)
Theorem commit_iteration_consistent txs ben anchor st check p elapsed step s' c' out' :
  rep st (load_world w0) → funded ben (load_world w0) →
  rtc pipe_step (Pipe_new txs ben anchor st check) p → p_return p = None →
  p_idx p < final_idx (sch (p_sys p)) → next_result_ok (p_committer p) (sch (p_sys p)) (p_idx p) →
  commit_iteration elapsed (p_idx p) (sch (p_sys p), p_committer p, p_output p) = Done (step, (s', c', out')) →
  let i := p_idx p in let s := taken i elapsed (sch (p_sys p)) in
  match step with
  | CommitNext j => j = S i ∧ committed (scheduler_ctx s') = S i ∧ length (outcomes out') = S i
  | CommitReturn None => s' = abort FallbackSequential s ∧ out' = p_output p
  | CommitReturn (Some e) => s' = abort (CommitError e) s ∧ out' = p_output p ∧ ge_txid e = i
  end.
Proof.
  intros Hst Hfu Hr Hnone Hi Hnext Hit. destruct (pipe_inv_reachable _ _ _ _ _ _ Hst Hfu Hr) as (trs & rs & [Hinv Hp Hret]).
  unfold returned_ok in Hret. rewrite Hnone in Hret. destruct Hret as [Hidx Hpend], Hp as [Hr' Ho Hc Hf Hrd Hs Hfu' _].
  destruct (Hpend (p_idx p)) as (r & sr & Hri & Hsr); [lia|].
  assert (Hok : result_ok (p_committer p) sr) by (by eapply Hnext).
  assert (Hlen : length (outcomes (p_output p)) = p_idx p) by (by rewrite Ho, length_fmap).
  destruct (commit_iteration_cases _ _ _ _ _ _ _ _ _ _ _ _ Hri Hsr Hs Hok Hfu' Hlen Hit) as (tx & _ & _ & _ & Hcase).
  cbv zeta. destruct step as [j|[e|]].
  - destruct Hcase as (-> & Hout & [d ->] & _). split_and!; [done|done|]. rewrite Hout, length_app, Hlen. simpl. lia.
  - by destruct Hcase as (? & ? & _ & ? & _).
  - by destruct Hcase as (? & ? & _).
Qed.

End steps.

(** ** The joined threads *)

(** What a run of the pipeline does not change. *)
Lemma commit_iteration_static elapsed i (s : Sched) (c : OrderedCommitter) out step s' c' out' :
  commit_iteration elapsed i (s, c, out) = Done (step, (s', c', out')) →
  block_size s' = block_size s ∧ txs s' = txs s.
Proof.
  unfold commit_iteration. intros ([o s1] & (o' & _ & [= _ <-])%outcome_bind_Done & Hit)%outcome_bind_Done.
  destruct o as [r|]; [|by injection Hit as _ <- _ _]. destruct (execute_result r); [|by injection Hit as _ <- _ _].
  apply outcome_bind_Done in Hit as (tx & _ & ([[res out1] c1] & _ & Hit)%outcome_bind_Done).
  destruct res as [[e|]|e]; [|by injection Hit as _ <- _ _|by injection Hit as _ <- _ _].
  by apply outcome_bind_Done in Hit as (d & _ & [= _ <- _ _]).
Qed.

Section joined.
Context (code_of : B256 → Bytecode) `{!RevmLaws} `{!RevmDbLaws}.
Context (w0 : World) (Hbase : base_ok w0) (rep_db : DB → World → Prop)
  `{!DatabaseView DB E code_of w0 rep_db}.

Lemma pipe_static p p' trs rs :
  pipe_inv code_of w0 rep_db p trs rs → pipe_step code_of p p' →
  block_size (sch (p_sys p')) = block_size (sch (p_sys p)) ∧ txs (sch (p_sys p')) = txs (sch (p_sys p)).
Proof.
  intros Hinv Hstep. destruct Hstep; cbn [p_sys sch]; [|done| |done].
  - assert (He : worker_effect σ σ') by (apply worker_step_effect; [apply Hinv|done]). split; apply He.
  - by eapply commit_iteration_static.
Qed.

Lemma pipe_run_static p p' trs rs :
  pipe_inv code_of w0 rep_db p trs rs → rtc (pipe_step code_of) p p' →
  (∃ trs' rs', pipe_inv code_of w0 rep_db p' trs' rs') ∧
  block_size (sch (p_sys p')) = block_size (sch (p_sys p)) ∧ txs (sch (p_sys p')) = txs (sch (p_sys p)).
Proof.
  intros Hinv Hr. revert trs rs Hinv. induction Hr as [|p1 p2 p3 Hs Hr IH]; intros trs rs Hinv; [eauto|].
  destruct (pipe_static _ _ _ _ Hinv Hs) as [<- <-].
  destruct (pipe_inv_step _ _ Hbase _ _ _ _ _ Hs Hinv) as (trs' & rs' & Hinv' & _). eauto.
Qed.

(** The threads of [parallel_execute_inner], joined: a run of the pipeline from the given
    scheduler and state until the commit loop has returned. *)
Definition joins (check : bool)
    (phase : Address → Sched → ParallelState DB → outcome (CommitLoopResult (E:=E) * Sched * ParallelState DB)) : Prop :=
  ∀ b s st clr s' st', phase b s st = Done (clr, s', st') → ∃ p,
    rtc (pipe_step code_of) (mkPipe (mkSys s ∅ 0) (mkCommitter b st check) (mkOutput []) 0 None) p ∧
    p_return p = Some (clr_error clr) ∧ clr_committed clr = p_output p ∧
    s' = sch (p_sys p) ∧ st' = oc_state (p_committer p).

(** The joined threads give what the execution lifecycle relies on: from a fresh scheduler,
    whatever the interleaving, the committed cursor ends at the number of outcomes, and without
    an abort and without an error every transaction of the block is committed. *)
Theorem joined_threads_ok check phase b :
  joins check phase → funded b (load_world w0) →
  joined_ok phase (λ st, state_rep code_of w0 rep_db st (load_world w0)) b.
Proof.
  intros Hj Hfu s st clr s' st' (tx & ben & an & m & ->) Hst (p & Hr & Hret & -> & -> & _)%Hj.
  set (s0 := set_metrics m (Sched_new tx ben an)) in *.
  assert (Hinv0 : pipe_inv code_of w0 rep_db (mkPipe (mkSys s0 ∅ 0) (mkCommitter b st check) (mkOutput []) 0 None) [] []).
  { apply pipe_inv_start; try done. eapply sys_inv_core; [apply same_core_metrics|]. apply (sys_inv_init tx ben an). }
  destruct (pipe_run_static _ _ _ _ Hinv0 Hr) as ((trs & rs & [Hinv Hp Hret']) & Hsize & Htxs).
  unfold returned_ok in Hret'. rewrite Hret in Hret'. destruct Hp as [_ Ho Hc Hf _ _ _ _].
  split_and!; [done|done|by rewrite Ho, length_fmap|].
  intros Ha Hnone. rewrite Hnone in Hret'. rewrite Ho, length_fmap.
  destruct Hret' as [Ht|Hfull]; [by rewrite Ha in Ht|]. by rewrite Hfull, Hsize.
Qed.

End joined.

End pipeline.

(** ** Witnesses *)

Section runs.
Context `{!Revm} `{!RevmDb} {DB E : Type} `{!DatabaseRef DB E}.

(** A schedule of the workers as a run of the pipeline. *)
Lemma run_pipe code_of (c : OrderedCommitter (DB:=DB)) out i acts (σ σ' : Sys (E:=E)) :
  run acts σ = Some σ' → rtc (pipe_step code_of) (mkPipe σ c out i None) (mkPipe σ' c out i None).
Proof.
  unfold run. revert σ'. induction acts as [|a acts IH] using rev_ind; intros σ'; simpl; [by intros [= <-]|].
  rewrite foldl_app. simpl. intros (σ1 & Hr & Ha)%bind_Some.
  eapply rtc_r; [by apply IH|]. apply ps_worker. by eapply act_sound.
Qed.

(** An iteration that commits the first transaction. *)
Definition commits_first (elapsed : nat) (c : OrderedCommitter (DB:=DB)) (σ : Sys (E:=E)) : bool :=
  match commit_iteration elapsed 0 (sch σ, c, mkOutput []) with
  | Done (CommitNext 1, (_, _, out')) => bool_decide (final_idx (sch σ) = 1 ∧ length (outcomes out') = 1)
  | _ => false
  end.

Lemma commits_first_true elapsed c σ :
  commits_first elapsed c σ = true → final_idx (sch σ) = 1 ∧ ∃ s' c' out',
    commit_iteration elapsed 0 (sch σ, c, mkOutput []) = Done (CommitNext 1, (s', c', out')) ∧ length (outcomes out') = 1.
Proof.
  unfold commits_first. destruct (commit_iteration _ _ _) as [[[[|[|j]]|e] [[s' c'] out']]|]; try done.
  intros [Hf Hl]%bool_decide_eq_true. eauto 10.
Qed.

End runs.

Section examples.
#[local] Existing Instance revm_example.
#[local] Existing Instance revm_example_laws.
#[local] Existing Instance revmdb_example.
#[local] Existing Instance revmdb_example_laws.
#[local] Existing Instance cv_db.
#[local] Existing Instance cv_view.

(** One transaction spends from account 1, writes a slot of account 2 and pays a reward of 7. *)
Definition px_acts : list Action :=
  [AExecutionTask 0; AExecute (mkTxVersion 0 1) oc_result fx_idb; APublish 0; APublish 0; APublish 0; APublish 0;
   ASettle 0; AValidationTask 0; AValidate (mkTxVersion 0 1); ARead 0; AVerdict 0; AClaim 1; AFinality].

Lemma px_result_ok : result_ok (λ h, [h]) oc_example oc_result.
Proof.
  split.
  - apply cv_committable.
  - intros a acc. simpl. unfold cv_changes.
    intros [[<- <-]|[_ [[<- <-]|[_ []%lookup_empty_Some]]%lookup_insert_Some]]%lookup_insert_Some; simpl; lia.
  - intros r [= <-]. split; [by vm_compute|]. simpl. unfold U256_MAX. lia.
Qed.

(** The transaction is final, and the next iteration of the commit loop commits it. *)
Definition px_new : Pipe (E:=unit) := Pipe_new [oc_tx] 77 None cv_state false.

(** The pending result has the changes and the reward of the example. *)
Definition px_same (σ : Sys (E:=unit)) : bool :=
  match res_at (sch σ) 0 with
  | Some (mkTransactionResult _ _ (Ok sr)) =>
    bool_decide (sr_state sr = cv_changes) && bool_decide (deferred_amount <$> sr_deferred_reward sr = Some 7%Z)
  | _ => false
  end.

Lemma px_run : ∃ σ, rtc (pipe_step (λ h, [h])) px_new (mkPipe σ oc_example (mkOutput []) 0 None) ∧
  commits_first 3 oc_example σ = true ∧ next_result_ok (λ h, [h]) oc_example (sch σ) 0.
Proof.
  assert (Hc : from_option (commits_first 3 oc_example) false (run (E:=unit) px_acts (Sys_new [oc_tx] 77 None)) = true)
    by (vm_compute; reflexivity).
  assert (Hres : from_option px_same false (run (E:=unit) px_acts (Sys_new [oc_tx] 77 None)) = true)
    by (vm_compute; reflexivity).
  destruct (run px_acts (Sys_new [oc_tx] 77 None)) as [σ|] eqn:Hr; [|done]. exists σ.
  split_and!; [by eapply run_pipe|exact Hc|].
  intros r sr Hr0 Hsr. simpl in Hres. unfold px_same in Hres. rewrite Hr0 in Hres.
  destruct r as [rd ws er]. simpl in Hsr. subst er.
  destruct sr as [o st d]. apply andb_true_iff in Hres as [Hst%bool_decide_eq_true Hd%bool_decide_eq_true].
  simpl in Hst, Hd. subst st. destruct d as [[n]|]; [|done]. injection Hd as ->.
  destruct px_result_ok as [Ha Hb Hrw]. by split.
Qed.

Lemma px_funded : funded 77 (load_world cv_w0).
Proof. unfold funded. vm_compute. done. Qed.

Lemma commit_pipeline_prefix_witness :
  ∃ p, rtc (pipe_step (λ h, [h])) px_new p ∧ committed (scheduler_ctx (sch (p_sys p))) = 1.
Proof.
  destruct px_run as (σ & Hr & (Hf & s' & c' & out' & Hi & Hlen)%commits_first_true & Hok).
  assert (Hr' : rtc (pipe_step (λ h, [h])) px_new (mkPipe (mkSys s' (phase σ) (fin_lower σ)) c' out' 1 None)).
  { eapply rtc_r; [exact Hr|]. destruct σ as [s ph fl].
    apply (ps_commit (λ h, [h]) s ph fl oc_example (mkOutput []) 0 3 (CommitNext 1)); [|exact Hok|exact Hi].
    cbn [sch] in Hf. rewrite Hf. lia. }
  exists (mkPipe (mkSys s' (phase σ) (fin_lower σ)) c' out' 1 None). split; [exact Hr'|].
  destruct (commit_pipeline_prefix (λ h, [h]) cv_w0 cv_base cv_rep [oc_tx] 77 None cv_state false _ cv_state_rep px_funded Hr')
    as (trs & rs & _ & Ho & Hc & _).
  cbn [p_output] in Ho. rewrite Hc. by rewrite Ho, length_fmap in Hlen.
Defined.

Lemma commit_iteration_consistent_witness :
  ∃ σ s' c' out', commit_iteration 3 0 (sch σ, oc_example, mkOutput []) = Done (CommitNext (E:=unit) 1, (s', c', out')) ∧
    committed (scheduler_ctx s') = 1.
Proof.
  destruct px_run as (σ & Hr & (Hf & s' & c' & out' & Hi & _)%commits_first_true & Hok).
  exists σ, s', c', out'. split; [exact Hi|].
  apply (commit_iteration_consistent (λ h, [h]) cv_w0 cv_base cv_rep [oc_tx] 77 None cv_state false
    (mkPipe σ oc_example (mkOutput []) 0 None) 3 (CommitNext 1) s' c' out' cv_state_rep px_funded Hr eq_refl);
    [cbn [p_sys p_idx]; rewrite Hf; lia|exact Hok|exact Hi].
Defined.

(** Threads that leave the block to the sequential fallback are a run of the pipeline. *)
Lemma ct_phase_joins : joins (λ h, [h]) false ct_phase.
Proof.
  intros b s st clr s' st' [= <- <- <-].
  exists (mkPipe (mkSys (abort FallbackSequential s) ∅ 0) (mkCommitter b st false) (mkOutput []) 0 (Some None)).
  split; [|done]. eapply rtc_l; [|eapply rtc_l; [|reflexivity]].
  - apply ps_worker, ss_other, same_core_abort.
  - apply ps_stop. by left.
Qed.

Lemma joined_threads_ok_witness :
  joined_ok (DB:=unit) ct_phase (λ st, state_rep (λ h, [h]) cv_w0 cv_rep st (load_world cv_w0)) 77.
Proof.
  apply (joined_threads_ok (λ h, [h]) cv_w0 cv_base cv_rep false ct_phase 77); [apply ct_phase_joins|apply px_funded].
Defined.

End examples.
