(* ===== verification/Serial.v ===== *)
(** Serializability of the committed prefix (src/src/scheduler.rs, src/src/incarnation_db.rs,
    src/src/scheduler/ordered_commit.rs, src/src/parallel_state.rs).

    The whole parallel phase: workers that execute, publish and validate, the finality loop and
    the commit loop. An execution is a program over the shared data (Access.v); each of its
    accesses is a step of its own and sees the memory, history and cache of that moment. The
    theorem says that what is committed is what executing the transactions one after the other
    gives. *)

From S2P Require Import Prelude Model Reward History World IncarnationDb Access Snapshot Replay ParallelState CacheView TxDependency Context Metrics Scheduler OrderedCommit Interleave Finality Published Control Pipeline.

Section serial.
Context `{!Revm} `{!RevmDb} {DB E : Type} `{!DatabaseRef DB E}.
Abbreviation Sched := (Scheduler.Sched E).
Abbreviation Pipe := (Pipeline.Pipe (DB:=DB) (E:=E)).
Abbreviation Log := (gmap (TxId * nat) (ExecRecord (E:=E))).

(** ** The system *)

(** An execution under way: its incarnation, what is left of it and its accesses so far. *)
Record Running := mkRunning {
  run_version : TxVersion;
  run_rest : prog E (outcome (result (EVMError E) SpeculativeResult * IncarnationDb));
  run_trace : list (Event E)
}.

(** [x_log] records the successful executions; no step depends on it. *)
Record Block := mkBlock { x_pipe : Pipe; x_run : gmap TxId Running; x_log : Log }.

Definition x_sched (x : Block) : Sched := sch (p_sys (x_pipe x)).
Definition x_state (x : Block) : ParallelState DB := oc_state (p_committer (x_pipe x)).

(** The answer of an access of transaction [t], and the state after it. *)
Inductive access (s : Sched) (st : ParallelState DB) (t : TxId) : Event E → ParallelState DB → Prop :=
| ac_memory l : access s st t (EvMemory l (mv_latest (mv_memory s) l t)) st
| ac_history w : access s st t (EvHistory w (hist_at s w)) st
| ac_basic a r st' : db_basic st a = (r, st') → access s st t (EvBasic a r) st'
| ac_code h r st' : db_code_by_hash st h = (r, st') → access s st t (EvCode h r) st'
| ac_storage a k r st' : db_storage st a k = (r, st') → access s st t (EvStorage a k r) st'
| ac_block_hash n r st' : db_block_hash st n = (r, st') → access s st t (EvBlockHash n r) st'.

(** revm with the executor of the transactions of the block. *)
Context (evm_of : TxId → Evm E).

(** The execution of one incarnation. *)
Definition incarnation (s : Sched) (v : TxVersion) :=
  incarnation_prog (b_address (beneficiary s)) (anchor_of s) (length (entries (b_history (beneficiary s))))
    (evm_of (txid v)) (begin_incarnation v IncarnationDb_new).

Inductive block_step : Block → Block → Prop :=
| bs_worker σ σ' c out i ret run log :
    worker_step σ σ' → no_start σ σ' →
    block_step (mkBlock (mkPipe σ c out i ret) run log) (mkBlock (mkPipe σ' c out i ret) run log)
| bs_begin s ph fl c out i ret run log v s1 :
    ph !! txid v = None → run !! txid v = None → execute_begin v s = Done (true, s1) →
    block_step (mkBlock (mkPipe (mkSys s ph fl) c out i ret) run log)
      (mkBlock (mkPipe (mkSys s1 ph fl) c out i ret) (<[txid v := mkRunning v (incarnation s1 v) []]> run) log)
| bs_access σ c out i ret run log t v p tr ev p' st' :
    run !! t = Some (mkRunning v p tr) → prog_step p ev p' → access (sch σ) (oc_state c) t ev st' →
    block_step (mkBlock (mkPipe σ c out i ret) run log)
      (mkBlock (mkPipe σ (set_oc_state st' c) out i ret) (<[t := mkRunning v p' (tr ++ [ev])]> run) log)
| bs_finish s ph fl c out i ret run log t v sr idb tr ps :
    run !! t = Some (mkRunning v (Ret (Done (Ok sr, idb))) tr) → ps = publications s sr idb →
    block_step (mkBlock (mkPipe (mkSys s ph fl) c out i ret) run log)
      (mkBlock (mkPipe (mkSys s (<[t := PPublish v (mkIncarnationExecution (Ok sr) (accesses_of ps idb)) ps ps]> ph) fl) c out i ret)
         (delete t run) (<[(t, tv_incarnation v) := mkRecord tr sr idb]> log))
| bs_fail s ph fl c out i ret run log t v e idb tr :
    run !! t = Some (mkRunning v (Ret (Done (Err e, idb))) tr) →
    block_step (mkBlock (mkPipe (mkSys s ph fl) c out i ret) run log)
      (mkBlock (mkPipe (mkSys s (<[t := PPublish v (mkIncarnationExecution (Err e) (discard_incarnation idb).1) [] []]> ph) fl) c out i ret)
         (delete t run) log)
| bs_commit s ph fl c out i elapsed step s' c' out' run log :
    i < final_idx s → commit_iteration elapsed i (s, c, out) = Done (step, (s', c', out')) →
    block_step (mkBlock (mkPipe (mkSys s ph fl) c out i None) run log)
      (mkBlock (mkPipe (mkSys s' ph fl) c' out' (match step with CommitNext j => j | CommitReturn _ => i end)
         (match step with CommitNext _ => None | CommitReturn e => Some e end)) run log)
| bs_stop σ c out i run log :
    abort_flag (sch σ) = true ∨ block_size (sch σ) ≤ i →
    block_step (mkBlock (mkPipe σ c out i None) run log) (mkBlock (mkPipe σ c out i (Some None)) run log).

Definition Block_new (txs : list TxEnv) (ben : Address) (anchor : option AccountInfo) (st : ParallelState DB)
    (disable_nonce_check : bool) : Block :=
  mkBlock (Pipe_new txs ben anchor st disable_nonce_check) ∅ ∅.

(** ** What revm promises *)

Context (code_of : B256 → Bytecode) (w0 : World) (bh : Z → B256).
Context (ben : Address) (anchor : option AccountInfo) (size : nat).

(** The result of an execution over [w] that read the accounts [asked]: the journal only holds
    accounts that were read; loaded code belongs to its hash; a new account comes with its
    code; a changed code hash comes with its code, and removing code changes the nonce or the
    balance; balances are unsigned; a deferred reward is positive and comes without a
    beneficiary write. *)
Record evm_ok (w : World) (asked : list Address) (sr : SpeculativeResult) : Prop := {
  eo_journal a acc : sr_state sr !! a = Some acc → a ∈ asked;
  eo_code a acc : sr_state sr !! a = Some acc → code_ok code_of (Some (acc_info acc));
  eo_created a acc : sr_state sr !! a = Some acc → FinalizedAccount_from acc = Created (acc_info acc) →
    is_Some (code (acc_info acc));
  eo_code_loaded a acc : sr_state sr !! a = Some acc →
    is_empty_code_hash (acc_info acc) = false → code (acc_info acc) = None →
    ∃ j, w_account w a = Some j ∧ code_hash j = code_hash (acc_info acc);
  eo_code_removed a acc j : sr_state sr !! a = Some acc →
    FinalizedAccount_from acc = Created (acc_info acc) ∨ FinalizedAccount_from acc = Updated (acc_info acc) →
    is_empty_code_hash (acc_info acc) = true → w_account w a = Some j → is_empty_code_hash j = false →
    nonce j ≠ nonce (acc_info acc) ∨ balance j ≠ balance (acc_info acc);
  eo_balance a acc : sr_state sr !! a = Some acc → (0 ≤ balance (acc_info acc))%Z;
  eo_reward r : sr_deferred_reward sr = Some r → sr_state sr !! ben = None ∧ (0 < deferred_amount r ≤ U256_MAX)%Z
}.

Context `{!RevmLaws} `{!RevmDbLaws}.
Context (Hbase : base_ok w0) (rep_db : DB → World → Prop) `{!DatabaseView DB E code_of w0 rep_db}.
Abbreviation rep := (state_rep code_of w0 rep_db).
Abbreviation w1 := (load_world w0).
Abbreviation serial := (serial_run code_of w1 bh).

(** No database call of the last execution of a final transaction overwrote a recorded read. *)
Definition undisturbed (x : Block) : Prop :=
  ∀ t rec, t < final_idx (x_sched x) → x_log x !! (t, inc_at (x_sched x) t) = Some rec →
    calls ben anchor size stable (evm_of t) (begin_incarnation (mkTxVersion t (inc_at (x_sched x) t)) IncarnationDb_new)
      (er_trace rec) (er_result rec) (er_db rec).

Definition undisturbed_step (x x' : Block) : Prop := block_step x x' ∧ undisturbed x'.

(** ** The invariant *)

Definition b0 : BeneficiaryAccount := mkBeneficiary ben (mkHistory anchor []).
Implicit Types (log : Log) (rs : list SpeculativeResult).

(** What the answers of an execution of [t] say of the incarnations they come from and of the
    committed prefix. *)
Definition true_event log rs (c : ParallelCacheState) (t : TxId) (ev : Event E) : Prop :=
  match ev with
  | EvMemory l (Some (w, e)) => w < t ∧
      ∃ rec, log !! (w, me_incarnation e) = Some rec ∧ er_written b0 rec l = Some (data e)
  | EvHistory w (Some (mkEntryState i (Exact e))) =>
      ∃ rec, log !! (w, i) = Some rec ∧ effect_of ben (er_result rec) = Done e
  | EvBasic a (Ok v) => (∃ n, n ≤ t ∧ n ≤ length rs ∧ acct_eqv v (w_account (world_at ben w1 rs n) a)) ∧
      code_ok code_of v ∧ is_Some (accounts c !! a)
  | EvStorage a k (Ok v) => ∃ n, n ≤ t ∧ n ≤ length rs ∧ v = w_storage (world_at ben w1 rs n) a k
  | EvCode h (Ok b) => code_answer code_of w1 h b
  | EvBlockHash n (Ok v) => v = bh n
  | _ => True
  end.

Definition follows_evm (v : TxVersion) (tr : list (Event E)) p : Prop :=
  follows (incarnation_prog ben anchor size (evm_of (txid v)) (begin_incarnation v IncarnationDb_new)) tr p.

Definition hashes_ok (st : ParallelState DB) : Prop := ∀ n h, block_hashes st !! n = Some h → h = bh n.

Record block_inv (x : Block) (trs : list (TransactionResult E)) rs : Prop := {
  bi_pipe : pipe_inv code_of w0 rep_db (x_pipe x) trs rs;
  bi_slots t : slot_inv b0 (x_log x) (x_sched x) (phase (p_sys (x_pipe x)) !! t) t;
  bi_address : b_address (beneficiary (x_sched x)) = ben ∧ oc_beneficiary (p_committer (x_pipe x)) = ben;
  bi_anchor : anchor_of (x_sched x) = anchor;
  bi_size : length (entries (b_history (beneficiary (x_sched x)))) = size;
  bi_blocks : block_size (x_sched x) ≤ size;
  bi_running t v p tr : x_run x !! t = Some (mkRunning v p tr) →
    v = mkTxVersion t (inc_at (x_sched x) t) ∧ status_at (x_sched x) t = Some Executing ∧
    phase (p_sys (x_pipe x)) !! t = None ∧ follows_evm v tr p ∧
    Forall (true_event (x_log x) rs (cache (x_state x)) t) tr;
  bi_log t i rec : x_log x !! (t, i) = Some rec →
    follows_evm (mkTxVersion t i) (er_trace rec) (Ret (Done (Ok (er_result rec), er_db rec))) ∧
    Forall (true_event (x_log x) rs (cache (x_state x)) t) (er_trace rec);
  bi_committed t tr : trs !! t = Some tr → ∃ rec, x_log x !! (t, inc_at (x_sched x) t) = Some rec ∧
    execute_result tr = Ok (er_result rec) ∧ tr_read_set tr = read_set (er_db rec);
  bi_seq t sr : rs !! t = Some sr → ∃ asked, serial (world_at ben w1 rs t) (evm_of t) asked sr;
  bi_cached a : a = ben ∨ (∃ t sr, rs !! t = Some sr ∧ is_Some (sr_state sr !! a)) →
    is_Some (accounts (cache (x_state x)) !! a);
  bi_hashes : hashes_ok (x_state x)
}.

Context (Hevm : ∀ t w asked sr, serial w (evm_of t) asked sr → evm_ok w asked sr).
Context (Hanchor : acct_eqv anchor (w_account w1 ben) ∧ code_ok code_of anchor).

(** ** The committed prefix is serial *)

Lemma written_address b b' snapshots changes l :
  b_address b = b_address b' → written_value b snapshots changes l = written_value b' snapshots changes l.
Proof. intros Hb. unfold written_value, matches. by rewrite Hb. Qed.

Lemma latest_mv (s : Sched) l t w e : latest s l t w e → mv_latest (mv_memory s) l t = Some (w, e).
Proof.
  intros (Hw & He & Hk). unfold mv_latest. destruct (mv_memory s !! l) as [m|] eqn:Hm.
  - apply range_next_back_Some. rewrite (ent_lookup _ _ _ _ Hm) in He. split_and!; [done|done|].
    intros k Hkt. rewrite <-(ent_lookup _ _ _ _ Hm). by apply Hk.
  - by rewrite (ent_lookup_None _ _ _ Hm) in He.
Qed.

Lemma mv_latest_ent (s : Sched) l t w e : mv_latest (mv_memory s) l t = Some (w, e) → w < t ∧ ent s l w = Some e.
Proof.
  unfold mv_latest. destruct (mv_memory s !! l) as [m|] eqn:Hm; [|done].
  intros (? & ? & _)%range_next_back_Some. by rewrite (ent_lookup _ _ _ _ Hm).
Qed.

Lemma read_ok_holds (s : Sched) t l v : read_ok s t (l, v) → read_holds (beneficiary s) (mv_memory s) t l v.
Proof.
  destruct v as [w|rv|]; simpl.
  - intros (e & Hl & _ & Hi). exists e. split; [by apply latest_mv|done].
  - done.
  - intros. by apply mv_latest_None.
Qed.

(** The incarnations that the final transactions show. *)
Definition shown log (s : Sched) (ps : list Published) : Prop :=
  ∀ j p, ps !! j = Some p → ∃ rec, log !! (j, inc_at s j) = Some rec ∧ current_ok b0 rec s j ∧
    p = mkPublished (er_result rec) (account_snapshots (er_db rec)) (inc_at s j).

Definition valid_at log (s : Sched) t : Prop :=
  ∃ rec, log !! (t, inc_at s t) = Some rec ∧ current_ok b0 rec s t ∧
    ∀ rd, rd ∈ map_to_list (read_set (er_db rec)) → read_ok s t rd.

Lemma shown_mv log s ps :
  b_address (beneficiary s) = ben → shown log s ps → mv_rep (beneficiary s) (mv_memory s) ps (length ps).
Proof.
  intros Hb Hps. split; [done|]. intros j p l _ Hp. destruct (Hps j p Hp) as (rec & _ & Hc & ->).
  fold (ent s l j). rewrite (cu_entries _ _ _ _ Hc). simpl. f_equal. unfold er_written, p_written. simpl.
  by apply written_address.
Qed.

Lemma shown_history log s ps :
  b_address (beneficiary s) = ben → anchor_of s = anchor → length ps ≤ length (entries (b_history (beneficiary s))) →
  shown log s ps → history_rep (beneficiary s) code_of w1 (b_history (beneficiary s)) ps (length ps).
Proof.
  intros Hb Ha Hlen Hps. split; [done|]. fold (anchor_of s). rewrite Ha, Hb. split_and!; [apply Hanchor..|].
  intros j p _ Hp. destruct (Hps j p Hp) as (rec & _ & Hc & ->). apply (cu_history _ _ _ _ Hc).
Qed.

(** The results of the committed transactions are those shown. *)
Lemma shown_world log s ps rs n :
  b_address (beneficiary s) = ben → shown log s ps →
  (∀ t sr, rs !! t = Some sr → ∃ rec, log !! (t, inc_at s t) = Some rec ∧ sr = er_result rec) →
  n ≤ length ps → n ≤ length rs → world_of (beneficiary s) w1 ps n = world_at ben w1 rs n.
Proof.
  intros Hb Hps Hrs Hn Hn'. unfold world_of, world_at. rewrite Hb. f_equal. apply list_eq. intros j.
  destruct (decide (j < n)); [|rewrite !lookup_take_ge by lia; done].
  rewrite !lookup_take by lia. rewrite list_lookup_fmap.
  destruct (lookup_lt_is_Some_2 ps j) as [p Hp]; [lia|]. destruct (lookup_lt_is_Some_2 rs j) as [sr Hsr]; [lia|].
  rewrite Hp, Hsr. simpl. destruct (Hps j p Hp) as (rec & Hrec & _ & ->), (Hrs j sr Hsr) as (rec' & Hrec' & ->).
  by simplify_eq.
Qed.

(** One state of the system. *)
Section state.
Context (x : Block) (trs : list (TransactionResult E)) (rs : list SpeculativeResult).
Context (Hinv : block_inv x trs rs) (Hun : undisturbed x).
Abbreviation s := (x_sched x).
Abbreviation log := (x_log x).

Lemma committed_results t sr : rs !! t = Some sr → ∃ rec, log !! (t, inc_at s t) = Some rec ∧ sr = er_result rec.
Proof.
  intros Hsr. pose proof (cp_results _ _ _ _ _ _ (pi_prefix _ _ _ _ _ _ (bi_pipe _ _ _ Hinv))) as Hr.
  assert (Ht : (execute_result <$> trs) !! t = Some (Ok sr)) by (rewrite Hr, list_lookup_fmap, Hsr; done).
  apply list_lookup_fmap_Some in Ht as (tr & Heq & Htr). destruct (bi_committed _ _ _ Hinv _ _ Htr) as (rec & Hrec & He & _).
  exists rec. split; [done|]. congruence.
Qed.

(** The answers of an execution agree with what is shown. *)
Lemma true_agrees ps t ev :
  t ≤ length ps → shown log s ps → true_event log rs (cache (x_state x)) t ev →
  agrees code_of w1 bh (beneficiary s) ps t ev.
Proof.
  destruct (bi_address _ _ _ Hinv) as [Hb _]. intros Hlen Hps.
  assert (Hsame : ∀ w p i rec, ps !! w = Some p → p_incarnation p = i → log !! (w, i) = Some rec →
    p_result p = er_result rec ∧ ∀ l, p_written (beneficiary s) p l = er_written b0 rec l).
  { intros w p i rec Hp <- Hrec. destruct (Hps w p Hp) as (rec' & Hrec' & _ & ->). simpl in Hrec. simplify_eq.
    split; [done|]. intros l. by apply written_address. }
  destruct ev as [l [[w e]|]|w [[i [|e]]|]|a [v|]|h [c|]|a k [v|]|n [v|]]; simpl; try done.
  - intros (Hw & rec & Hrec & He). split_and!; [done| |].
    + exists (mkPublished (er_result rec) (account_snapshots (er_db rec)) 0). rewrite <-He. by apply written_address.
    + intros p Hp Hi. destruct (Hsame _ _ _ _ Hp Hi Hrec) as [_ Hwr]. by rewrite Hwr.
  - intros (rec & Hrec & He) p Hp Hi. destruct (Hsame _ _ _ _ Hp Hi Hrec) as [Hres _]. rewrite Hres, Hb. exact He.
  - intros ((n & Hn & Hn' & Hv) & Hc & _). split; [|done]. exists n. split; [done|].
    rewrite (shown_world log s ps rs); [done|done|done|apply committed_results|lia|done].
  - intros (n & Hn & Hn' & Hv). exists n. split; [done|].
    rewrite (shown_world log s ps rs); [done|done|done|apply committed_results|lia|done].
Qed.

(** A valid execution is serial over what the transactions before it show. *)
Lemma valid_serial ps t rec :
  length ps = t → t < final_idx s → shown log s ps → journals_ok (beneficiary s) code_of w1 ps →
  log !! (t, inc_at s t) = Some rec → current_ok b0 rec s t →
  (∀ rd, rd ∈ map_to_list (read_set (er_db rec)) → read_ok s t rd) →
  snapshots_hold w1 (beneficiary s) ps t (er_db rec) ∧
  ∃ asked, serial (world_of (beneficiary s) w1 ps t) (evm_of t) asked (er_result rec) ∧
    Forall (λ a, sourced (beneficiary s) ps t a (er_trace rec)) asked.
Proof.
  intros <- Ht Hps Hjo Hrec Hc Hrd.
  destruct (bi_address _ _ _ Hinv) as [Hb _]. pose proof (bi_anchor _ _ _ Hinv) as Ha. pose proof (bi_size _ _ _ Hinv) as Hsz.
  assert (Hcalls := Hun _ _ Ht Hrec). destruct (bi_log _ _ _ Hinv _ _ _ Hrec) as [_ Htrue].
  pose proof (final_le_size _ (pi_sys _ _ _ _ _ _ (bi_pipe _ _ _ Hinv))) as Hfs. pose proof (bi_blocks _ _ _ Hinv) as Hbs.
  unfold x_sched in *. rewrite <-Hb, <-Ha, <-Hsz in Hcalls.
  eapply (calls_replay code_of w1 bh (beneficiary s) (mv_memory s) ps (length ps)) in Hcalls as (_ & Hsn & Hrun); [done|..].
  - by eapply shown_mv.
  - eapply shown_history; [done|done| |done]. unfold x_sched. lia.
  - done.
  - done.
  - done.
  - eapply Forall_impl; [done|]. intros ev. by apply true_agrees.
  - intros l v Hlv. apply read_ok_holds, Hrd. by apply elem_of_map_to_list.
  - apply Hc.
  - intros a b Hab. simpl in Hab. by rewrite lookup_empty in Hab.
Qed.

Lemma serial_journal ps t (rec : ExecRecord (E:=E)) asked :
  t = length ps → snapshots_hold w1 (beneficiary s) ps t (er_db rec) →
  serial (world_of (beneficiary s) w1 ps t) (evm_of t) asked (er_result rec) →
  journal_ok (beneficiary s) code_of (world_of (beneficiary s) w1 ps t)
    (mkPublished (er_result rec) (account_snapshots (er_db rec)) (inc_at s t)).
Proof.
  intros -> Hsn Hrun%Hevm. destruct (bi_address _ _ _ Hinv) as [Hb _].
  assert (Hinfo : ∀ acc i, FinalizedAccount_from acc = Created i ∨ FinalizedAccount_from acc = Updated i → i = acc_info acc).
  { intros acc i. unfold FinalizedAccount_from. repeat case_match; intros [?|?]; by simplify_eq. }
  split; cbn [p_result p_snapshots].
  - apply Hsn.
  - intros a acc i Ha ->%Hinfo. by eapply eo_code.
  - intros a acc i Ha ->%Hinfo. by eapply eo_code_loaded.
  - intros a acc i j Ha Hf. pose proof (Hinfo _ _ Hf) as ->. by eapply eo_code_removed.
  - intros r Hr. rewrite Hb. by eapply eo_reward.
Qed.

(** The valid transactions at the start of the block, with what they show. *)
Lemma valid_prefix n :
  n ≤ final_idx s → (∀ t, t < n → valid_at log s t) →
  ∃ ps, length ps = n ∧ shown log s ps ∧ journals_ok (beneficiary s) code_of w1 ps.
Proof.
  induction n as [|n IH]; intros Hn Hval.
  { exists []. split_and!; [done|by intros j p|by intros j p]. }
  destruct IH as (ps & Hlen & Hps & Hjo); [lia|intros; apply Hval; lia|].
  destruct (Hval n) as (rec & Hrec & Hc & Hrd); [lia|].
  destruct (valid_serial ps n rec) as (Hsn & asked & Hrun & _); [done|lia|done..|].
  assert (Hw : ∀ p j, j ≤ length ps → world_of (beneficiary s) w1 (ps ++ [p]) j = world_of (beneficiary s) w1 ps j).
  { intros p j Hj. unfold world_of, world_at. by rewrite fmap_app, take_app_le by (rewrite length_fmap; done). }
  exists (ps ++ [mkPublished (er_result rec) (account_snapshots (er_db rec)) (inc_at s n)]).
  split_and!; [rewrite length_app; simpl; lia| |].
  - intros j p [Hp|[Hj Hp]]%lookup_app_Some; [by apply Hps|].
    apply list_lookup_singleton_Some in Hp as [Hj' <-]. replace j with n by lia. eauto.
  - intros j p [Hp|[Hj Hp]]%lookup_app_Some.
    + rewrite Hw by (apply lookup_lt_Some in Hp; lia). by apply Hjo.
    + apply list_lookup_singleton_Some in Hp as [Hj' <-]. replace j with n by lia. rewrite Hw by lia.
      by eapply serial_journal.
Qed.

(** Committed transactions are valid. *)
Lemma committed_valid t : t < length rs → valid_at log s t.
Proof.
  intros Ht. destruct (bi_pipe _ _ _ Hinv) as [Hsys Hp _].
  assert (Hl : length trs = length rs).
  { rewrite <-(length_fmap execute_result trs), (cp_results _ _ _ _ _ _ Hp). apply length_fmap. }
  destruct (lookup_lt_is_Some_2 trs t) as [tr Htr]; [lia|].
  destruct (bi_committed _ _ _ Hinv _ _ Htr) as (rec & Hrec & _ & Hrs).
  assert (Hst : status_at s t = Some Finality).
  { apply (si_final _ Hsys). pose proof (cp_final _ _ _ _ _ _ Hp). lia. }
  destruct (sl_current _ _ _ _ _ (bi_slots _ _ _ Hinv t)) as (rec' & Hrec' & Hc); [by rewrite Hst|]. simplify_eq.
  exists rec. split_and!; [done|done|]. rewrite <-Hrs. intros rd Hin. by eapply (cp_reads _ _ _ _ _ _ Hp).
Qed.

(** So is the next one, while its result is pending. *)
Lemma pending_valid t r : t < final_idx s → res_at s t = Some r →
  ∃ rec, log !! (t, inc_at s t) = Some rec ∧ current_ok b0 rec s t ∧
    execute_result r = Ok (er_result rec) ∧ tr_read_set r = read_set (er_db rec) ∧
    ∀ rd, rd ∈ map_to_list (read_set (er_db rec)) → read_ok s t rd.
Proof.
  intros Ht Hr. destruct (bi_pipe _ _ _ Hinv) as [Hsys _ _].
  assert (Hst : status_at s t = Some Finality) by (by apply (si_final _ Hsys)).
  destruct (sl_current _ _ _ _ _ (bi_slots _ _ _ Hinv t)) as (rec & Hrec & Hc); [by rewrite Hst|].
  destruct (cu_result _ _ _ _ Hc r Hr) as [He Hrs]. exists rec. split_and!; [done..|].
  pose proof (si_tx _ Hsys t) as Hok. unfold phase_ok in Hok. fold s in Hok.
  rewrite Hst, (final_idle _ _ Hsys Ht) in Hok. rewrite <-Hrs. by apply (Hok r Hr).
Qed.

(** The next result is serial over the committed world, and can be committed. *)
Lemma next_serial r sr :
  length rs < final_idx s → res_at s (length rs) = Some r → execute_result r = Ok sr →
  (∃ rec, log !! (length rs, inc_at s (length rs)) = Some rec ∧ sr = er_result rec ∧ tr_read_set r = read_set (er_db rec)) ∧
  (∃ asked, serial (world_at ben w1 rs (length rs)) (evm_of (length rs)) asked sr) ∧
  result_ok code_of (p_committer (x_pipe x)) sr ∧
  ∀ a, is_Some (sr_state sr !! a) → is_Some (accounts (cache (x_state x)) !! a).
Proof.
  intros Ht Hr Hsr. destruct (bi_address _ _ _ Hinv) as [Hb Hb'].
  destruct (pending_valid _ _ Ht Hr) as (rec & Hrec & Hc & He & Hrs & Hrd). rewrite Hsr in He. injection He as ->.
  destruct (valid_prefix (length rs)) as (ps & Hlen & Hps & Hjo); [lia|apply committed_valid|].
  destruct (valid_serial ps (length rs) rec) as (Hsn & asked & Hrun & Hsrc); [done..|].
  rewrite (shown_world log s ps rs) in Hrun by (done || lia || apply committed_results).
  assert (Hcached : ∀ a, is_Some (sr_state (er_result rec) !! a) → is_Some (accounts (cache (x_state x)) !! a)).
  { intros a [acc Hacc]. pose proof (eo_journal _ _ _ (Hevm _ _ _ _ Hrun) _ _ Hacc) as Hin.
    rewrite Forall_forall in Hsrc. destruct (Hsrc a Hin) as [->|[[v Hv]|(w & p & Hw & Hp & Hj)]].
    - apply (bi_cached _ _ _ Hinv). by left.
    - destruct (bi_log _ _ _ Hinv _ _ _ Hrec) as [_ Htrue]. rewrite Forall_forall in Htrue.
      by destruct (Htrue _ Hv) as (_ & _ & ?).
    - apply (bi_cached _ _ _ Hinv). right. destruct (lookup_lt_is_Some_2 rs w Hw) as [sr' Hsr'].
      exists w, sr'. split; [done|]. destruct (committed_results _ _ Hsr') as (rec' & Hrec' & ->).
      destruct (Hps w p Hp) as (rec'' & Hrec'' & _ & ->). by simplify_eq. }
  destruct (Hevm _ _ _ _ Hrun) as [Hj Hco Hcr _ _ Hba Hrw].
  split_and!; [eauto|eauto| |done]. split.
  - intros a acc Ha. split_and!; [by eapply Hco|intros _; by apply Hcached|intros Hf; left; by eapply Hcr].
  - done.
  - rewrite Hb'. done.
Qed.

End state.

(** ** Every step *)

Lemma true_event_mono log log' rs rs' c c' t ev :
  (∀ key rec, log !! key = Some rec → log' !! key = Some rec) → rs `prefix_of` rs' → cache_grows c c' →
  true_event log rs c t ev → true_event log' rs' c' t ev.
Proof.
  intros Hlog [more ->] [Hg _].
  assert (Hw : ∀ n, n ≤ length rs → world_at ben w1 (rs ++ more) n = world_at ben w1 rs n)
    by (intros n Hn; unfold world_at; by rewrite take_app_le).
  destruct ev as [l [[w e]|]|w [[i [|e]]|]|a [v|]|h [b|]|a k [v|]|n [v|]]; simpl; try done.
  - intros (? & rec & ? & ?). eauto.
  - intros (rec & ? & ?). eauto.
  - intros ((n & ? & ? & ?) & ? & ?). split_and!; [|done|auto]. exists n. rewrite Hw, length_app by done. split_and!; [done|lia|done].
  - intros (n & ? & ? & ?). exists n. rewrite Hw, length_app by done. split_and!; [done|lia|done].
Qed.

Lemma true_events_mono log log' rs rs' c c' t tr :
  (∀ key rec, log !! key = Some rec → log' !! key = Some rec) → rs `prefix_of` rs' → cache_grows c c' →
  Forall (true_event log rs c t) tr → Forall (true_event log' rs' c' t) tr.
Proof. intros. eapply Forall_impl; [done|]. intros. by eapply true_event_mono. Qed.

Lemma block_worker σ σ' c out i ret run log trs rs :
  worker_step σ σ' → no_start σ σ' → block_inv (mkBlock (mkPipe σ c out i ret) run log) trs rs →
  block_inv (mkBlock (mkPipe σ' c out i ret) run log) trs rs.
Proof.
  intros Hstep Hns [Hpipe Hsl [Hb Hb'] Ha Hsz Hbs Hrun Hlog Hcom Hseq Hca Hha]. unfold x_sched, x_state in *.
  cbn [x_pipe x_run x_log p_sys p_committer] in *. pose proof (pi_sys _ _ _ _ _ _ Hpipe) as Hsys. cbn [p_sys] in Hsys.
  destruct (worker_shape _ _ Hsys Hstep) as [[St1 St2 St3] _].
  split; unfold x_sched, x_state; cbn [x_pipe x_run x_log p_sys p_committer]; try done.
  - by eapply pipe_inv_worker.
  - by eapply slots_worker.
  - by rewrite St1.
  - by rewrite St2.
  - by rewrite St3.
  - by rewrite (we_size _ _ (worker_step_effect _ _ Hsys Hstep)).
  - intros t v p tr Ht. destruct (Hrun t v p tr Ht) as (-> & Hst & Hph & Hfo & Htr).
    destruct (held_kept σ σ' t) as [Hslot Hph']; [done..|by left|].
    by rewrite (inc_at_slot _ _ _ Hslot), (status_at_slot _ _ _ Hslot).
  - intros t tr Ht. destruct (Hcom t tr Ht) as (rec & Hrec & ?). exists rec. split; [|done].
    assert (Htf : t < final_idx (sch σ)).
    { pose proof (cp_final _ _ _ _ _ _ (pi_prefix _ _ _ _ _ _ Hpipe)) as Hf. apply lookup_lt_Some in Ht.
      rewrite <-(length_fmap execute_result), (cp_results _ _ _ _ _ _ (pi_prefix _ _ _ _ _ _ Hpipe)), length_fmap in Ht.
      cbn [p_sys] in Hf. lia. }
    destruct (held_kept σ σ' t) as [Hslot _]; [done..|by apply final_idle|right; by apply (si_final _ Hsys)|].
    by rewrite (inc_at_slot _ _ _ Hslot).
Qed.

(** Counters change when an execution begins. *)
Lemma block_begin s ph fl c out i ret run log v s1 trs rs :
  ph !! txid v = None → execute_begin v s = Done (true, s1) →
  block_inv (mkBlock (mkPipe (mkSys s ph fl) c out i ret) run log) trs rs →
  block_inv (mkBlock (mkPipe (mkSys s1 ph fl) c out i ret) (<[txid v := mkRunning v (incarnation s1 v) []]> run) log) trs rs.
Proof.
  intros Hph (Hcore & Hst & Hv)%execute_begin_true Hinv.
  assert (Hinv1 : block_inv (mkBlock (mkPipe (mkSys s1 ph fl) c out i ret) run log) trs rs).
  { eapply block_worker; [by apply ss_other|intros t v' x ps todo Ht; by exists todo|done]. }
  clear Hinv. assert (Hst1 : status_at s1 (txid v) = Some Executing) by (unfold status_at; by rewrite (sc_states _ _ Hcore)).
  assert (Hv1 : v = mkTxVersion (txid v) (inc_at s1 (txid v))) by (unfold inc_at; by rewrite (sc_states _ _ Hcore)).
  destruct Hinv1 as [Hpipe Hsl [Hb Hb'] Ha Hsz Hbs Hrun Hlog Hcom Hseq Hca Hha].
  split; try done. cbn [x_pipe x_run x_log p_sys p_committer sch phase] in *. unfold x_sched in *. simpl in *.
  intros t v' p tr [[<- [= <- <- <-]]|[_ Ht]]%lookup_insert_Some; [|by apply Hrun].
  split_and!; [done|done|done| |constructor]. unfold incarnation, follows_evm. rewrite Hb, Ha, Hsz. constructor.
Qed.

Context (Hbh : ∀ db n h db', rep_db db w0 → block_hash_ref db n = (Ok h, db') → h = bh n).

Lemma basic_hashes (st : ParallelState DB) a r st' : db_basic st a = (r, st') → block_hashes st' = block_hashes st.
Proof.
  unfold db_basic, load_mut_cache_account. destruct (accounts (cache st) !! a); [by intros [= <- <-]|].
  destruct (basic_ref _ _) as [[v|e] db]; by intros [= <- <-].
Qed.

(** The answer of an access is true, and the state after it keeps what it represents. *)
Lemma access_true s st t ev st' log rs :
  (∀ j, ∃ p, slot_inv b0 log s p j) → rep st (world_at ben w1 rs (length rs)) →
  length rs ≤ t → hashes_ok st → access s st t ev st' →
  true_event log rs (cache st') t ev ∧ (cache_read st st' ∨ st' = st) ∧ hashes_ok st'.
Proof.
  intros Hslot Hrep Ht Hha Hac.
  destruct Hac as [l|w|a r st' Hdb|h r st' Hdb|a k r st' Hdb|n r st' Hdb].
  - split_and!; [|by right|done]. simpl. destruct (mv_latest (mv_memory s) l t) as [[w e]|] eqn:Hl; [|done].
    apply mv_latest_ent in Hl as [Hw He]. split; [done|]. destruct (Hslot w) as [p Hp]. by apply (sl_entry _ _ _ _ _ Hp).
  - split_and!; [|by right|done]. simpl. destruct (hist_at s w) as [[i [|e]]|] eqn:Hh; try done.
    destruct (Hslot w) as [p Hp]. by apply (sl_history _ _ _ _ _ Hp).
  - destruct (db_basic_ok code_of w0 Hbase rep_db _ _ _ _ _ Hrep Hdb) as [_ Hv]. split_and!.
    + destruct r as [v|]; [|done]. destruct (Hv v eq_refl) as [Heq Hco]. split_and!; [by exists (length rs)|done|].
      apply db_basic_grows in Hdb as [_ Hin]. by apply Hin.
    + left. pose proof (cr_basic st a) as Hcr. by rewrite Hdb in Hcr.
    + intros n h. rewrite (basic_hashes _ _ _ _ Hdb). apply Hha.
  - destruct (db_code_by_hash_ok code_of w0 rep_db _ _ _ _ _ Hrep Hdb) as [_ Hv]. split_and!.
    + destruct r as [c|]; [|done]. intros a i Ha Hh He. by eapply Hv.
    + left. pose proof (cr_code st h) as Hcr. by rewrite Hdb in Hcr.
    + unfold db_code_by_hash in Hdb. destruct (contracts (cache st) !! h); [by injection Hdb as <- <-|].
      destruct (code_by_hash_ref _ _) as [[c|e] db]; by injection Hdb as <- <-.
  - destruct (db_storage_ok code_of w0 rep_db _ _ _ _ _ _ Hrep Hdb) as [_ Hv]. split_and!.
    + destruct r as [v|]; [|done]. exists (length rs). auto.
    + left. pose proof (cr_storage st a k) as Hcr. by rewrite Hdb in Hcr.
    + unfold db_storage in Hdb. destruct (_ !! k); [by injection Hdb as <- <-|].
      destruct (match accounts (cache st) !! a with Some _ => _ | None => _ end); [by injection Hdb as <- <-|].
      destruct (storage_ref _ _ _) as [[v|e] db]; by injection Hdb as <- <-.
  - pose proof (cr_block_hash st n) as Hcr. rewrite Hdb in Hcr. unfold db_block_hash in Hdb.
    destruct (block_hashes st !! n) as [h|] eqn:Hn; [injection Hdb as <- <-; split_and!; [by apply Hha|by left|done]|].
    destruct (block_hash_ref (database st) n) as [rv db] eqn:Hv. destruct Hrep as [Hd _].
    destruct rv as [h|e]; injection Hdb as <- <-; (split_and!; [|by left|]); try done; simpl.
    + by eapply Hbh.
    + intros n' h'. simpl. intros [[<- <-]|[_ ?]]%lookup_insert_Some; [by eapply Hbh|by apply Hha].
Qed.

(** The guards of the execution still hold when it ends. *)
Lemma execute_begin_running v (s : Sched) :
  status_at s (txid v) = Some Executing → v = mkTxVersion (txid v) (inc_at s (txid v)) →
  ∃ s1, execute_begin v s = Done (true, s1) ∧ same_core s1 s.
Proof.
  unfold status_at, inc_at, execute_begin, index. destruct (tx_states s !! txid v) as [x|]; [|done]. simpl.
  intros [= Hst] Hv. rewrite bool_decide_true by done. simpl. rewrite bool_decide_true by (by rewrite Hv). simpl.
  eexists. split; [done|]. by split.
Qed.

Lemma executing_after (s : Sched) ph fl rs t c out i ret trs :
  pipe_inv code_of w0 rep_db (mkPipe (mkSys s ph fl) c out i ret) trs rs → status_at s t = Some Executing → length rs ≤ t.
Proof.
  intros Hp Hst. pose proof (cp_final _ _ _ _ _ _ (pi_prefix _ _ _ _ _ _ Hp)) as Hf. cbn [p_sys sch] in Hf.
  enough (final_idx s ≤ t) by lia. by eapply (not_final (mkSys s ph fl)); [apply Hp|done|].
Qed.

Lemma block_access σ c out i ret run log t v p tr ev p' st' trs rs :
  run !! t = Some (mkRunning v p tr) → prog_step p ev p' → access (sch σ) (oc_state c) t ev st' →
  block_inv (mkBlock (mkPipe σ c out i ret) run log) trs rs →
  block_inv (mkBlock (mkPipe σ (set_oc_state st' c) out i ret) (<[t := mkRunning v p' (tr ++ [ev])]> run) log) trs rs.
Proof.
  intros Ht Hps Hac [Hpipe Hsl [Hb Hb'] Ha Hsz Hbs Hrun Hlog Hcom Hseq Hca Hha].
  unfold x_sched, x_state in *. cbn [x_pipe x_run x_log p_sys p_committer] in *.
  destruct (Hrun _ _ _ _ Ht) as (Hv & Hst & Hph & Hfo & Htr).
  assert (Hrep := cp_state _ _ _ _ _ _ (pi_prefix _ _ _ _ _ _ Hpipe)). cbn [p_committer] in Hrep. rewrite Hb' in Hrep.
  assert (Hle : length rs ≤ t) by (destruct σ; by eapply executing_after).
  destruct (access_true _ _ _ _ _ log rs (λ j, ex_intro _ _ (Hsl j)) Hrep Hle Hha Hac) as (Htrue & Hread & Hha').
  assert (Hg : cache_grows (cache (oc_state c)) (cache st')).
  { destruct Hread as [Hread| ->]; [|done]. by eapply (cache_read_ok code_of w0 Hbase rep_db) in Hread as [_ ?]. }
  assert (Hmono : ∀ t' tr', Forall (true_event log rs (cache (oc_state c)) t') tr' → Forall (true_event log rs (cache st') t') tr').
  { intros t' tr'. by apply true_events_mono. }
  split; unfold x_sched, x_state; cbn [x_pipe x_run x_log p_sys p_committer oc_state set_oc_state oc_beneficiary]; try done.
  - destruct Hread as [Hread| ->]; [by apply (pipe_inv_read code_of w0 Hbase rep_db)|by destruct c].
  - intros t' v' q tr' [[<- [= <- <- <-]]|[_ Ht']]%lookup_insert_Some.
    + split_and!; [done|done|done|by eapply follows_snoc|]. apply Forall_app. auto.
    + destruct (Hrun _ _ _ _ Ht') as (? & ? & ? & ? & ?). auto 10.
  - intros t' i' rec Hrec. destruct (Hlog _ _ _ Hrec). auto.
  - intros a Hin. apply Hg. by apply Hca.
Qed.

(** A successful execution: its publications follow. *)
Lemma block_finish s ph fl c out i ret run log t v sr idb tr ps trs rs :
  run !! t = Some (mkRunning v (Ret (Done (Ok sr, idb))) tr) → ps = publications s sr idb →
  block_inv (mkBlock (mkPipe (mkSys s ph fl) c out i ret) run log) trs rs →
  block_inv (mkBlock (mkPipe (mkSys s (<[t := PPublish v (mkIncarnationExecution (Ok sr) (accesses_of ps idb)) ps ps]> ph) fl) c out i ret)
    (delete t run) (<[(t, tv_incarnation v) := mkRecord tr sr idb]> log)) trs rs.
Proof.
  intros Ht Hpub [Hpipe Hsl [Hb Hb'] Ha Hsz Hbs Hrun Hlog Hcom Hseq Hca Hha].
  unfold x_sched, x_state in *. cbn [x_pipe x_run x_log p_sys p_committer sch phase] in *.
  destruct (Hrun _ _ _ _ Ht) as (Hv & Hst & Hph & Hfo & Htr).
  assert (Hw : ∀ l y, (l, y) ∈ ps ↔ er_written b0 (mkRecord tr sr idb) l = Some y).
  { intros l y. subst ps. unfold publications. rewrite publications_spec. unfold er_written. simpl.
    by rewrite (written_address (beneficiary s) b0). }
  destruct (slots_finish b0 log s ph t v (mkRecord tr sr idb) ps Hv Hst Hph Hw Hsl) as [Hnew Hsl'].
  assert (Hmono : ∀ key rec, log !! key = Some rec → <[(t, tv_incarnation v) := mkRecord tr sr idb]> log !! key = Some rec).
  { intros key rec Hrec. rewrite lookup_insert_ne; [done|]. intros <-. rewrite Hv in Hrec. simpl in Hrec. congruence. }
  assert (Hev : ∀ t' tr', Forall (true_event log rs (cache (oc_state c)) t') tr' →
    Forall (true_event (<[(t, tv_incarnation v) := mkRecord tr sr idb]> log) rs (cache (oc_state c)) t') tr').
  { intros t' tr'. by apply true_events_mono. }
  split; unfold x_sched, x_state; cbn [x_pipe x_run x_log p_sys p_committer sch phase]; try done.
  - destruct (execute_begin_running v s) as (s1 & Hbeg & Hcore); [by rewrite Hv|by rewrite Hv|].
    eapply pipe_inv_worker; [apply ss_other; exact Hcore|]. eapply pipe_inv_worker; [|exact Hpipe].
    assert (txid v = t) as <- by (by rewrite Hv). by apply ss_execute.
  - intros k. subst v. apply Hsl'.
  - intros t' v' q tr' [Hne Ht']%lookup_delete_Some. destruct (Hrun _ _ _ _ Ht') as (? & ? & ? & ? & ?).
    rewrite lookup_insert_ne by done. auto 10.
  - intros t' i' rec [[Hkey <-]|[_ Hrec]]%lookup_insert_Some.
    + injection Hkey as <- <-. split; [|by apply Hev]. simpl. by rewrite Hv in Hfo |- *.
    + destruct (Hlog _ _ _ Hrec). auto.
  - intros t' r Hr. destruct (Hcom _ _ Hr) as (rec & Hrec & ?). exists rec. auto.
Qed.

Lemma block_fail s ph fl c out i ret run log t v e idb tr trs rs :
  run !! t = Some (mkRunning v (Ret (Done (Err e, idb))) tr) →
  block_inv (mkBlock (mkPipe (mkSys s ph fl) c out i ret) run log) trs rs →
  block_inv (mkBlock (mkPipe (mkSys s (<[t := PPublish v (mkIncarnationExecution (Err e) (discard_incarnation idb).1) [] []]> ph) fl) c out i ret)
    (delete t run) log) trs rs.
Proof.
  intros Ht [Hpipe Hsl [Hb Hb'] Ha Hsz Hbs Hrun Hlog Hcom Hseq Hca Hha].
  unfold x_sched, x_state in *. cbn [x_pipe x_run x_log p_sys p_committer sch phase] in *.
  destruct (Hrun _ _ _ _ Ht) as (Hv & Hst & Hph & Hfo & Htr).
  split; unfold x_sched, x_state; cbn [x_pipe x_run x_log p_sys p_committer sch phase]; try done.
  - destruct (execute_begin_running v s) as (s1 & Hbeg & Hcore); [by rewrite Hv|by rewrite Hv|].
    eapply pipe_inv_worker; [apply ss_other; exact Hcore|]. eapply pipe_inv_worker; [|exact Hpipe].
    assert (txid v = t) as <- by (by rewrite Hv). by eapply ss_execute_error.
  - by apply slots_fail.
  - intros t' v' q tr' [Hne Ht']%lookup_delete_Some. rewrite lookup_insert_ne by done. by apply Hrun.
Qed.

(** What an iteration of the commit loop leaves alone. *)
Lemma commit_iteration_core elapsed i (s : Sched) (c : OrderedCommitter (DB:=DB)) out step s' c' out' :
  commit_iteration elapsed i (s, c, out) = Done (step, (s', c', out')) →
  tx_states s' = tx_states s ∧ mv_memory s' = mv_memory s ∧ beneficiary s' = beneficiary s ∧
  (block_size s' = block_size s ∧ final_idx s' = final_idx s) ∧ (∀ t, res_at s' t = res_at s t ∨ res_at s' t = None).
Proof.
  unfold commit_iteration. intros ([o s1] & (o' & _ & [= _ <-])%outcome_bind_Done & Hit)%outcome_bind_Done.
  assert (Hres : ∀ t, res_at (set_tx_results (<[i := None]> (tx_results s)) s) t = res_at s t ∨
    res_at (set_tx_results (<[i := None]> (tx_results s)) s) t = None).
  { intros t. unfold res_at. simpl. rewrite list_lookup_insert. case_decide; [by right|by left]. }
  destruct o as [r|]; [|by injection Hit as _ <- _ _]. destruct (execute_result r); [|by injection Hit as _ <- _ _].
  apply outcome_bind_Done in Hit as (tx & _ & ([[res out1] c1] & _ & Hit)%outcome_bind_Done).
  destruct res as [[e|]|e]; [|by injection Hit as _ <- _ _|by injection Hit as _ <- _ _].
  by apply outcome_bind_Done in Hit as (d & _ & [= _ <- _ _]).
Qed.

Lemma commit_iteration_hashes elapsed i (s : Sched) (c : OrderedCommitter (DB:=DB)) out step s' c' out' :
  commit_iteration elapsed i (s, c, out) = Done (step, (s', c', out')) →
  block_hashes (oc_state c') = block_hashes (oc_state c).
Proof.
  assert (Hoc : ∀ tx sr r out1 c1, ordered_commit i tx sr out c = Done (r, out1, c1) →
    block_hashes (oc_state c1) = block_hashes (oc_state c)).
  { intros tx sr r out1 c1. unfold ordered_commit. destruct (check_nonce tx c) as [v c2] eqn:Hn.
    assert (Hh2 : block_hashes (oc_state c2) = block_hashes (oc_state c)).
    { unfold check_nonce in Hn. destruct (negb _); [|by injection Hn as _ <-].
      destruct (db_basic (oc_state c) (caller tx)) as [rb st] eqn:Hb. apply basic_hashes in Hb.
      by repeat case_match; injection Hn as _ <-. }
    destruct v; [|by intros [= _ _ <-]..]. intros ([ro c3] & Hs & Hrest)%outcome_bind_Done.
    assert (Hh3 : block_hashes (oc_state c3) = block_hashes (oc_state c2)).
    { unfold settle_reward in Hs. destruct (sr_deferred_reward sr); [|by injection Hs as _ <-].
      apply outcome_bind_Done in Hs as (_ & _ & Hs). destruct (db_basic (oc_state c2) _) as [rb st] eqn:Hb.
      apply basic_hashes in Hb. by injection Hs as _ <-. }
    rewrite <-Hh2, <-Hh3. destruct ro; [|by injection Hrest as _ _ <-].
    apply outcome_bind_Done in Hrest as (st & Hc & Hrest). destruct (push _ _). injection Hrest as _ _ <-.
    unfold commit in Hc. by apply outcome_bind_Done in Hc as ([ts cc] & _ & [= <-]). }
  unfold commit_iteration. intros ([o s1] & _ & Hit)%outcome_bind_Done.
  destruct o as [r|]; [|by injection Hit as _ _ <- _]. destruct (execute_result r); [|by injection Hit as _ _ <- _].
  apply outcome_bind_Done in Hit as (tx & _ & ([[res out1] c1] & Hc1 & Hit)%outcome_bind_Done). apply Hoc in Hc1.
  destruct res as [[e|]|e]; [|by injection Hit as _ _ <- _|by injection Hit as _ _ <- _].
  by apply outcome_bind_Done in Hit as (d & _ & [= _ _ <- _]).
Qed.

(** The cache only grows, and the committer keeps its beneficiary. *)
Lemma commit_grows s ph fl c out elapsed step s' c' out' trs rs r sr :
  committed_prefix code_of w0 rep_db (mkPipe (mkSys s ph fl) c out (length rs) None) trs rs →
  res_at s (length rs) = Some r → execute_result r = Ok sr → result_ok code_of c sr →
  commit_iteration elapsed (length rs) (s, c, out) = Done (step, (s', c', out')) →
  cache_grows (cache (oc_state c)) (cache (oc_state c')) ∧ oc_beneficiary c' = oc_beneficiary c.
Proof.
  intros [_ Ho _ _ _ Hrep Hfu _] Hr Hsr Hok Hit. cbn [p_output p_committer] in *.
  assert (Hlo : length (outcomes out) = length rs) by (by rewrite Ho, length_fmap).
  destruct (commit_iteration_cases code_of w0 Hbase rep_db _ _ _ _ _ _ _ _ _ _ _ _ Hr Hsr Hrep Hok Hfu Hlo Hit)
    as (_ & _ & Hc' & Hg & _). split; [done|by rewrite Hc'].
Qed.

(** One more serial result after a serial prefix. *)
Lemma serial_snoc rs sr0 asked :
  (∀ t sr, rs !! t = Some sr → ∃ asked, serial (world_at ben w1 rs t) (evm_of t) asked sr) →
  serial (world_at ben w1 rs (length rs)) (evm_of (length rs)) asked sr0 →
  ∀ t sr, (rs ++ [sr0]) !! t = Some sr → ∃ asked, serial (world_at ben w1 (rs ++ [sr0]) t) (evm_of t) asked sr.
Proof.
  intros Hseq Hser t sr Ht.
  assert (Hw : ∀ n, n ≤ length rs → world_at ben w1 (rs ++ [sr0]) n = world_at ben w1 rs n)
    by (intros n Hn; unfold world_at; by rewrite take_app_le).
  apply lookup_snoc_Some in Ht as [[Hlt Ht]|[-> <-]]; rewrite Hw by lia; eauto.
Qed.

Lemma block_commit s ph fl c out i elapsed step s' c' out' run log trs rs :
  i < final_idx s → commit_iteration elapsed i (s, c, out) = Done (step, (s', c', out')) →
  undisturbed (mkBlock (mkPipe (mkSys s ph fl) c out i None) run log) →
  block_inv (mkBlock (mkPipe (mkSys s ph fl) c out i None) run log) trs rs →
  ∃ trs' rs', block_inv (mkBlock (mkPipe (mkSys s' ph fl) c' out' (match step with CommitNext j => j | CommitReturn _ => i end)
    (match step with CommitNext _ => None | CommitReturn e => Some e end)) run log) trs' rs'.
Proof.
  intros Hi Hit Hun Hinv. pose proof (next_serial _ _ _ Hinv Hun) as Hnext.
  destruct Hinv as [Hpipe Hsl [Hb Hb'] Ha Hsz Hbs Hrun Hlog Hcom Hseq Hca Hha].
  unfold x_sched, x_state in *. cbn [x_pipe x_run x_log p_sys p_committer sch phase] in *.
  pose proof Hpipe as [_ Hpre [Hidx Hpend]]. cbn [p_idx p_sys sch] in Hidx, Hpend. subst i.
  destruct (Hpend (length rs)) as (r & sr & Hr & Hsr); [lia|].
  destruct (Hnext r sr Hi Hr Hsr) as ((rec & Hrec & -> & Hrset) & Hser & Hok & Hcached).
  assert (Huniq : ∀ r' sr', res_at s (length rs) = Some r' → execute_result r' = Ok sr' → r' = r ∧ sr' = er_result rec).
  { intros r' sr' Hr' Hsr'. split; congruence. }
  assert (Hnok : next_result_ok code_of c s (length rs)) by (by intros r' sr' Hr' [_ ->]%(Huniq _ _ Hr')).
  destruct (pipe_inv_commit code_of w0 Hbase rep_db s ph fl c out (length rs) elapsed step s' c' out' trs rs)
    as (trs' & rs' & Hpipe' & Hext); [done..|].
  destruct (commit_iteration_core _ _ _ _ _ _ _ _ _ Hit) as (Hst & Hmv & Hben & [Hbsz _] & Hres).
  pose proof (commit_grows _ _ _ _ _ _ _ _ _ _ _ _ _ _ Hpre Hr Hsr Hok Hit) as Hgrow.
  destruct Hgrow as [Hg Hbc].
  assert (Hpfx : rs `prefix_of` rs').
  { destruct Hext as [[_ ->]|(r' & sr' & _ & -> & _)]; [done|by apply prefix_app_r]. }
  assert (Hinc : ∀ t, inc_at s' t = inc_at s t) by (intros t; unfold inc_at; by rewrite Hst).
  assert (Hev : ∀ t' tr', Forall (true_event log rs (cache (oc_state c)) t') tr' →
    Forall (true_event log rs' (cache (oc_state c')) t') tr').
  { intros t' tr'. by apply true_events_mono. }
  assert (Hlen : length trs = length rs).
  { rewrite <-(length_fmap execute_result trs), (cp_results _ _ _ _ _ _ Hpre). apply length_fmap. }
  exists trs', rs'. split; unfold x_sched, x_state; cbn [x_pipe x_run x_log p_sys p_committer sch phase].
  - done.
  - by eapply slots_results.
  - by rewrite Hben, Hbc.
  - unfold anchor_of. by rewrite Hben.
  - by rewrite Hben.
  - by rewrite Hbsz.
  - intros t v q tr Ht. destruct (Hrun _ _ _ _ Ht) as (? & ? & ? & ? & ?). unfold status_at in *. rewrite Hinc, Hst. auto 10.
  - intros t i' rec' Hrec'. destruct (Hlog _ _ _ Hrec'). auto.
  - intros t tr Ht. rewrite Hinc. destruct Hext as [[-> _]|(r' & sr' & -> & _ & Hr' & _)]; [by apply Hcom|]. cbn [p_sys sch] in Hr'.
    apply lookup_snoc_Some in Ht as [[_ Ht]|[-> <-]]; [by apply Hcom|]. rewrite Hlen.
    rewrite Hr in Hr'. injection Hr' as <-. by exists rec.
  - intros t sr Hsr'. destruct Hext as [[_ ->]|(r' & sr' & _ & -> & Hr' & Hsr2)]; [by apply Hseq|].
    destruct (Huniq _ _ Hr' Hsr2) as [_ ->].
    destruct Hser as [asked Hser]. exact (serial_snoc rs _ asked Hseq Hser t sr Hsr').
  - intros a Hin. apply Hg. destruct Hin as [->|(t & sr & Hsr' & Hacc)]; [apply Hca; by left|].
    destruct Hext as [[_ ->]|(r' & sr' & _ & -> & Hr' & Hsr2)]; [apply Hca; eauto|].
    destruct (Huniq _ _ Hr' Hsr2) as [_ ->].
    apply lookup_snoc_Some in Hsr' as [[_ Ht]|[_ <-]]; [apply Hca; eauto|by apply Hcached].
  - intros n h. rewrite (commit_iteration_hashes _ _ _ _ _ _ _ _ _ Hit). apply Hha.
Qed.

Lemma block_inv_step x x' trs rs :
  block_step x x' → undisturbed x → block_inv x trs rs → ∃ trs' rs', block_inv x' trs' rs'.
Proof.
  intros Hstep Hun Hinv. destruct Hstep.
  - exists trs, rs. by eapply block_worker.
  - exists trs, rs. by eapply block_begin.
  - exists trs, rs. by eapply block_access.
  - exists trs, rs. by eapply block_finish.
  - exists trs, rs. by eapply block_fail.
  - by eapply block_commit.
  - exists trs, rs. destruct Hinv as [Hpipe]. split; try done. by apply pipe_inv_stop.
Qed.

(** The start of a block, after the beneficiary was read. *)
Lemma block_inv_init txs st check :
  size = length txs → rep st w1 → is_Some (accounts (cache st) !! ben) → funded ben w1 → hashes_ok st →
  block_inv (Block_new txs ben anchor st check) [] [].
Proof.
  intros Hsize Hst Hben Hfu Hha.
  split; unfold x_sched, x_state; cbn [x_pipe x_run x_log Block_new p_sys p_committer Pipe_new phase].
  - by apply pipe_inv_init.
  - intros t. apply slots_init.
  - done.
  - done.
  - simpl. by rewrite length_replicate.
  - simpl. lia.
  - intros t v p tr. by rewrite lookup_empty.
  - intros t j rec. by rewrite lookup_empty.
  - by intros t tr.
  - by intros t sr.
  - intros a [->|(t & sr & ? & _)]; [done|by destruct t].
  - done.
Qed.

(** Executions that read each account and one slot of it once are not disturbed. *)
Lemma once_undisturbed x trs rs :
  (∀ t, reads_once ∅ ∅ (evm_of t)) → block_inv x trs rs → undisturbed x.
Proof.
  intros Ho Hinv t rec _ Hrec. destruct (bi_log _ _ _ Hinv _ _ _ Hrec) as [Hf _].
  apply incarnation_calls in Hf. eapply calls_once; [exact Hf|apply Ho|].
  intros l v. simpl. by rewrite lookup_empty.
Qed.

Lemma block_inv_run x0 x trs rs :
  block_inv x0 trs rs → undisturbed x0 → rtc undisturbed_step x0 x → ∃ trs' rs', block_inv x trs' rs'.
Proof.
  intros Hinv Hun Hr. revert trs rs Hinv Hun. induction Hr as [|x1 x2 x3 [Hs Hun2] Hr IH]; intros trs rs Hinv Hun; [eauto|].
  destruct (block_inv_step _ _ _ _ Hs Hun Hinv) as (trs' & rs' & Hinv'). eauto.
Qed.

Lemma once_run x0 x trs rs :
  (∀ t, reads_once ∅ ∅ (evm_of t)) → block_inv x0 trs rs → rtc block_step x0 x → rtc undisturbed_step x0 x.
Proof.
  intros Ho Hinv Hr. revert trs rs Hinv. induction Hr as [|x1 x2 x3 Hs Hr IH]; intros trs rs Hinv; [reflexivity|].
  destruct (block_inv_step _ _ _ _ Hs (once_undisturbed _ _ _ Ho Hinv) Hinv) as (trs' & rs' & Hinv').
  eapply rtc_l; [split; [done|by eapply once_undisturbed]|eauto].
Qed.

End serial.

(** ** Properties *)

Section theorem.
Context `{!Revm} `{!RevmDb} {DB E : Type} `{!DatabaseRef DB E} (evm_of : TxId → Evm E).
Context (code_of : B256 → Bytecode) (w0 : World) (bh : Z → B256).
Context `{!RevmLaws} `{!RevmDbLaws}.
Context (Hbase : base_ok w0) (rep_db : DB → World → Prop) `{!DatabaseView DB E code_of w0 rep_db}.
Context (Hbh : ∀ db n h db', rep_db db w0 → block_hash_ref db n = (Ok h, db') → h = bh n).
Abbreviation rep := (state_rep code_of w0 rep_db).
Abbreviation serial := (serial_run code_of (load_world w0) bh).

Lemma start_inv txs ben anchor st0 st check :
  rep st0 (load_world w0) → hashes_ok bh st0 → funded ben (load_world w0) → db_basic st0 ben = (Ok anchor, st) →
  (acct_eqv anchor (w_account (load_world w0) ben) ∧ code_ok code_of anchor) ∧
  block_inv evm_of code_of w0 bh ben anchor (length txs) rep_db (Block_new txs ben anchor st check) [] [].
Proof.
  intros Hst Hha Hfu Hdb. destruct (db_basic_ok code_of w0 Hbase rep_db _ _ _ _ _ Hst Hdb) as [Hst' Hv].
  split; [by apply Hv|]. apply block_inv_init; [done|done| |done|].
  - apply db_basic_grows in Hdb as [_ Hin]. by apply Hin.
  - intros n h. rewrite (basic_hashes _ _ _ _ Hdb). apply Hha.
Qed.

(** C3. Serializability. Whatever the interleaving of executions (access by access),
    publications, validations, finality and commits: when no database call of a final
    execution overwrote a recorded read, the committed results are those of executing the
    transactions one after the other, each over the world its predecessors left; the outcomes
    are theirs in block order, the cursor is their number, and the block state represents the
    world they reach. When the commit loop has returned without error and without an abort,
    that is the whole block. *)
Theorem committed_serializable txs ben anchor st0 st check x :
  (∀ t w asked sr, serial w (evm_of t) asked sr → evm_ok code_of ben w asked sr) →
  rep st0 (load_world w0) → hashes_ok bh st0 → funded ben (load_world w0) → db_basic st0 ben = (Ok anchor, st) →
  rtc (undisturbed_step evm_of ben anchor (length txs)) (Block_new txs ben anchor st check) x →
  ∃ rs, outcomes (p_output (x_pipe x)) = (λ sr, ExecutedOutcome (sr_result sr)) <$> rs ∧
    committed (scheduler_ctx (x_sched x)) = length rs ∧
    rep (x_state x) (world_at ben (load_world w0) rs (length rs)) ∧
    (∀ t sr, rs !! t = Some sr → ∃ asked, serial (world_at ben (load_world w0) rs t) (evm_of t) asked sr) ∧
    (p_return (x_pipe x) = Some None → abort_flag (x_sched x) = false → length rs = block_size (x_sched x)).
Proof.
  intros Hevm Hst Hha Hfu Hdb Hr.
  destruct (start_inv txs ben anchor st0 st check Hst Hha Hfu Hdb) as [Han Hinv0].
  eapply block_inv_run in Hr as (trs & rs & Hinv); [|done..|by intros t rec Ht%Nat.nlt_0_r].
  destruct (bi_pipe _ _ _ _ _ _ _ _ _ _ _ Hinv) as [_ [] Hret].
  destruct (bi_address _ _ _ _ _ _ _ _ _ _ _ Hinv) as [_ Hb]. rewrite Hb in cp_state.
  exists rs. split_and!; try done; [by apply Hinv|].
  unfold returned_ok in Hret. intros Hn Ha. rewrite Hn in Hret. destruct Hret as [Ht|Ht]; [|done].
  unfold x_sched in Ha. congruence.
Qed.

End theorem.
