(* ===== verification/Settlement.v ===== *)
(** The two beneficiary modes of one execution, and the transaction of the sequential replay
    (src/src/beneficiary/reward.rs, src/src/scheduler/fallback.rs).

    revm up to the reward is a [Body]: its database calls and, at the end, the journal with what
    the reward is computed from. [settle] ends it under the policy of [BeneficiaryMode::apply]:
    speculative executions defer the reward, sequential ones pay it at once. What revm does to
    pay is a parameter with the laws [reward_laws]. [transact_one] is the transaction of the
    replay over the block state. The result is that paying at once has the effect of deferring
    and adding the reward at commit. *)

From S2P Require Import Prelude Model Reward History World IncarnationDb Access Snapshot Replay ParallelState CacheView Scheduler OrderedCommit Pipeline Serial.

(** ** revm up to the reward *)

(** An execution before its reward: the result it will report, the journal, and what the reward
    is computed from. *)
Record Unsettled `{Revm} := mkUnsettled {
  un_result : ExecutionResult;
  un_state : EvmState;
  un_context : RewardContext;
  un_gas : Gas
}.
Arguments mkUnsettled {_}.

Inductive Body `{Revm} (E : Type) :=
| BodyDone (r : result (EVMError E) Unsettled)
| BodyBasic (a : Address) (k : option AccountInfo → Body E)
| BodyCode (h : B256) (k : Bytecode → Body E)
| BodyStorage (a : Address) (key : U256) (k : U256 → Body E)
| BodyBlockHash (n : Z) (k : B256 → Body E).
Arguments BodyDone {_ E} r.
Arguments BodyBasic {_ E} a k.
Arguments BodyCode {_ E} h k.
Arguments BodyStorage {_ E} a key k.
Arguments BodyBlockHash {_ E} n k.

Section settlement.
Context `{!Revm} {E : Type}.

Fixpoint body_then (b : Body E) (f : Unsettled → Evm E) : Evm E :=
  match b with
  | BodyDone (Ok u) => f u
  | BodyDone (Err e) => EvmDone (Err e)
  | BodyBasic a k => EvmBasic a (λ v, body_then (k v) f)
  | BodyCode h k => EvmCode h (λ c, body_then (k c) f)
  | BodyStorage a key k => EvmStorage a key (λ v, body_then (k v) f)
  | BodyBlockHash n k => EvmBlockHash n (λ h, body_then (k h) f)
  end.

Context (ben : Address).

(** ** The policy *)

Definition ended (u : Unsettled) (state : EvmState) : Evm E :=
  EvmDone (Ok (mkSpeculativeResult (un_result u) state None)).

(** revm's [post_execution::reward_beneficiary] after the execution [u]. *)
Context (reward : Unsettled → Evm E).

(** Every end of the run is the result of [u], without a deferred reward. *)
Fixpoint ends_with (res : ExecutionResult) (m : Evm E) : Prop :=
  match m with
  | EvmDone r => ∃ state, r = Ok (mkSpeculativeResult res state None)
  | EvmBasic a k => ∀ v, ends_with res (k v)
  | EvmCode h k => ∀ c, ends_with res (k c)
  | EvmStorage a key k => ∀ v, ends_with res (k v)
  | EvmBlockHash n k => ∀ h, ends_with res (k h)
  end.

(** What revm documents of the reward: nothing happens when fees are disabled; a beneficiary
    that the journal does not hold is loaded, credited with a checked addition, and touched; in
    every case only the journal changes. *)
Record reward_laws : Prop := {
  rl_disabled u : from_gas (un_context u) (un_gas u) = None → reward u = ended u (un_state u);
  rl_credit u r : from_gas (un_context u) (un_gas u) = Some r → reward_amount r ≠ 0%Z → un_state u !! ben = None →
    reward u = EvmBasic ben (λ v, ended u
      (<[ben := touched_account (apply_to (mkDeferred (reward_amount r)) v)]> (un_state u)));
  rl_journal u : ends_with (un_result u) (reward u)
}.

(** [BeneficiaryMode::apply] at the end of an execution. *)
Definition settle (mode : BeneficiaryMode) (u : Unsettled) : Evm E :=
  match apply (E:=unit) (λ _, bool_decide (is_Some (un_state u !! ben))) (λ _, Ok (reward u)) mode
          (un_context u) (un_gas u) (ended u (un_state u)) None with
  | Done (Ok (m, None)) => m
  | Done (Ok (_, Some d)) => EvmDone (Ok (mkSpeculativeResult (un_result u) (un_state u) (Some d)))
  | _ => EvmDone (Err (Custom "the policy cannot fail"))
  end.

Lemma settle_immediate u : settle Immediate u = reward u.
Proof. done. Qed.

Context (Hreward : reward_laws).

(** Deferring and paying at once differ for a positive reward of a beneficiary that the journal
    does not hold, and only there. *)
Lemma settle_cases u :
  settle Deferred u = reward u ∨
  ∃ r, from_gas (un_context u) (un_gas u) = Some r ∧ reward_amount r ≠ 0%Z ∧ un_state u !! ben = None ∧
    settle Deferred u = EvmDone (Ok (mkSpeculativeResult (un_result u) (un_state u) (Some (mkDeferred (reward_amount r))))).
Proof.
  unfold settle, apply. destruct (from_gas _ _) as [r|] eqn:Hg.
  2: { left. by rewrite (rl_disabled Hreward u Hg). }
  destruct (is_zero r) eqn:Hz; simpl; [by left|]. case_bool_decide as Hs; [by left|right].
  unfold is_zero in Hz. apply bool_decide_eq_false in Hz. exists r. split_and!; [done|done| |].
  - apply eq_None_not_Some. exact Hs.
  - unfold defer, is_zero. by rewrite bool_decide_eq_false_2.
Qed.

(** ** Runs over a world whose database may leave code out *)

Section plain.
Context (code_of : B256 → Bytecode) (w1 : World) (bh : Z → B256).

Inductive plain_run (w : World) : Evm E → list Address → result (EVMError E) SpeculativeResult → Prop :=
| pl_done r : plain_run w (EvmDone r) [] r
| pl_basic a k v asked r :
    acct_eqv v (w_account w a) → code_ok code_of v → plain_run w (k v) asked r → plain_run w (EvmBasic a k) (a :: asked) r
| pl_code h k c asked r :
    code_answer code_of w1 h c → plain_run w (k c) asked r → plain_run w (EvmCode h k) asked r
| pl_storage a key k asked r :
    plain_run w (k (w_storage w a key)) asked r → plain_run w (EvmStorage a key k) asked r
| pl_block_hash n k asked r :
    plain_run w (k (bh n)) asked r → plain_run w (EvmBlockHash n k) asked r.

(** A run ends in the body, or in the policy after it. *)
Lemma plain_run_then w b f asked r :
  plain_run w (body_then b f) asked r →
  (∃ u asked1 asked2, asked = asked1 ++ asked2 ∧ plain_run w (f u) asked2 r ∧
     ∀ g asked' r', plain_run w (g u) asked' r' → plain_run w (body_then b g) (asked1 ++ asked') r') ∨
  ∃ e, r = Err e ∧ ∀ g, plain_run w (body_then b g) asked r.
Proof.
  revert asked. induction b as [[u|e]|a k IH|h k IH|a key k IH|n k IH]; intros asked Hr; simpl in Hr.
  - left. by exists u, [], asked.
  - right. inversion Hr; subst. exists e. split; [done|]. intros g. constructor.
  - inversion Hr as [|? ? v asked0 ? Hv Hc Hk| | |]; subst. destruct (IH _ _ Hk) as [(u & l1 & l2 & -> & Hu & Hg)|(e & -> & Hg)].
    + left. exists u, (a :: l1), l2. split_and!; [done|done|]. intros. simpl. eapply pl_basic; [done|done|]. by apply Hg.
    + right. exists e. split; [done|]. intros g. by eapply pl_basic.
  - inversion Hr as [| |? ? c asked0 ? Hc Hk| |]; subst. destruct (IH _ _ Hk) as [(u & l1 & l2 & -> & Hu & Hg)|(e & -> & Hg)].
    + left. exists u, l1, l2. split_and!; [done|done|]. intros. simpl. eapply pl_code; [done|]. by apply Hg.
    + right. exists e. split; [done|]. intros g. by eapply pl_code.
  - inversion Hr as [| | |? ? ? asked0 ? Hk|]; subst. destruct (IH _ _ Hk) as [(u & l1 & l2 & -> & Hu & Hg)|(e & -> & Hg)].
    + left. exists u, l1, l2. split_and!; [done|done|]. intros. simpl. apply pl_storage. by apply Hg.
    + right. exists e. split; [done|]. intros g. by apply pl_storage.
  - inversion Hr as [| | | |? ? asked0 ? Hk]; subst. destruct (IH _ _ Hk) as [(u & l1 & l2 & -> & Hu & Hg)|(e & -> & Hg)].
    + left. exists u, l1, l2. split_and!; [done|done|]. intros. simpl. apply pl_block_hash. by apply Hg.
    + right. exists e. split; [done|]. intros g. by apply pl_block_hash.
Qed.

(** Paying at once against deferring: the same execution, with the reward as one more account
    change, of an account that is loaded. *)
Inductive paid (w : World) (asked : list Address) (sri srd : SpeculativeResult) : Prop :=
| pd_same : sri = srd → sr_deferred_reward srd = None → paid w asked sri srd
| pd_paid d v : sr_deferred_reward srd = Some d → sr_state srd !! ben = None → ben ∈ asked →
    acct_eqv v (w_account w ben) → code_ok code_of v →
    sri = mkSpeculativeResult (sr_result srd) (<[ben := touched_account (apply_to d v)]> (sr_state srd)) None →
    paid w asked sri srd.

Lemma ended_inv w u state asked r :
  plain_run w (ended u state) asked r → asked = [] ∧ r = Ok (mkSpeculativeResult (un_result u) state None).
Proof. by inversion 1. Qed.

Lemma ends_with_run w res m asked r :
  ends_with res m → plain_run w m asked r → ∃ state, r = Ok (mkSpeculativeResult res state None).
Proof. intros Hm Hr. induction Hr; simpl in Hm; eauto. Qed.

(** A result in immediate mode is one in deferred mode, paid. *)
Lemma immediate_paid w b asked sri :
  plain_run w (body_then b (settle Immediate)) asked (Ok sri) →
  ∃ asked' srd, plain_run w (body_then b (settle Deferred)) asked' (Ok srd) ∧ (∀ a, a ∈ asked' → a ∈ asked) ∧
    paid w asked sri srd.
Proof.
  intros [(u & l1 & l2 & -> & Hu & Hg)|(e & ? & _)]%plain_run_then; [|done].
  rewrite settle_immediate in Hu. destruct (settle_cases u) as [Hs|(r & Hr & Hnz & Hnone & Hd)].
  - exists (l1 ++ l2), sri. split_and!; [apply Hg; by rewrite Hs|done|].
    destruct (ends_with_run _ _ _ _ _ (rl_journal Hreward u) Hu) as [state [= ->]]. by apply pd_same.
  - eexists (l1 ++ []), _. split_and!.
    + apply Hg. rewrite Hd. constructor.
    + intros a. rewrite app_nil_r. set_solver.
    + rewrite (rl_credit Hreward u r Hr Hnz Hnone) in Hu.
      inversion Hu as [|? ? v asked0 ? Hv Hc Hk| | |]; subst. apply ended_inv in Hk as [-> [= ->]].
      eapply (pd_paid _ _ _ _ (mkDeferred (reward_amount r)) v); simpl; [done|done|set_solver|done|done|done].
Qed.

End plain.

(** ** The transaction of the replay *)

Section sequential.
Context `{!RevmDb} {DB : Type} `{!DatabaseRef DB E}.

(** revm over the block state. A database error ends the run. *)
Fixpoint evm_exec (m : Evm E) (st : ParallelState DB) : result (EVMError E) SpeculativeResult * ParallelState DB :=
  match m with
  | EvmDone r => (r, st)
  | EvmBasic a k =>
    match db_basic st a with (Ok v, st) => evm_exec (k v) st | (Err e, st) => (Err (Database e), st) end
  | EvmCode h k =>
    match db_code_by_hash st h with (Ok c, st) => evm_exec (k c) st | (Err e, st) => (Err (Database e), st) end
  | EvmStorage a key k =>
    match db_storage st a key with (Ok v, st) => evm_exec (k v) st | (Err e, st) => (Err (Database e), st) end
  | EvmBlockHash n k =>
    match db_block_hash st n with (Ok h, st) => evm_exec (k h) st | (Err e, st) => (Err (Database e), st) end
  end.

(** The handler in immediate mode, and the finalized journal; a failed run has none. *)
Definition transact_one (body : TxId → Body E) (txid : TxId) (tx : TxEnv) (st : ParallelState DB) :
    result (EVMError E) ExecutionResult * EvmState * ParallelState DB :=
  match evm_exec (body_then (body txid) (settle Immediate)) st with
  | (Ok sr, st) => (Ok (sr_result sr), sr_state sr, st)
  | (Err e, st) => (Err e, ∅, st)
  end.

Context `{!RevmLaws} `{!RevmDbLaws}.
Context (code_of : B256 → Bytecode) (w0 : World) (bh : Z → B256).
Context (Hbase : base_ok w0) (rep_db : DB → World → Prop) `{!DatabaseView DB E code_of w0 rep_db}.
Context (Hbh : ∀ db n h db', rep_db db w0 → block_hash_ref db n = (Ok h, db') → h = bh n).
Abbreviation rep := (state_rep code_of w0 rep_db).
Abbreviation w1 := (load_world w0).

(** A read of the state keeps what it represents and the hashes it caches. *)
Lemma read_keeps st w st' :
  cache_read st st' → rep st w → hashes_ok bh st →
  rep st' w ∧ hashes_ok bh st' ∧ cache_grows (cache st) (cache st').
Proof.
  intros Hc Hst Hha. destruct (cache_read_ok code_of w0 Hbase rep_db _ _ _ Hc Hst) as [Hst' Hg].
  split_and!; [done| |done]. destruct Hc as [a|h|a k|n].
  - destruct (db_basic st a) as [r st'] eqn:Hdb. intros n h. simpl. rewrite (basic_hashes _ _ _ _ Hdb). apply Hha.
  - unfold db_code_by_hash. destruct (contracts (cache st) !! h); [done|]. by destruct (code_by_hash_ref _ _) as [[c|e] db].
  - unfold db_storage. destruct (_ !! k); [done|].
    destruct (match accounts (cache st) !! a with Some _ => _ | None => _ end); [done|].
    by destruct (storage_ref _ _ _) as [[v|e] db].
  - unfold db_block_hash. destruct (block_hashes st !! n) as [h|] eqn:Hn; [done|].
    destruct (block_hash_ref (database st) n) as [[h|e] db] eqn:Hv; [|done]. destruct Hst as [Hd _].
    intros n' h'. simpl. intros [[<- <-]|[_ ?]]%lookup_insert_Some; [by eapply Hbh|by apply Hha].
Qed.

Lemma block_hash_true st w n h st' :
  rep st w → hashes_ok bh st → db_block_hash st n = (Ok h, st') → h = bh n.
Proof.
  intros [Hd _] Hha. unfold db_block_hash. destruct (block_hashes st !! n) as [h0|] eqn:Hn; [intros [= <- <-]; by apply Hha|].
  destruct (block_hash_ref (database st) n) as [[h0|e] db] eqn:Hv; intros [= <- <-]. by eapply Hbh.
Qed.

(** A run over the block state is a run over the world it holds, with every account it asked for
    loaded, unless the database fails. *)
Lemma evm_exec_ok m st w r st' :
  rep st w → hashes_ok bh st → evm_exec m st = (r, st') →
  rep st' w ∧ hashes_ok bh st' ∧ cache_grows (cache st) (cache st') ∧
  ((∃ d, r = Err (Database d)) ∨
   ∃ asked, plain_run code_of w1 bh w m asked r ∧ ∀ a, a ∈ asked → is_Some (accounts (cache st') !! a)).
Proof.
  revert st. induction m as [r0|a k IH|h k IH|a key k IH|n k IH]; intros st Hst Hha; simpl.
  { intros [= <- <-]. split_and!; [done..|]. right. exists []. split; [constructor|set_solver]. }
  - pose proof (read_keeps _ _ _ (cr_basic st a) Hst Hha) as (Hst1 & Hha1 & Hg1).
    destruct (db_basic st a) as [[v|e] st1] eqn:Hdb; simpl in *; [|intros [= <- <-]; eauto 10].
    intros Hex. destruct (IH _ _ Hst1 Hha1 Hex) as (? & ? & Hg & Hr). split_and!; [done|done|by etrans|].
    destruct Hr as [?|(asked & Hrun & Hin)]; [by left|right]. exists (a :: asked).
    destruct (db_basic_ok code_of w0 Hbase rep_db _ _ _ _ _ Hst Hdb) as [_ Hv]. destruct (Hv v eq_refl) as [Heq Hco].
    split; [by eapply pl_basic|]. intros b [->|Hb]%elem_of_cons; [|by apply Hin].
    apply Hg. apply db_basic_grows in Hdb as [_ Hs]. by apply Hs.
  - pose proof (read_keeps _ _ _ (cr_code st h) Hst Hha) as (Hst1 & Hha1 & Hg1).
    destruct (db_code_by_hash st h) as [[c|e] st1] eqn:Hdb; simpl in *; [|intros [= <- <-]; eauto 10].
    intros Hex. destruct (IH _ _ Hst1 Hha1 Hex) as (? & ? & Hg & Hr). split_and!; [done|done|by etrans|].
    destruct Hr as [?|(asked & Hrun & Hin)]; [by left|right]. exists asked. split; [|done].
    destruct (db_code_by_hash_ok code_of w0 rep_db _ _ _ _ _ Hst Hdb) as [_ Hv].
    eapply pl_code; [|exact Hrun]. intros a i Ha Hh He. by eapply Hv.
  - pose proof (read_keeps _ _ _ (cr_storage st a key) Hst Hha) as (Hst1 & Hha1 & Hg1).
    destruct (db_storage st a key) as [[v|e] st1] eqn:Hdb; simpl in *; [|intros [= <- <-]; eauto 10].
    intros Hex. destruct (IH _ _ Hst1 Hha1 Hex) as (? & ? & Hg & Hr). split_and!; [done|done|by etrans|].
    destruct Hr as [?|(asked & Hrun & Hin)]; [by left|right]. exists asked. split; [|done].
    destruct (db_storage_ok code_of w0 rep_db _ _ _ _ _ _ Hst Hdb) as [_ Hv]. rewrite (Hv v eq_refl) in Hrun.
    by apply pl_storage.
  - pose proof (read_keeps _ _ _ (cr_block_hash st n) Hst Hha) as (Hst1 & Hha1 & Hg1).
    destruct (db_block_hash st n) as [[h|e] st1] eqn:Hdb; simpl in *; [|intros [= <- <-]; eauto 10].
    intros Hex. destruct (IH _ _ Hst1 Hha1 Hex) as (? & ? & Hg & Hr). split_and!; [done|done|by etrans|].
    destruct Hr as [?|(asked & Hrun & Hin)]; [by left|right]. exists asked. split; [|done].
    rewrite (block_hash_true _ _ _ _ _ Hst Hha Hdb) in Hrun. by apply pl_block_hash.
Qed.

(** What was asked for and is cached can be committed. *)
Lemma evm_committable w asked sr c :
  evm_ok code_of ben w asked sr → (∀ a, a ∈ asked → is_Some (accounts c !! a)) →
  ∀ a acc, sr_state sr !! a = Some acc → committable code_of c a acc.
Proof.
  intros Hevm Hc a acc Ha. split_and!.
  - by apply (eo_code _ _ _ _ _ Hevm _ _ Ha).
  - intros _. by apply Hc, (eo_journal _ _ _ _ _ Hevm _ _ Ha).
  - intros Hcr. left. by apply (eo_created _ _ _ _ _ Hevm _ _ Ha).
Qed.

(** A paid result has the effect of committing the deferred one, and it can be committed. *)
Lemma paid_ok w asked asked' sri srd c :
  paid code_of w asked sri srd → evm_ok code_of ben w asked' srd → funded ben w →
  (∀ a, a ∈ asked' → a ∈ asked) → (∀ a, a ∈ asked → is_Some (accounts c !! a)) →
  sr_result sri = sr_result srd ∧ world_eqv (apply_changes (sr_state sri) w) (commit_result ben w srd) ∧
  ∀ a acc, sr_state sri !! a = Some acc → committable code_of c a acc.
Proof.
  intros Hp Hevm Hfu Hsub Hc. pose proof (evm_committable _ _ _ c Hevm (λ a Ha, Hc a (Hsub a Ha))) as Hcom.
  destruct Hp as [-> Hnone|d v Hd Hnone Hben Hv Hcode ->]; unfold commit_result.
  { rewrite Hnone. split_and!; [done|reflexivity|done]. }
  rewrite Hd. simpl. destruct (eo_reward _ _ _ _ _ Hevm _ Hd) as [_ Hpos].
  assert (He : info_is_empty (apply_to d v) = false).
  { apply apply_to_non_empty; [done|]. unfold funded in Hfu. destruct Hv as [i j (Hij & _)|]; simpl in *; [by rewrite Hij|done]. }
  split_and!; [done|by apply touched_account_world|].
  intros a acc [[<- <-]|[_ Ha]]%lookup_insert_Some; [|by apply Hcom].
  split_and!; simpl; [by apply apply_to_code_ok|by intros _; apply Hc|].
  unfold FinalizedAccount_from, is_empty. simpl. by rewrite He.
Qed.

(** ** What revm promises of sequential execution *)

Context (evm_of : TxId → Evm E) (body : TxId → Body E) (disabled : bool) (txs : list TxEnv).
Abbreviation serial := (serial_run code_of w1 bh).

(** The sequential configuration keeps the nonce check. A run that it lets through, over a
    database that may leave code out, has a sender with the expected nonce and is a run of the
    speculative configuration, up to the code it loaded; its journal is as promised. *)
Definition sequential_revm : Prop := ∀ i tx w asked sr,
  txs !! i = Some tx → plain_run code_of w1 bh w (body_then (body i) (settle Deferred)) asked (Ok sr) →
  (disabled = false → tx_nonce tx = nonce_of (w_account w (caller tx))) ∧ evm_ok code_of ben w asked sr ∧
  ∃ asked' sr', serial w (evm_of i) asked' sr' ∧ sr_result sr' = sr_result sr ∧
    world_eqv (commit_result ben w sr') (commit_result ben w sr).

(** revm finds transaction [i] invalid over [w]. *)
Definition refuses (i : TxId) (w : World) (e : InvalidTransaction) : Prop :=
  ∃ asked, plain_run code_of w1 bh w (body_then (body i) (settle Immediate)) asked (Err (Transaction e)).

(** One transaction of the replay over a state that holds [w]: it only reads; a result is that
    of the execution over [w] whose sender has the expected nonce, and its journal, of accounts
    that were loaded, makes the changes of that execution, reward included. *)
Lemma transact_one_ok i tx st w out state st' :
  sequential_revm → txs !! i = Some tx → funded ben w → rep st w → hashes_ok bh st →
  transact_one body i tx st = (out, state, st') →
  rep st' w ∧ hashes_ok bh st' ∧
  match out with
  | Ok res => (disabled = false → tx_nonce tx = nonce_of (w_account w (caller tx))) ∧
      ∃ asked sr, serial w (evm_of i) asked sr ∧ sr_result sr = res ∧
        world_eqv (apply_changes state w) (commit_result ben w sr) ∧
        ∀ a acc, state !! a = Some acc → committable code_of (cache st') a acc
  | Err (Transaction e) => refuses i w e
  | Err _ => True
  end.
Proof.
  intros Hrevm Htx Hfu Hst Hha. unfold transact_one.
  destruct (evm_exec _ st) as [r st1] eqn:Hex.
  destruct (evm_exec_ok _ _ _ _ _ Hst Hha Hex) as (Hst1 & Hha1 & _ & Hr).
  destruct r as [sri|e]; intros [= <- <- <-]; (split; [done|split; [done|]]).
  - destruct Hr as [[d ?]|(asked & Hrun & Hc)]; [done|].
    apply immediate_paid in Hrun as (asked' & srd & Hd & Hsub & Hp).
    destruct (Hrevm _ _ _ _ _ Htx Hd) as (Hn & Hevm & asked2 & sr & Hser & Hres & Heqv).
    destruct (paid_ok _ _ _ _ _ _ Hp Hevm Hfu Hsub Hc) as (Hres' & Heqv' & Hcom).
    split; [done|]. exists asked2, sr. split_and!; [done|congruence| |done]. etrans; [exact Heqv'|]. by symmetry.
  - destruct e as [e|d|msg|code]; [|done..]. destruct Hr as [[d ?]|(asked & Hrun & _)]; [done|]. by exists asked.
Qed.

End sequential.
End settlement.

(** ** An instance *)

(** An account of the journal after a credit: the checked addition, and a touch. *)
Definition credited `{!Revm} (r : DeferredBeneficiaryReward) (acc : Account) : Account :=
  mkAccount true (is_selfdestructed acc) (is_created acc) (apply_to r (Some (acc_info acc))) (acc_storage acc).

(** The reward as a credit of the journal account, which is loaded when it is not there. *)
Definition example_reward `{!Revm} {E} (ben : Address) (u : Unsettled) : Evm E :=
  match from_gas (un_context u) (un_gas u) with
  | None => ended u (un_state u)
  | Some r =>
    let r := mkDeferred (reward_amount r) in
    match un_state u !! ben with
    | Some acc => ended u (<[ben := credited r acc]> (un_state u))
    | None => EvmBasic ben (λ v, ended u (<[ben := touched_account (apply_to r v)]> (un_state u)))
    end
  end.

Lemma example_reward_laws `{!Revm} {E} (ben : Address) : reward_laws (E:=E) ben (example_reward ben).
Proof.
  unfold example_reward. split.
  - by intros u ->.
  - by intros u r -> _ ->.
  - intros u. destruct (from_gas _ _); [destruct (un_state u !! ben)|]; simpl; eauto.
Qed.
