(* ===== verification/SerialRun.v ===== *)
(** Schedules of the whole parallel phase that can be run, and two conflicting transactions.

    [block_act] executes one chosen step of the system of Serial.v. The example runs two
    transfers from the same account: the second starts before the first has published, is
    invalidated and executed again, and both are committed. *)

From S2P Require Import Prelude Model Reward History World IncarnationDb Access Snapshot Replay ParallelState CacheView TxDependency Context Metrics Scheduler OrderedCommit Interleave Finality Published Control Pipeline Serial Settlement.

Section schedules.
Context `{!Revm} `{!RevmDb} {DB E : Type} `{!DatabaseRef DB E} (evm_of : TxId → Evm E).
Abbreviation Block := (Serial.Block (DB:=DB) (E:=E)).

Inductive BlockAction :=
| BWorker (a : Action) | BBegin (v : TxVersion) | BAccess (t : TxId) | BFinish (t : TxId) | BCommit (elapsed : nat) | BStop.

Definition starts (a : Action) : bool := match a with AExecute _ _ _ => true | _ => false end.

(** The next access of [t], answered by the current state. *)
Definition do_access (t : TxId) (x : Block) : option Block :=
  let '(mkBlock (mkPipe σ c out i ret) run log) := x in
  match run !! t with
  | Some (mkRunning v p tr) =>
    let next ev p' st' :=
      Some (mkBlock (mkPipe σ (set_oc_state st' c) out i ret) (<[t := mkRunning v p' (tr ++ [ev])]> run) log) in
    let st := oc_state c in
    match p with
    | Ret _ => None
    | GetMemory l k => let o := mv_latest (mv_memory (sch σ)) l t in next (EvMemory l o) (k o) st
    | GetHistory w k => let o := hist_at (sch σ) w in next (EvHistory w o) (k o) st
    | DbBasic a k => let '(r, st') := db_basic st a in next (EvBasic a r) (k r) st'
    | DbCode h k => let '(r, st') := db_code_by_hash st h in next (EvCode h r) (k r) st'
    | DbStorage a key k => let '(r, st') := db_storage st a key in next (EvStorage a key r) (k r) st'
    | DbBlockHash n k => let '(r, st') := db_block_hash st n in next (EvBlockHash n r) (k r) st'
    end
  | None => None
  end.

Definition block_act (a : BlockAction) (x : Block) : option Block :=
  let '(mkBlock (mkPipe (mkSys s ph fl) c out i ret) run log) := x in
  match a with
  | BWorker a =>
    if starts a then None
    else (λ σ', mkBlock (mkPipe σ' c out i ret) run log) <$> act a (mkSys s ph fl)
  | BBegin v =>
    match ph !! txid v, run !! txid v, execute_begin v s with
    | None, None, Done (true, s1) =>
      Some (mkBlock (mkPipe (mkSys s1 ph fl) c out i ret) (<[txid v := mkRunning v (incarnation evm_of s1 v) []]> run) log)
    | _, _, _ => None
    end
  | BAccess t => do_access t x
  | BFinish t =>
    match run !! t with
    | Some (mkRunning v (Ret (Done (Ok sr, idb))) tr) =>
      let ps := publications s sr idb in
      Some (mkBlock (mkPipe (mkSys s (<[t := PPublish v (mkIncarnationExecution (Ok sr) (accesses_of ps idb)) ps ps]> ph) fl) c out i ret)
        (delete t run) (<[(t, tv_incarnation v) := mkRecord tr sr idb]> log))
    | _ => None
    end
  | BCommit elapsed =>
    if decide (i < final_idx s) then
      match ret, commit_iteration elapsed i (s, c, out) with
      | None, Done (step, (s', c', out')) =>
        Some (mkBlock (mkPipe (mkSys s' ph fl) c' out' (match step with CommitNext j => j | CommitReturn _ => i end)
          (match step with CommitNext _ => None | CommitReturn e => Some e end)) run log)
      | _, _ => None
      end
    else None
  | BStop =>
    if decide (block_size s ≤ i) then
      match ret with None => Some (mkBlock (mkPipe (mkSys s ph fl) c out i (Some None)) run log) | _ => None end
    else None
  end.

Definition block_run (acts : list BlockAction) (x : Block) : option Block := foldl (λ o a, o ≫= block_act a) (Some x) acts.

Lemma act_no_start a (σ σ' : Sys (E:=E)) : starts a = false → act a σ = Some σ' → no_start σ σ'.
Proof.
  destruct σ as [s ph fl]. intros Hs Ha t v x ps todo. destruct a; simpl in Ha; repeat case_match; simplify_eq; cbn [phase].
  all: try (intros Hp; by exists todo).
  all: try (intros [_ Hp]%lookup_delete_Some; by exists todo).
  all: intros [[<- Hp]|[_ Hp]]%lookup_insert_Some; [simplify_eq; eauto|by exists todo].
Qed.

Lemma do_access_sound t x x' : do_access t x = Some x' → block_step evm_of x x'.
Proof.
  destruct x as [[σ c out i ret] run log]. simpl. destruct (run !! t) as [[v p tr]|] eqn:Ht; [|done].
  destruct p as [|l k|w k|a k|h k|a key k|n k]; simpl; [done|..].
  3: destruct (db_basic (oc_state c) a) as [r st'] eqn:Hdb.
  4: destruct (db_code_by_hash (oc_state c) h) as [r st'] eqn:Hdb.
  5: destruct (db_storage (oc_state c) a key) as [r st'] eqn:Hdb.
  6: destruct (db_block_hash (oc_state c) n) as [r st'] eqn:Hdb.
  all: intros [= <-]; eapply bs_access; [exact Ht|constructor|by constructor].
Qed.

Lemma block_act_sound a x x' : block_act a x = Some x' → block_step evm_of x x'.
Proof.
  destruct x as [[[s ph fl] c out i ret] run log]. destruct a as [a|v|t|t|elapsed|]; cbn [block_act].
  - destruct (starts a) eqn:Hs; [done|]. intros (σ' & Ha & ->)%fmap_Some.
    apply bs_worker; [by eapply act_sound|by eapply act_no_start].
  - intros Ha. repeat case_match; simplify_eq. by apply bs_begin.
  - apply do_access_sound.
  - destruct (run !! t) as [[v [[[[sr|e] idb]|]| | | | | |] tr]|] eqn:Ht; try done. intros [= <-]. by apply bs_finish.
  - case_decide; [|done]. destruct ret; [done|].
    destruct (commit_iteration _ _ _) as [[step [[s' c'] out']]|] eqn:Hc; [|done]. intros [= <-]. by eapply bs_commit.
  - case_decide; [|done]. destruct ret; [done|]. intros [= <-]. apply bs_stop. by right.
Qed.

Lemma block_run_sound acts x x' : block_run acts x = Some x' → rtc (block_step evm_of) x x'.
Proof.
  unfold block_run. revert x'. induction acts as [|a acts IH] using rev_ind; intros x'; simpl; [by intros [= <-]|].
  rewrite foldl_app. simpl. intros (x1 & Hr & Ha)%bind_Some. eapply rtc_r; [by apply IH|]. by eapply block_act_sound.
Qed.

End schedules.

Lemma serial_basic_inv `{!Revm} {E} code_of w0 bh w a (k : option AccountInfo → Evm E) asked sr :
  serial_run code_of w0 bh w (EvmBasic a k) asked sr →
  ∃ v asked', asked = a :: asked' ∧ account_answer code_of w a v ∧ serial_run code_of w0 bh w (k v) asked' sr.
Proof. inversion 1; subst; eauto. Qed.

Lemma serial_done_inv `{!Revm} {E} code_of w0 bh w (r : result (EVMError E) SpeculativeResult) asked sr :
  serial_run code_of w0 bh w (EvmDone r) asked sr → asked = [] ∧ r = Ok sr.
Proof. by inversion 1; subst. Qed.

(** ** Two transfers *)

Section examples.
#[local] Existing Instance revm_example.
#[local] Existing Instance revm_example_laws.
#[local] Existing Instance revmdb_example.
#[local] Existing Instance revmdb_example_laws.
#[local] Existing Instance cv_db.
#[local] Existing Instance cv_view.

(** A transfer between accounts: the sender has no code and enough balance. The reward of the
    beneficiary 77 is 7. *)
Definition transfer_end (from to amount : Z) (f r : AccountInfo) : Unsettled :=
  mkUnsettled (amount : ExecutionResult)
    (<[from := mkAccount true false false (mkInfo (balance f - amount) (nonce f + 1) (code_hash f) (code f)) ∅]>
     (<[to := mkAccount true false false (mkInfo (balance r + amount) (nonce r) (code_hash r) (code r)) ∅]> ∅))
    (mkRewardContext false 0 false (mkTxEnv from 0 amount (Call to) 21000 1)) (mkGas 7 0).

Definition transfer_body (from to amount : Z) : Body unit :=
  BodyBasic from (λ vf,
    match vf with
    | Some f =>
      if is_empty_code_hash f && (amount <=? balance f)%Z then
        BodyBasic to (λ vt,
          let r := default info_default vt in
          if (0 <=? balance r)%Z then BodyDone (Ok (transfer_end from to amount f r))
          else BodyDone (Err (Database tt)))
      else BodyDone (Err (Database tt))
    | None => BodyDone (Err (Database tt))
    end).

Definition transfer (from to amount : Z) : Evm unit := body_then (transfer_body from to amount) (settle 77 (example_reward 77) Deferred).

Definition transfer_result (from to amount : Z) (f r : AccountInfo) : SpeculativeResult :=
  mkSpeculativeResult (amount : ExecutionResult) (un_state (transfer_end from to amount f r)) (Some (mkDeferred 7)).

(** Both transactions spend from account 1. *)
Definition sr_body (t : TxId) : Body unit := if decide (t = 0) then transfer_body 1 3 10 else transfer_body 1 4 20.
Definition sr_evm (t : TxId) : Evm unit := body_then (sr_body t) (settle 77 (example_reward 77) Deferred).

Lemma sr_evm_cases t : sr_evm t = transfer 1 3 10 ∨ sr_evm t = transfer 1 4 20.
Proof. unfold sr_evm, sr_body. case_decide; [by left|by right]. Qed.

Lemma transfer_settled from to amount f r :
  from ≠ 77%Z → to ≠ 77%Z →
  settle (E:=unit) 77 (example_reward 77) Deferred (transfer_end from to amount f r) = EvmDone (Ok (transfer_result from to amount f r)).
Proof.
  intros Hf Ht. assert (Hn : un_state (transfer_end from to amount f r) !! 77%Z = None)
    by (simpl; by rewrite !lookup_insert_ne).
  unfold settle. rewrite Hn. reflexivity.
Qed.

Definition sr_txs : list TxEnv := [mkTxEnv 1 0 10 (Call 3) 21000 1; mkTxEnv 1 1 20 (Call 4) 21000 1].
Definition sr_start : ParallelState unit := (db_basic cv_state 77).2.
Definition sr_block : Block (DB:=unit) (E:=unit) := Block_new sr_txs 77 None sr_start false.

Definition reads (t n : nat) : list BlockAction := replicate n (BAccess t).
Definition publish (t n : nat) : list BlockAction := BWorker <$> replicate n (APublish t) ++ [ASettle t].
Definition validates (t inc n : nat) : list BlockAction :=
  BWorker <$> [AValidationTask t; AValidate (mkTxVersion t inc)] ++ replicate n (ARead t) ++ [AVerdict t].

(** Transaction 1 reads before transaction 0 publishes. *)
Definition sr_acts : list BlockAction :=
  (BWorker <$> [AExecutionTask 0; AExecutionTask 1]) ++ [BBegin (mkTxVersion 0 1); BBegin (mkTxVersion 1 1)] ++
  reads 1 4 ++ [BFinish 1] ++ reads 0 4 ++ [BFinish 0] ++ publish 1 2 ++ publish 0 2 ++
  validates 0 1 2 ++ validates 1 1 2 ++
  [BWorker (AExecutionTask 1); BBegin (mkTxVersion 1 2)] ++ reads 1 3 ++ [BFinish 1] ++ publish 1 2 ++ validates 1 2 2 ++
  [BWorker (AClaim 2); BWorker (AClaim 2); BWorker AFinality; BWorker AFinality; BCommit 3; BCommit 3; BStop].

(** A journal of accounts that were read and keep their code. *)
Lemma kept_code_ok w asked sr :
  (∀ a acc, sr_state sr !! a = Some acc → a ∈ asked ∧ is_created acc = false ∧ (0 ≤ balance (acc_info acc))%Z ∧
     ∃ v, acct_eqv v (w_account w a) ∧ code_ok (λ h, [h]) v ∧ code_hash (acc_info acc) = code_hash (default info_default v) ∧
       code (acc_info acc) = code (default info_default v)) →
  (∀ r, sr_deferred_reward sr = Some r → sr_state sr !! 77%Z = None ∧ (0 < deferred_amount r ≤ U256_MAX)%Z) →
  evm_ok (λ h, [h]) 77 w asked sr.
Proof.
  intros Hacc Hrw. split; [| | | | | |done].
  - intros a acc (? & _)%Hacc. done.
  - intros a acc (_ & _ & _ & v & _ & Hco & Hh & Hc)%Hacc i c [= <-] Hsome He. rewrite Hh. rewrite Hc in Hsome.
    destruct v as [j|]; [|done]. apply (Hco j c eq_refl Hsome). apply bool_decide_eq_false.
    apply bool_decide_eq_false in He. simpl in Hh. congruence.
  - intros a acc (_ & Hcr & _)%Hacc. unfold FinalizedAccount_from. rewrite Hcr. by repeat case_match.
  - intros a acc (_ & _ & _ & v & Hv & _ & Hh & _)%Hacc He _. apply bool_decide_eq_false in He.
    inversion Hv as [i j (_ & _ & Hi)|]; subst; simpl in Hh; [|done]. exists j. split; [done|congruence].
  - intros a acc j (_ & _ & _ & v & Hv & _ & Hh & _)%Hacc _ He Hj Hne. rewrite Hj in Hv.
    inversion Hv as [i ? (_ & _ & Hi)|]; subst. simpl in Hh.
    apply bool_decide_eq_false in Hne. apply bool_decide_eq_true in He. congruence.
  - intros a acc (_ & _ & ? & _)%Hacc. done.
Qed.

Lemma answer_code_ok w a v : account_answer (λ h, [h]) w a v → code_ok (λ h, [h]) v.
Proof. intros [_ Hv] i c -> Hc He. rewrite (Hv i eq_refl He) in Hc. by injection Hc as <-. Qed.

Lemma plain_ok w asked sr :
  (∀ a acc, sr_state sr !! a = Some acc → a ∈ asked ∧ is_created acc = false ∧ (0 ≤ balance (acc_info acc))%Z ∧
     ∃ v, account_answer (λ h, [h]) w a v ∧ code_hash (acc_info acc) = code_hash (default info_default v) ∧
       code (acc_info acc) = code (default info_default v)) →
  (∀ r, sr_deferred_reward sr = Some r → sr_state sr !! 77%Z = None ∧ (0 < deferred_amount r ≤ U256_MAX)%Z) →
  evm_ok (λ h, [h]) 77 w asked sr.
Proof.
  intros Hacc. apply kept_code_ok. intros a acc (? & ? & ? & v & Hv & ? & ?)%Hacc. split_and!; [done..|].
  exists v. split_and!; [apply Hv|by eapply answer_code_ok|done..].
Qed.

(** The result of a transfer from answers that may leave code out. *)
Lemma transfer_result_ok from to amount w asked f vt :
  from ≠ 77%Z → to ≠ 77%Z → from ∈ asked → to ∈ asked → (0 ≤ amount ≤ balance f)%Z →
  (0 ≤ balance (default info_default vt))%Z →
  acct_eqv (Some f) (w_account w from) → code_ok (λ h, [h]) (Some f) →
  acct_eqv vt (w_account w to) → code_ok (λ h, [h]) vt →
  evm_ok (λ h, [h]) 77 w asked (transfer_result from to amount f (default info_default vt)).
Proof.
  intros Hf7 Ht7 Hf Ht Ha Hpos Hwf Hcf Hwt Hct. apply kept_code_ok.
  - simpl. intros a acc [[<- <-]|[_ [[<- <-]|[_ []%lookup_empty_Some]]%lookup_insert_Some]]%lookup_insert_Some; simpl in *.
    + split_and!; [done|done|lia|]. by exists (Some f).
    + split_and!; [done|done|lia|]. by exists vt.
  - intros d [= <-]. split; [|simpl; unfold U256_MAX; lia]. simpl. by rewrite !lookup_insert_ne.
Qed.

Lemma transfer_inv from to amount bh w asked sr :
  from ≠ 77%Z → to ≠ 77%Z → serial_run (λ h, [h]) (load_world cv_w0) bh w (transfer from to amount) asked sr →
  ∃ f vt, asked = [from; to] ∧ account_answer (λ h, [h]) w from (Some f) ∧ account_answer (λ h, [h]) w to vt ∧
    is_empty_code_hash f = true ∧ (amount ≤ balance f)%Z ∧ (0 ≤ balance (default info_default vt))%Z ∧
    sr = transfer_result from to amount f (default info_default vt).
Proof.
  intros Hf7 Ht7 (vf & asked1 & -> & Hf & Hrun1)%serial_basic_inv.
  destruct vf as [f|]; [|by apply serial_done_inv in Hrun1 as [_ ?]].
  destruct (_ && _) eqn:Hguard in Hrun1; [|by apply serial_done_inv in Hrun1 as [_ ?]].
  apply andb_true_iff in Hguard as [Hef Hbal%Z.leb_le].
  apply serial_basic_inv in Hrun1 as (vt & asked2 & -> & Ht & Hrun2). cbv zeta in Hrun2.
  destruct (0 <=? _)%Z eqn:Hpos in Hrun2; [|by apply serial_done_inv in Hrun2 as [_ ?]]. apply Z.leb_le in Hpos.
  cbn [body_then] in Hrun2. rewrite transfer_settled in Hrun2 by done. apply serial_done_inv in Hrun2 as [-> [= <-]].
  by exists f, vt.
Qed.

Lemma transfer_ok from to amount bh w asked sr :
  from ≠ 77%Z → to ≠ 77%Z → (0 ≤ amount)%Z →
  serial_run (λ h, [h]) (load_world cv_w0) bh w (transfer from to amount) asked sr → evm_ok (λ h, [h]) 77 w asked sr.
Proof.
  intros Hf7 Ht7 Ha (f & vt & -> & Hf & Ht & _ & Hb & Hp & ->)%transfer_inv; [|done..].
  apply transfer_result_ok; [done|done|left|right; left|lia|done|apply Hf|by eapply answer_code_ok|apply Ht|by eapply answer_code_ok].
Qed.

Lemma transfer_once from to amount : from ≠ to → from ≠ 77%Z → to ≠ 77%Z → reads_once ∅ ∅ (transfer from to amount).
Proof.
  intros Hne Hf Ht. split; [set_solver|]. intros [f|]; [|done]. cbn [body_then]. destruct (_ && _); [|done]. split; [set_solver|].
  intros v. cbv zeta. destruct (_ <=? _)%Z; [|done]. cbn [body_then]. by rewrite transfer_settled.
Qed.

Lemma sr_evm_ok t bh w asked sr :
  serial_run (λ h, [h]) (load_world cv_w0) bh w (sr_evm t) asked sr → evm_ok (λ h, [h]) 77 w asked sr.
Proof. destruct (sr_evm_cases t) as [->| ->]; apply transfer_ok; lia. Qed.

Lemma sr_evm_once t : reads_once ∅ ∅ (sr_evm t).
Proof. destruct (sr_evm_cases t) as [->| ->]; apply transfer_once; lia. Qed.

Lemma sr_run : ∃ x, rtc (block_step sr_evm) sr_block x ∧ length (outcomes (p_output (x_pipe x))) = 2.
Proof.
  assert (Hlen : from_option (λ x, length (outcomes (p_output (x_pipe x)))) 0 (block_run sr_evm sr_acts sr_block) = 2)
    by (vm_compute; reflexivity).
  destruct (block_run sr_evm sr_acts sr_block) as [x|] eqn:Hr; [|done]. exists x. split; [|done]. by eapply block_run_sound.
Qed.

Lemma sr_anchor : db_basic cv_state 77 = (Ok None, sr_start).
Proof. vm_compute. reflexivity. Qed.

Lemma committed_serializable_witness :
  ∃ x rs, rtc (block_step sr_evm) sr_block x ∧ length rs = 2 ∧
    state_rep (λ h, [h]) cv_w0 cv_rep (x_state x) (world_at 77 (load_world cv_w0) rs 2) ∧
    ∀ t sr, rs !! t = Some sr → ∃ asked,
      serial_run (λ h, [h]) (load_world cv_w0) (λ _, 0%Z) (world_at 77 (load_world cv_w0) rs t) (sr_evm t) asked sr.
Proof.
  assert (Hevm := λ t, sr_evm_ok t (λ _, 0%Z)). assert (Honce := sr_evm_once).
  assert (Hbh : ∀ db n h db', cv_rep db cv_w0 → block_hash_ref db n = (Ok h, db') → h = (λ _ : Z, 0%Z) n) by done.
  assert (Hha : hashes_ok (λ _, 0%Z) cv_state) by (intros n h; vm_compute; done).
  destruct sr_run as (x & Hr & Hlen).
  destruct (start_inv sr_evm (λ h, [h]) cv_w0 (λ _, 0%Z) cv_base cv_rep sr_txs 77 None cv_state sr_start false
    cv_state_rep Hha px_funded sr_anchor) as [Han Hinv].
  destruct (committed_serializable sr_evm (λ h, [h]) cv_w0 (λ _, 0%Z) cv_base cv_rep Hbh sr_txs 77 None cv_state sr_start false x
    Hevm cv_state_rep Hha px_funded sr_anchor) as (rs & Ho & _ & Hst & Hser & _).
  - exact (once_run sr_evm (λ h, [h]) cv_w0 (λ _, 0%Z) 77 None (length sr_txs) cv_base cv_rep Hevm Han Hbh _ x [] [] Honce Hinv Hr).
  - rewrite Ho, length_fmap in Hlen. exists x, rs. split_and!; [exact Hr|exact Hlen|by rewrite Hlen in Hst|exact Hser].
Defined.

End examples.
