(* ===== verification/HeadProgress.v ===== *)
(** The first transaction that is not final is executed successfully at most once more
    (src/src/scheduler.rs, src/src/incarnation_db.rs).

    When an incarnation begins while every transaction before it is final, nothing it can read
    changes any more: every read it records is valid when it is recorded, stays valid, and meets
    no estimate. So when it ends with a result it is neither blocked nor invalidated, and its
    transaction is never executed again. With the safety of finality and the progress of the
    finality cursor this excludes that re-execution goes on forever at the head of the block. *)

From S2P Require Import Prelude Model Reward History World IncarnationDb Access Snapshot Replay ParallelState CacheView TxDependency Context Metrics Scheduler OrderedCommit Interleave Finality Published Control Pipeline Serial SerialRun.

Section calm.
Context `{!Revm} {E : Type}.
Abbreviation Sched := (Scheduler.Sched E).
Implicit Types (s : Sched) (t w : TxId) (db : IncarnationDb).

(** ** Reads below a final prefix *)

Definition typed (l : LocationAndType) (x : MemoryValue) : Prop :=
  match l, x with
  | LBasic _, MVBasic _ | LCode _, MVCode _ | LStorage _ _, MVStorage _ | LStorageReset _, MVStorageReset => True
  | _, _ => False
  end.

(** The data below [t] is not provisional. *)
Record calm s t : Prop := {
  cm_entry l w e : w < t → ent s l w = Some e → estimate e = false ∧ typed l (data e);
  cm_history w : w < t → ∃ i e, hist_at s w = Some (mkEntryState i (Exact e))
}.

(** The answer of an access of [t] is the one it would get now. *)
Definition current s t (ev : Event E) : Prop :=
  match ev with
  | EvMemory l o => mv_latest (mv_memory s) l t = o
  | EvHistory w o => w < t → hist_at s w = o
  | _ => True
  end.

Lemma written_typed b snapshots changes l x : written_value b snapshots changes l = Some x → typed l x.
Proof.
  destruct l; unfold written_value; repeat case_match; intros; simplify_eq/=; try done.
  all: match goal with Hb : _ ≫= _ = Some _ |- _ => by apply bind_Some in Hb as (? & _ & (? & _ & [= <-])%bind_Some) end.
Qed.

Lemma mv_latest_latest s l t w e : mv_latest (mv_memory s) l t = Some (w, e) → latest s l t w e.
Proof.
  unfold mv_latest. destruct (mv_memory s !! l) as [m|] eqn:Hm; [|done].
  intros (? & ? & Hk)%range_next_back_Some. unfold latest. setoid_rewrite (ent_lookup _ _ _ _ Hm). auto.
Qed.

(** States with the same data below [t]. *)
Definition same_below t s s' : Prop := anchor_of s' = anchor_of s ∧
  ∀ j, j < t → (∀ l, ent s' l j = ent s l j) ∧ hist_at s' j = hist_at s j.

Lemma mv_latest_below t s s' l : same_below t s s' → mv_latest (mv_memory s') l t = mv_latest (mv_memory s) l t.
Proof.
  intros [_ Hsame]. destruct (mv_latest (mv_memory s) l t) as [[w e]|] eqn:Hl.
  - apply latest_mv. destruct (mv_latest_latest _ _ _ _ _ Hl) as (Hw & He & Hk).
    split_and!; [done|by rewrite (proj1 (Hsame w Hw))|]. intros k Hk'. rewrite (proj1 (Hsame k (proj2 Hk'))). by apply Hk.
  - apply mv_latest_None. intros k Hk. rewrite mv_latest_None in Hl. rewrite <-(Hl k Hk). by apply Hsame.
Qed.

Lemma current_below t s s' ev : same_below t s s' → current s t ev → current s' t ev.
Proof.
  intros Hs. destruct ev as [l o|w o| | | |]; simpl; [|intros Hc Hw|done..].
  - by rewrite (mv_latest_below t s s').
  - destruct Hs as [_ Hs]. rewrite <-(Hc Hw). by apply Hs.
Qed.

Lemma read_ok_same_below t s s' rd : same_below t s s' → read_ok s t rd → read_ok s' t rd.
Proof.
  intros [Ha Hs]. apply read_ok_estimates; [done|..].
  - intros l j Hj. left. by apply Hs.
  - intros l j Hj. by rewrite (proj1 (Hs j Hj)).
  - intros j Hj. left. by apply Hs.
Qed.

(** The check of [validate] does not raise the conflict flag for a valid read. *)
Lemma validate_read_complete t s rd c d c' d' :
  read_ok s t rd → validate_read t s rd (c, d) = Done (c', d') → c' = c.
Proof.
  destruct rd as [l v]. unfold read_ok, validate_read. simpl. destruct v as [w|exp|].
  - intros (e & Hl%latest_mv & He & Hi) [= Hv]. unfold mv_latest in Hl.
    destruct (mv_memory s !! l) as [m|]; [|done]. rewrite Hl, He in Hv.
    rewrite !bool_decide_true in Hv by done. by injection Hv as <- _.
  - intros (sc & Hs & Hv) (val & Hval & [= <- _])%outcome_bind_Done. unfold History.validate in Hval.
    apply outcome_bind_Done in Hval as (r & [_ Hr]%scan_before_Done & [= <-]).
    change (scan_loop (anchor_of s) (hist_at s) t [] [] = Done r) in Hr. rewrite Hs in Hr. injection Hr as <-.
    simpl. by rewrite bool_decide_true.
  - intros Hn%mv_latest_None [= Hv]. unfold mv_latest in Hn.
    destruct (mv_memory s !! l) as [m|]; [|by injection Hv as <- _]. rewrite Hn in Hv. by injection Hv as <- _.
Qed.

(** ** What an execution records *)

Section record.
Context (s : Sched) (t : TxId) (Hcalm : calm s t).
Context (ben : Address) (size : nat).
Abbreviation anchor := (anchor_of s).

(** Nothing blocks the execution, and its recorded reads are valid. *)
Record good db : Prop := {
  gd_txid : txid (version db) = t;
  gd_free : blocking_txs db = ∅;
  gd_reads l v : read_set db !! l = Some v → read_ok s t (l, v)
}.

Lemma good_insert l v db : good db → read_ok s t (l, v) → good (insert_read l v db).
Proof. intros [Ht Hb Hr] Hv. split; [done|done|]. intros l' v'. simpl. intros [[<- <-]|[_ ?]]%lookup_insert_Some; auto. Qed.

Lemma good_snapshot a b db : good db → good (insert_snapshot a b db).
Proof. intros [Ht Hb Hr]. by split; destruct b. Qed.

Lemma good_memory l w e db :
  mv_latest (mv_memory s) l t = Some (w, e) → good db →
  good (note_entry w e db) ∧ typed l (data e) ∧ read_ok s t (l, MvMemory (mkTxVersion w (me_incarnation e))).
Proof.
  intros Hl%mv_latest_latest Hg. destruct Hl as (Hw & He & Hk) eqn:Heq. clear Heq.
  destruct (cm_entry _ _ Hcalm _ _ _ Hw He) as [Hest Ht]. split_and!; [by unfold note_entry; rewrite Hest|done|].
  exists e. simpl. by split_and!.
Qed.

Lemma good_none l db : mv_latest (mv_memory s) l t = None → good db → good (insert_read l RVStorage db).
Proof. intros Hl Hg. apply good_insert; [done|]. intros k Hk. rewrite mv_latest_None in Hl. by apply Hl. Qed.

(** The scan of the beneficiary history. *)
Lemma scan_prog_current n os rs tr o :
  n ≤ t → follows (scan_prog (E:=E) anchor n os rs) tr (Ret o) → Forall (current s t) tr →
  scan_loop anchor (hist_at s) n os rs = o ∧ ∃ sc, o = Done (Ok sc).
Proof.
  revert os rs tr. induction n as [|w IH]; intros os rs tr Hn Hf Hc; simpl in Hf |- *.
  { apply follows_Ret in Hf as [_ [= ->]]. eauto. }
  step_trace Hf rest. apply Forall_cons in Hc as [Hev Hc]. simpl in Hev. specialize (Hev ltac:(lia)). subst.
  destruct (cm_history _ _ Hcalm w) as (i & e & He); [lia|]. rewrite He in Hf |- *.
  destruct e as [|r|a]; [by eapply IH; [lia|..]|by eapply IH; [lia|..]|].
  apply follows_Ret in Hf as [_ [= ->]]. eauto.
Qed.

Lemma code_good a h db tr r db' :
  follows (code_by_address_prog (E:=E) a h db) tr (Ret (r, db')) → Forall (current s t) tr → good db → good db'.
Proof.
  intros Hf Hc Hg. step_trace Hf rest. apply Forall_cons in Hc as [Hev Hc]. simpl in Hev. subst.
  destruct (mv_latest (mv_memory s) (LCode a) t) as [[w [inc x est]]|] eqn:Hl.
  - destruct (good_memory _ _ _ _ Hl Hg) as (Hn & Ht & Hr). destruct x; try done.
    apply follows_Ret in Hf as [_ [= _ ->]]. by apply good_insert.
  - step_trace Hf rest'. apply follows_Ret in Hf as [_ [= _ ->]]. case_match; [by apply good_none|done].
Qed.

Lemma account_good a db tr r db' :
  follows (basic_account_prog (E:=E) ben anchor size a db) tr (Ret (Done (r, db'))) →
  Forall (current s t) tr → good db → good db'.
Proof.
  intros Hf Hc Hg. unfold basic_account_prog in Hf. case_bool_decide as Ha.
  - case_match; [|by apply follows_Ret in Hf as [_ ?]].
    apply follows_bind in Hf as (tr1 & tr2 & o & -> & Hf1 & [-> Ho]%follows_Ret). rewrite app_nil_r in Hc.
    rewrite (gd_txid _ Hg) in Hf1. apply scan_prog_current in Hf1 as [Hs [sc ->]]; [|done..].
    injection Ho as _ ->. by apply good_snapshot, good_insert; [done|exists sc].
  - step_trace Hf rest. apply Forall_cons in Hc as [Hev Hc]. simpl in Hev. subst.
    destruct (mv_latest (mv_memory s) (LBasic a) t) as [[w [inc x est]]|] eqn:Hl.
    + destruct (good_memory _ _ _ _ Hl Hg) as (Hn & Ht & Hr). destruct x; try done.
      apply follows_Ret in Hf as [_ [= _ ->]]. apply good_insert; [by apply good_snapshot|done].
    + step_trace Hf rest'. apply follows_Ret in Hf as [_ [= -> ->]].
      destruct r0; [|done]. by apply good_none, good_snapshot.
Qed.

Lemma basic_good a db tr r db' :
  follows (basic_prog (E:=E) ben anchor size a db) tr (Ret (Done (r, db'))) →
  Forall (current s t) tr → good db → good db'.
Proof.
  intros (tr1 & tr2 & o & -> & Hf1 & Hf2)%follows_bind [Hc1 Hc2]%Forall_app Hg.
  destruct o as [[r1 db1]|]; [|by apply follows_Ret in Hf2 as [_ ?]].
  assert (Hg1 : good db1) by (by eapply account_good). destruct r1 as [[i|]|e].
  2,3: by apply follows_Ret in Hf2 as [_ [= _ ->]].
  destruct (negb _ && _); [|by apply follows_Ret in Hf2 as [_ [= _ ->]]].
  apply follows_bind in Hf2 as (tr3 & tr4 & [rc db2] & -> & Hf3 & [_ [= _ ->]]%follows_Ret).
  apply Forall_app in Hc2 as [Hc3 _]. by eapply code_good.
Qed.

Lemma storage_good a k db tr r db' :
  follows (storage_prog (E:=E) a k db) tr (Ret (r, db')) → Forall (current s t) tr → good db → good db'.
Proof.
  intros Hf Hc Hg. step_trace Hf rest. apply Forall_cons in Hc as [Hev Hc]. simpl in Hev. subst.
  assert (Hslot : ∀ (reset : option TxId) db1 tr', good db1 → Forall (current s t) tr' →
    follows (GetMemory (LStorage a k) (λ o,
      let '(slot_write, slot_version, s) :=
        match o with
        | Some (t, mkMemoryEntry inc (MVStorage value) est as e) =>
          (Some (t, value), MvMemory (mkTxVersion t inc), note_entry t e db1)
        | _ => (None, RVStorage, db1)
        end in
      let s := insert_read (LStorage a k) slot_version s in
      let from_base := match reset with Some _ => Ret (Ok 0%Z, s) | None => DbStorage a k (λ r, Ret (r, s)) end in
      match slot_write with
      | Some (slot_txid, value) =>
        if match reset with None => true | Some r => r <=? slot_txid end then Ret (Ok value, s) else from_base
      | None => from_base
      end)) tr' (Ret (r, db')) → good db').
  { clear Hf Hc. intros reset db1 tr' Hg1 Hc Hf. step_trace Hf rest'. apply Forall_cons in Hc as [Hev Hc]. simpl in Hev. subst.
    destruct (mv_latest (mv_memory s) (LStorage a k) t) as [[w [inc x est]]|] eqn:Hl.
    - destruct (good_memory _ _ _ _ Hl Hg1) as (Hn & Ht & Hr). destruct x; try done. cbv zeta in Hf.
      destruct reset; repeat case_match; try step_trace Hf rest''; apply follows_Ret in Hf as [_ [= _ ->]]; by apply good_insert.
    - destruct reset; try step_trace Hf rest''; apply follows_Ret in Hf as [_ [= _ ->]]; by apply good_none. }
  destruct (mv_latest (mv_memory s) (LStorageReset a) t) as [[w [inc x est]]|] eqn:Hl.
  - destruct (good_memory _ _ _ _ Hl Hg) as (Hn & Ht & Hr). destruct x; try done.
    by eapply (Hslot (Some w)), Hf; [apply good_insert|].
  - by eapply (Hslot None), Hf; [apply good_none|].
Qed.

(** A successful execution whose answers are current. *)
Lemma calls_good P (m : Evm E) db tr sr db' :
  calls ben anchor size P m db tr sr db' → Forall (current s t) tr → good db → good db'.
Proof.
  induction 1 as [|a k db tr v db1 tr' sr db' Hf _ _ IH|h k db tr c db1 tr' sr db' Hf _ _ IH
    |a key k db tr v db1 tr' sr db' Hf _ _ IH|n k db tr v db1 tr' sr db' Hf _ _ IH];
    [done|intros [Hc Hc']%Forall_app Hg; apply IH; [done|]..].
  - by eapply basic_good.
  - step_trace Hf rest. by apply follows_Ret in Hf as [_ [= _ ->]].
  - by eapply storage_good.
  - step_trace Hf rest. by apply follows_Ret in Hf as [_ [= _ ->]].
Qed.

End record.
End calm.

(** ** The system *)

Section head.
Context `{!Revm} `{!RevmDb} {DB E : Type} `{!DatabaseRef DB E} (evm_of : TxId → Evm E).
Context (ben : Address) (anchor : option AccountInfo) (size : nat).
Abbreviation Sys := (Interleave.Sys (E:=E)).
Abbreviation Block := (Serial.Block (DB:=DB) (E:=E)).
Abbreviation b0 := (Serial.b0 ben anchor).
Abbreviation follows_evm := (Serial.follows_evm evm_of ben anchor size).
Implicit Types (σ : Sys) (x : Block) (t : TxId).

Definition x_phase x t : option (Phase (E:=E)) := phase (p_sys (x_pipe x)) !! t.

(** What holds of executions and publications whatever is committed. *)
Record exec_inv x : Prop := {
  xi_sys : sys_inv (p_sys (x_pipe x));
  xi_slots t : slot_inv b0 (x_log x) (x_sched x) (x_phase x t) t;
  xi_address : b_address (beneficiary (x_sched x)) = ben;
  xi_anchor : anchor_of (x_sched x) = anchor;
  xi_size : length (entries (b_history (beneficiary (x_sched x)))) = size;
  xi_running t v p tr : x_run x !! t = Some (mkRunning v p tr) →
    v = mkTxVersion t (inc_at (x_sched x) t) ∧ status_at (x_sched x) t = Some Executing ∧
    x_phase x t = None ∧ follows_evm v tr p;
  xi_log t i rec : x_log x !! (t, i) = Some rec →
    follows_evm (mkTxVersion t i) (er_trace rec) (Ret (Done (Ok (er_result rec), er_db rec)))
}.

(** A step of the workers keeps an execution under way. *)
Lemma exec_worker σ σ' c out i ret run log :
  worker_step σ σ' → no_start σ σ' → exec_inv (mkBlock (mkPipe σ c out i ret) run log) →
  exec_inv (mkBlock (mkPipe σ' c out i ret) run log).
Proof.
  intros Hstep Hns [Hsys Hsl Hb Ha Hsz Hrun Hlog]. unfold x_sched, x_phase in *.
  cbn [x_pipe x_run x_log p_sys] in *. destruct (worker_shape _ _ Hsys Hstep) as [[St1 St2 St3] _].
  split; unfold x_sched, x_phase; cbn [x_pipe x_run x_log p_sys]; rewrite ?St1, ?St2, ?St3; try done.
  - by eapply sys_inv_worker.
  - by eapply slots_worker.
  - intros t v p tr Ht. destruct (Hrun t v p tr Ht) as (-> & Hst & Hph & Hfo).
    destruct (held_kept σ σ' t) as [Hslot Hph']; [done..|by left|].
    by rewrite (inc_at_slot _ _ _ Hslot), (status_at_slot _ _ _ Hslot).
Qed.

Lemma sys_inv_iteration elapsed i s (c : OrderedCommitter (DB:=DB)) out step s' c' out' ph fl :
  i < final_idx s → commit_iteration elapsed i (s, c, out) = Done (step, (s', c', out')) →
  sys_inv (mkSys s ph fl) → sys_inv (mkSys s' ph fl).
Proof.
  intros Hi Hit Hinv. unfold commit_iteration in Hit.
  apply outcome_bind_Done in Hit as ([o s1] & (o' & Ho%index_Done & [= <- <-])%outcome_bind_Done & Hit).
  assert (Hinv1 : sys_inv (mkSys (set_tx_results (<[i := None]> (tx_results s)) s) ph fl)).
  { eapply sys_inv_take; [done|done|]. apply modify_at_Done. eauto. }
  assert (Habort : ∀ reason s0, sys_inv (mkSys s0 ph fl) → sys_inv (mkSys (abort reason s0) ph fl))
    by (intros; eapply sys_inv_core; [apply same_core_abort|done]).
  destruct o' as [r|]; [|injection Hit as _ <- _ _; by apply Habort].
  destruct (execute_result r); [|injection Hit as _ <- _ _; by apply Habort].
  apply outcome_bind_Done in Hit as (tx & _ & ([[res out1] c1] & _ & Hit)%outcome_bind_Done).
  assert (Hinv2 : sys_inv (mkSys (taken i elapsed s) ph fl)) by (by apply sys_inv_taken).
  destruct res as [[e|]|e]; [|injection Hit as _ <- _ _; by apply Habort..].
  apply outcome_bind_Done in Hit as (d & _ & [= _ <- _ _]).
  by eapply sys_inv_core, (sys_inv_commit (taken i elapsed s)); [apply same_core_dependency|].
Qed.

Lemma exec_commit s ph fl c out i elapsed step s' (c' : OrderedCommitter (DB:=DB)) out' out1 j ret ret' run log :
  i < final_idx s → commit_iteration elapsed i (s, c, out) = Done (step, (s', c', out')) →
  exec_inv (mkBlock (mkPipe (mkSys s ph fl) c out1 i ret) run log) →
  exec_inv (mkBlock (mkPipe (mkSys s' ph fl) c' out' j ret') run log).
Proof.
  intros Hi Hit [Hsys Hsl Hb Ha Hsz Hrun Hlog]. unfold x_sched, x_phase in *. cbn [x_pipe x_run x_log p_sys sch phase] in *.
  destruct (commit_iteration_core _ _ _ _ _ _ _ _ _ Hit) as (Hst & Hmv & Hben & _ & Hres).
  split; unfold x_sched, x_phase; cbn [x_pipe x_run x_log p_sys sch phase];
    unfold anchor_of, status_at, inc_at in *; rewrite ?Hben, ?Hst; try done.
  - by eapply sys_inv_iteration.
  - by eapply slots_results.
Qed.

Lemma exec_begin s ph fl c out i ret run log v s1 :
  ph !! txid v = None → execute_begin v s = Done (true, s1) →
  exec_inv (mkBlock (mkPipe (mkSys s ph fl) c out i ret) run log) →
  exec_inv (mkBlock (mkPipe (mkSys s1 ph fl) c out i ret) (<[txid v := mkRunning v (incarnation evm_of s1 v) []]> run) log).
Proof.
  intros Hph (Hcore & Hst & Hv)%execute_begin_true Hinv.
  assert (Hinv1 : exec_inv (mkBlock (mkPipe (mkSys s1 ph fl) c out i ret) run log)).
  { eapply exec_worker; [by apply ss_other|intros t v' x ps todo Ht; by exists todo|done]. }
  clear Hinv. destruct Hinv1 as [Hsys Hsl Hb Ha Hsz Hrun Hlog]. split; try done.
  unfold x_sched, x_phase in *. cbn [x_pipe x_run x_log p_sys sch phase] in *.
  intros t v' p tr [[<- [= <- <- <-]]|[_ Ht]]%lookup_insert_Some; [|by apply Hrun].
  unfold status_at, inc_at in *. rewrite (sc_states _ _ Hcore). split_and!; [done..|].
  unfold incarnation, Serial.follows_evm. rewrite Hb, Ha, Hsz. constructor.
Qed.

Lemma exec_access σ c c' out i ret run log t v p tr ev p' :
  run !! t = Some (mkRunning v p tr) → prog_step p ev p' →
  exec_inv (mkBlock (mkPipe σ c out i ret) run log) →
  exec_inv (mkBlock (mkPipe σ c' out i ret) (<[t := mkRunning v p' (tr ++ [ev])]> run) log).
Proof.
  intros Ht Hps [Hsys Hsl Hb Ha Hsz Hrun Hlog]. split; try done. cbn [x_run] in *.
  intros t' v' q tr' [[<- [= <- <- <-]]|[_ Ht']]%lookup_insert_Some; [|by apply Hrun].
  destruct (Hrun _ _ _ _ Ht) as (? & ? & ? & ?). split_and!; [done..|by eapply follows_snoc].
Qed.

Lemma exec_finish s ph fl c out i ret run log t v sr idb tr ps :
  run !! t = Some (mkRunning v (Ret (Done (Ok sr, idb))) tr) → ps = publications s sr idb →
  exec_inv (mkBlock (mkPipe (mkSys s ph fl) c out i ret) run log) →
  exec_inv (mkBlock (mkPipe (mkSys s (<[t := PPublish v (mkIncarnationExecution (Ok sr) (accesses_of ps idb)) ps ps]> ph) fl) c out i ret)
    (delete t run) (<[(t, tv_incarnation v) := mkRecord tr sr idb]> log)).
Proof.
  intros Ht Hpub [Hsys Hsl Hb Ha Hsz Hrun Hlog]. unfold x_sched, x_phase in *. cbn [x_pipe x_run x_log p_sys sch phase] in *.
  destruct (Hrun _ _ _ _ Ht) as (Hv & Hst & Hph & Hfo).
  assert (Hw : ∀ l y, (l, y) ∈ ps ↔ er_written b0 (mkRecord tr sr idb) l = Some y).
  { intros l y. subst ps. unfold publications. rewrite publications_spec. unfold er_written. simpl.
    by rewrite (written_address (beneficiary s) b0). }
  destruct (slots_finish b0 log s ph t v (mkRecord tr sr idb) ps Hv Hst Hph Hw Hsl) as [Hnew Hsl'].
  split; unfold x_sched, x_phase; cbn [x_pipe x_run x_log p_sys sch phase]; try done.
  - destruct (execute_begin_running v s) as (s1 & Hbeg & Hcore); [by rewrite Hv|by rewrite Hv|].
    eapply sys_inv_worker; [apply ss_other; exact Hcore|]. eapply sys_inv_worker; [|exact Hsys].
    assert (txid v = t) as <- by (by rewrite Hv). by apply ss_execute.
  - intros k. subst v. apply Hsl'.
  - intros t' v' q tr' [Hne Ht']%lookup_delete_Some. rewrite lookup_insert_ne by done. by apply Hrun.
  - intros t' i' rec [[Hkey <-]|[_ Hrec]]%lookup_insert_Some; [|by apply Hlog].
    injection Hkey as <- <-. simpl. by rewrite Hv in Hfo |- *.
Qed.

Lemma exec_fail s ph fl c out i ret run log t v e idb tr :
  run !! t = Some (mkRunning v (Ret (Done (Err e, idb))) tr) →
  exec_inv (mkBlock (mkPipe (mkSys s ph fl) c out i ret) run log) →
  exec_inv (mkBlock (mkPipe (mkSys s (<[t := PPublish v (mkIncarnationExecution (Err e) (discard_incarnation idb).1) [] []]> ph) fl) c out i ret)
    (delete t run) log).
Proof.
  intros Ht [Hsys Hsl Hb Ha Hsz Hrun Hlog]. unfold x_sched, x_phase in *. cbn [x_pipe x_run x_log p_sys sch phase] in *.
  destruct (Hrun _ _ _ _ Ht) as (Hv & Hst & Hph & Hfo).
  split; unfold x_sched, x_phase; cbn [x_pipe x_run x_log p_sys sch phase]; try done.
  - destruct (execute_begin_running v s) as (s1 & Hbeg & Hcore); [by rewrite Hv|by rewrite Hv|].
    eapply sys_inv_worker; [apply ss_other; exact Hcore|]. eapply sys_inv_worker; [|exact Hsys].
    assert (txid v = t) as <- by (by rewrite Hv). by eapply ss_execute_error.
  - by apply slots_fail.
  - intros t' v' q tr' [Hne Ht']%lookup_delete_Some. rewrite lookup_insert_ne by done. by apply Hrun.
Qed.

Lemma exec_inv_step x x' : block_step evm_of x x' → exec_inv x → exec_inv x'.
Proof.
  intros Hstep Hinv. destruct Hstep.
  - by eapply exec_worker.
  - by eapply exec_begin.
  - by eapply exec_access.
  - by eapply exec_finish.
  - by eapply exec_fail.
  - by eapply exec_commit.
  - by destruct Hinv.
Qed.

Lemma exec_inv_init txs (st : ParallelState DB) check :
  size = length txs → exec_inv (Block_new txs ben anchor st check).
Proof.
  intros Hsize. split; unfold x_sched, x_phase; cbn [x_pipe x_run x_log Block_new p_sys Pipe_new phase]; try done.
  - apply sys_inv_init.
  - intros t. apply slots_init.
  - simpl. by rewrite length_replicate.
Qed.

(** ** The head of the block *)

(** Data of final transactions is fixed and not provisional. *)
Lemma final_calm x t : exec_inv x → t ≤ final_idx (x_sched x) → calm (x_sched x) t.
Proof.
  intros Hinv Ht.
  assert (Hcur : ∀ w, w < t → ∃ rec, current_ok b0 rec (x_sched x) w).
  { intros w Hw. destruct (sl_current _ _ _ _ _ (xi_slots _ Hinv w)) as (rec & _ & ?); [|eauto].
    assert (Hst : status_at (x_sched x) w = Some Finality)
      by (apply (si_final _ (xi_sys _ Hinv)); unfold x_sched in *; lia). by rewrite Hst. }
  split.
  - intros l w e Hw He. destruct (Hcur w Hw) as [rec Hc]. rewrite (cu_entries _ _ _ _ Hc) in He.
    apply fmap_Some in He as (y & Hy & ->). split; [done|]. by eapply written_typed.
  - intros w Hw. destruct (Hcur w Hw) as [rec Hc]. destruct (cu_history _ _ _ _ Hc) as (e & He & _). eauto.
Qed.

Lemma step_final_below x x' :
  block_step evm_of x x' → exec_inv x →
  final_idx (x_sched x) ≤ final_idx (x_sched x') ∧ same_below (final_idx (x_sched x)) (x_sched x) (x_sched x').
Proof.
  intros Hstep Hinv. pose proof (xi_sys _ Hinv) as Hsys. unfold x_sched in *.
  assert (Hcore : ∀ s s' : Scheduler.Sched E, mv_memory s' = mv_memory s → beneficiary s' = beneficiary s →
    same_below (final_idx s) s s').
  { intros s s' Hm Hb. unfold same_below, anchor_of, ent, hist_at. by rewrite Hm, Hb. }
  destruct Hstep; cbn [x_pipe p_sys sch] in *; try (split; [done|by apply Hcore]).
  - split; [by eapply we_final, worker_step_effect|]. destruct (worker_shape σ σ') as [[_ Ha _] _]; [done..|].
    split; [done|]. intros j Hj. destruct (held_kept σ σ' j) as [Hslot _]; [done..|by apply final_idle|right; by apply (si_final _ Hsys)|].
    split; apply Hslot.
  - match goal with H : execute_begin _ _ = _ |- _ => apply execute_begin_true in H as (Hc & _) end.
    unfold final_idx at 1 2. rewrite (sc_finality _ _ Hc). split; [done|]. apply Hcore; apply Hc.
  - match goal with H : commit_iteration _ _ _ = _ |- _ =>
      pose proof (commit_iteration_core _ _ _ _ _ _ _ _ _ H) as (_ & ? & ? & [_ ->] & _) end.
    split; [done|by apply Hcore].
Qed.

(** The phase of a transaction whose execution succeeded and whose reads are valid. *)
Definition settling (s : Scheduler.Sched E) t (p : option (Phase (E:=E))) : Prop :=
  match p with
  | Some (PPublish _ ex _ _) => is_ok (ie_result ex) = true
  | Some (PScan _ _ _ _ todo c _) => c = false ∧ ∀ rd, rd ∈ todo → read_ok s t rd
  | None => True
  end.

(** The incarnation [i] of [t] neither failed nor was sent back. *)
Record kept (i : nat) (s : Scheduler.Sched E) t (p : option (Phase (E:=E))) : Prop := {
  kp_inc : inc_at s t = i;
  kp_status : status_at s t ≠ Some Initial ∧ status_at s t ≠ Some Conflict;
  kp_phase : settling s t p
}.

Lemma kept_other i s s' t p :
  tx_states s' !! t = tx_states s !! t → same_below t s s' → kept i s t p → kept i s' t p.
Proof.
  intros Hslot Hbelow [Hi Hst Hp]. unfold inc_at, status_at in *. split; unfold inc_at, status_at; rewrite ?Hslot; [done..|].
  destruct p as [[v ex ps todo|v ts r seen todo c d]|]; [done| |done]. destruct Hp as [-> Hr].
  split; [done|]. intros rd Hrd. by eapply read_ok_same_below, Hr.
Qed.

(** A step of another transaction. *)
Lemma kept_elsewhere i s s' (ph ph' : gmap TxId (Phase (E:=E))) t u :
  u ≠ t → frame u s s' → same_below t s s' → ph' !! t = ph !! t → kept i s t (ph !! t) → kept i s' t (ph' !! t).
Proof. intros Hne Hf Hb ->. apply kept_other; [|done]. by eapply ss_state, frame_same_slot. Qed.

(** A change of status that does not send it back. *)
Lemma kept_status i (s s' : Scheduler.Sched E) t p st :
  inc_at s' t = inc_at s t → status_at s' t = Some st → st ≠ Initial → st ≠ Conflict →
  settling s' t p → inc_at s t = i → kept i s' t p.
Proof. intros Hi Hst ? ? ? <-. split; [done|rewrite Hst; split; congruence|done]. Qed.

Section kept.
Context (i : nat) (log : gmap (TxId * nat) (ExecRecord (E:=E))) (t : TxId) (rec : ExecRecord (E:=E)).
Context (s : Scheduler.Sched E) (ph : gmap TxId (Phase (E:=E))) (fl : nat).
Context (Hinv : sys_inv (mkSys s ph fl)) (Hslot : slot_inv b0 log s (ph !! t) t) (Hrec : log !! (t, i) = Some rec).
Context (Hfree : blocking_txs (er_db rec) = ∅).
Context (Hreads : ∀ rd, rd ∈ map_to_list (read_set (er_db rec)) → read_ok s t rd).
Context (Hk : kept i s t (ph !! t)).

Lemma kept_settle v ex ps c s' :
  ph !! t = Some (PPublish v ex ps []) → execute_settle v ex s = Done (c, s') → kept i s' t None.
Proof.
  intros Hph Hset. destruct Hk as [Hi _ Hp]. rewrite Hph in Hp. simpl in Hp.
  destruct (publishing_status (mkSys s ph fl) _ _ _ _ _ Hinv Hph) as (Hst & -> & Hpub). cbn [sch] in *.
  destruct ex as [[sr|e] a]; [|done].
  destruct (sl_publish _ _ _ _ _ Hslot _ _ _ _ sr Hph eq_refl) as (rec' & Hrec' & _ & Hacc & _).
  cbn [tv_incarnation ie_accesses] in *. rewrite Hi, Hrec in Hrec'. injection Hrec' as <-.
  apply execute_settle_ok_effect in Hset as (_ & Hi' & _ & _ & _ & _ & Hst' & _); [|by eapply publishing_recordable].
  cbn [txid] in *. assert (is_blocked a = false) as Hb by (rewrite Hacc; unfold is_blocked; simpl; by rewrite bool_decide_true).
  rewrite Hb in Hst'. by destruct Hst' as [Hst'|Hst']; eapply kept_status.
Qed.

Lemma kept_task task s' :
  ph !! t = None → execution_task t s = Done (task, s') ∨ validation_task t s = Done (task, s') →
  same_below t s s' → kept i s' t None.
Proof.
  intros Hph Htask Hb. rewrite Hph in Hk, Hslot. destruct Hk as [Hi [Hst1 Hst2] _].
  assert (Hsame : same_core s s' → kept i s' t None).
  { intros Hc. eapply kept_other; [by eapply ss_state, same_core_slot|done|done]. }
  unfold status_at in Hst1, Hst2.
  destruct Htask as [(y & Hy%index_Done & Hrest)%outcome_bind_Done|(y & Hy%index_Done & Hrest)%outcome_bind_Done];
    rewrite Hy in Hst1, Hst2; cbv zeta in Hrest; simpl in Hst1, Hst2.
  - destruct (status y) eqn:Hsy; try done; [injection Hrest as <- <-; by apply Hsame, same_core_refl|..].
    all: apply outcome_bind_Done in Hrest as ([? ?] & _ & [= <- <-]); apply Hsame; by split.
  - assert (Hlt := lookup_lt_Some _ _ _ Hy).
    destruct (status y) eqn:Hsy; try done; injection Hrest as <- <-; try (by apply Hsame, same_core_refl).
    all: eapply (kept_status i s _ t None Validating); try done; unfold inc_at, status_at; simpl;
      rewrite list_lookup_insert_eq, ?Hy by done; done.
Qed.

Lemma kept_validate v ts r s' :
  txid v = t → ph !! t = None → validate_begin v s = Done (Some (ts, r), s') → same_below t s s' →
  kept i s' t (Some (PScan v ts r [] (map_to_list (tr_read_set r)) false None)).
Proof.
  intros Hv Hph Hbeg Hb. apply validate_begin_some in Hbeg as (Hst & Hv' & Hr & _ & _ & Hf & Hs & Hrs & Hm & Hbn & _).
  rewrite Hv in *. destruct Hk as [Hi Hst' _].
  destruct (sl_current _ _ _ _ _ Hslot) as (rec' & Hrec' & Hc); [by rewrite Hst|]. rewrite Hi, Hrec in Hrec'. injection Hrec' as <-.
  destruct (cu_result _ _ _ _ Hc r Hr) as [_ Hrd].
  apply kept_status with s Validating; try done; [unfold inc_at; by rewrite Hs|unfold status_at in *; by rewrite Hs|].
  split; [done|]. rewrite Hrd. intros rd Hin. by eapply read_ok_same_below, Hreads.
Qed.

Lemma kept_read v ts r seen rd todo c d c' d' :
  ph !! t = Some (PScan v ts r seen (rd :: todo) c d) → validate_read t s rd (c, d) = Done (c', d') →
  kept i s t (Some (PScan v ts r (seen ++ [rd]) todo c' d')).
Proof.
  intros Hph Hrd. destruct Hk as [Hi Hst Hp]. rewrite Hph in Hp. destruct Hp as [-> Hr].
  apply validate_read_complete in Hrd as ->; [|apply Hr; by left].
  split; [done|done|]. split; [done|]. intros rd' Hin. apply Hr. by right.
Qed.

Lemma kept_verdict v ts r seen c d s' :
  ph !! t = Some (PScan v ts r seen [] c d) → validate_finish v ts r c d s = Done s' → kept i s' t None.
Proof.
  intros Hph Hfin. destruct Hk as [Hi Hst Hp]. rewrite Hph in Hp. destruct Hp as [-> _].
  destruct (scanning_status (mkSys s ph fl) _ _ _ _ _ _ _ _ Hinv Hph) as (_ & _ & -> & _).
  apply validate_finish_ok_effect in Hfin as (_ & _ & _ & _ & Hi' & Hst' & _). cbn [txid] in *. by eapply kept_status.
Qed.

Lemma kept_finality first fl' s' :
  finality_iteration (finality (scheduler_ctx s)) fl first s = Done (Some fl', s') → same_below t s s' →
  kept i s' t (ph !! t).
Proof.
  intros Hfin Hb. apply finality_iteration_some in Hfin as (s1 & Hs1 & Hst & Hcore & _).
  destruct (frame_status _ _ _ _ Hs1) as (Hf & Hst1 & Hi1 & _).
  pose proof (same_core_slot _ _ t Hcore) as Hslot'. destruct (decide (t = final_idx s)) as [->|Hne].
  - eapply (kept_status i s s' _ _ Finality); [..|apply Hk]; [|by rewrite (status_at_slot _ _ _ Hslot')|done..|].
    + by rewrite (inc_at_slot _ _ _ Hslot').
    + destruct Hk as [_ _ Hp]. destruct (ph !! _) as [[|]|]; [done| |done]. destruct Hp as [-> Hp]. split; [done|].
      intros rd Hin. by eapply read_ok_same_below, Hp.
  - eapply (kept_other i s s'); [|done|done]. pose proof (frame_same_slot _ _ _ _ Hf Hne) as [Hst' _ _ _].
    etrans; [by apply ss_state|done].
Qed.

End kept.

(** A step of the workers does not send it back. *)
Lemma kept_worker (i : nat) (log : gmap (TxId * nat) (ExecRecord (E:=E))) σ σ' t rec :
  sys_inv σ → worker_step σ σ' → no_start σ σ' → same_below t (sch σ) (sch σ') →
  slot_inv b0 log (sch σ) (phase σ !! t) t → log !! (t, i) = Some rec → blocking_txs (er_db rec) = ∅ →
  (∀ rd, rd ∈ map_to_list (read_set (er_db rec)) → read_ok (sch σ) t rd) →
  kept i (sch σ) t (phase σ !! t) → kept i (sch σ') t (phase σ' !! t).
Proof.
  intros Hinv Hstep Hns Hbelow Hslot Hrec Hfree Hreads Hk.
  destruct Hstep as [s ph fl v s1 sr idb ps Hph Hbeg ->|s ph fl v s1 e idb Hph Hbeg|s ph fl u v x ps l val todo Hph
    |s ph fl u v x ps c s' Hph Hset|s ph fl u task s' Hph Htask|s ph fl u task s' Hph Htask|s ph fl v ts r s' Hph Hbeg
    |s ph fl u v ts r seen rd todo c d c' d' Hph Hrd|s ph fl u v ts r seen c d s' Hph Hfin|s ph fl first fl' s' Hph Hfin
    |s ph fl s' Hcore]; cbn [sch phase] in *.
  1,2: exfalso; edestruct (Hns (txid v)) as [todo' Hp]; cbn [phase] in *; [apply lookup_insert_eq|]; by rewrite Hph in Hp.
  - destruct (decide (u = t)) as [->|Hne]; [rewrite lookup_insert_eq|rewrite lookup_insert_ne by done; by eapply (kept_other i s)].
    destruct Hk as [Hi Hst Hp]; split; [done|done|]. by rewrite Hph in Hp.
  - destruct (decide (u = t)) as [->|Hne]; [rewrite lookup_delete_eq; by eapply kept_settle|].
    eapply (kept_elsewhere i s s' ph (delete u ph) t u); [done|by eapply settle_frame|done|by rewrite lookup_delete_ne|done].
  - destruct (decide (u = t)) as [->|Hne]; [rewrite Hph; by eapply kept_task; eauto|].
    eapply (kept_elsewhere i s s' ph ph t u); [done|eapply task_frame; eauto|done..].
  - destruct (decide (u = t)) as [->|Hne]; [rewrite Hph; by eapply kept_task; eauto|].
    eapply (kept_elsewhere i s s' ph ph t u); [done|eapply task_frame; eauto|done..].
  - destruct (decide (txid v = t)) as [Hv|Hne]; [rewrite Hv, lookup_insert_eq in *; by eapply kept_validate|].
    eapply (kept_elsewhere i s s' ph (<[txid v := _]> ph) t (txid v)); [done| |done|by rewrite lookup_insert_ne|done].
    by apply validate_begin_some in Hbeg as (_ & _ & _ & _ & _ & Hf & _).
  - destruct (decide (u = t)) as [->|Hne]; [rewrite lookup_insert_eq; by eapply kept_read|by rewrite lookup_insert_ne].
  - destruct (decide (u = t)) as [->|Hne]; [rewrite lookup_delete_eq; by eapply kept_verdict|].
    eapply (kept_elsewhere i s s' ph (delete u ph) t u); [done|by eapply verdict_frame|done|by rewrite lookup_delete_ne|done].
  - by eapply kept_finality.
  - eapply kept_other; [by eapply ss_state, same_core_slot|done|done].
Qed.

(** The invariant of an incarnation that began when the transactions before it were final. *)
Record head_inv t i x : Prop := {
  hi_final : t ≤ final_idx (x_sched x);
  hi_run v p tr : x_run x !! t = Some (mkRunning v p tr) → tv_incarnation v = i → Forall (current (x_sched x) t) tr;
  hi_trace rec : x_log x !! (t, i) = Some rec → Forall (current (x_sched x) t) (er_trace rec);
  hi_kept rec : x_log x !! (t, i) = Some rec → kept i (x_sched x) t (x_phase x t)
}.

(** Its recorded reads are valid and nothing blocks it. *)
Lemma head_good t i x rec :
  exec_inv x → head_inv t i x → x_log x !! (t, i) = Some rec → good (x_sched x) t (er_db rec).
Proof.
  intros Hinv Hh Hrec. pose proof (xi_log _ Hinv _ _ _ Hrec) as Hf%incarnation_calls.
  rewrite <-(xi_anchor _ Hinv) in Hf. eapply calls_good in Hf; [done|by apply final_calm, Hh|by eapply hi_trace|].
  split; [done|done|]. intros l v. simpl. by rewrite lookup_empty.
Qed.

(** The log of an incarnation is new when its execution ends. *)
Lemma running_unlogged x t v p tr :
  exec_inv x → x_run x !! t = Some (mkRunning v p tr) → x_log x !! (t, tv_incarnation v) = None.
Proof.
  intros Hinv Ht. destruct (xi_running _ Hinv _ _ _ _ Ht) as (-> & Hst & Hph & _). simpl.
  destruct (x_log x !! (t, inc_at (x_sched x) t)) as [rec|] eqn:Hr; [|done].
  destruct (sl_log _ _ _ _ _ (xi_slots _ Hinv t) _ _ Hr) as [_ Hp]. rewrite Hph in Hp. by apply Hp in Hst.
Qed.

Lemma head_kept t i x x' rec :
  block_step evm_of x x' → exec_inv x → head_inv t i x → same_below t (x_sched x) (x_sched x') →
  x_log x' !! (t, i) = Some rec → kept i (x_sched x') t (x_phase x' t).
Proof.
  intros Hstep Hinv Hh Hbelow Hrec. pose proof (head_good t i x) as Hgood. pose proof (hi_kept _ _ _ Hh) as Hk.
  pose proof (xi_sys _ Hinv) as Hsys. pose proof (xi_slots _ Hinv t) as Hslot.
  pose proof (xi_running _ Hinv t) as Hrun. pose proof (running_unlogged x t) as Hnew.
  unfold x_phase, x_sched in *. destruct Hstep; cbn [x_pipe x_run x_log p_sys sch phase] in *.
  - destruct (Hgood rec Hinv Hh Hrec) as [_ Hfree Hreads].
    eapply (kept_worker i log σ σ' t rec); try done; [|by eapply Hk].
    intros [l v] Hin. by apply Hreads, elem_of_map_to_list.
  - match goal with H : execute_begin _ _ = _ |- _ => apply execute_begin_true in H as (Hc & _) end.
    eapply kept_other; [by eapply ss_state, same_core_slot|done|by eapply Hk].
  - by eapply Hk.
  - match goal with H : run !! _ = Some (mkRunning v _ tr) |- _ => rename H into Hr end. destruct (decide (t0 = t)) as [->|Hne].
    + destruct (Hrun _ _ _ Hr) as (Hv & Hst & _). rewrite lookup_insert_eq.
      apply lookup_insert_Some in Hrec as [[[= Hi] _]|[Hne Hrec]].
      * split; [by rewrite <-Hi, Hv|by rewrite Hst|done].
      * destruct (Hk _ Hrec) as [Hi _ _]. exfalso. apply Hne. by rewrite Hv, <-Hi.
    + rewrite lookup_insert_ne by congruence. apply lookup_insert_Some in Hrec as [[[= ? _] _]|[_ Hrec]]; [done|by eapply Hk].
  - match goal with H : run !! _ = Some (mkRunning v _ tr) |- _ => rename H into Hr end. destruct (decide (t0 = t)) as [->|Hne].
    + destruct (Hrun _ _ _ Hr) as (Hv & _). destruct (Hk _ Hrec) as [Hi _ _].
      exfalso. specialize (Hnew _ _ _ Hinv Hr). rewrite Hv in Hnew. simpl in Hnew. congruence.
    + rewrite lookup_insert_ne by congruence. by eapply Hk.
  - match goal with H : commit_iteration _ _ _ = _ |- _ =>
      pose proof (commit_iteration_core _ _ _ _ _ _ _ _ _ H) as (Hst & _) end.
    eapply kept_other; [by rewrite Hst|done|by eapply Hk].
  - by eapply Hk.
Qed.

Lemma same_below_le t u s s' : t ≤ u → same_below (E:=E) u s s' → same_below t s s'.
Proof. intros Hle [Ha Hs]. split; [done|]. intros j Hj. apply Hs. lia. Qed.

Lemma currents_below t s s' tr : same_below (E:=E) t s s' → Forall (current s t) tr → Forall (current s' t) tr.
Proof. intros Hb Hc. eapply Forall_impl; [exact Hc|]. intros ev. by apply current_below. Qed.

Lemma access_current s (st : ParallelState DB) t ev st' : access s st t ev st' → current s t ev.
Proof. by destruct 1. Qed.

Lemma head_inv_step t i x x' : block_step evm_of x x' → exec_inv x → head_inv t i x → head_inv t i x'.
Proof.
  intros Hstep Hinv Hh. destruct (step_final_below _ _ Hstep Hinv) as [Hf Hb%(same_below_le t)]; [|apply Hh].
  pose proof (λ rec, head_kept t i x x' rec Hstep Hinv Hh Hb) as Hk. destruct Hh as [Ht Hr Hl _].
  split; [lia| | |done]; clear Hk Hinv Hf Ht.
  - intros v' p' tr' Hrun Hi. destruct Hstep; cbn [x_run] in *; try (by eapply currents_below, Hr).
    + apply lookup_insert_Some in Hrun as [[_ [= _ _ <-]]|[_ Hrun]]; [done|by eapply currents_below, Hr].
    + apply lookup_insert_Some in Hrun as [[-> [= <- <- <-]]|[_ Hrun]]; [|by eapply Hr].
      apply Forall_app. split; [by eapply Hr|]. apply Forall_singleton. by eapply access_current.
    + apply lookup_delete_Some in Hrun as [_ Hrun]. by eapply Hr.
    + apply lookup_delete_Some in Hrun as [_ Hrun]. by eapply Hr.
  - intros rec Hrec. destruct Hstep; cbn [x_log] in *; try (by eapply currents_below, Hl).
    apply lookup_insert_Some in Hrec as [[[= -> Hi] <-]|[_ Hrec]]; [by eapply Hr|by eapply Hl].
Qed.

(** The step that begins the incarnation [v]. *)
Definition begins (v : TxVersion) x x' : Prop :=
  block_step evm_of x x' ∧ x_run x !! txid v = None ∧ ∃ p, x_run x' !! txid v = Some (mkRunning v p []).

Lemma head_inv_begins v x x' :
  exec_inv x → begins v x x' → txid v ≤ final_idx (x_sched x) → head_inv (txid v) (tv_incarnation v) x'.
Proof.
  intros Hinv (Hstep & Hnone & p & Hp) Ht. destruct (step_final_below _ _ Hstep Hinv) as [Hf _].
  pose proof (running_unlogged _ _ _ _ _ (exec_inv_step _ _ Hstep Hinv) Hp) as Hnew. split; [lia|..]; intros.
  - simplify_eq. constructor.
  - congruence.
  - congruence.
Qed.

Lemma head_run t i x x' :
  rtc (block_step evm_of) x x' → exec_inv x → head_inv t i x → exec_inv x' ∧ head_inv t i x'.
Proof.
  induction 1 as [|x1 x2 x3 Hs _ IH]; [done|]. intros Hinv Hh. apply IH; [by eapply exec_inv_step|by eapply head_inv_step].
Qed.

Lemma exec_inv_run x x' : rtc (block_step evm_of) x x' → exec_inv x → exec_inv x'.
Proof. induction 1; eauto using exec_inv_step. Qed.

End head.

(** ** Properties *)

(** C5. No livelock at the head of the block. Take any interleaving of executions (access by
    access), publications, validations, finality and commits, and an incarnation that begins
    when all transactions before it are final. If its execution ends with a result, then from
    there on, whatever the interleaving: it is not blocked, every read it recorded is valid, its
    transaction is in none of the statuses from which it would be executed again, and its
    incarnation number never changes. *)
Theorem head_executes_once `{!Revm} `{!RevmDb} {DB E : Type} `{!DatabaseRef DB E} (evm_of : TxId → Evm E)
    txs ben anchor (st : ParallelState DB) check x x1 x2 v rec :
  rtc (block_step evm_of) (Block_new txs ben anchor st check) x →
  begins evm_of v x x1 → final_idx (x_sched x) = txid v → rtc (block_step evm_of) x1 x2 →
  x_log x2 !! (txid v, tv_incarnation v) = Some rec →
  inc_at (x_sched x2) (txid v) = tv_incarnation v ∧
  status_at (x_sched x2) (txid v) ≠ Some Initial ∧ status_at (x_sched x2) (txid v) ≠ Some Conflict ∧
  blocking_txs (er_db rec) = ∅ ∧
  ∀ l rv, read_set (er_db rec) !! l = Some rv → read_ok (x_sched x2) (txid v) (l, rv).
Proof.
  intros Hr1 Hbeg Hfin Hr2 Hrec.
  eapply (exec_inv_run evm_of ben anchor (length txs)) in Hr1; [|by apply exec_inv_init].
  assert (Hh1 : head_inv (txid v) (tv_incarnation v) x1) by (eapply head_inv_begins; [done|done|lia]).
  eapply head_run in Hr2 as [Hinv2 Hh2]; [|eapply exec_inv_step; [apply Hbeg|done]|done].
  destruct (hi_kept _ _ _ Hh2 _ Hrec) as [Hi [Hs1 Hs2] _]. destruct (head_good _ _ _ _ _ _ _ _ Hinv2 Hh2 Hrec) as [_ Hfree Hreads].
  by split_and!.
Qed.

Section examples.
#[local] Existing Instance revm_example.
#[local] Existing Instance revmdb_example.
#[local] Existing Instance cv_db.

(** Transaction 1 was invalidated once; transaction 0 is final when it is executed again. *)
Definition hd_before : list BlockAction :=
  (BWorker <$> [AExecutionTask 0; AExecutionTask 1]) ++ [BBegin (mkTxVersion 0 1); BBegin (mkTxVersion 1 1)] ++
  reads 1 4 ++ [BFinish 1] ++ reads 0 4 ++ [BFinish 0] ++ publish 1 2 ++ publish 0 2 ++
  validates 0 1 2 ++ validates 1 1 2 ++
  [BWorker (AClaim 2); BWorker (AClaim 2); BWorker AFinality; BWorker (AExecutionTask 1)].
Definition hd_after : list BlockAction :=
  reads 1 3 ++ [BFinish 1] ++ publish 1 2 ++ validates 1 2 2 ++ [BWorker AFinality].

Definition hd_begins (x x1 : Block (DB:=unit) (E:=unit)) : bool :=
  bool_decide (final_idx (x_sched x) = 1) && negb (bool_decide (is_Some (x_run x !! 1))) &&
  match x_run x1 !! 1 with Some (mkRunning (mkTxVersion 1 2) _ []) => true | _ => false end.

Definition hd_check : bool :=
  from_option (λ x, from_option (λ x1, from_option (λ x2, hd_begins x x1 && bool_decide (is_Some (x_log x2 !! (1, 2))))
    false (block_run sr_evm hd_after x1)) false (block_act sr_evm (BBegin (mkTxVersion 1 2)) x))
    false (block_run sr_evm hd_before sr_block).

Lemma hd_run : ∃ (x x1 x2 : Block (DB:=unit) (E:=unit)) rec, rtc (block_step sr_evm) sr_block x ∧
  begins sr_evm (mkTxVersion 1 2) x x1 ∧ final_idx (x_sched x) = 1 ∧ rtc (block_step sr_evm) x1 x2 ∧
  x_log x2 !! (1, 2) = Some rec.
Proof.
  assert (Hc : hd_check = true) by (vm_compute; reflexivity). unfold hd_check in Hc.
  destruct (block_run sr_evm hd_before sr_block) as [x|] eqn:Ho; [|done]. cbn [from_option] in Hc.
  destruct (block_act sr_evm (BBegin (mkTxVersion 1 2)) x) as [x1|] eqn:Ho1; [|done]. cbn [from_option] in Hc.
  destruct (block_run sr_evm hd_after x1) as [x2|] eqn:Ho2; [|done]. cbn [from_option] in Hc.
  apply andb_true_iff in Hc as [((Hf%bool_decide_eq_true & Hn%negb_true_iff%bool_decide_eq_false)%andb_true_iff & Hb)%andb_true_iff
    [rec Hrec]%bool_decide_eq_true].
  apply block_run_sound in Ho, Ho2. apply block_act_sound in Ho1.
  exists x, x1, x2, rec. split_and!; [exact Ho| |exact Hf|exact Ho2|exact Hrec].
  split; [exact Ho1|]. split; [by apply eq_None_not_Some|].
  cbn [txid]. destruct (x_run x1 !! 1) as [[[[|[|]] [|[|[|]]]] p [|]]|]; try done. by exists p.
Qed.

Lemma head_executes_once_witness :
  ∃ (x x1 x2 : Block (DB:=unit) (E:=unit)) rec, begins sr_evm (mkTxVersion 1 2) x x1 ∧ final_idx (x_sched x) = 1 ∧
    rtc (block_step sr_evm) x1 x2 ∧ x_log x2 !! (1, 2) = Some rec ∧
    (inc_at (x_sched x2) 1 = 2 ∧ status_at (x_sched x2) 1 ≠ Some Initial ∧ status_at (x_sched x2) 1 ≠ Some Conflict ∧
     blocking_txs (er_db rec) = ∅ ∧
     ∀ l rv, read_set (er_db rec) !! l = Some rv → read_ok (x_sched x2) 1 (l, rv)).
Proof.
  destruct hd_run as (x & x1 & x2 & rec & Hr & Hbeg & Hf & Hr2 & Hrec). exists x, x1, x2, rec. do 4 (split; [assumption|]).
  exact (head_executes_once sr_evm sr_txs 77 None sr_start false x x1 x2 (mkTxVersion 1 2) rec Hr Hbeg Hf Hr2 Hrec).
Defined.

End examples.
