(* ===== verification/NoPanic.v ===== *)
(** The threads of the parallel phase do not panic (src/src/scheduler.rs,
    src/src/tx_dependency.rs, src/src/scheduler/context.rs, src/src/incarnation_db.rs).

    Every index into a vector of the scheduler, every assertion and every unwrapping of the
    handlers is a [Panic] of the model. [thread_step] is a step of the parallel phase of
    Serial.v in which the dependency graph and the execution frontier change by their own
    operations; [thread_panics] lists the panics of workers, finality loop and commit loop. The
    result is that none can be reached. *)

From S2P Require Import Prelude Model Reward History World IncarnationDb Access Snapshot Replay ParallelState CacheView TxDependency Context Metrics Scheduler OrderedCommit Interleave Progress Liveness Finality Published Control Pipeline Serial Settlement.

(** ** Computations that return *)

(** The computation returns, with a result in [P]. *)
Definition returns {A} (o : outcome A) (P : A → Prop) : Prop :=
  match o with Done a => P a | Panic => False end.

Lemma returns_bind {A B} (o : outcome A) (f : A → outcome B) (P : A → Prop) (Q : B → Prop) :
  returns o P → (∀ a, P a → returns (f a) Q) → returns (outcome_bind o f) Q.
Proof. destruct o; simpl; auto. Qed.

Lemma returns_impl {A} (o : outcome A) (P Q : A → Prop) : returns o P → (∀ a, P a → Q a) → returns o Q.
Proof. destruct o; simpl; auto. Qed.

(** The result with the equation that it is the result. *)
Lemma returns_eq {A} (o : outcome A) (P : A → Prop) : returns o P → returns o (λ a, o = Done a ∧ P a).
Proof. by destruct o. Qed.

Lemma returns_Done {A} (o : outcome A) (P : A → Prop) a : returns o P → o = Done a → P a.
Proof. by intros Ho ->. Qed.

Lemma returns_not_Panic {A} (o : outcome A) (P : A → Prop) : returns o P → o ≠ Panic.
Proof. by intros Ho ->. Qed.

Lemma index_returns {A} (l : list A) i : i < length l → returns (index l i) (λ a, l !! i = Some a).
Proof. intros [a Ha]%lookup_lt_is_Some_2. unfold index. by rewrite Ha. Qed.

Lemma modify_returns {A} (l : list A) i f : i < length l → returns (modify_at l i f) (λ l', length l' = length l).
Proof. intros Hi. eapply returns_bind; [by apply index_returns|]. intros a _. simpl. apply length_insert. Qed.

(** ** The dependency graph *)

(** One operation on the graph. *)
Inductive graph_op : TxDependency → TxDependency → Prop :=
| go_claim d r d' : next_claim d = (r, d') → graph_op d d'
| go_resolve d i r d' : next_resolve i d = Done (r, d') → graph_op d d'
| go_remove d t pop r d' : TxDependency.remove t pop d = Done (r, d') → graph_op d d'
| go_add d t dep d' : add t dep d = Done d' → graph_op d d'
| go_key d t c d' : key_tx t c d = Done d' → graph_op d d'
| go_commit d t d' : dep_commit t d = Done d' → graph_op d d'.

Record graph_ok (n : nat) (d : TxDependency) : Prop := {
  go_num : num_txs d = n;
  go_states : length (dependent_state d) = n;
  go_affects : length (affect_txs d) = n;
  go_aff e t : t ∈ aff d e → t < n
}.

Lemma graph_ok_keeps n d d' r :
  dep_keeps d d' r → (∀ e t, t ∈ aff d' e → t ∈ aff d e ∨ t < n) → graph_ok n d → graph_ok n d'.
Proof.
  intros [Hn Hs Ha _] Haff [Gn Gs Ga Gf]. split; [congruence..|]. intros e t Ht. destruct (Haff e t Ht); eauto.
Qed.

Lemma graph_op_ok n d d' : graph_op d d' → graph_ok n d → graph_ok n d'.
Proof.
  intros Hop Hok. destruct Hop as [d r d' Hc|d i r d' [Hk Ha]%next_resolve_keeps|d t pop r d' (Hk & Ha & _)%remove_keeps
    |d t dep d' (Hk & _ & Ha)%add_keeps|d t c d' (Hk & Ha & _)%key_tx_keeps|d t d' [Hk Ha]%dep_commit_keeps].
  1: injection Hc as _ <-; by destruct Hok.
  all: eapply graph_ok_keeps; [exact Hk| |exact Hok]; intros e x Hx.
  - left. unfold aff in *. by rewrite <-Ha.
  - left. by apply Ha.
  - destruct (Ha e x Hx) as [?|[-> Hlt]]; [by left|right]. by rewrite (go_states _ _ Hok) in Hlt.
  - left. unfold aff in *. by rewrite <-Ha.
  - left. unfold aff in *. by rewrite <-Ha.
Qed.

Lemma graph_ops_ok n d d' : rtc graph_op d d' → graph_ok n d → graph_ok n d'.
Proof. induction 1; [done|]. intros. eauto using graph_op_ok. Qed.

Lemma graph_ok_new n : graph_ok n (TxDependency_new n).
Proof.
  split; simpl; rewrite ?length_replicate; try done. intros e t. unfold aff. simpl.
  destruct (replicate n ∅ !! e) eqn:He; simpl; [|set_solver]. apply lookup_replicate_1 in He as [-> _]. set_solver.
Qed.

Section graph.
Context (n : nat) (d : TxDependency) (Hok : graph_ok n d).

Lemma next_resolve_returns i : i < n → returns (next_resolve i d) (λ '(r, d'), ∀ t, r = Some t → t < n).
Proof.
  intros Hi. eapply returns_bind; [apply index_returns; by rewrite (go_states _ _ Hok)|]. intros st _.
  destruct (_ && _); simpl; [|done]. by intros t [= <-].
Qed.

Lemma dep_commit_returns t : returns (dep_commit t d) (λ _, True).
Proof.
  unfold dep_commit. case_decide; [|done]. eapply returns_bind.
  - apply index_returns. by rewrite (go_states _ _ Hok), <-(go_num _ _ Hok).
  - intros st _. by destruct (onboard st).
Qed.

Lemma key_tx_returns t c : t < n → returns (key_tx t c d) (λ _, True).
Proof. intros Ht. eapply returns_bind; [apply index_returns; by rewrite (go_states _ _ Hok)|done]. Qed.

Lemma add_returns t dep : t < n → (∀ e, dep = Some e → e < t) → returns (add t dep d) (λ _, True).
Proof.
  intros Ht He. unfold add. destruct dep as [e|].
  - specialize (He e eq_refl). rewrite bool_decide_eq_true_2 by done. cbn [assert_that outcome_bind].
    eapply returns_bind; [apply index_returns; rewrite (go_affects _ _ Hok); lia|]. intros a _.
    eapply returns_bind; [apply index_returns; rewrite (go_states _ _ Hok); lia|]. intros st _.
    eapply returns_bind; [apply index_returns; rewrite (go_states _ _ Hok); lia|done].
  - eapply returns_bind; [apply index_returns; by rewrite (go_states _ _ Hok)|]. intros st _. by destruct (onboard st).
Qed.

End graph.

Lemma remove_loop_returns txid pop n l next d :
  length (dependent_state d) = n → (∀ t, t ∈ l → t < n) → (∀ t, next = Some t → t < n) →
  returns (remove_loop txid pop l (next, d)) (λ '(r, _), ∀ t, r = Some t → t < n).
Proof.
  revert next d. induction l as [|tx l IH]; intros next d Hlen Hl Hnext; [done|]. cbn [remove_loop].
  apply returns_bind with (λ '(r, d'), length (dependent_state d') = n ∧ ∀ t, r = Some t → t < n).
  - assert (Htx : tx < n) by (apply Hl; left).
    eapply returns_bind; [apply index_returns; by rewrite Hlen|]. intros st _.
    repeat (case_bool_decide || case_match); simpl; rewrite ?length_insert; (split; [done|]); try done; by intros t [= <-].
  - intros [r d'] [Hlen' Hr]. apply IH; [done| |done]. intros t Ht. apply Hl. by right.
Qed.

Lemma remove_returns n d t pop :
  graph_ok n d → t < n → returns (TxDependency.remove t pop d) (λ '(r, _), ∀ t, r = Some t → t < n).
Proof.
  intros Hok Ht. eapply returns_bind; [apply index_returns; by rewrite (go_affects _ _ Hok)|]. intros a Ha. simpl in Ha.
  case_decide; [done|]. eapply returns_bind.
  - apply (remove_loop_returns _ _ n); [apply Hok| |done]. intros x Hx%elem_of_elements. apply (go_aff _ _ Hok t).
    unfold aff. by rewrite Ha.
  - by intros [r d'] Hr.
Qed.

(** ** The execution frontier *)

(** One operation on the frontier. *)
Inductive frontier_op : ExecutionFrontier → ExecutionFrontier → Prop :=
| fo_publish f i f' : publish f i = Done f' → frontier_op f f'
| fo_current f v f' : current f = (v, f') → frontier_op f f'.

Definition frontier_ok (n : nat) (f : ExecutionFrontier) : Prop :=
  length (executed_flags f) = n ∧ frontier f ≤ n.

Lemma scan_le f fuel start n : length (executed_flags f) = n → start ≤ n → scan f fuel start ≤ n.
Proof.
  intros Hn. revert start. induction fuel as [|fuel IH]; intros start Hs; simpl; [done|].
  destruct (is_executed f start) eqn:Hx; [|done]. apply IH. apply is_executed_lt in Hx. lia.
Qed.

Lemma advance_loop_ok n fuel f start : frontier_ok n f → start ≤ n → frontier_ok n (advance_loop fuel f start).
Proof.
  revert f start. induction fuel as [|fuel IH]; intros f start [Hl Hf] Hs; simpl; [done|].
  assert (Hsc := scan_le f (length (executed_flags f)) start n Hl Hs). case_decide; [done|].
  apply IH; [|lia]. split; simpl; [done|lia].
Qed.

Lemma advance_ok n f start : frontier_ok n f → start ≤ n → frontier_ok n (advance f start).
Proof. apply advance_loop_ok. Qed.

Lemma publish_returns n f i : frontier_ok n f → i < n → returns (publish f i) (frontier_ok n).
Proof.
  intros [Hl Hf] Hi. unfold publish. case_decide; [by split|].
  apply returns_bind with (frontier_ok n).
  - eapply returns_bind; [apply modify_returns; by rewrite Hl|]. intros l Hlen. split; simpl; congruence.
  - intros f' Hf'. simpl. case_decide; [|done]. apply advance_ok; [done|apply Hf'].
Qed.

Lemma current_ok n f : frontier_ok n f → (current f).1 ≤ n ∧ frontier_ok n (current f).2.
Proof.
  intros Hf. unfold current. destruct (is_executed f (frontier f)); simpl; [|by split; [apply Hf|]].
  assert (Ha := advance_ok n f (frontier f) Hf ltac:(apply Hf)). by split; [apply Ha|].
Qed.

Lemma frontier_op_ok n f f' : frontier_op f f' → frontier_ok n f → frontier_ok n f'.
Proof.
  intros [f1 i f1' Hp|f1 v f1' Hc] Hok.
  - destruct (decide (i < n)); [by eapply returns_Done; [apply publish_returns|]|].
    exfalso. unfold publish in Hp. destruct Hok. rewrite decide_False in Hp by lia.
    apply outcome_bind_Done in Hp as (f2 & (l & (b & Hb%lookup_lt_Some & _)%modify_at_Done & _)%outcome_bind_Done & _). lia.
  - destruct (current_ok n f1 Hok) as [_ Hok']. by rewrite Hc in Hok'.
Qed.

Lemma frontier_ops_ok n f f' : rtc frontier_op f f' → frontier_ok n f → frontier_ok n f'.
Proof. induction 1; [done|]. intros. eauto using frontier_op_ok. Qed.

(** ** Handlers *)

Section handlers.
Context `{!Revm} {E : Type}.
Abbreviation Sched := (Scheduler.Sched E).
Implicit Types (s : Sched).

(** The vectors of the scheduler have the length of the block. *)
Record shape (n : nat) s : Prop := {
  sp_size : block_size s = n;
  sp_num : ctx_num_txs (scheduler_ctx s) = n;
  sp_txs : length (txs s) = n;
  sp_states : length (tx_states s) = n;
  sp_results : length (tx_results s) = n;
  sp_lower : length (lower_timestamps (scheduler_ctx s)) = n;
  sp_unconf : length (unconfirmed_timestamps (scheduler_ctx s)) = n;
  sp_history : length (entries (b_history (beneficiary s))) = n;
  sp_graph : graph_ok n (tx_dependency s);
  sp_frontier : frontier_ok n (execution_frontier (scheduler_ctx s))
}.

(** Graph and frontier change by their own operations. *)
Definition private s s' : Prop :=
  rtc graph_op (tx_dependency s) (tx_dependency s') ∧
  rtc frontier_op (execution_frontier (scheduler_ctx s)) (execution_frontier (scheduler_ctx s')).

Lemma private_refl s s' :
  tx_dependency s' = tx_dependency s → execution_frontier (scheduler_ctx s') = execution_frontier (scheduler_ctx s) →
  private s s'.
Proof. unfold private. by intros -> ->. Qed.

(** The state reached from [s0] by a part of a handler. *)
Context (n : nat) (s0 : Sched).
Definition reached s : Prop := shape n s ∧ private s0 s.

Lemma reached_update s s' :
  reached s → block_size s' = block_size s → ctx_num_txs (scheduler_ctx s') = ctx_num_txs (scheduler_ctx s) →
  length (txs s') = length (txs s) → length (tx_states s') = length (tx_states s) →
  length (tx_results s') = length (tx_results s) →
  length (lower_timestamps (scheduler_ctx s')) = length (lower_timestamps (scheduler_ctx s)) →
  length (unconfirmed_timestamps (scheduler_ctx s')) = length (unconfirmed_timestamps (scheduler_ctx s)) →
  length (entries (b_history (beneficiary s'))) = length (entries (b_history (beneficiary s))) →
  rtc graph_op (tx_dependency s) (tx_dependency s') →
  rtc frontier_op (execution_frontier (scheduler_ctx s)) (execution_frontier (scheduler_ctx s')) →
  reached s'.
Proof.
  intros [[] [Hg Hf]] ? ? ? ? ? ? ? ? Hg' Hf'. split.
  - split; try congruence; [by eapply graph_ops_ok|by eapply frontier_ops_ok].
  - split; by etrans.
Qed.

(** A change that leaves the vectors' lengths, the graph and the frontier alone. *)
Ltac kept := eapply reached_update; [eassumption|simpl; rewrite ?length_insert; reflexivity || done..].

Lemma reached_metrics m s : reached s → reached (set_metrics m s).
Proof. intros. kept. Qed.
Lemma reached_memory mv s : reached s → reached (set_mv_memory mv s).
Proof. intros. kept. Qed.
Lemma reached_abort reason s : reached s → reached (abort reason s).
Proof. intros. kept. Qed.
Lemma reached_commit_notified s : reached s → reached (notify_commit s).
Proof. intros. kept. Qed.
Lemma reached_finality_notified s : reached s → reached (notify_finality s).
Proof. intros. kept. Qed.
Lemma reached_states l s : length l = length (tx_states s) → reached s → reached (set_tx_states l s).
Proof. intros. kept. Qed.
Lemma reached_results l s : length l = length (tx_results s) → reached s → reached (set_tx_results l s).
Proof. intros. kept. Qed.
Lemma reached_graph d s : graph_op (tx_dependency s) d → reached s → reached (set_tx_dependency d s).
Proof. intros Hop Hs. eapply reached_update; [exact Hs|reflexivity..|by apply rtc_once|reflexivity]. Qed.
Lemma reached_beneficiary b s :
  length (entries (b_history b)) = length (entries (b_history (beneficiary s))) → reached s → reached (set_beneficiary b s).
Proof. intros. kept. Qed.
Hint Resolve reached_metrics reached_memory reached_abort reached_commit_notified reached_finality_notified
  reached_states reached_results reached_beneficiary : core.

Lemma set_status_returns t st s : reached s → t < n → returns (set_status t st s) reached.
Proof.
  intros Hs Ht. eapply returns_bind; [apply modify_returns; by rewrite (sp_states _ _ (proj1 Hs))|].
  intros l Hl. simpl. auto.
Qed.

Lemma set_result_returns t r s : reached s → t < n → returns (set_result t r s) reached.
Proof.
  intros Hs Ht. eapply returns_bind; [apply modify_returns; by rewrite (sp_results _ _ (proj1 Hs))|].
  intros l Hl. simpl. auto.
Qed.

Lemma rewind_to_returns i s : reached s → returns (rewind_to i s) reached.
Proof.
  intros Hs. unfold rewind_to, rewind_validation_to. case_decide as Hi; simpl; [by kept|].
  rewrite (sp_num _ _ (proj1 Hs)) in Hi.
  eapply returns_bind; [|intros c Hc; exact Hc].
  eapply returns_bind; [apply modify_returns; rewrite (sp_lower _ _ (proj1 Hs)); lia|]. intros l Hl. simpl. kept.
Qed.

Lemma ctx_executed_returns t s : reached s → t < n → returns (ctx_executed t (scheduler_ctx s)) (λ c, reached (set_ctx c s)).
Proof.
  intros Hs Ht. eapply returns_bind; [apply returns_eq, (publish_returns n); [apply Hs|done]|].
  intros f [Hf _]. simpl. eapply reached_update; [exact Hs|reflexivity..|]. simpl. apply rtc_once. by econstructor.
Qed.

Lemma unconfirmed_returns t ts s : reached s → t < n → returns (unconfirmed t ts (scheduler_ctx s)) (λ c, reached (set_ctx c s)).
Proof.
  intros Hs Ht. eapply returns_bind; [apply modify_returns; by rewrite (sp_unconf _ _ (proj1 Hs))|].
  intros l Hl. simpl. kept.
Qed.

Lemma dep_add_returns t dep s :
  reached s → t < n → (∀ e, dep = Some e → e < t) → returns (dep_add t dep s) reached.
Proof.
  intros Hs Ht He. eapply returns_bind; [eapply returns_eq, add_returns; [apply Hs|done|done]|].
  intros d [Hd _]. simpl. apply reached_graph; [by econstructor|done].
Qed.

Lemma remove_reached t pop s :
  reached s → t < n → returns (TxDependency.remove t pop (tx_dependency s))
    (λ '(r, d), reached (set_tx_dependency d s) ∧ ∀ t, r = Some t → t < n).
Proof.
  intros Hs Ht. eapply returns_impl; [eapply returns_eq, remove_returns; [apply Hs|done]|].
  intros [r d] [Hd Hr]. split; [|done]. apply reached_graph; [by econstructor|done].
Qed.

(** ** Task selection *)

Lemma execution_task_returns t s : reached s → t < n →
  returns (execution_task t s) (λ '(task, s'), reached s').
Proof.
  intros Hs Ht. eapply returns_bind; [apply index_returns; by rewrite (sp_states _ _ (proj1 Hs))|]. intros x Hx. simpl in Hx.
  destruct (status x); simpl; try done; try (by apply reached_states; [apply length_insert|]).
  all: eapply returns_bind; [by apply (remove_reached t false s)|]; intros [r d] [Hd _]; simpl; auto.
Qed.

Lemma validation_task_returns i s : reached s → i < n → returns (validation_task i s) (λ '(task, s'), reached s').
Proof.
  intros Hs Ht. eapply returns_bind; [apply index_returns; by rewrite (sp_states _ _ (proj1 Hs))|]. intros x Hx.
  destruct (status x); simpl; try done; by apply reached_states; [apply length_insert|].
Qed.

Lemma execute_begin_returns v s : reached s → txid v < n → returns (execute_begin v s) (λ '(go, s'), reached s').
Proof.
  intros Hs Ht. eapply returns_bind; [apply index_returns; by rewrite (sp_states _ _ (proj1 Hs))|]. intros x Hx.
  repeat (case_bool_decide; simpl); auto.
Qed.

Lemma validate_begin_returns v s : reached s → txid v < n → returns (validate_begin v s) (λ '(go, s'), reached s').
Proof.
  intros Hs Ht. eapply returns_bind; [apply index_returns; by rewrite (sp_states _ _ (proj1 Hs))|]. intros x Hx.
  eapply returns_bind; [apply index_returns; by rewrite (sp_results _ _ (proj1 Hs))|]. intros r Hr.
  repeat (case_bool_decide; simpl); auto. destruct r as [r|]; simpl; auto. destruct (is_ok _); simpl; auto. kept.
Qed.

(** ** Execution *)

Lemma with_entry_returns t f (h : BeneficiaryHistory) :
  t < length (entries h) → returns (with_entry t f h) (λ '(_, h'), length (entries h') = length (entries h)).
Proof.
  intros Ht. eapply returns_bind; [by apply index_returns|]. intros x _. destruct (f x). simpl. apply length_insert.
Qed.

(** The history recorded by a handler. *)
Definition records s (o : outcome (bool * BeneficiaryAccount)) : Prop :=
  returns o (λ '(_, b), reached (set_beneficiary b s)).

Lemma history_records f t s :
  reached s → t < n →
  records s (let! (ok, h) := with_entry t f (b_history (beneficiary s)) in
             Done (ok, mkBeneficiary (b_address (beneficiary s)) h)).
Proof.
  intros Hs Ht. eapply returns_bind; [apply with_entry_returns; by rewrite (sp_history _ _ (proj1 Hs))|].
  intros [ok h] Hh. simpl. auto.
Qed.

Lemma record_execution_records v sr s :
  reached s → txid v < n →
  (∀ r, sr_deferred_reward sr = Some r → sr_state sr !! b_address (beneficiary s) = None) →
  records s (b_record_execution v sr (beneficiary s)).
Proof.
  intros Hs Ht Hd. unfold b_record_execution, record_execution, from_execution.
  destruct (sr_deferred_reward sr) as [r|].
  - rewrite (Hd r eq_refl). rewrite (bool_decide_eq_true_2 (@None Account = None)) by done.
    rewrite orb_true_r. by apply history_records.
  - rewrite (bool_decide_eq_true_2 (None = None)) by done. by apply history_records.
Qed.

(** What settling an execution needs of it: it waits for earlier transactions only, and a
    deferred reward comes without a beneficiary write. *)
Definition settles_ok (ben : Address) (t : TxId) (x : IncarnationExecution E) : Prop :=
  (∀ b, b ∈ ia_blocking_txs (ie_accesses x) → b < t) ∧
  ∀ sr r, ie_result x = Ok sr → sr_deferred_reward sr = Some r → sr_state sr !! ben = None.

Lemma latest_blocker_lt blockers s t e :
  (∀ b, b ∈ blockers → b < t) → latest_unfinalized_blocker blockers s = Some e → e < t.
Proof.
  intros Hb. unfold latest_unfinalized_blocker.
  assert (Hf : ∀ (l : list TxId) m, (∀ b, b ∈ l → b < t) → (∀ e, m = Some e → e < t) → ∀ e,
    foldl (λ m t, if decide (finality (scheduler_ctx s) ≤ t) then
      Some (match m with Some m => Nat.max m t | None => t end) else m) m l = Some e → e < t).
  { intros l. induction l as [|b l IH]; intros m Hl Hm e'; simpl; [apply Hm|]. apply IH; [set_solver|].
    intros e1. case_decide; [|apply Hm]. assert (b < t) by set_solver. destruct m as [m|]; intros [= <-]; [|done].
    specialize (Hm m eq_refl). lia. }
  apply Hf; [|done]. intros b Hin%elem_of_elements. by apply Hb.
Qed.

(** A completed execution hands over a transaction of the block. *)
Definition completes_in (x : option (bool * bool * option TxId) * Sched) : Prop :=
  reached x.2 ∧ ∀ c w t, x.1 = Some (c, w, Some t) → t < n.

Lemma complete_ok_returns v sr a s :
  reached s → txid v < n → settles_ok (b_address (beneficiary s)) (txid v) (mkIncarnationExecution (Ok sr) a) →
  returns (complete_ok v sr a s) completes_in.
Proof.
  intros Hs Ht [Hb Hd]. simpl in Hb. unfold complete_ok.
  eapply returns_bind; [apply index_returns; by rewrite (sp_results _ _ (proj1 Hs))|]. intros last _.
  set (p := match last with Some last => _ | None => (true, s) end).
  assert (Hp : reached p.2 ∧ b_address (beneficiary p.2) = b_address (beneficiary s)).
  { unfold p. destruct last; simpl; auto. }
  clearbody p. destruct p as [new s1]. simpl in Hp. destruct Hp as [Hs1 Ha].
  apply returns_bind with (λ '(_, b), reached (set_beneficiary b s1)).
  { destruct (is_blocked a); [by apply history_records|]. apply record_execution_records; [done|done|].
    intros r Hr. rewrite Ha. by eapply Hd. }
  intros [pub b] Hs2. destruct pub; simpl; [|split; simpl; [auto|done]].
  apply returns_bind with (λ '(nx, s3), reached s3 ∧ ∀ t, nx = Some t → t < n).
  - destruct (is_blocked a).
    + eapply returns_bind; [apply dep_add_returns; [by apply reached_metrics|done|]|by simpl].
      intros e. by apply latest_blocker_lt.
    + eapply returns_bind; [by apply (remove_reached (txid v) true (set_beneficiary b s1))|]. by intros [nx d] [? ?].
  - intros [nx s3] [Hs3 Hnx]. eapply returns_bind; [by apply set_result_returns|]. intros s4 Hs4. split; [done|].
    intros c w t [= <- <- ->]. auto.
Qed.

Lemma complete_err_returns v e a s :
  reached s → txid v < n → settles_ok (b_address (beneficiary s)) (txid v) (mkIncarnationExecution (Err e) a) →
  returns (complete_err v e a s) completes_in.
Proof.
  intros Hs Ht [Hb _]. simpl in Hb. unfold complete_err.
  eapply returns_bind; [apply index_returns; by rewrite (sp_results _ _ (proj1 Hs))|]. intros last _.
  set (p := match last with Some last => _ | None => (∅, s) end).
  assert (Hp : reached p.2).
  { unfold p. destruct last; simpl; [|done]. apply reached_memory, reached_results; [apply length_insert|done]. }
  clearbody p. destruct p as [ws s1]. simpl in Hp.
  eapply returns_bind; [by apply history_records|]. intros [pub b] Hs2. destruct pub; simpl; [|split; simpl; [auto|done]].
  eapply returns_bind; [by apply set_result_returns|]. intros s3 Hs3.
  apply returns_bind with reached.
  - destruct (is_blocked a).
    + apply dep_add_returns; [by apply reached_metrics|done|]. intros b'. by apply latest_blocker_lt.
    + set (s4 := if decide _ then _ else _). assert (Hs4 : reached s4) by (unfold s4; case_decide; auto). clearbody s4.
      eapply returns_bind; [eapply returns_eq, key_tx_returns; [apply Hs4|done]|]. intros d [Hd _]. simpl.
      apply reached_graph; [by econstructor|done].
  - intros s4 Hs4. split; [done|]. by intros c w t [= <- <-].
Qed.

(** The continuation of a settled execution concerns a transaction of the block. *)
Definition continues_in (c : Continuation) : Prop :=
  match c with CReturn => True | CValidate v => txid v < n | CHandoff t => t < n end.

Lemma execute_settle_returns v x s :
  reached s → txid v < n → settles_ok (b_address (beneficiary s)) (txid v) x →
  returns (execute_settle v x s) (λ '(c, s'), reached s' ∧ continues_in c).
Proof.
  intros Hs Ht Hx. unfold execute_settle. apply returns_bind with completes_in.
  { destruct x as [[sr|e] a]; [by apply complete_ok_returns|by apply complete_err_returns]. }
  intros [[[[conflict new] next]|] s1] [Hs1 Hnext]; simpl in Hs1, Hnext; [|done].
  eapply returns_bind; [by apply set_status_returns|]. intros s2 Hs2.
  eapply returns_bind; [by apply ctx_executed_returns|]. intros c Hs3. simpl in Hs3.
  destruct next as [t|].
  { eapply returns_bind; [by apply rewind_to_returns|]. intros s4 Hs4. split; [done|]. by eapply Hnext. }
  destruct conflict; [|destruct new].
  - eapply returns_bind; [by apply rewind_to_returns|]. by intros s4 Hs4.
  - eapply returns_bind; [by apply rewind_to_returns|]. by intros s4 Hs4.
  - eapply returns_bind; [by apply set_status_returns|]. by intros s4 Hs4.
Qed.

(** ** Validation and finality *)

Definition waits_below (t : TxId) (d : option TxId) : Prop := ∀ e, d = Some e → e < t.

Lemma scan_loop_returns anchor o m os rs :
  (∀ w, w < m → is_Some (o w)) →
  returns (scan_loop anchor o m os rs) (λ r, match r with
    | Ok sc => ∀ v, v ∈ origins (scan_version sc) → v ∈ os ∨ txid v < m
    | Err b => b < m
    end).
Proof.
  revert os rs. induction m as [|m IH]; intros os rs Ho; simpl; [by left|].
  destruct (Ho m) as [[inc [|e]] ->]; [lia|simpl; lia|].
  destruct e as [|rw|acc]; simpl.
  1, 2: eapply returns_impl; [apply IH; intros; apply Ho; lia|]; intros [sc|b]; [|lia]; intros Hv v Hin;
    destruct (Hv v Hin) as [[?|Hv']%elem_of_app|]; [by left|apply list_elem_of_singleton in Hv' as ->; right; simpl; lia|right; lia].
  intros v [?|Hv']%elem_of_app; [by left|]. apply list_elem_of_singleton in Hv' as ->. right. simpl. lia.
Qed.

Lemma history_validate_returns (h : BeneficiaryHistory) t expected :
  t ≤ length (entries h) → returns (History.validate h t expected) (λ val, waits_below t (bv_dependency val)).
Proof.
  intros Ht. unfold History.validate, scan_before, scan_observed. rewrite (proj2 (Nat.leb_le _ _) Ht).
  cbn [assert_that outcome_bind]. eapply returns_bind.
  - apply scan_loop_returns. intros w Hw. apply lookup_lt_is_Some_2. lia.
  - intros [sc|b] Hr; simpl; [|by intros e [= <-]]. intros e. unfold latest_dependency.
    destruct (origins (scan_version sc)) as [|v l]; simpl; [done|]. intros [= <-].
    destruct (Hr v) as [Hin|]; [by left|by apply not_elem_of_nil in Hin|done].
Qed.

Lemma max_dependency_below t d e : waits_below t d → e < t → waits_below t (max_dependency d e).
Proof. intros Hd He x [= <-]. destruct d as [d|]; [|done]. specialize (Hd d eq_refl). lia. Qed.

Lemma validate_read_returns t s rd c d :
  reached s → t < n → waits_below t d → returns (validate_read t s rd (c, d)) (λ '(_, d'), waits_below t d').
Proof.
  intros Hs Ht Hd. destruct rd as [l v]. unfold validate_read.
  assert (Hmem : ∀ b1 b2 b3, waits_below t (match mv_memory s !! l with
    | Some written => match range_next_back t written with
        | Some (p, e) => (b1 e p : bool, max_dependency d p) | None => (b2, d) end
    | None => (b3, d) end).2).
  { intros b1 b2 b3. destruct (mv_memory s !! l) as [m|]; [|done].
    destruct (range_next_back t m) as [[p e]|] eqn:Hr; [|done]. apply range_next_back_Some in Hr as (Hp & _).
    by apply max_dependency_below. }
  destruct v as [w|expected|].
  - specialize (Hmem (λ e p, if estimate e then true else if negb (bool_decide (txid w = p)) ||
      negb (bool_decide (tv_incarnation w = me_incarnation e)) then true else c) true true).
    simpl. by destruct (match mv_memory s !! l with Some _ => _ | None => _ end).
  - eapply returns_bind; [apply history_validate_returns; rewrite (sp_history _ _ (proj1 Hs)); lia|].
    intros val Hval. simpl. destruct (bv_dependency val) as [p|] eqn:Hp; [|done]. apply max_dependency_below; [done|by apply Hval].
  - specialize (Hmem (λ e p, if estimate e then true else true) c c).
    simpl. by destruct (match mv_memory s !! l with Some _ => _ | None => _ end).
Qed.

Lemma validate_finish_returns v ts r conflict dep s :
  reached s → txid v < n → waits_below (txid v) dep → returns (validate_finish v ts r conflict dep s) reached.
Proof.
  intros Hs Ht Hd. unfold validate_finish.
  apply returns_bind with (λ '(ab, s1), reached s1).
  { destruct conflict; [|done].
    apply returns_bind with (λ '(_, b), reached (set_beneficiary b
      (set_mv_memory (mark_mv_estimate (txid v) (tr_write_set r) (mv_memory s)) (set_metrics (record_version_conflict (metrics s)) s)))).
    - apply (history_records (entry_invalidate (tv_incarnation v)) (txid v) (set_mv_memory _ (set_metrics _ s))); [|done]. auto.
    - intros [ok b] Hb. destruct ok; simpl; auto. }
  intros [ab s1] Hs1. destruct ab; [done|].
  apply returns_bind with reached.
  { destruct conflict; [by apply rewind_to_returns|]. eapply returns_bind; [by apply unconfirmed_returns|]. by intros c. }
  intros s2 Hs2. eapply returns_bind; [apply modify_returns; by rewrite (sp_states _ _ (proj1 Hs2))|].
  intros l Hl. apply returns_bind with reached.
  - destruct conflict; [|by apply reached_states]. apply dep_add_returns; [by apply reached_states|done|].
    intros e. destruct dep as [d|]; [|done]. case_decide; [|done]. apply Hd.
  - intros s3 Hs3. simpl. case_decide; auto.
Qed.

Lemma finality_iteration_returns i lower first s :
  reached s → returns (finality_iteration i lower first s) (λ '(_, s'), reached s').
Proof.
  intros Hs. unfold finality_iteration.
  apply returns_bind with (λ o, is_Some o → i < n).
  - unfold lock_finality_candidate. case_bool_decide as Hi; simpl; [by intros []|]. case_bool_decide; simpl; [by intros []|].
    rewrite (sp_size _ _ (proj1 Hs)) in Hi.
    eapply returns_bind; [apply index_returns; rewrite (sp_states _ _ (proj1 Hs)); lia|]. intros x _.
    case_bool_decide; simpl; [|by intros []].
    eapply returns_bind; [apply index_returns; rewrite (sp_lower _ _ (proj1 Hs)); lia|]. intros l _.
    eapply returns_bind; [apply index_returns; rewrite (sp_unconf _ _ (proj1 Hs)); lia|]. intros u _. simpl. lia.
  - intros [[x low]|] Hi; [|done]. eapply returns_bind; [by apply set_status_returns; [|apply Hi]|].
    intros s1 Hs1. simpl. assert (Hs2 : reached (set_ctx (publish_finality (S i) (scheduler_ctx s1)) s1)) by kept.
    destruct first; auto.
Qed.

End handlers.

(** ** Executions *)

Section programs.
Context `{!Revm} {E : Type} (ben : Address) (anchor : option AccountInfo) (size t : nat).

(** The answers an access of transaction [t] can get. *)
Definition possible (ev : Event E) : Prop :=
  match ev with
  | EvMemory _ (Some (w, _)) => w < t
  | EvHistory w None => size ≤ w
  | _ => True
  end.

(** Whatever the answers, the program ends in [Q]. *)
Fixpoint safe {A} (Q : A → Prop) (p : prog E A) : Prop :=
  match p with
  | Ret a => Q a
  | GetMemory l k => ∀ o, possible (EvMemory l o) → safe Q (k o)
  | GetHistory w k => ∀ o, possible (EvHistory w o) → safe Q (k o)
  | DbBasic a k => ∀ r, safe Q (k r)
  | DbCode h k => ∀ r, safe Q (k r)
  | DbStorage a key k => ∀ r, safe Q (k r)
  | DbBlockHash m k => ∀ r, safe Q (k r)
  end.

Lemma safe_step {A} (Q : A → Prop) p ev p' : safe Q p → possible ev → prog_step p ev p' → safe Q p'.
Proof. intros Hp Hev Hs. destruct Hs; simpl in Hp; auto. Qed.

Lemma safe_bind {A B} (Q : A → Prop) (R : B → Prop) p (f : A → prog E B) :
  safe Q p → (∀ a, Q a → safe R (f a)) → safe R (prog_bind p f).
Proof. intros Hp Hf. induction p; simpl in *; auto. Qed.

Lemma safe_impl {A} (Q R : A → Prop) (p : prog E A) : safe Q p → (∀ a, Q a → R a) → safe R p.
Proof. intros Hp Hf. induction p; simpl in *; auto. Qed.

(** The adapter of an execution of [t] waits for earlier transactions only. *)
Definition db_ok (s : IncarnationDb) : Prop := txid (version s) = t ∧ ∀ b, b ∈ blocking_txs s → b < t.

Lemma blocker_ok b s : b < t → db_ok s → db_ok (insert_blocker b s).
Proof. intros Hb [Hv Hs]. split; [done|]. simpl. set_solver. Qed.

Lemma note_entry_ok w e s : w < t → db_ok s → db_ok (note_entry w e s).
Proof. intros. unfold note_entry. destruct (estimate e); [by apply blocker_ok|done]. Qed.

Lemma insert_read_ok l v s : db_ok s → db_ok (insert_read l v s).
Proof. done. Qed.

Lemma insert_snapshot_ok a b s : db_ok s → db_ok (insert_snapshot a b s).
Proof. done. Qed.

Hint Resolve note_entry_ok insert_read_ok insert_snapshot_ok : core.

Lemma scan_prog_safe m os rs :
  m ≤ size → safe (λ o, returns o (λ r, match r with Err b => b < m | Ok _ => True end)) (scan_prog (E:=E) anchor m os rs).
Proof.
  revert os rs. induction m as [|m IH]; intros os rs Hm; simpl; [done|]. intros o Ho.
  assert (Hnext : ∀ os rs, safe (λ o, returns o (λ r, match r with Err b => b < S m | Ok _ => True end)) (scan_prog anchor m os rs)).
  { intros os' rs'. eapply safe_impl; [apply IH; lia|]. intros a Ha. eapply returns_impl; [exact Ha|].
    intros [?|b]; [done|lia]. }
  destruct o as [[inc [|[|rw|acc]]]|]; simpl in *; try done; lia || auto.
Qed.

Lemma code_by_address_safe a h s : db_ok s → safe (λ '(_, s'), db_ok s') (code_by_address_prog (E:=E) a h s).
Proof.
  intros Hs. simpl. intros o Ho. destruct o as [[w [inc [] est]]|]; simpl in *; auto; intros r; by destruct (is_ok r).
Qed.

Lemma basic_account_safe a s :
  t ≤ size → db_ok s → safe (λ o, returns o (λ '(_, s'), db_ok s')) (basic_account_prog (E:=E) ben anchor size a s).
Proof.
  intros Ht Hs. unfold basic_account_prog. case_bool_decide; [rewrite (proj1 Hs), (proj2 (Nat.leb_le _ _) Ht)|].
  - eapply safe_bind; [by apply scan_prog_safe|]. intros [[sc|b]|] Hr; simpl in *; try done.
    by apply (blocker_ok b s).
  - simpl. intros o Ho. destruct o as [[w [inc [] est]]|]; simpl in *; auto; intros [r|e]; done.
Qed.

Lemma basic_safe a s :
  t ≤ size → db_ok s → safe (λ o, returns o (λ '(_, s'), db_ok s')) (basic_prog (E:=E) ben anchor size a s).
Proof.
  intros Ht Hs. eapply safe_bind; [by apply basic_account_safe|]. intros [[r s1]|] Hr; simpl in Hr; [|done].
  destruct r as [[i|]|e]; [|done..]. destruct (_ && _); [|done].
  eapply safe_bind; [by apply code_by_address_safe|]. by intros [rc s2].
Qed.

Lemma storage_safe a k s : db_ok s → safe (λ '(_, s'), db_ok s') (storage_prog (E:=E) a k s).
Proof.
  intros Hs. simpl. intros o Ho.
  set (x := match o with Some _ => _ | None => (None, RVStorage, s) end).
  assert (Hx : db_ok x.2) by (unfold x; destruct o as [[w [inc [] est]]|]; simpl in *; auto).
  clearbody x. destruct x as [[rt rv] s1]. simpl in Hx |- *. intros o2 Ho2.
  set (y := match o2 with Some _ => _ | None => (None, RVStorage, insert_read (LStorageReset a) rv s1) end).
  assert (Hy : db_ok y.2) by (unfold y; destruct o2 as [[w [inc [] est]]|]; simpl in *; auto).
  clearbody y. destruct y as [[sw sv] s2]. simpl in Hy |- *.
  destruct sw as [[st v]|]; [destruct (match rt with Some _ => _ | None => _ end)|]; destruct rt; simpl; auto.
Qed.

(** An execution never writes the beneficiary and defers its reward. *)
Fixpoint defers_apart (m : Evm E) : Prop :=
  match m with
  | EvmDone r => ∀ sr d, r = Ok sr → sr_deferred_reward sr = Some d → sr_state sr !! ben = None
  | EvmBasic a k => ∀ v, defers_apart (k v)
  | EvmCode h k => ∀ c, defers_apart (k c)
  | EvmStorage a key k => ∀ v, defers_apart (k v)
  | EvmBlockHash m k => ∀ h, defers_apart (k h)
  end.

(** How an execution may end. *)
Definition ended_ok (o : outcome (result (EVMError E) SpeculativeResult * IncarnationDb)) : Prop :=
  returns o (λ '(r, s), db_ok s ∧ ∀ sr d, r = Ok sr → sr_deferred_reward sr = Some d → sr_state sr !! ben = None).

Lemma incarnation_safe m s :
  t ≤ size → defers_apart m → db_ok s → safe ended_ok (incarnation_prog ben anchor size m s).
Proof.
  intros Ht. revert s. induction m as [r|a k IH|h k IH|a key k IH|b k IH]; intros s Hm Hs; simpl in Hm; cbn [incarnation_prog].
  { by split. }
  - eapply safe_bind; [by apply basic_safe|]. intros [[[v|e] s1]|] Hx; simpl in Hx; [|by split|done]. simpl. by apply IH.
  - simpl. intros [v|e]; simpl; [by apply IH|by split].
  - eapply safe_bind; [by apply storage_safe|]. intros [[v|e] s1] Hx; simpl in Hx |- *; [by apply IH|by split].
  - simpl. intros [v|e]; simpl; [by apply IH|by split].
Qed.

(** The deferred mode does, by the policy. *)
Context (reward : Unsettled → Evm E) (Hreward : reward_laws ben reward).

Lemma ends_with_apart res m : ends_with res m → defers_apart m.
Proof. induction m; simpl; auto. intros [state ->] sr d [= <-] Hd. done. Qed.

Lemma settle_defers_apart u : defers_apart (settle ben reward Deferred u).
Proof.
  destruct (settle_cases ben reward Hreward u) as [->|(r & _ & _ & Hn & ->)].
  - by eapply ends_with_apart, (rl_journal _ _ Hreward).
  - by intros sr d [= <-] _.
Qed.

Lemma body_defers_apart (b : Body E) : defers_apart (body_then b (settle ben reward Deferred)).
Proof. induction b as [[u|e]| | | |]; simpl; auto; [apply settle_defers_apart|done]. Qed.

End programs.

(** ** The commit loop *)

Lemma commit_iteration_returns `{!Revm} `{!RevmDb} {DB E : Type} `{!DatabaseRef DB E} n s0 elapsed i
    (s : Scheduler.Sched E) (c : OrderedCommitter (DB:=DB)) out :
  reached n s0 s → i < n →
  (∀ r sr tx, res_at s i = Some r → execute_result r = Ok sr → ordered_commit (E:=E) i tx sr out c ≠ Panic) →
  returns (commit_iteration elapsed i (s, c, out)) (λ '(_, (s', _, _)), reached n s0 s').
Proof.
  intros Hs Hi Hoc. unfold commit_iteration, take_result. rewrite <-(sp_results _ _ (proj1 Hs)) in Hi.
  destruct (lookup_lt_is_Some_2 _ _ Hi) as [o Ho]. rewrite (proj2 (index_Done _ _ _) Ho). cbn [outcome_bind].
  rewrite (sp_results _ _ (proj1 Hs)) in Hi.
  assert (Hs1 : reached n s0 (set_tx_results (<[i := None]> (tx_results s)) s)) by (apply reached_results; [apply length_insert|done]).
  destruct o as [r|]; [|by apply reached_abort]. destruct (execute_result r) as [sr|e] eqn:He; [|by apply reached_abort].
  eapply returns_bind; [apply index_returns; by rewrite (sp_txs _ _ (proj1 Hs1))|]. intros tx _.
  specialize (Hoc r sr tx ltac:(unfold res_at; by rewrite Ho) He).
  destruct (ordered_commit i tx sr out c) as [[[res out1] c1]|]; [|done]. cbn [outcome_bind].
  apply (reached_metrics _ _ (record_commit_time elapsed (metrics s))) in Hs1.
  destruct res as [[e|]|e]; [|by apply reached_abort..].
  set (s2 := set_ctx _ _). assert (Hs2 : reached n s0 s2) by (eapply reached_update; [exact Hs1|reflexivity..]).
  eapply returns_bind; [eapply returns_eq, dep_commit_returns; apply Hs2|]. intros d [Hd _]. simpl.
  by apply reached_graph; [econstructor|].
Qed.

(** ** The threads *)

Section threads.
Context `{!Revm} `{!RevmDb} {DB E : Type} `{!DatabaseRef DB E} (evm_of : TxId → Evm E).
Context (ben : Address) (anchor : option AccountInfo) (size : nat).
Abbreviation Block := (Serial.Block (DB:=DB) (E:=E)).
Implicit Types (x : Block).

(** A step of the parallel phase that uses the graph and the frontier through their operations,
    and in which no call of a final execution has overwritten a recorded read. *)
Definition thread_step x x' : Prop :=
  undisturbed_step evm_of ben anchor size x x' ∧ private (x_sched x) (x_sched x').

(** The transactions a worker has in hand after an operation on [x]. *)
Inductive claimed_at x : TxId → Prop :=
| cl_validation idx i c : next_validation_idx idx (scheduler_ctx (x_sched x)) = (Some i, c) → claimed_at x i
| cl_next i d : next_claim (tx_dependency (x_sched x)) = (Some i, d) → claimed_at x i
| cl_resolved i t d : claimed_at x i → next_resolve i (tx_dependency (x_sched x)) = Done (Some t, d) → claimed_at x t
| cl_execution t v s' : execution_task t (x_sched x) = Done (Some (Execution v), s') → claimed_at x (txid v)
| cl_validate t v s' : validation_task t (x_sched x) = Done (Some (Validation v), s') → claimed_at x (txid v)
| cl_validate_own t v e ps w s' : phase (p_sys (x_pipe x)) !! t = Some (PPublish v e ps []) →
    execute_settle v e (x_sched x) = Done (CValidate w, s') → claimed_at x (txid w)
| cl_handoff t v e ps u s' : phase (p_sys (x_pipe x)) !! t = Some (PPublish v e ps []) →
    execute_settle v e (x_sched x) = Done (CHandoff u, s') → claimed_at x u.

(** A thread panics in [x]; [x0] is the state in which a worker claimed its transaction. *)
Inductive thread_panics (x0 x : Block) : Prop :=
| tp_resolve t : claimed_at x0 t → next_resolve t (tx_dependency (x_sched x)) = Panic → thread_panics x0 x
| tp_execution_task t : claimed_at x0 t → execution_task t (x_sched x) = Panic → thread_panics x0 x
| tp_validation_task t : claimed_at x0 t → validation_task t (x_sched x) = Panic → thread_panics x0 x
| tp_begin v : claimed_at x0 (txid v) → execute_begin v (x_sched x) = Panic → thread_panics x0 x
| tp_env v : claimed_at x0 (txid v) → index (txs (x_sched x)) (txid v) = Panic → thread_panics x0 x
| tp_run t v tr : x_run x !! t = Some (mkRunning v (Ret Panic) tr) → thread_panics x0 x
| tp_settle t v e ps : phase (p_sys (x_pipe x)) !! t = Some (PPublish v e ps []) →
    execute_settle v e (x_sched x) = Panic → thread_panics x0 x
| tp_validate v : claimed_at x0 (txid v) → validate_begin v (x_sched x) = Panic → thread_panics x0 x
| tp_read t v ts r seen rd todo c d : phase (p_sys (x_pipe x)) !! t = Some (PScan v ts r seen (rd :: todo) c d) →
    validate_read t (x_sched x) rd (c, d) = Panic → thread_panics x0 x
| tp_verdict t v ts r seen c d : phase (p_sys (x_pipe x)) !! t = Some (PScan v ts r seen [] c d) →
    validate_finish v ts r c d (x_sched x) = Panic → thread_panics x0 x
| tp_finality lower first : finality_iteration (final_idx (x_sched x)) lower first (x_sched x) = Panic → thread_panics x0 x
| tp_commit elapsed : p_return (x_pipe x) = None → p_idx (x_pipe x) < final_idx (x_sched x) →
    commit_iteration elapsed (p_idx (x_pipe x)) (x_sched x, p_committer (x_pipe x), p_output (x_pipe x)) = Panic →
    thread_panics x0 x.

(** ** Invariant *)

Definition phases_sound (ph : gmap TxId (Phase (E:=E))) : Prop :=
  ∀ t p, ph !! t = Some p →
    match p with
    | PPublish v e ps todo => settles_ok ben t e
    | PScan v ts r seen todo c d => waits_below t d
    end.

Record threads_ok x : Prop := {
  to_shape : shape size (x_sched x);
  to_run t v p tr : x_run x !! t = Some (mkRunning v p tr) → safe size t (ended_ok ben t) p;
  to_phases : phases_sound (phase (p_sys (x_pipe x)))
}.

Lemma reached_refl (s : Scheduler.Sched E) : shape size s → reached size s s.
Proof. intros Hs. split; [done|by apply private_refl]. Qed.

Lemma phases_insert_sound ph t p :
  phases_sound ph → match p with PPublish v e ps todo => settles_ok ben t e | PScan v ts r seen todo c d => waits_below t d end →
  phases_sound (<[t := p]> ph).
Proof. intros Hph Hp u q [[<- <-]|[_ Hq]]%lookup_insert_Some; [done|by apply Hph]. Qed.

Lemma phases_delete_sound ph t : phases_sound ph → phases_sound (delete t ph).
Proof. intros Hph u q [_ Hq]%lookup_delete_Some. by apply Hph. Qed.

Lemma status_block (σ : Interleave.Sys (E:=E)) t st : sys_inv σ → status_at (sch σ) t = Some st → block_size (sch σ) = size → t < size.
Proof. intros Hinv Hst <-. rewrite <-(si_states _ Hinv). by eapply status_lt. Qed.

(** A step of the workers and the finality loop. *)
Lemma worker_threads (σ σ' : Interleave.Sys (E:=E)) :
  sys_inv σ → b_address (beneficiary (sch σ)) = ben → worker_step σ σ' → no_start σ σ' → private (sch σ) (sch σ') →
  shape size (sch σ) → phases_sound (phase σ) → shape size (sch σ') ∧ phases_sound (phase σ').
Proof.
  intros Hinv Hben Hstep Hns Hpriv Hsh Hph. pose proof (reached_refl _ Hsh) as Hs. pose proof (sp_size _ _ Hsh) as Hsize.
  destruct Hstep as
    [s ph fl v s1 sr idb ps Hno Hb ->|s ph fl v s1 e idb Hno Hb|s ph fl t v x ps l val todo Hp|s ph fl t v x ps c s' Hp Hset
    |s ph fl t task s' Hno Ht|s ph fl t task s' Hno Ht|s ph fl v ts r s' Hno Hv|s ph fl t v ts r seen rd todo c d c' d' Hp Hr
    |s ph fl t v ts r seen c d s' Hp Hv|s ph fl first fl' s' Hno Hf|s ph fl s' Hc]; cbn [sch phase] in *.
  - destruct (Hns (txid v) v _ _ _ (lookup_insert_eq _ _ _)) as [todo' Hp]. cbn [phase] in Hp. congruence.
  - destruct (Hns (txid v) v _ _ _ (lookup_insert_eq _ _ _)) as [todo' Hp]. cbn [phase] in Hp. congruence.
  - split; [by destruct Hsh|]. apply phases_insert_sound; [done|]. exact (Hph _ _ Hp).
  - destruct (publishing_status (mkSys s ph fl) _ _ _ _ _ Hinv Hp) as (Hst & Hv & _). cbn [sch] in *.
    assert (Ht : txid v < size) by (rewrite Hv; by eapply (status_block (mkSys s ph fl))).
    assert (Hx := Hph _ _ Hp). simpl in Hx. rewrite <-Hben in Hx. replace t with (txid v) in Hx by (by rewrite Hv).
    destruct (returns_Done _ _ _ (execute_settle_returns _ _ _ _ _ Hs Ht Hx) Hset) as [[Hsh' _] _].
    split; [done|by apply phases_delete_sound].
  - split; [|done]. assert (Hlt : t < size).
    { apply outcome_bind_Done in Ht as (x & Hx%index_Done%lookup_lt_Some & _). by rewrite (sp_states _ _ Hsh) in Hx. }
    by destruct (returns_Done _ _ _ (execution_task_returns _ _ _ _ Hs Hlt) Ht).
  - split; [|done]. assert (Hlt : t < size).
    { apply outcome_bind_Done in Ht as (x & Hx%index_Done%lookup_lt_Some & _). by rewrite (sp_states _ _ Hsh) in Hx. }
    by destruct (returns_Done _ _ _ (validation_task_returns _ _ _ _ Hs Hlt) Ht).
  - assert (Hlt : txid v < size).
    { unfold validate_begin in Hv. apply outcome_bind_Done in Hv as (x & Hx%index_Done%lookup_lt_Some & _).
      by rewrite (sp_states _ _ Hsh) in Hx. }
    destruct (returns_Done _ _ _ (validate_begin_returns _ _ _ _ Hs Hlt) Hv) as [Hsh' _].
    split; [done|]. by apply phases_insert_sound.
  - split; [done|]. apply phases_insert_sound; [done|].
    destruct (scanning_status (mkSys s ph fl) _ _ _ _ _ _ _ _ Hinv Hp) as (Hst & _).
    assert (Hlt : t < size) by (by eapply (status_block (mkSys s ph fl))).
    exact (returns_Done _ _ _ (validate_read_returns _ _ _ _ _ _ _ Hs Hlt (Hph _ _ Hp)) Hr).
  - destruct (scanning_status (mkSys s ph fl) _ _ _ _ _ _ _ _ Hinv Hp) as (Hst & _ & Hvt & _). cbn [sch] in *.
    assert (Hlt : txid v < size) by (rewrite Hvt; by eapply (status_block (mkSys s ph fl))).
    assert (Hw := Hph _ _ Hp). simpl in Hw. replace t with (txid v) in Hw by (by rewrite Hvt).
    destruct (returns_Done _ _ _ (validate_finish_returns _ _ _ _ _ _ _ _ Hs Hlt Hw) Hv) as [Hsh' _].
    split; [done|by apply phases_delete_sound].
  - split; [|done]. by destruct (returns_Done _ _ _ (finality_iteration_returns _ _ _ _ _ _ Hs) Hf).
  - split; [|done]. destruct Hsh, Hc, Hpriv as [Hg Hf].
    split; try congruence; [by eapply graph_ops_ok|by eapply frontier_ops_ok].
Qed.

Lemma access_possible (s : Scheduler.Sched E) (st : ParallelState DB) t ev st' :
  length (entries (b_history (beneficiary s))) = size → access s st t ev st' → possible size t ev.
Proof.
  intros Hlen [l|w|a r st1|h r st1|a k r st1|m r st1]; simpl; try done.
  - destruct (mv_latest _ _ _) as [[w e]|] eqn:Hl; [|done]. by apply mv_latest_ent in Hl as [? _].
  - destruct (hist_at s w) eqn:Hh; [done|]. apply lookup_ge_None in Hh. lia.
Qed.

(** ** Every step *)

Context (code_of : B256 → Bytecode) (w0 : World) (bh : Z → B256).
Context `{!RevmLaws} `{!RevmDbLaws}.
Context (Hbase : base_ok w0) (rep_db : DB → World → Prop) `{!DatabaseView DB E code_of w0 rep_db}.
Context (Hevm : ∀ t w asked sr, serial_run code_of (load_world w0) bh w (evm_of t) asked sr → evm_ok code_of ben w asked sr).
Context (Hanchor : acct_eqv anchor (w_account (load_world w0) ben) ∧ code_ok code_of anchor).
Context (Hbh : ∀ db n h db', rep_db db w0 → block_hash_ref db n = (Ok h, db') → h = bh n).
Context (Hdefers : ∀ t, defers_apart ben (evm_of t)).
Abbreviation inv := (block_inv evm_of code_of w0 bh ben anchor size rep_db).

(** The commit loop at a final transaction. *)
Lemma next_commit_returns x trs rs elapsed :
  inv x trs rs → undisturbed evm_of ben anchor size x → shape size (x_sched x) →
  p_return (x_pipe x) = None → p_idx (x_pipe x) < final_idx (x_sched x) →
  returns (commit_iteration elapsed (p_idx (x_pipe x)) (x_sched x, p_committer (x_pipe x), p_output (x_pipe x)))
    (λ '(_, (s', _, _)), reached size (x_sched x) s').
Proof.
  intros Hinv Hun Hsh Hret Hi. destruct (bi_pipe _ _ _ _ _ _ _ _ _ _ _ Hinv) as [Hsys Hcp Hr].
  unfold returned_ok in Hr. rewrite Hret in Hr. destruct Hr as [Hidx _]. rewrite Hidx in *.
  apply commit_iteration_returns; [by apply reached_refl| |].
  - pose proof (final_le_size _ Hsys). rewrite <-(sp_size _ _ Hsh). unfold x_sched in *. lia.
  - intros r sr tx Hres Hsr.
    destruct (next_serial evm_of code_of w0 bh ben anchor size rep_db Hevm Hanchor x trs rs Hinv Hun r sr Hi Hres Hsr)
      as (_ & _ & [Ha Hb Hrw] & _).
    destruct (ordered_commit_ok code_of w0 Hbase rep_db (length rs) tx sr (p_output (x_pipe x)) (p_committer (x_pipe x)) _
      (cp_state _ _ _ _ _ _ Hcp)) as (? & ? & ? & -> & _); [|done].
    split; [done|]. intros rw Hrw'. destruct (Hrw rw Hrw') as [? ?]. split; [done|]. split; [done|apply Hcp].
Qed.

Lemma threads_ok_step x x' trs rs :
  inv x trs rs → undisturbed evm_of ben anchor size x → thread_step x x' → threads_ok x → threads_ok x'.
Proof.
  intros Hinv Hun [[Hstep _] Hpriv] [Hsh Hrun Hph].
  destruct (bi_address _ _ _ _ _ _ _ _ _ _ _ Hinv) as [Hb _]. pose proof (reached_refl _ Hsh) as Hs.
  destruct (bi_pipe _ _ _ _ _ _ _ _ _ _ _ Hinv) as [Hsys _ _].
  destruct Hstep as
    [σ σ' c out i ret run log Hw Hns|s ph fl c out i ret run log v s1 Hno Hno' Hbeg
    |σ c out i ret run log t v p tr ev p' st' Ht Hps Hac|s ph fl c out i ret run log t v sr idb tr ps Ht ->
    |s ph fl c out i ret run log t v e idb tr Ht|s ph fl c out i elapsed step s' c' out' run log Hi Hit|σ c out i run log Hst];
    unfold x_sched in *; cbn [x_pipe x_run p_sys sch phase p_committer p_return p_idx p_output] in *.
  - destruct (worker_threads _ _ Hsys Hb Hw Hns Hpriv Hsh Hph). by split.
  - assert (Hlt : txid v < size).
    { unfold execute_begin in Hbeg. apply outcome_bind_Done in Hbeg as (y & Hy%index_Done%lookup_lt_Some & _).
      by rewrite (sp_states _ _ Hsh) in Hy. }
    destruct (returns_Done _ _ _ (execute_begin_returns _ _ _ _ Hs Hlt) Hbeg) as [Hsh' _]. split; [done| |done].
    cbn [x_run]. intros t v' p tr [[<- [= <- <- <-]]|[_ Ht]]%lookup_insert_Some; [|by eapply Hrun].
    apply execute_begin_true in Hbeg as (Hcore & _). unfold incarnation.
    rewrite (sc_beneficiary _ _ Hcore), Hb, (sp_history _ _ Hsh).
    apply incarnation_safe; [lia|apply Hdefers|]. split; [done|]. simpl. set_solver.
  - split; [done| |done]. cbn [x_run]. intros u v' q tr' [[<- [= <- <- <-]]|[_ Hu]]%lookup_insert_Some; [|by eapply Hrun].
    eapply safe_step; [by eapply Hrun| |exact Hps]. by eapply access_possible; [apply Hsh|].
  - split; [done| |].
    + cbn [x_run]. intros u v' q tr' [_ Hu]%lookup_delete_Some. by eapply Hrun.
    + apply phases_insert_sound; [done|]. destruct (Hrun _ _ _ _ Ht) as [[_ Hbl] Hd]. split; [exact Hbl|].
      intros sr' r [= <-]. by apply Hd.
  - split; [done| |].
    + cbn [x_run]. intros u v' q tr' [_ Hu]%lookup_delete_Some. by eapply Hrun.
    + apply phases_insert_sound; [done|]. destruct (Hrun _ _ _ _ Ht) as [[_ Hbl] _]. by split.
  - assert (Hc := next_commit_returns _ _ _ elapsed Hinv Hun Hsh eq_refl Hi). unfold x_sched in Hc.
    cbn [x_pipe p_sys sch p_committer p_idx p_output] in Hc. rewrite Hit in Hc. destruct Hc as [Hsh' _]. by split.
  - by split.
Qed.

(** ** No thread panics *)

Lemma claimed_lt x trs rs t : inv x trs rs → threads_ok x → claimed_at x t → t < size.
Proof.
  intros Hinv [Hsh _ Hph] Hcl. destruct (bi_address _ _ _ _ _ _ _ _ _ _ _ Hinv) as [Hb _].
  destruct (bi_pipe _ _ _ _ _ _ _ _ _ _ _ Hinv) as [Hsys _ _]. pose proof (reached_refl _ Hsh) as Hs.
  assert (Hsettle : ∀ t v e ps c s', phase (p_sys (x_pipe x)) !! t = Some (PPublish v e ps []) →
    execute_settle v e (x_sched x) = Done (c, s') → continues_in size c).
  { intros u v e ps c s' Hp Hset. destruct (publishing_status _ _ _ _ _ _ Hsys Hp) as (Hst & Hv & _).
    assert (Hlt : txid v < size) by (rewrite Hv; eapply status_block; [exact Hsys|exact Hst|apply Hsh]).
    assert (Hx := Hph _ _ Hp). simpl in Hx. rewrite <-Hb in Hx. replace u with (txid v) in Hx by (by rewrite Hv).
    by destruct (returns_Done _ _ _ (execute_settle_returns _ _ _ _ _ Hs Hlt Hx) Hset). }
  assert (Hstate : ∀ t (y : TxState), tx_states (x_sched x) !! t = Some y → t < size)
    by (intros u y Hy%lookup_lt_Some; by rewrite (sp_states _ _ Hsh) in Hy).
  induction Hcl as [idx i c Hn|i d Hn|i u d _ IH Hn|u v s' Hn|u v s' Hn|u v e ps w s' Hp Hn|u v e ps w s' Hp Hn].
  - unfold next_validation_idx, ctx_frontier in Hn. destruct (current_ok size _ (sp_frontier _ _ Hsh)) as [Hc _].
    destruct (current _) as [f fr]. unfold claim_before in Hn. case_decide; [done|]. injection Hn as <- _. simpl in *. lia.
  - unfold next_claim in Hn. case_decide as Hd; [done|]. injection Hn as <- _. rewrite (go_num _ _ (sp_graph _ _ Hsh)) in Hd. lia.
  - by eapply (returns_Done _ _ _ (next_resolve_returns _ _ (sp_graph _ _ Hsh) _ IH) Hn).
  - unfold execution_task in Hn. apply outcome_bind_Done in Hn as (y & Hy%index_Done & Hn).
    destruct (status y); try done; try (by injection Hn as <-; eapply Hstate).
    all: by apply outcome_bind_Done in Hn as ([? ?] & _ & ?).
  - unfold validation_task in Hn. apply outcome_bind_Done in Hn as (y & Hy%index_Done & Hn).
    destruct (status y); try done; by injection Hn as <-; eapply Hstate.
  - exact (Hsettle _ _ _ _ _ _ Hp Hn).
  - exact (Hsettle _ _ _ _ _ _ Hp Hn).
Qed.

Lemma threads_no_panic x0 trs0 rs0 x trs rs :
  inv x0 trs0 rs0 → threads_ok x0 → inv x trs rs → threads_ok x → undisturbed evm_of ben anchor size x →
  ¬ thread_panics x0 x.
Proof.
  intros Hinv0 Hok0 Hinv [Hsh Hrun Hph] Hun. assert (Hcl := λ t, claimed_lt _ _ _ t Hinv0 Hok0).
  destruct (bi_address _ _ _ _ _ _ _ _ _ _ _ Hinv) as [Hb _]. pose proof (reached_refl _ Hsh) as Hs.
  destruct (bi_pipe _ _ _ _ _ _ _ _ _ _ _ Hinv) as [Hsys _ _].
  assert (Hlt : ∀ t st, status_at (x_sched x) t = Some st → t < size)
    by (intros t st Hst; eapply status_block; [exact Hsys|exact Hst|apply Hsh]).
  intros [t Ht%Hcl Hp|t Ht%Hcl Hp|t Ht%Hcl Hp|v Ht%Hcl Hp|v Ht%Hcl Hp|t v tr Ht|t v e ps Ht Hp|v Ht%Hcl Hp
    |t v ts r seen rd todo c d Ht Hp|t v ts r seen c d Ht Hp|lower first Hp|elapsed Hret Hi Hp]; try revert Hp.
  - eapply returns_not_Panic, next_resolve_returns; [apply Hsh|done].
  - by eapply returns_not_Panic, execution_task_returns.
  - by eapply returns_not_Panic, validation_task_returns.
  - by eapply returns_not_Panic, execute_begin_returns.
  - eapply returns_not_Panic, index_returns. by rewrite (sp_txs _ _ Hsh).
  - exact (Hrun _ _ _ _ Ht).
  - destruct (publishing_status _ _ _ _ _ _ Hsys Ht) as (Hst & Hv & _). assert (Hx := Hph _ _ Ht). simpl in Hx.
    eapply returns_not_Panic, execute_settle_returns; [exact Hs|rewrite Hv; by eapply Hlt|]. by rewrite Hv, Hb.
  - by eapply returns_not_Panic, validate_begin_returns.
  - destruct (scanning_status _ _ _ _ _ _ _ _ _ Hsys Ht) as (Hst & _).
    eapply returns_not_Panic, validate_read_returns; [exact Hs|by eapply Hlt|exact (Hph _ _ Ht)].
  - destruct (scanning_status _ _ _ _ _ _ _ _ _ Hsys Ht) as (Hst & _ & Hv & _). assert (Hx := Hph _ _ Ht). simpl in Hx.
    eapply returns_not_Panic, validate_finish_returns; [exact Hs|rewrite Hv; by eapply Hlt|by rewrite Hv].
  - by eapply returns_not_Panic, finality_iteration_returns.
  - by eapply returns_not_Panic, next_commit_returns.
Qed.

(** The invariants along a run of the threads. *)
Lemma threads_run x x' trs rs :
  rtc thread_step x x' → inv x trs rs → undisturbed evm_of ben anchor size x → threads_ok x →
  undisturbed evm_of ben anchor size x' ∧ threads_ok x' ∧ ∃ trs' rs', inv x' trs' rs'.
Proof.
  intros Hr. revert trs rs. induction Hr as [|x1 x2 x3 Hs Hr IH]; intros trs rs Hinv Hun Hok; [eauto|].
  assert (Hok2 := threads_ok_step _ _ _ _ Hinv Hun Hs Hok). destruct Hs as [[Hs Hun2] _].
  destruct (block_inv_step evm_of code_of w0 bh ben anchor size Hbase rep_db Hevm Hanchor Hbh _ _ _ _ Hs Hun Hinv)
    as (trs' & rs' & Hinv'). by eapply IH.
Qed.

Lemma thread_steps_undisturbed x x' : rtc thread_step x x' → rtc (undisturbed_step evm_of ben anchor size) x x'.
Proof. apply rtc_subrel. by intros ? ? [? _]. Qed.

End threads.
