(* ===== verification/EndToEnd.v ===== *)
(** The whole execution of a block (src/src/scheduler/control.rs, src/src/scheduler/fallback.rs
    and the parallel phase of src/src/scheduler.rs).

    [serial_block] is the specification: the transactions run one after the other over worlds,
    invalid ones skipped. [Scheduler::parallel_execute], with its parallel phase, its sequential
    fallback and every error path, returns a prefix of such a run; when it succeeds, the whole
    block. *)

From S2P Require Import Prelude Model Reward History World IncarnationDb Access Snapshot Replay ParallelState CacheView TxDependency Context Metrics Scheduler OrderedCommit Interleave Finality Published Control Pipeline Serial Settlement NoPanic.

Section end_to_end.
Context `{!Revm} `{!RevmDb} {DB E : Type} `{!DatabaseRef DB E} (evm_of : TxId → Evm E).
Context (code_of : B256 → Bytecode) (w0 : World) (bh : Z → B256).
Abbreviation Sched := (Scheduler.Sched E).
Abbreviation Runner := (Control.Runner (DB:=DB) (E:=E)).
Abbreviation serial := (serial_run code_of (load_world w0) bh).

(** ** The specification *)

Context (ben : Address) (disabled : bool) (txs : list TxEnv).

(** [refuses i w e]: revm finds transaction [i] invalid over [w]. *)
Context (refuses : TxId → World → InvalidTransaction → Prop).

(** The sender's nonce is used up. *)
Definition nonce_overflow (tx : TxEnv) (w : World) : Prop :=
  disabled = false ∧ tx_nonce tx = U64_MAX ∧ nonce_of (w_account w (caller tx)) = U64_MAX.

Inductive serial_block : nat → World → list TxExecutionOutcome → World → Prop :=
| sb_nil i w : serial_block i w [] w
| sb_executed i w tx asked sr outs w' :
    txs !! i = Some tx → nonce_valid disabled tx w → serial w (evm_of i) asked sr →
    serial_block (S i) (commit_result ben w sr) outs w' →
    serial_block i w (ExecutedOutcome (sr_result sr) :: outs) w'
| sb_overflow i w tx outs w' :
    txs !! i = Some tx → nonce_overflow tx w → serial_block (S i) w outs w' →
    serial_block i w (Skipped NonceOverflowInTransaction :: outs) w'
| sb_refused i w tx e outs w' :
    txs !! i = Some tx → ¬ nonce_overflow tx w → refuses i w e → serial_block (S i) w outs w' →
    serial_block i w (Skipped e :: outs) w'.

Lemma serial_block_app i w outs w' outs' w'' :
  serial_block i w outs w' → serial_block (i + length outs) w' outs' w'' → serial_block i w (outs ++ outs') w''.
Proof.
  induction 1; simpl; rewrite ?Nat.add_0_r, <-?Nat.add_succ_comm; [done|..]; intros;
    by econstructor; eauto.
Qed.

(** ** What revm promises of sequential execution *)

Context `{!RevmLaws} `{!RevmDbLaws}.
Context (Hbase : base_ok w0) (rep_db : DB → World → Prop) `{!DatabaseView DB E code_of w0 rep_db}.
Context (Hbh : ∀ db n h db', rep_db db w0 → block_hash_ref db n = (Ok h, db') → h = bh n).
Abbreviation rep := (state_rep code_of w0 rep_db).
Abbreviation w1 := (load_world w0).

Context (transact_one : TxId → TxEnv → ParallelState DB →
  result (EVMError E) ExecutionResult * EvmState * ParallelState DB).

(** What the replay needs of its transaction; Settlement.v proves it of the immediate mode. *)
Definition immediate_ok : Prop := ∀ i tx st w out state st',
  txs !! i = Some tx → funded ben w → rep st w → hashes_ok bh st → transact_one i tx st = (out, state, st') →
  rep st' w ∧ hashes_ok bh st' ∧
  match out with
  | Ok res => (disabled = false → tx_nonce tx = nonce_of (w_account w (caller tx))) ∧
      ∃ asked sr, serial w (evm_of i) asked sr ∧ sr_result sr = res ∧
        world_eqv (apply_changes state w) (commit_result ben w sr) ∧
        ∀ a acc, state !! a = Some acc → committable code_of (cache st') a acc
  | Err (Transaction e) => refuses i w e
  | Err _ => True
  end.

Context (Himm : immediate_ok).
Context (Hevm : ∀ t w asked sr, serial w (evm_of t) asked sr → evm_ok code_of ben w asked sr).

(** ** Sequential replay *)

Lemma serial_funded i w asked sr :
  serial w (evm_of i) asked sr → funded ben w → funded ben (commit_result ben w sr).
Proof.
  intros Hser%Hevm. apply funded_result.
  - intros a acc. apply (eo_balance _ _ _ _ _ Hser).
  - intros r [_ Hr]%(eo_reward _ _ _ _ _ Hser). lia.
Qed.


Lemma reject_ok tx st w r st' :
  rep st w → hashes_ok bh st → reject_nonce_overflow (E:=E) disabled tx st = (r, st') →
  rep st' w ∧ hashes_ok bh st' ∧
  match r with
  | Ok _ => ¬ nonce_overflow tx w
  | Err (Transaction e) => nonce_overflow tx w ∧ e = NonceOverflowInTransaction
  | Err _ => True
  end.
Proof.
  intros Hst Hha. unfold reject_nonce_overflow, nonce_overflow. destruct disabled; simpl; [by intros [= <- <-]; split_and!; [..|intros []]|].
  case_bool_decide as Hmax; [|by intros [= <- <-]; split_and!; [..|intros (_ & ? & _)]].
  destruct (db_basic st (caller tx)) as [[info|e] st1] eqn:Hdb; intros [= <- <-].
  all: destruct (db_basic_ok code_of w0 Hbase rep_db _ _ _ _ _ Hst Hdb) as [Hst1 Hv].
  all: assert (Hha1 : hashes_ok bh st1) by (intros n h; rewrite (basic_hashes _ _ _ _ Hdb); apply Hha).
  2: by split_and!.
  destruct (Hv info eq_refl) as [Heq _].
  assert (Hn : nonce_of info = nonce_of (w_account w (caller tx))).
  { inversion Heq as [i j (_ & Hi & _)|]; [exact Hi|done]. }
  rewrite <-Hn. case_bool_decide; split_and!; try done. by intros (_ & _ & ?).
Qed.

(** What one transaction of the replay does to the represented world. *)
Lemma replay_transact_ok i tx st w :
  txs !! i = Some tx → funded ben w → rep st w → hashes_ok bh st →
  ∃ r st', replay_transact transact_one disabled i tx st = Done (r, st') ∧ hashes_ok bh st' ∧
    match r with
    | Ok res => nonce_valid disabled tx w ∧
        ∃ asked sr, serial w (evm_of i) asked sr ∧ sr_result sr = res ∧ rep st' (commit_result ben w sr)
    | Err (Transaction e) => rep st' w ∧
        (nonce_overflow tx w ∧ e = NonceOverflowInTransaction ∨ ¬ nonce_overflow tx w ∧ refuses i w e)
    | Err _ => rep st' w
    end.
Proof.
  intros Htx Hfu Hst Hha. unfold replay_transact.
  destruct (reject_nonce_overflow disabled tx st) as [[u|e] st1] eqn:Hrej.
  all: destruct (reject_ok _ _ _ _ _ Hst Hha Hrej) as (Hst1 & Hha1 & Hno).
  2: { exists (Err e), st1. split_and!; [done|done|]. destruct e; [|done..]. by split; [|left]. }
  destruct (transact_one i tx st1) as [[out state] st2] eqn:Hone.
  destruct (Himm _ _ _ _ _ _ _ Htx Hfu Hst1 Hha1 Hone) as ([Hdb2 Hok2] & Hha2 & Hout).
  destruct out as [res|e].
  - destruct Hout as (Hnonce & asked & sr & Hser & Hres & Heqv & Hcom).
    destruct (apply_evm_state_ok code_of w0 Hbase w (cache st2) state Hok2 Hcom) as (ts & c' & Hap & _ & Hok').
    eexists (Ok res), (apply_transition ts (set_cache c' st2)). unfold commit. rewrite Hap. simpl.
    split_and!; [done|done| |exists asked, sr; split_and!; [done|done|]].
    + intros Hd. specialize (Hnonce Hd). split; [done|]. intros Hmax. apply Hno. split_and!; congruence.
    + eapply state_rep_proper; [exact Heqv|]. by split.
  - exists (Err e), st2. split_and!; [done|done|]. destruct e; [split; [by split|by right; split]|by split..].
Qed.

(** The replay loop returned: it appended a serial run from [t] on to [acc]. *)
Definition loop_serial (remaining t : nat) (acc : list TxExecutionOutcome) (w : World)
    (o : outcome (SequentialReplayOutput (E:=E) * nat * ParallelState DB)) : Prop :=
  ∃ replay n st' outs w', o = Done (replay, n, st') ∧
    sro_outcomes replay = acc ++ outs ∧ serial_block t w outs w' ∧ rep st' w' ∧ hashes_ok bh st' ∧
    match sro_error replay with
    | None => length outs = remaining
    | Some e => length outs < remaining ∧ ge_txid e = t + length outs
    end.

Lemma loop_next remaining t acc w w' o out :
  (∀ outs w'', serial_block (S t) w' outs w'' → serial_block t w (o :: outs) w'') →
  loop_serial remaining (t + 1) (acc ++ [o]) w' out → loop_serial (S remaining) t acc w out.
Proof.
  intros Ho (replay & n & st' & outs & w'' & -> & Hout & Hsb & Hrep & Hh & He).
  exists replay, n, st', (o :: outs), w''. rewrite Hout, <-app_assoc.
  split_and!; [done|done|apply Ho; by rewrite Nat.add_1_r in Hsb|done|done|]. simpl. destruct (sro_error replay); lia.
Qed.

Lemma loop_stops remaining t acc attempts w e st :
  rep st w → hashes_ok bh st →
  loop_serial (S remaining) t acc w (Done (mkReplay acc (Some (mkGrevmError t e)), attempts, st)).
Proof.
  intros Hst Hha. eexists _, _, _, [], w. rewrite app_nil_r. split_and!; [done|done|apply sb_nil|done|done|simpl; lia].
Qed.

Lemma sequential_loop_serial remaining t acc attempts st w :
  t + remaining ≤ length txs → funded ben w → rep st w → hashes_ok bh st →
  loop_serial remaining t acc w
    (execute_sequential_loop (replay_transact transact_one disabled) txs remaining t acc attempts st).
Proof.
  revert t acc attempts st w. induction remaining as [|m IH]; intros t acc attempts st w Hlen Hfu Hst Hha; simpl.
  { eexists _, _, _, [], w. rewrite app_nil_r. split_and!; [done|done|apply sb_nil|done|done|done]. }
  destruct (lookup_lt_is_Some_2 txs t) as [tx Htx]; [lia|]. rewrite (proj2 (index_Done _ _ _) Htx). simpl.
  destruct (replay_transact_ok t tx st w Htx Hfu Hst Hha) as (r & st1 & -> & Hha1 & Hr). simpl.
  destruct r as [res|[e|d|msg|code]]; [| |by apply loop_stops..].
  - destruct Hr as (Hn & asked & sr & Hser & <- & Hst1).
    eapply loop_next; [|apply IH; [lia|by eapply serial_funded|done|done]]. intros. by eapply sb_executed.
  - destruct Hr as [Hst1 [[Hov ->]|[Hov Href]]]; (eapply loop_next; [|apply IH; [lia|done|done|done]]); intros;
      [by eapply sb_overflow|by eapply sb_refused].
Qed.

(** A serial prefix of the block, its outcomes and its state. *)
Definition serial_prefix (r : Runner) : Prop :=
  ∃ w, serial_block 0 w1 (rn_results r) w ∧ rep (rn_state r) w.

(** What a returned execution leaves: a serial prefix, on success the whole block. *)
Definition serial_result (res : result (GrevmError E) unit) (r : Runner) : Prop :=
  serial_prefix r ∧
  match res with Ok _ => length (rn_results r) = length txs | Err _ => True end.

(** Replay from a boundary that the outcomes match. *)
Lemma replay_serial start (r : Runner) w :
  start = length (rn_results r) → start ≤ length txs → Scheduler.txs (rn_sched r) = txs →
  block_size (rn_sched r) = length txs → rn_disable_nonce_check r = disabled → funded ben w →
  rep (rn_state r) w → hashes_ok bh (rn_state r) → serial_block 0 w1 (rn_results r) w →
  ∃ res r', replay_uncommitted_suffix transact_one (mkPrefixEnd start) r = Done (res, r') ∧ serial_result res r'.
Proof.
  intros -> Hle Htxs Hsize Hd Hfu Hst Hha Hsb. unfold replay_uncommitted_suffix. simpl. rewrite Hsize, Htxs, Hd.
  rewrite decide_False by lia. case_decide as Hend.
  { exists (Ok tt), r. split; [done|]. split; [by exists w|done]. }
  unfold execute_sequential_suffix.
  destruct (sequential_loop_serial (length txs - length (rn_results r)) (length (rn_results r)) [] 0 (rn_state r) w)
    as (replay & n & st' & outs & w' & -> & Hout & Hsb' & Hrep & _ & He); [lia|done|done|done|]. simpl in Hout |- *.
  eexists _, _. split; [done|]. split; simpl; rewrite Hout.
  - exists w'. split; [by eapply serial_block_app|done].
  - destruct (sro_error replay); [done|]. rewrite length_app. lia.
Qed.

(** ** The parallel phase *)

Lemma commit_iteration_check elapsed i (s : Sched) (c : OrderedCommitter (DB:=DB)) out step s' c' out' :
  commit_iteration elapsed i (s, c, out) = Done (step, (s', c', out')) → disable_nonce_check c' = disable_nonce_check c.
Proof.
  assert (Hoc : ∀ tx sr r out1 c1, ordered_commit i tx sr out c = Done (r, out1, c1) →
    disable_nonce_check c1 = disable_nonce_check c).
  { intros tx sr r out1 c1. unfold ordered_commit. destruct (check_nonce tx c) as [v c2] eqn:Hn.
    assert (Hd2 : disable_nonce_check c2 = disable_nonce_check c).
    { unfold check_nonce in Hn. destruct (negb _); [|by injection Hn as _ <-].
      destruct (db_basic (oc_state c) (caller tx)). by repeat case_match; injection Hn as _ <-. }
    rewrite <-Hd2. destruct v; [|by intros [= _ _ <-]..]. intros ([ro c3] & Hs & Hrest)%outcome_bind_Done.
    assert (Hd3 : disable_nonce_check c3 = disable_nonce_check c2).
    { unfold settle_reward in Hs. destruct (sr_deferred_reward sr); [|by injection Hs as _ <-].
      apply outcome_bind_Done in Hs as (_ & _ & Hs). destruct (db_basic (oc_state c2) _). by injection Hs as _ <-. }
    rewrite <-Hd3. destruct ro; [|by injection Hrest as _ _ <-].
    apply outcome_bind_Done in Hrest as (st & _ & Hrest). destruct (push _ _). by injection Hrest as _ _ <-. }
  unfold commit_iteration. intros ([o s1] & _ & Hit)%outcome_bind_Done.
  destruct o as [r|]; [|by injection Hit as _ _ <- _]. destruct (execute_result r); [|by injection Hit as _ _ <- _].
  apply outcome_bind_Done in Hit as (tx & _ & ([[res out1] c1] & Hc1%Hoc & Hit)%outcome_bind_Done).
  destruct res as [[e|]|e]; [|by injection Hit as _ _ <- _|by injection Hit as _ _ <- _].
  by apply outcome_bind_Done in Hit as (d & _ & [= _ _ <- _]).
Qed.

(** What the parallel phase does not change. *)
Definition same_block (x x' : Serial.Block (DB:=DB) (E:=E)) : Prop :=
  block_size (x_sched x') = block_size (x_sched x) ∧ Scheduler.txs (x_sched x') = Scheduler.txs (x_sched x) ∧
  disable_nonce_check (p_committer (x_pipe x')) = disable_nonce_check (p_committer (x_pipe x)).

Lemma block_static x x' anchor size trs rs :
  block_inv evm_of code_of w0 bh ben anchor size rep_db x trs rs → block_step evm_of x x' → same_block x x'.
Proof.
  intros Hinv Hstep. unfold same_block. destruct Hstep; unfold x_sched; cbn [x_pipe p_sys p_committer sch]; try done.
  - assert (He : worker_effect σ σ') by (apply worker_step_effect; [apply (bi_pipe _ _ _ _ _ _ _ _ _ _ _ Hinv)|done]).
    split_and!; [apply He..|done].
  - match goal with H : execute_begin _ _ = _ |- _ => apply execute_begin_true in H as (Hc & _) end.
    split_and!; [apply Hc..|done].
  - match goal with H : commit_iteration _ _ _ = _ |- _ =>
      pose proof (commit_iteration_static _ _ _ _ _ _ _ _ _ H) as [? ?];
      pose proof (commit_iteration_check _ _ _ _ _ _ _ _ _ H) end.
    done.
Qed.

Lemma block_run_static x x' anchor trs rs :
  acct_eqv anchor (w_account w1 ben) ∧ code_ok code_of anchor →
  block_inv evm_of code_of w0 bh ben anchor (length txs) rep_db x trs rs → undisturbed evm_of ben anchor (length txs) x →
  rtc (undisturbed_step evm_of ben anchor (length txs)) x x' →
  same_block x x' ∧ ∃ trs' rs', block_inv evm_of code_of w0 bh ben anchor (length txs) rep_db x' trs' rs'.
Proof.
  intros Han Hinv Hun Hr. revert trs rs Hinv Hun.
  induction Hr as [|x1 x2 x3 [Hs Hun2] Hr IH]; intros trs rs Hinv Hun; [split; [done|eauto]|].
  pose proof (block_static _ _ _ _ _ _ Hinv Hs) as (? & ? & ?).
  destruct (block_inv_step evm_of code_of w0 bh ben anchor (length txs) Hbase rep_db Hevm Han Hbh _ _ _ _ Hs Hun Hinv)
    as (trs' & rs' & Hinv').
  destruct (IH _ _ Hinv' Hun2) as [(? & ? & ?) ?]. split; [|done]. split_and!; congruence.
Qed.

(** A serial prefix in the sense of the parallel phase is one of the specification. *)
Lemma serial_results rs :
  (∀ t sr, rs !! t = Some sr → ∃ asked, serial (world_at ben w1 rs t) (evm_of t) asked sr) →
  (∀ t sr, rs !! t = Some sr → ∃ tx, txs !! t = Some tx ∧ nonce_valid disabled tx (world_at ben w1 rs t)) →
  serial_block 0 w1 ((λ sr, ExecutedOutcome (sr_result sr)) <$> rs) (world_at ben w1 rs (length rs)).
Proof.
  induction rs as [|sr rs IH] using rev_ind; intros Hser Hn; [apply sb_nil|].
  assert (Hw : ∀ t, t ≤ length rs → world_at ben w1 (rs ++ [sr]) t = world_at ben w1 rs t)
    by (intros t Ht; unfold world_at; by rewrite take_app_le).
  assert (Hlast : (rs ++ [sr]) !! length rs = Some sr) by (by rewrite lookup_app_r, Nat.sub_diag).
  destruct (Hser _ _ Hlast) as [asked Hs], (Hn _ _ Hlast) as (tx & Htx & Hv). rewrite Hw in Hs, Hv by done.
  rewrite fmap_app. eapply serial_block_app.
  - apply IH; intros t sr' Ht; assert (Hlt := lookup_lt_Some _ _ _ Ht); rewrite <-Hw by lia; [eapply Hser|eapply Hn];
      by apply lookup_app_l_Some.
  - rewrite length_fmap, length_app, Nat.add_1_r, (world_at_S _ _ _ _ _ Hlast), Hw by done. simpl.
    eapply sb_executed; [done..|apply sb_nil].
Qed.

(** The system at the start of the parallel phase. *)
Definition phase_start (m : ExecuteMetricsCollector) (anchor : option AccountInfo) (st : ParallelState DB) : Serial.Block (DB:=DB) (E:=E) :=
  mkBlock (mkPipe (mkSys (set_metrics m (Sched_new txs ben anchor)) ∅ 0) (mkCommitter ben st disabled) (mkOutput []) 0 None) ∅ ∅.

(** The threads of [parallel_execute_inner] come to an end: after a run of the parallel phase
    they are joined, the commit loop having returned, or one of them panics and the panic is
    passed on. *)
Definition phase_runs (phase : Address → Sched → ParallelState DB →
    outcome (CommitLoopResult (E:=E) * Sched * ParallelState DB)) : Prop :=
  ∀ m anchor st0 st, rep st0 w1 → hashes_ok bh st0 → db_basic st0 ben = (Ok anchor, st) →
  ∃ x0 x, rtc (thread_step evm_of ben anchor (length txs)) (phase_start m anchor st) x0 ∧
    rtc (thread_step evm_of ben anchor (length txs)) x0 x ∧
    ((∃ e, p_return (x_pipe x) = Some e ∧ phase ben (set_metrics m (Sched_new txs ben anchor)) st =
        Done (mkCommitLoopResult (p_output (x_pipe x)) e, x_sched x, x_state x)) ∨
     (thread_panics x0 x ∧ phase ben (set_metrics m (Sched_new txs ben anchor)) st = Panic)).

Lemma phase_start_inv m anchor st0 st :
  rep st0 w1 → hashes_ok bh st0 → funded ben w1 → db_basic st0 ben = (Ok anchor, st) →
  (acct_eqv anchor (w_account w1 ben) ∧ code_ok code_of anchor) ∧
  block_inv evm_of code_of w0 bh ben anchor (length txs) rep_db (phase_start m anchor st) [] [].
Proof.
  intros Hst Hha Hfu Hdb.
  destruct (start_inv evm_of code_of w0 bh Hbase rep_db txs ben anchor st0 st disabled Hst Hha Hfu Hdb) as [Han Hinv].
  split; [done|]. eapply block_worker; [apply ss_other, same_core_metrics|by intros t v y ps todo Ht; exists todo|exact Hinv].
Qed.

Lemma phase_start_threads m anchor st : threads_ok ben (length txs) (phase_start m anchor st).
Proof.
  split; unfold x_sched; cbn [x_pipe p_sys sch x_run phase phase_start].
  - split; simpl; rewrite ?length_replicate; try done; [apply graph_ok_new|]. split; simpl; [apply length_replicate|lia].
  - intros t v p tr Ht. by rewrite lookup_empty in Ht.
  - intros t p Ht. by rewrite lookup_empty in Ht.
Qed.

Context (Hdefers : ∀ t, defers_apart ben (evm_of t)).

(** No thread panics. *)
Lemma phase_no_panic m anchor st0 st x0 x :
  rep st0 w1 → hashes_ok bh st0 → funded ben w1 → db_basic st0 ben = (Ok anchor, st) →
  rtc (thread_step evm_of ben anchor (length txs)) (phase_start m anchor st) x0 →
  rtc (thread_step evm_of ben anchor (length txs)) x0 x → ¬ thread_panics x0 x.
Proof.
  intros Hst Hha Hfu Hdb Hr0 Hr1 Hp. destruct (phase_start_inv m anchor st0 st Hst Hha Hfu Hdb) as [Han Hinv].
  assert (Hrun := threads_run evm_of ben anchor (length txs) code_of w0 bh Hbase rep_db Hevm Han Hbh Hdefers).
  destruct (Hrun _ _ _ _ Hr0 Hinv ltac:(by intros t rec Ht%Nat.nlt_0_r) (phase_start_threads m anchor st))
    as (Hun0 & Hok0 & trs0 & rs0 & Hinv0).
  destruct (Hrun _ _ _ _ Hr1 Hinv0 Hun0 Hok0) as (Hun1 & Hok1 & trs & rs & Hinv1).
  by destruct (threads_no_panic evm_of ben anchor (length txs) code_of w0 bh Hbase rep_db Hevm Han _ _ _ _ _ _
    Hinv0 Hok0 Hinv1 Hok1 Hun1).
Qed.

(** The threads are joined. *)
Lemma phase_joined phase m anchor st0 st :
  phase_runs phase → rep st0 w1 → hashes_ok bh st0 → funded ben w1 → db_basic st0 ben = (Ok anchor, st) →
  ∃ x e, rtc (undisturbed_step evm_of ben anchor (length txs)) (phase_start m anchor st) x ∧ p_return (x_pipe x) = Some e ∧
    phase ben (set_metrics m (Sched_new txs ben anchor)) st =
      Done (mkCommitLoopResult (p_output (x_pipe x)) e, x_sched x, x_state x).
Proof.
  intros Hphase Hst Hha Hfu Hdb. destruct (Hphase m anchor st0 st Hst Hha Hdb) as (x0 & x & Hr0 & Hr1 & Hend).
  destruct Hend as [(e & Hret & Hph)|[Hpan _]].
  - exists x, e. split_and!; [|done|done]. etrans; by apply thread_steps_undisturbed.
  - by destruct (phase_no_panic m anchor st0 st x0 x Hst Hha Hfu Hdb Hr0 Hr1).
Qed.

Lemma phase_serial m anchor st0 st x :
  rep st0 w1 → hashes_ok bh st0 → funded ben w1 → db_basic st0 ben = (Ok anchor, st) →
  rtc (undisturbed_step evm_of ben anchor (length txs)) (phase_start m anchor st) x →
  same_block (phase_start m anchor st) x ∧ hashes_ok bh (x_state x) ∧
  committed (scheduler_ctx (x_sched x)) = length (outcomes (p_output (x_pipe x))) ∧
  length (outcomes (p_output (x_pipe x))) ≤ length txs ∧
  (p_return (x_pipe x) = Some None → abort_flag (x_sched x) = false →
    length (outcomes (p_output (x_pipe x))) = length txs) ∧
  ∃ w, serial_block 0 w1 (outcomes (p_output (x_pipe x))) w ∧ rep (x_state x) w ∧ funded ben w.
Proof.
  intros Hst Hha Hfu Hdb Hr.
  destruct (phase_start_inv m anchor st0 st Hst Hha Hfu Hdb) as [Han Hinv0].
  destruct (block_run_static _ _ _ _ _ Han Hinv0 ltac:(by intros t rec Ht%Nat.nlt_0_r) Hr) as [Hsame (trs & rs & Hinv')].
  pose proof Hsame as (Hsz & Htx & Hdis). unfold x_sched, x_state in *.
  destruct (bi_pipe _ _ _ _ _ _ _ _ _ _ _ Hinv') as [Hsys [Hres Hout Hcur Hfin _ Hrep Hfund Hnon] Hret].
  destruct (bi_address _ _ _ _ _ _ _ _ _ _ _ Hinv') as [_ Hb]. rewrite Hb in Hrep, Hfund, Hnon.
  simpl in Hsz, Htx, Hdis. rewrite Htx, Hdis in Hnon.
  rewrite Hout, length_fmap. split_and!; [done|apply Hinv'|done| | |].
  - destruct (decide (length rs = 0)) as [->|Hne]; [lia|].
    destruct (lookup_lt_is_Some_2 rs (length rs - 1)) as [sr Hsr]; [lia|].
    destruct (Hnon _ _ Hsr) as (tx & Hl%lookup_lt_Some & _). lia.
  - intros Hn Ha. unfold returned_ok in Hret. rewrite Hn in Hret. destruct Hret as [Ht|Ht]; congruence.
  - exists (world_at ben w1 rs (length rs)). split; [|done]. apply serial_results; [apply Hinv'|done].
Qed.

(** ** The whole execution *)

Context (phase : Address → Sched → ParallelState DB → outcome (CommitLoopResult (E:=E) * Sched * ParallelState DB)).
Context (Hphase : phase_runs phase).

(** A scheduler that was created for the block and whose execution has not started. *)
Record ready (r : Runner) : Prop := {
  rd_fresh : ∃ b a m, rn_sched r = set_metrics m (Sched_new txs b a);
  rd_results : rn_results r = [];
  rd_check : rn_disable_nonce_check r = disabled;
  rd_state : rep (rn_state r) w1;
  rd_hashes : hashes_ok bh (rn_state r)
}.

Lemma replay_from_zero r :
  funded ben w1 → ready r → ∃ res r', replay_uncommitted_suffix transact_one CommittedPrefixEnd_ZERO r = Done (res, r') ∧ serial_result res r'.
Proof.
  intros Hfu [(b & a & m & Hf) Hn Hd Hst Hha]. eapply replay_serial; rewrite ?Hn, ?Hf; try done; [lia|apply sb_nil].
Qed.

Lemma post_execute_serial committed r w :
  prefix_index committed = length (rn_results r) → length (rn_results r) ≤ length txs →
  Scheduler.txs (rn_sched r) = txs → block_size (rn_sched r) = length txs → rn_disable_nonce_check r = disabled →
  funded ben w → rep (rn_state r) w → hashes_ok bh (rn_state r) → serial_block 0 w1 (rn_results r) w →
  (abort_flag (rn_sched r) = false → length (rn_results r) = length txs) →
  ∃ res r', post_execute transact_one committed r = Done (res, r') ∧ serial_result res r'.
Proof.
  intros Hc Hle Htx Hsz Hd Hfu Hst Hha Hsb Hfull. destruct committed as [start]. simpl in Hc.
  assert (Hrep : ∃ res r', replay_uncommitted_suffix transact_one (mkPrefixEnd start) r = Done (res, r') ∧ serial_result res r')
    by (eapply replay_serial; by rewrite ?Hc).
  unfold post_execute, fallback_after_parallel_error.
  destruct (abort_flag (rn_sched r)).
  - repeat case_match; try done; eexists _, _; (split; [done|]); split; try done; by exists w.
  - exists (Ok tt), r. split; [done|]. split; [by exists w|by apply Hfull].
Qed.

Lemma parallel_inner_serial r :
  funded ben w1 → ready r →
  ∃ res r', parallel_execute_inner transact_one phase ben r = Done (res, r') ∧ serial_result res r'.
Proof.
  intros Hfu Hr. unfold parallel_execute_inner. destruct (_ || _); [by apply replay_from_zero|].
  destruct Hr as [(b & a & m & Hf) Hn Hd Hst Hha].
  destruct (db_basic (rn_state r) ben) as [[anchor|e] st] eqn:Hdb.
  2: { destruct (db_basic_ok code_of w0 Hbase rep_db _ _ _ _ _ Hst Hdb) as [Hst' _].
       eexists _, _. split; [done|]. split; [|done]. exists w1. simpl. rewrite Hn. split; [apply sb_nil|done]. }
  destruct (phase_joined phase m anchor _ _ Hphase Hst Hha Hfu Hdb) as (x & e & Hrun & Hret & Hph).
  destruct (phase_serial m anchor _ _ _ Hst Hha Hfu Hdb Hrun) as ((Hsz & Htx & _) & Hh & Hcur & Hle & Hfull & w & Hsb & Hrep & Hfuw).
  rewrite Hf. cbv zeta. change (set_beneficiary _ _) with (set_metrics m (Sched_new (E:=E) txs ben anchor)). rewrite Hph. simpl.
  unfold install_commit_loop_result. simpl. rewrite Hn, Hcur, !bool_decide_eq_true_2 by done. simpl.
  destruct e as [e|].
  - eexists _, _. split; [done|]. split; [by exists w|done].
  - eapply post_execute_serial; try done. simpl. by apply Hfull.
Qed.

Lemma run_once_serial execute elapsed r :
  ready r →
  (∀ r, ready r → ∃ res r', execute r = Done (res, r') ∧ serial_result res r') →
  ∃ res r', run_once execute elapsed r = Done (res, r') ∧ serial_result res r'.
Proof.
  intros [(b & a & m & Hf) Hn Hd Hst Hha] Hex. unfold run_once. destruct (started r).
  - eexists _, _. split; [done|]. split; [|done]. exists w1. rewrite Hn. split; [apply sb_nil|done].
  - cbv zeta. edestruct Hex as (res & r' & -> & Hs); [|by eexists _, _].
    split; simpl; try done. rewrite Hf. by eexists _, _, _.
Qed.

Lemma parallel_execute_serial level elapsed r :
  funded ben w1 → ready r → 0 < default (concurrency_level r) level →
  ∃ res r', parallel_execute transact_one phase ben level elapsed r = Done (res, r') ∧ serial_result res r'.
Proof.
  intros Hfu Hr Hl. unfold parallel_execute. cbv zeta. rewrite bool_decide_eq_true_2 by done. simpl.
  apply run_once_serial; [done|]. intros. by apply parallel_inner_serial.
Qed.

Lemma fallback_serial elapsed r :
  funded ben w1 → ready r → ∃ res r', fallback_sequential transact_one elapsed r = Done (res, r') ∧ serial_result res r'.
Proof. intros Hfu Hr. apply run_once_serial; [done|]. intros. by apply replay_from_zero. Qed.

(** ** Determinism *)

(** Over worlds with the same content, revm executes a transaction with the same result and the
    same effects, or refuses it with the same error. *)
Record revm_deterministic : Prop := {
  dt_serial i w w' asked asked' sr sr' : world_eqv w w' → serial w (evm_of i) asked sr → serial w' (evm_of i) asked' sr' →
    sr_result sr = sr_result sr' ∧ world_eqv (commit_result ben w sr) (commit_result ben w' sr');
  dt_refuses i w w' e e' : world_eqv w w' → refuses i w e → refuses i w' e' → e = e';
  dt_valid i tx w w' e asked sr : txs !! i = Some tx → world_eqv w w' → refuses i w e →
    nonce_valid disabled tx w' → ¬ serial w' (evm_of i) asked sr
}.

Lemma world_nonce_eqv w w' a : world_eqv w w' → nonce_of (w_account w a) = nonce_of (w_account w' a).
Proof. intros [Ha _]. destruct (Ha a) as [i j (_ & Hi & _)|]; [exact Hi|done]. Qed.

Lemma overflow_eqv tx w w' : world_eqv w w' → nonce_overflow tx w → nonce_overflow tx w'.
Proof. intros Hw (? & ? & Hn). split_and!; [done|done|]. by rewrite <-(world_nonce_eqv _ _ _ Hw). Qed.

Lemma overflow_invalid tx w : nonce_overflow tx w → ¬ nonce_valid disabled tx w.
Proof. intros (Hd & Hm & _) Hv. by destruct (Hv Hd). Qed.

Lemma nonce_valid_eqv tx w w' : world_eqv w w' → nonce_valid disabled tx w → nonce_valid disabled tx w'.
Proof. intros Hw Hv Hd. rewrite <-(world_nonce_eqv _ _ _ Hw). by apply Hv. Qed.

(** Two serial runs of the block agree as far as both go. *)
Lemma serial_block_deterministic i w outs w1' w' outs' w2' :
  revm_deterministic → world_eqv w w' → serial_block i w outs w1' → serial_block i w' outs' w2' →
  (outs `prefix_of` outs' ∨ outs' `prefix_of` outs) ∧ (length outs = length outs' → outs = outs' ∧ world_eqv w1' w2').
Proof.
  intros Hdet Hw Hrun. revert w' outs' w2' Hw.
  assert (Hcons : ∀ (o : TxExecutionOutcome) outs outs' (P : Prop),
    (outs `prefix_of` outs' ∨ outs' `prefix_of` outs) ∧ (length outs = length outs' → outs = outs' ∧ P) →
    ((o :: outs) `prefix_of` (o :: outs') ∨ (o :: outs') `prefix_of` (o :: outs)) ∧
    (length (o :: outs) = length (o :: outs') → o :: outs = o :: outs' ∧ P)).
  { intros o l l' P [Hp Hl]. split; [destruct Hp; [left|right]; by apply prefix_cons|].
    intros [= Hlen]. destruct (Hl Hlen) as [-> ?]. done. }
  induction Hrun as [i w|i w tx asked sr outs w1' Htx Hv Hs Hrun IH|i w tx outs w1' Htx Ho Hrun IH|i w tx e outs w1' Htx Ho Hr Hrun IH];
    intros w' outs' w2' Hw Hrun'; destruct Hrun' as
      [i w'|i w' tx' asked' sr' outs' w2' Htx' Hv' Hs' Hrun'|i w' tx' outs' w2' Htx' Ho' Hrun'|i w' tx' e' outs' w2' Htx' Ho' Hr' Hrun'].
  all: try (split; [left; apply prefix_nil|by intros]).
  all: try (split; [right; apply prefix_nil|by intros]).
  all: rewrite Htx in Htx'; injection Htx' as <-.
  - destruct (dt_serial Hdet _ _ _ _ _ _ _ Hw Hs Hs') as [-> Hw']. apply Hcons. by eapply IH.
  - by apply (overflow_eqv _ _ _ (symmetry Hw)), overflow_invalid in Ho'.
  - exfalso. eapply (dt_valid Hdet); [exact Htx|symmetry; exact Hw|exact Hr'|exact Hv|exact Hs].
  - by apply (overflow_eqv _ _ _ Hw), overflow_invalid in Ho.
  - apply Hcons. by eapply IH.
  - by apply (overflow_eqv _ _ _ Hw) in Ho.
  - exfalso. eapply (dt_valid Hdet); [exact Htx|exact Hw|exact Hr|exact Hv'|exact Hs'].
  - by apply (overflow_eqv _ _ _ (symmetry Hw)) in Ho'.
  - rewrite (dt_refuses Hdet _ _ _ _ _ Hw Hr Hr'). apply Hcons. by eapply IH.
Qed.

Lemma serial_results_agree res r res' r' :
  revm_deterministic → serial_result res r → serial_result res' r' →
  (rn_results r `prefix_of` rn_results r' ∨ rn_results r' `prefix_of` rn_results r) ∧
  (is_ok res = true → is_ok res' = true → rn_results r = rn_results r' ∧ ∃ w, rep (rn_state r) w ∧ rep (rn_state r') w).
Proof.
  intros Hdet [(w & Hs & Hst) Hl] [(w' & Hs' & Hst') Hl'].
  destruct (serial_block_deterministic _ _ _ _ _ _ _ Hdet ltac:(reflexivity) Hs Hs') as [Hp Heq]. split; [done|].
  destruct res, res'; [|done..]. intros _ _. destruct Heq as [-> Hw]; [congruence|]. split; [done|].
  exists w'. split; [by eapply state_rep_proper|done].
Qed.

End end_to_end.

(** ** Properties *)

Section theorems.
Context `{!Revm} `{!RevmDb} {DB E : Type} `{!DatabaseRef DB E}.
Context (code_of : B256 → Bytecode) (w0 : World) (bh : Z → B256).
Context (ben : Address) (disabled : bool) (txs : list TxEnv).
(** revm up to the reward, in the configuration of the workers and in that of the replay. *)
Context (body replay_body : TxId → Body E).
(** revm's payment of the reward. *)
Context (reward : Unsettled → Evm E) (Hreward : reward_laws ben reward).
Context `{!RevmLaws} `{!RevmDbLaws}.
Context (Hbase : base_ok w0) (rep_db : DB → World → Prop) `{!DatabaseView DB E code_of w0 rep_db}.
Context (Hbh : ∀ db n h db', rep_db db w0 → block_hash_ref db n = (Ok h, db') → h = bh n).
Context (phase : Address → Scheduler.Sched E → ParallelState DB →
  outcome (CommitLoopResult (E:=E) * Scheduler.Sched E * ParallelState DB)).

(** The execution of a transaction by a worker: the reward is deferred. *)
Definition deferred_evm (i : TxId) : Evm E := body_then (body i) (settle ben reward Deferred).

Abbreviation serial := (serial_run code_of (load_world w0) bh).
Abbreviation transact := (transact_one ben reward replay_body).
Abbreviation refused := (Settlement.refuses ben reward code_of w0 bh replay_body).
Abbreviation block := (serial_block deferred_evm code_of w0 bh ben disabled txs refused 0 (load_world w0)).
Abbreviation rep := (state_rep code_of w0 rep_db).

Lemma deferred_apart t : defers_apart ben (deferred_evm t).
Proof. by apply body_defers_apart. Qed.

Lemma replay_immediate :
  sequential_revm ben reward code_of w0 bh deferred_evm replay_body disabled txs →
  immediate_ok deferred_evm code_of w0 bh ben disabled txs refused rep_db transact.
Proof. intros Hrevm i tx st w out state st'. by apply transact_one_ok. Qed.

(** C1. Block execution is serial, from end to end, provided the threads of the parallel phase
    come to an end ([phase_runs]: by a join or by a panic, after any interleaving of their
    steps, a load of the block state being one step, in which no call of a final execution has
    overwritten a read it recorded), the database and the block state represent the start of
    the block, the beneficiary's balance is not negative, and revm keeps its promises on
    journals ([evm_ok]), on the reward ([reward_laws]) and on the sequential configuration
    ([sequential_revm]). Then, whether and wherever the execution falls back to
    sequential replay, and whatever fails: [parallel_execute] of a fresh scheduler returns, no
    thread having panicked, with the outcomes and the state of running a prefix of the block one
    transaction after the other (nonces checked, invalid transactions skipped, rewards settled).
    When it returns without an error, the prefix is the whole block. *)
Theorem execution_is_serial level elapsed (r : Runner) :
  (∀ t w asked sr, serial w (deferred_evm t) asked sr → evm_ok code_of ben w asked sr) →
  sequential_revm ben reward code_of w0 bh deferred_evm replay_body disabled txs →
  phase_runs deferred_evm code_of w0 bh ben disabled txs rep_db phase →
  funded ben (load_world w0) → ready code_of w0 bh disabled txs rep_db r → 0 < default (concurrency_level r) level →
  ∃ res r', parallel_execute transact phase ben level elapsed r = Done (res, r') ∧
    (∃ w, block (rn_results r') w ∧ rep (rn_state r') w) ∧
    match res with Ok _ => length (rn_results r') = length txs | Err _ => True end.
Proof.
  intros Hevm Hrevm%replay_immediate Hphase Hfu Hr Hl. eapply parallel_execute_serial; try done. apply deferred_apart.
Qed.

(** C2. Parallel execution equals sequential execution. Under the same conditions as for the
    serial execution of a block (the threads come to an end, loads of the block state are single
    steps, no call of a final execution overwrites a read it recorded, revm keeps its promises,
    the beneficiary's balance is not negative), and when revm is deterministic: the outcomes of [parallel_execute] and those of [fallback_sequential] on the
    same block agree as far as both go, whatever the thread interleaving; when both succeed they
    are the same outcomes, and the two final states represent the same world. *)
Theorem parallel_equals_sequential level elapsed elapsed' (r r2 : Runner) res r' res2 r2' :
  (∀ t w asked sr, serial w (deferred_evm t) asked sr → evm_ok code_of ben w asked sr) →
  sequential_revm ben reward code_of w0 bh deferred_evm replay_body disabled txs →
  phase_runs deferred_evm code_of w0 bh ben disabled txs rep_db phase →
  revm_deterministic deferred_evm code_of w0 bh ben disabled txs refused →
  funded ben (load_world w0) → ready code_of w0 bh disabled txs rep_db r → ready code_of w0 bh disabled txs rep_db r2 →
  0 < default (concurrency_level r) level →
  parallel_execute transact phase ben level elapsed r = Done (res, r') →
  fallback_sequential transact elapsed' r2 = Done (res2, r2') →
  (rn_results r' `prefix_of` rn_results r2' ∨ rn_results r2' `prefix_of` rn_results r') ∧
  (is_ok res = true → is_ok res2 = true → rn_results r' = rn_results r2' ∧
    ∃ w, rep (rn_state r') w ∧ rep (rn_state r2') w).
Proof.
  intros Hevm Himm%replay_immediate Hphase Hdet Hfu Hr Hr2 Hl Hp Hf.
  destruct (parallel_execute_serial deferred_evm code_of w0 bh ben disabled txs refused Hbase rep_db Hbh transact
    Himm Hevm deferred_apart phase Hphase level elapsed r Hfu Hr Hl) as (? & ? & Hp' & Hs). rewrite Hp in Hp'. injection Hp' as <- <-.
  destruct (fallback_serial deferred_evm code_of w0 bh ben disabled txs refused Hbase rep_db transact
    Himm Hevm elapsed' r2 Hfu Hr2) as (? & ? & Hf' & Hs2). rewrite Hf in Hf'. injection Hf' as <- <-.
  by eapply serial_results_agree.
Qed.


End theorems.
