(* ===== verification/EndToEndRun.v ===== *)
(** A block executed end to end: two conflicting transfers, once by the parallel phase of
    SerialRun.v and once by the sequential fallback. *)

From S2P Require Import Prelude Model Reward History World IncarnationDb Access Snapshot Replay ParallelState CacheView TxDependency Context Metrics Scheduler OrderedCommit Interleave Finality Published Control Pipeline Serial Settlement SerialRun NoPanic EndToEnd.

Section congruence.
Context `{!Revm} `{!RevmLaws}.

(** Journal accounts with the same effect. *)
Definition account_eqv (x y : Account) : Prop :=
  is_touched x = is_touched y ∧ is_selfdestructed x = is_selfdestructed y ∧ is_created x = is_created y ∧
  info_eqv (acc_info x) (acc_info y) ∧ acc_storage x = acc_storage y.

Lemma apply_account_eqv x y v w f g :
  account_eqv x y → acct_eqv v w → (∀ k, f k = g k) →
  acct_eqv (apply_account x (v, f)).1 (apply_account y (w, g)).1 ∧
  ∀ k, (apply_account x (v, f)).2 k = (apply_account y (w, g)).2 k.
Proof.
  intros (Ht & Hs & Hc & Hi & Hst) Hv Hf.
  unfold apply_account, FinalizedAccount_from, is_empty, overlay, changed_storage_slots.
  rewrite Ht, Hs, Hc, Hst, (info_is_empty_eqv _ _ Hi).
  repeat case_match; simplify_eq/=; split; try done; try (by constructor); intros k; by repeat case_match; simplify_eq.
Qed.

Lemma commit_result_eqv ben w w' sr sr' :
  (∀ a, option_Forall2 account_eqv (sr_state sr !! a) (sr_state sr' !! a)) →
  sr_deferred_reward sr = sr_deferred_reward sr' → world_eqv w w' →
  world_eqv (commit_result ben w sr) (commit_result ben w' sr').
Proof.
  intros Hst Hd [Ha Hs].
  assert (Hc : world_eqv (apply_changes (sr_state sr) w) (apply_changes (sr_state sr') w')).
  { split; [intros a|intros a k]; simpl; destruct (Hst a) as [x y Hxy|]; try apply Ha; try apply Hs.
    all: destruct (apply_account_eqv x y _ _ (w_storage w a) (w_storage w' a) Hxy (Ha a) (Hs a)); auto. }
  unfold commit_result. rewrite Hd. destruct (sr_deferred_reward sr') as [r|]; [|done].
  destruct Hc as [Hca Hcs]. split; [|exact Hcs]. intros a. simpl. case_decide; [|apply Hca].
  constructor. by apply apply_to_proper, Hca.
Qed.

End congruence.

(** ** Schedules are runs of the threads *)

Section threads.
Context `{!Revm} `{!RevmDb} {DB E : Type} `{!DatabaseRef DB E} (evm_of : TxId → Evm E).
Context (code_of : B256 → Bytecode) (w0 : World) (bh : Z → B256).
Context (ben : Address) (anchor : option AccountInfo) (size : nat).
Context `{!RevmLaws} `{!RevmDbLaws}.
Context (Hbase : base_ok w0) (rep_db : DB → World → Prop) `{!DatabaseView DB E code_of w0 rep_db}.
Context (Hevm : ∀ t w asked sr, serial_run code_of (load_world w0) bh w (evm_of t) asked sr → evm_ok code_of ben w asked sr).
Context (Hanchor : acct_eqv anchor (w_account (load_world w0) ben) ∧ code_ok code_of anchor).
Context (Hbh : ∀ db n h db', rep_db db w0 → block_hash_ref db n = (Ok h, db') → h = bh n).
Context (Hdefers : ∀ t, defers_apart ben (evm_of t)) (Honce : ∀ t, reads_once ∅ ∅ (evm_of t)).
Abbreviation inv := (block_inv evm_of code_of w0 bh ben anchor size rep_db).

Lemma act_private a (σ σ' : Sys (E:=E)) :
  sys_inv σ → b_address (beneficiary (sch σ)) = ben → shape size (sch σ) → phases_sound ben (phase σ) →
  act a σ = Some σ' → private (sch σ) (sch σ').
Proof.
  intros Hinv Hben Hsh Hph Ha. pose proof (reached_refl _ _ Hsh) as Hs. pose proof (sp_size _ _ Hsh) as Hsize.
  destruct σ as [s ph fl]. destruct a as [t|v sr idb|t|t|t|v|t|t|idx|]; simpl in Ha, Hph, Hsh, Hs, Hben.
  - destruct (ph !! t); [done|]. destruct (execution_task t s) as [[task s']|] eqn:Ht; [|done]. injection Ha as <-.
    assert (Hlt : t < size).
    { apply outcome_bind_Done in Ht as (x & Hx%index_Done%lookup_lt_Some & _). by rewrite (sp_states _ _ Hsh) in Hx. }
    apply (returns_Done _ _ _ (execution_task_returns _ _ _ _ Hs Hlt) Ht).
  - destruct (ph !! _); [done|]. destruct (execute_begin v s) as [[[] s1]|] eqn:Hb; try done. injection Ha as <-.
    apply outcome_bind_Done in Hb as (x & _ & Hb). repeat case_match; try done. injection Hb as <-. by apply private_refl.
  - repeat case_match; try done. injection Ha as <-. by apply private_refl.
  - destruct (ph !! t) as [[v x ps [|]|]|] eqn:Hp; try done.
    destruct (execute_settle v x s) as [[c s']|] eqn:Hset; [|done]. injection Ha as <-.
    destruct (publishing_status (mkSys s ph fl) _ _ _ _ _ Hinv Hp) as (Hst & Hv & _). cbn [sch] in *.
    assert (Hlt : txid v < size) by (rewrite Hv; by eapply (status_block size (mkSys s ph fl))).
    assert (Hx := Hph _ _ Hp). simpl in Hx. rewrite <-Hben in Hx. replace t with (txid v) in Hx by (by rewrite Hv).
    apply (returns_Done _ _ _ (execute_settle_returns _ _ _ _ _ Hs Hlt Hx) Hset).
  - destruct (ph !! t); [done|]. destruct (validation_task t s) as [[task s']|] eqn:Ht; [|done]. injection Ha as <-.
    apply outcome_bind_Done in Ht as (x & _ & Ht). destruct (status x); injection Ht as <- <-; by apply private_refl.
  - destruct (ph !! _); [done|]. destruct (validate_begin v s) as [[[[ts r]|] s1]|] eqn:Hv; try done. injection Ha as <-.
    apply outcome_bind_Done in Hv as (x & _ & (r' & _ & Hv)%outcome_bind_Done).
    repeat case_match; simplify_eq/=; by apply private_refl.
  - repeat case_match; try done. injection Ha as <-. by apply private_refl.
  - destruct (ph !! t) as [[|v ts r seen [|] c d]|] eqn:Hp; try done.
    destruct (validate_finish v ts r c d s) as [s'|] eqn:Hfin; [|done]. injection Ha as <-.
    destruct (scanning_status (mkSys s ph fl) _ _ _ _ _ _ _ _ Hinv Hp) as (Hst & _ & Hv & _). cbn [sch] in *.
    assert (Hlt : txid v < size) by (rewrite Hv; by eapply (status_block size (mkSys s ph fl))).
    assert (Hw := Hph _ _ Hp). simpl in Hw. replace t with (txid v) in Hw by (by rewrite Hv).
    apply (returns_Done _ _ _ (validate_finish_returns _ _ _ _ _ _ _ _ Hs Hlt Hw) Hfin).
  - injection Ha as <-. split; [done|]. simpl. unfold next_validation_idx, ctx_frontier.
    destruct (current (execution_frontier (scheduler_ctx s))) as [v f] eqn:Hc. simpl.
    destruct (claim_before _ _). simpl. apply rtc_once. by econstructor.
  - destruct (ph !! _); [done|]. destruct (finality_iteration _ _ _ s) as [[[fl'|] s']|] eqn:Hf; try done. injection Ha as <-.
    apply (returns_Done _ _ _ (finality_iteration_returns _ _ _ _ _ _ Hs) Hf).
Qed.

Lemma block_act_private a x x' trs rs :
  inv x trs rs → undisturbed evm_of ben anchor size x → threads_ok ben size x → block_act evm_of a x = Some x' →
  private (x_sched x) (x_sched x').
Proof.
  intros Hinv Hun [Hsh Hrun Hph] Ha. destruct (bi_address _ _ _ _ _ _ _ _ _ _ _ Hinv) as [Hb _].
  destruct (bi_pipe _ _ _ _ _ _ _ _ _ _ _ Hinv) as [Hsys _ _].
  destruct x as [[[s ph fl] c out i ret] run log]. unfold x_sched in *. cbn [x_pipe p_sys sch] in *.
  destruct a as [a|v|t|t|elapsed|]; cbn [block_act] in Ha.
  - destruct (starts a); [done|]. apply fmap_Some in Ha as (σ' & Ha & ->).
    by apply (act_private a (mkSys s ph fl)).
  - destruct (ph !! txid v), (run !! txid v); try done. destruct (execute_begin v s) as [[[] s1]|] eqn:Hbeg; try done. injection Ha as <-.
    apply outcome_bind_Done in Hbeg as (y & _ & Hbeg). repeat case_match; try done. injection Hbeg as <-. by apply private_refl.
  - unfold do_access in Ha. destruct (run !! t) as [[v p tr]|]; [|done].
    destruct p; try done; repeat case_match; injection Ha as <-; by apply private_refl.
  - repeat case_match; try done. injection Ha as <-. by apply private_refl.
  - case_decide as Hi; [|done]. destruct ret; [done|].
    assert (Hc := next_commit_returns evm_of ben anchor size code_of w0 bh Hbase rep_db Hevm Hanchor _ _ _ elapsed Hinv Hun Hsh eq_refl Hi).
    unfold x_sched in Hc. cbn [x_pipe p_sys sch p_committer p_output p_idx] in Hc.
    destruct (commit_iteration elapsed i (s, c, out)) as [[step [[s' c'] out']]|]; [|done]. injection Ha as <-. apply Hc.
  - case_decide; [|done]. destruct ret; [done|]. injection Ha as <-. by apply private_refl.
Qed.

Lemma block_run_threads acts x x' trs rs :
  inv x trs rs → threads_ok ben size x → block_run evm_of acts x = Some x' → rtc (thread_step evm_of ben anchor size) x x'.
Proof.
  intros Hinv Hok. assert (Hun := once_undisturbed _ _ _ _ _ _ _ _ _ _ _ Honce Hinv).
  unfold block_run. revert x'. induction acts as [|a acts IH] using rev_ind; intros x'; simpl; [by intros [= <-]|].
  rewrite foldl_app. simpl. intros (x1 & Hr%IH & Ha)%bind_Some. eapply rtc_r; [exact Hr|].
  destruct (threads_run evm_of ben anchor size code_of w0 bh Hbase rep_db Hevm Hanchor Hbh Hdefers _ _ _ _ Hr Hinv Hun Hok)
    as (Hun1 & Hok1 & trs1 & rs1 & Hinv1).
  assert (Hs := block_act_sound _ _ _ _ Ha).
  destruct (block_inv_step evm_of code_of w0 bh ben anchor size Hbase rep_db Hevm Hanchor Hbh _ _ _ _ Hs Hun1 Hinv1)
    as (trs2 & rs2 & Hinv2).
  split; [split; [exact Hs|by eapply once_undisturbed]|by eapply block_act_private].
Qed.

End threads.

Section examples.
#[local] Existing Instance revm_example.
#[local] Existing Instance revm_example_laws.
#[local] Existing Instance revmdb_example.
#[local] Existing Instance revmdb_example_laws.
#[local] Existing Instance cv_db.
#[local] Existing Instance cv_view.
Abbreviation code := (λ h : Z, [h]).
Abbreviation hashes := (λ _ : Z, 0%Z).
Abbreviation rep := (state_rep code cv_w0 cv_rep).
Abbreviation serial := (serial_run code (load_world cv_w0) hashes).

(** ** revm in the sequential configuration *)

(** The nonce is checked before the transfer. *)
Definition ee_replay (i : TxId) : Body unit :=
  match sr_txs !! i with
  | Some tx =>
    BodyBasic (caller tx) (λ v,
      if bool_decide (tx_nonce tx = nonce_of v) then sr_body i else BodyDone (Err (Transaction (3%Z : InvalidTransaction))))
  | None => BodyDone (Err (Custom "no such transaction"))
  end.

Abbreviation ee_transact := (transact_one (DB:=unit) (E:=unit) 77 (example_reward 77) ee_replay).
Abbreviation ee_refuses := (Settlement.refuses (E:=unit) 77 (example_reward 77) code cv_w0 hashes ee_replay).
Abbreviation plain := (plain_run (E:=unit) code (load_world cv_w0) hashes).

Lemma plain_basic_inv w a k asked r :
  plain w (EvmBasic a k) asked r →
  ∃ v asked', asked = a :: asked' ∧ (acct_eqv v (w_account w a) ∧ code_ok code v) ∧ plain w (k v) asked' r.
Proof. inversion 1; subst. by eexists _, _. Qed.

Lemma plain_done_inv w r0 asked r : plain w (EvmDone r0) asked r → asked = [] ∧ r = r0.
Proof. by inversion 1. Qed.

Lemma sr_body_cases i : ∃ to amount, sr_body i = transfer_body 1 to amount ∧ sr_evm i = transfer 1 to amount ∧
  to ≠ 77%Z ∧ to ≠ 1%Z ∧ (0 ≤ amount)%Z.
Proof. unfold sr_evm, sr_body. case_decide; [exists 3%Z, 10%Z|exists 4%Z, 20%Z]; by split_and!. Qed.

(** A transfer over a database that may leave code out. *)
Lemma plain_transfer_inv w to amount f asked r :
  plain w (body_then (transfer_body 1 to amount) f) asked r →
  (∃ i vt asked', asked = 1%Z :: to :: asked' ∧
     (acct_eqv (Some i) (w_account w 1) ∧ code_ok code (Some i)) ∧ (acct_eqv vt (w_account w to) ∧ code_ok code vt) ∧
     is_empty_code_hash i = true ∧ (amount ≤ balance i)%Z ∧ (0 ≤ balance (default info_default vt))%Z ∧
     plain w (f (transfer_end 1 to amount i (default info_default vt))) asked' r) ∨
  r = Err (Database tt).
Proof.
  intros (vf & asked1 & -> & Hf & Hrun)%plain_basic_inv.
  destruct vf as [i|]; [|right; by apply plain_done_inv in Hrun as [_ ->]].
  destruct (_ && _) eqn:Hguard in Hrun; [|right; by apply plain_done_inv in Hrun as [_ ->]].
  apply andb_true_iff in Hguard as [Hef Hbal%Z.leb_le].
  apply plain_basic_inv in Hrun as (vt & asked2 & -> & Ht & Hrun). cbv zeta in Hrun.
  destruct (0 <=? _)%Z eqn:Hpos in Hrun; [|right; by apply plain_done_inv in Hrun as [_ ->]]. apply Z.leb_le in Hpos.
  left. by exists i, vt, asked2.
Qed.

(** The account with its code, as the database of a worker returns it. *)
Definition loaded (i : AccountInfo) : AccountInfo :=
  mkInfo (balance i) (nonce i) (code_hash i) (if is_empty_code_hash i then Model.code i else Some [code_hash i]).

Lemma loaded_answer w a v : acct_eqv v (w_account w a) → account_answer code w a (loaded <$> v).
Proof.
  intros Hv. split.
  - destruct v as [i|]; [|done]. inversion Hv as [? j Hij|]; subst. by constructor.
  - intros i (j & -> & ->)%fmap_Some. unfold loaded at 1. simpl. intros He. by rewrite He.
Qed.

Lemma default_loaded v : info_eqv (default info_default (loaded <$> v)) (default info_default v).
Proof. by destruct v. Qed.

(** The effect of a transfer depends on the balances, nonces and code hashes it has read. *)
Lemma transfer_result_eqv from to amount w w' f f' r r' :
  world_eqv w w' → info_eqv f f' → info_eqv r r' →
  world_eqv (commit_result 77 w (transfer_result from to amount f r)) (commit_result 77 w' (transfer_result from to amount f' r')).
Proof.
  intros Hw (Hb & Hn & Hh) (Hbt & Hnt & Hht). apply commit_result_eqv; [|done|done]. intros a. simpl.
  destruct (decide (a = from)) as [->|]; [rewrite !lookup_insert_eq|rewrite !(lookup_insert_ne _ from) by done].
  { constructor. unfold account_eqv, info_eqv. simpl. split_and!; congruence. }
  destruct (decide (a = to)) as [->|]; [rewrite !lookup_insert_eq|rewrite !lookup_insert_ne, !lookup_empty by done; constructor].
  constructor. unfold account_eqv, info_eqv. simpl. split_and!; congruence.
Qed.

Lemma transfer_serial from to amount w f vt :
  from ≠ 77%Z → to ≠ 77%Z → account_answer code w from (Some f) → account_answer code w to vt →
  is_empty_code_hash f = true → (amount ≤ balance f)%Z → (0 ≤ balance (default info_default vt))%Z →
  serial w (transfer from to amount) [from; to] (transfer_result from to amount f (default info_default vt)).
Proof.
  intros Hf7 Ht7 Hf Ht He Hb Hp. apply Z.leb_le in Hb, Hp. unfold transfer, transfer_body. cbn [body_then].
  eapply sq_basic; [exact Hf|]. cbv beta iota. rewrite He, Hb. cbn [body_then andb]. eapply sq_basic; [exact Ht|]. cbv zeta.
  rewrite Hp. cbn [body_then]. rewrite transfer_settled by done. constructor.
Qed.

Lemma loaded_serial from to amount w f vt :
  from ≠ 77%Z → to ≠ 77%Z → acct_eqv (Some f) (w_account w from) → acct_eqv vt (w_account w to) →
  is_empty_code_hash f = true → (amount ≤ balance f)%Z → (0 ≤ balance (default info_default vt))%Z →
  serial w (transfer from to amount) [from; to]
    (transfer_result from to amount (loaded f) (default info_default (loaded <$> vt))).
Proof.
  intros Hf7 Ht7 Hf Ht He Hb Hp. apply transfer_serial; try done.
  - by apply (loaded_answer w from (Some f)).
  - by apply loaded_answer.
  - by destruct (default_loaded vt) as (-> & _).
Qed.

Lemma ee_revm : sequential_revm 77 (example_reward 77) code cv_w0 hashes sr_evm ee_replay false sr_txs.
Proof.
  intros i tx w asked sr Htx. unfold ee_replay. rewrite Htx. intros (v & asked1 & -> & [Hv _] & Hrun)%plain_basic_inv.
  assert (Hn : nonce_of v = nonce_of (w_account w (caller tx))) by (by destruct Hv as [x y (_ & Hxy & _)|]).
  case_bool_decide as Hnonce; [|by apply plain_done_inv in Hrun as [_ ?]]. split; [by intros _; rewrite <-Hn|].
  destruct (sr_body_cases i) as (to & amount & Hbody & Hevm & Hto & Hto1 & Ha). rewrite Hbody in Hrun. rewrite Hevm.
  apply plain_transfer_inv in Hrun as [(f & vt & asked2 & -> & [Hf Hcf] & [Ht Hct] & He & Hb & Hp & Hrun)|?]; [|done].
  rewrite transfer_settled in Hrun by done. apply plain_done_inv in Hrun as [-> [= ->]]. split.
  - apply transfer_result_ok; try done; [right; left|right; right; left].
  - eexists _, _. split; [by apply loaded_serial|]. split; [done|].
    apply transfer_result_eqv; [done|by destruct f|apply default_loaded].
Qed.

(** ** Determinism *)

Lemma answer_eqv w w' a v v' : world_eqv w w' → account_answer code w a v → account_answer code w' a v' → acct_eqv v v'.
Proof. intros [Ha _] [Hv _] [Hv' _]. etrans; [exact Hv|]. etrans; [apply Ha|by symmetry]. Qed.

Lemma refuses_nonce i w e : ee_refuses i w e →
  e = (3%Z : InvalidTransaction) ∧ ∃ tx, sr_txs !! i = Some tx ∧ tx_nonce tx ≠ nonce_of (w_account w (caller tx)).
Proof.
  intros [asked Hrun]. unfold ee_replay in Hrun. destruct (sr_txs !! i) as [tx|] eqn:Htx.
  2: by apply plain_done_inv in Hrun as [_ ?].
  apply plain_basic_inv in Hrun as (v & asked1 & -> & [Hv _] & Hrun).
  assert (Hn : nonce_of v = nonce_of (w_account w (caller tx))) by (by destruct Hv as [x y (_ & Hxy & _)|]).
  case_bool_decide as Hnonce.
  - destruct (sr_body_cases i) as (to & amount & Hbody & _). rewrite Hbody in Hrun.
    apply plain_transfer_inv in Hrun as [(f & vt & asked2 & _ & _ & _ & _ & _ & _ & Hrun)|?]; [|done].
    by destruct (ends_with_run _ _ _ _ _ _ _ _ (rl_journal _ _ (example_reward_laws 77) _) Hrun).
  - apply plain_done_inv in Hrun as [_ [= ->]]. split; [done|]. exists tx. split; [done|congruence].
Qed.

Lemma ee_deterministic : revm_deterministic sr_evm code cv_w0 hashes 77 false sr_txs ee_refuses.
Proof.
  split.
  - intros i w w' asked asked' sr sr' Hw. destruct (sr_body_cases i) as (to & amount & _ & -> & Hto & _).
    intros (f & vt & _ & Hf & Ht & _ & _ & _ & ->)%transfer_inv (f' & vt' & _ & Hf' & Ht' & _ & _ & _ & ->)%transfer_inv; try done.
    split; [done|]. apply transfer_result_eqv; [done| |].
    + assert (Hff := answer_eqv _ _ _ _ _ Hw Hf Hf'). by inversion Hff.
    + by destruct (answer_eqv _ _ _ _ _ Hw Ht Ht').
  - by intros i w w' e e' _ [-> _]%refuses_nonce [-> _]%refuses_nonce.
  - intros i tx w w' e asked sr Htx Hw (_ & tx' & Htx' & Hne)%refuses_nonce Hv. rewrite Htx in Htx'. injection Htx' as <-.
    destruct Hne. rewrite (world_nonce_eqv _ _ _ Hw). by apply Hv.
Qed.

(** ** The threads *)

(** The schedule of SerialRun.v; where it does not apply, the block is left to the fallback. *)
Definition ee_phase (b : Address) (s : Scheduler.Sched unit) (st : ParallelState unit) :
    outcome (CommitLoopResult (E:=unit) * Scheduler.Sched unit * ParallelState unit) :=
  match block_run sr_evm sr_acts (mkBlock (mkPipe (mkSys s ∅ 0) (mkCommitter b st false) (mkOutput []) 0 None) ∅ ∅) with
  | Some x =>
    match p_return (x_pipe x) with
    | Some e => Done (mkCommitLoopResult (p_output (x_pipe x)) e, x_sched x, x_state x)
    | None => ct_phase b s st
    end
  | None => ct_phase b s st
  end.

Lemma ee_hashes (db : unit) n h db' : cv_rep db cv_w0 → block_hash_ref db n = (Ok h, db') → h = hashes n.
Proof. done. Qed.

Lemma sr_defers t : defers_apart 77 (sr_evm t).
Proof. apply body_defers_apart, example_reward_laws. Qed.

Abbreviation ee_start := (phase_start (DB:=unit) (E:=unit) 77 false sr_txs).
Abbreviation ee_step anchor := (thread_step (DB:=unit) sr_evm 77 anchor (length sr_txs)).

Lemma ee_run m anchor st0 st acts x :
  rep st0 (load_world cv_w0) → hashes_ok hashes st0 → db_basic st0 77 = (Ok anchor, st) →
  block_run sr_evm acts (ee_start m anchor st) = Some x → rtc (ee_step anchor) (ee_start m anchor st) x.
Proof.
  intros Hst Hha Hdb Hx.
  destruct (phase_start_inv sr_evm code cv_w0 hashes 77 false sr_txs cv_base cv_rep m anchor st0 st Hst Hha px_funded Hdb) as [Han Hinv].
  eapply (block_run_threads sr_evm code cv_w0 hashes 77 anchor (length sr_txs) cv_base cv_rep (λ t, sr_evm_ok t hashes) Han
    ee_hashes sr_defers sr_evm_once); [exact Hinv|apply phase_start_threads|exact Hx].
Qed.

Lemma ee_phase_runs : phase_runs sr_evm code cv_w0 hashes 77 false sr_txs cv_rep ee_phase.
Proof.
  intros m anchor st0 st Hst Hha Hdb.
  assert (Hfall : ∃ x, rtc (ee_step anchor) (ee_start m anchor st) x ∧ p_return (x_pipe x) = Some None ∧
    ct_phase 77 (set_metrics m (Sched_new sr_txs 77 anchor)) st =
      Done (mkCommitLoopResult (p_output (x_pipe x)) None, x_sched x, x_state x)).
  { eexists (mkBlock (mkPipe (mkSys (abort FallbackSequential (set_metrics m (Sched_new sr_txs 77 anchor))) ∅ 0)
      (mkCommitter 77 st false) (mkOutput []) 0 (Some None)) ∅ ∅).
    split_and!; [|done|done].
    apply rtc_l with (mkBlock (mkPipe (mkSys (abort FallbackSequential (set_metrics m (Sched_new sr_txs 77 anchor))) ∅ 0)
      (mkCommitter 77 st false) (mkOutput []) 0 None) ∅ ∅); [|apply rtc_once]; (split; [split|by apply private_refl]).
    - apply bs_worker; [apply ss_other, same_core_abort|by intros t v y ps todo Ht; exists todo].
    - by intros t rec Ht%Nat.nlt_0_r.
    - apply bs_stop. by left.
    - by intros t rec Ht%Nat.nlt_0_r. }
  destruct Hfall as (xf & Hrf & Hpf & Hf).
  unfold ee_phase. destruct (block_run _ _ _) as [x|] eqn:Hx; [destruct (p_return (x_pipe x)) as [e|] eqn:He|].
  - exists x, x. split_and!; [by eapply ee_run|done|]. left. by exists e.
  - exists xf, xf. split_and!; [done|done|]. left. by exists None.
  - exists xf, xf. split_and!; [done|done|]. left. by exists None.
Qed.

(** ** Witnesses *)

Definition ee_runner : Runner (DB:=unit) (E:=unit) :=
  mkRunner (Sched_new sr_txs 77 None) cv_state [] false false false 0 4.

Lemma ee_block_hashes : hashes_ok hashes cv_state.
Proof. intros n h. vm_compute. done. Qed.

Lemma ee_ready : ready code cv_w0 hashes false sr_txs cv_rep ee_runner.
Proof. split; [by exists 77%Z, None, Collector_default|done|done|apply cv_state_rep|apply ee_block_hashes]. Qed.

Lemma ee_parallel : match parallel_execute ee_transact ee_phase 77 None 1 ee_runner with
  | Done (Ok _, r) => length (rn_results r) | _ => 0 end = 2.
Proof. vm_compute. reflexivity. Qed.

Lemma ee_sequential : match fallback_sequential ee_transact 1 ee_runner with
  | Done (Ok _, r) => length (rn_results r) | _ => 0 end = 2.
Proof. vm_compute. reflexivity. Qed.

Lemma execution_is_serial_witness :
  ∃ r w, parallel_execute ee_transact ee_phase 77 None 1 ee_runner = Done (Ok tt, r) ∧ length (rn_results r) = 2 ∧
    serial_block sr_evm code cv_w0 hashes 77 false sr_txs ee_refuses 0 (load_world cv_w0) (rn_results r) w ∧ rep (rn_state r) w.
Proof.
  destruct (execution_is_serial code cv_w0 hashes 77 false sr_txs sr_body ee_replay (example_reward 77) (example_reward_laws 77) cv_base cv_rep ee_hashes
    ee_phase None 1 ee_runner (λ t, sr_evm_ok t hashes) ee_revm ee_phase_runs px_funded ee_ready)
    as (res & r & Hr & (w & Hs & Hst) & Hl); [simpl; lia|].
  pose proof ee_parallel as Hp. rewrite Hr in Hp. destruct res as [[]|]; [|discriminate Hp]. exists r, w. split_and!; [exact Hr|exact Hp|exact Hs|exact Hst].
Defined.

Lemma parallel_equals_sequential_witness :
  ∃ r r2, parallel_execute ee_transact ee_phase 77 None 1 ee_runner = Done (Ok tt, r) ∧
    fallback_sequential ee_transact 1 ee_runner = Done (Ok tt, r2) ∧
    length (rn_results r) = 2 ∧ rn_results r = rn_results r2.
Proof.
  pose proof ee_parallel as Hp. pose proof ee_sequential as Hs.
  destruct (parallel_execute ee_transact ee_phase 77 None 1 ee_runner) as [[[[]|] r]|] eqn:Hr; try discriminate Hp.
  destruct (fallback_sequential ee_transact 1 ee_runner) as [[[[]|] r2]|] eqn:Hr2; try discriminate Hs.
  exists r, r2. split; [reflexivity|]. split; [reflexivity|]. split; [exact Hp|].
  destruct (parallel_equals_sequential code cv_w0 hashes 77 false sr_txs sr_body ee_replay (example_reward 77) (example_reward_laws 77) cv_base cv_rep ee_hashes
    ee_phase None 1 1 ee_runner ee_runner (Ok tt) r (Ok tt) r2
    (λ t, sr_evm_ok t hashes) ee_revm ee_phase_runs ee_deterministic px_funded ee_ready ee_ready) as [_ Heq];
    [simpl; lia|exact Hr|exact Hr2|].
  by destruct (Heq eq_refl eq_refl).
Defined.

(** In the schedule of SerialRun.v: a worker claims transaction 1 at [x0], and [x] is the end of
    the run, with both transactions committed. *)
Lemma ee_stages : ∃ x0 x, rtc (ee_step None) (ee_start Collector_default None sr_start) x0 ∧ rtc (ee_step None) x0 x ∧
  claimed_at x0 1 ∧ length (outcomes (p_output (x_pipe x))) = 2.
Proof.
  set (start := ee_start Collector_default None sr_start).
  assert (Hc : from_option (λ x, match execution_task 1 (x_sched x) with Done (Some (Execution v), _) => Some (txid v) | _ => None end)
    None (block_run sr_evm [BWorker (AExecutionTask 0)] start) = Some 1) by (vm_compute; reflexivity).
  destruct (block_run sr_evm [BWorker (AExecutionTask 0)] start) as [x0|] eqn:Hx0; [|discriminate Hc]. simpl in Hc.
  assert (Hl : from_option (λ x, length (outcomes (p_output (x_pipe x)))) 0 (block_run sr_evm (drop 1 sr_acts) x0) = 2).
  { transitivity (from_option (λ x0, from_option (λ x, length (outcomes (p_output (x_pipe x)))) 0 (block_run sr_evm (drop 1 sr_acts) x0))
      0 (block_run sr_evm [BWorker (AExecutionTask 0)] start)); [by rewrite Hx0|vm_compute; reflexivity]. }
  destruct (block_run sr_evm (drop 1 sr_acts) x0) as [x|] eqn:Hx; [|discriminate Hl]. simpl in Hl.
  destruct (phase_start_inv sr_evm code cv_w0 hashes 77 false sr_txs cv_base cv_rep Collector_default None cv_state sr_start
    cv_state_rep ee_block_hashes px_funded sr_anchor) as [Han Hinv].
  assert (Hr0 := ee_run Collector_default None cv_state sr_start _ _ cv_state_rep ee_block_hashes sr_anchor Hx0).
  destruct (threads_run sr_evm 77 None (length sr_txs) code cv_w0 hashes cv_base cv_rep (λ t, sr_evm_ok t hashes) Han ee_hashes
    sr_defers _ _ _ _ Hr0 Hinv (once_undisturbed _ _ _ _ _ _ _ _ _ _ _ sr_evm_once Hinv) (phase_start_threads _ _ _ _ _ _))
    as (Hun0 & Hok0 & trs0 & rs0 & Hinv0).
  exists x0, x. split_and!; [exact Hr0| | |exact Hl].
  - eapply (block_run_threads sr_evm code cv_w0 hashes 77 None (length sr_txs) cv_base cv_rep (λ t, sr_evm_ok t hashes) Han
      ee_hashes sr_defers sr_evm_once); [exact Hinv0|exact Hok0|exact Hx].
  - destruct (execution_task 1 (x_sched x0)) as [[[[v|v]|] s']|] eqn:Ht; try discriminate Hc. injection Hc as <-.
    by eapply cl_execution.
Qed.


End examples.
