(* ===== verification/Reread.v ===== *)
(** A recorded read that is overwritten (src/src/incarnation_db.rs, [IncarnationDb::storage]).

    Every slot read of an account records the version of the account's storage reset, in place
    of the version recorded by the previous slot read. When a reset of a predecessor appears and
    disappears between two slot reads, the first slot value rests on a version that validation
    never sees. The schedule below commits such a value. The condition [undisturbed] of Serial.v
    excludes exactly these executions. *)

From S2P Require Import Prelude Model Reward History World IncarnationDb Access Snapshot Replay ParallelState CacheView TxDependency Context Metrics Scheduler OrderedCommit Interleave Finality Published Control Pipeline Serial SerialRun.

Section reread.
#[local] Existing Instance revm_example.
#[local] Existing Instance revm_example_laws.
#[local] Existing Instance revmdb_example.
#[local] Existing Instance revmdb_example_laws.
#[local] Existing Instance cv_db.
#[local] Existing Instance cv_view.

(** Transaction 0 increments the nonce of account 1. *)
Definition rr_bump (i : AccountInfo) : SpeculativeResult :=
  settled (1%Z : ExecutionResult) {[1%Z := mkAccount true false false (mkInfo (balance i) (nonce i + 1) (code_hash i) (code i)) ∅]}.
Definition rr_evm0 : Evm unit :=
  EvmBasic 1 (λ v,
    match v with
    | Some i => if (0 <=? balance i)%Z then EvmDone (Ok (rr_bump i)) else EvmDone (Err (Database tt))
    | None => EvmDone (Err (Database tt))
    end).

(** Transaction 1 destroys account 2, unless account 1 was used. *)
Definition rr_destroy (i : AccountInfo) : SpeculativeResult :=
  settled (2%Z : ExecutionResult) {[2%Z := mkAccount true true false (mkInfo 0 (nonce i) (code_hash i) (code i)) ∅]}.
Definition rr_evm1 : Evm unit :=
  EvmBasic 1 (λ v,
    if bool_decide (nonce (default info_default v) = 0%Z) then
      EvmBasic 2 (λ v, EvmDone (Ok (rr_destroy (default info_default v))))
    else EvmDone (Ok (settled (3%Z : ExecutionResult) ∅))).

(** Transaction 2 returns the value of a slot of account 2, after reading another one. *)
Definition rr_evm2 : Evm unit :=
  EvmBasic 2 (λ _, EvmStorage 2 3 (λ x, EvmStorage 2 4 (λ _, EvmDone (Ok (settled (x : ExecutionResult) ∅))))).

Definition rr_evm (t : TxId) : Evm unit := match t with 0 => rr_evm0 | 1 => rr_evm1 | _ => rr_evm2 end.

Definition rr_txs : list TxEnv :=
  [mkTxEnv 1 0 0 (Call 2) 21000 1; mkTxEnv 10 0 0 (Call 2) 21000 1; mkTxEnv 11 0 0 (Call 2) 21000 1].
Definition rr_block : Block (DB:=unit) (E:=unit) := Block_new rr_txs 77 None sr_start false.

Definition rr_acts : list BlockAction :=
  (BWorker <$> [AExecutionTask 0; AExecutionTask 1; AExecutionTask 2]) ++
  [BBegin (mkTxVersion 0 1); BBegin (mkTxVersion 1 1); BBegin (mkTxVersion 2 1)] ++
  (* transaction 1 reads the old nonce and destroys account 2 *)
  reads 1 4 ++ [BFinish 1] ++
  (* transaction 2 reads account 2, then a slot under the published reset *)
  reads 2 2 ++ publish 1 2 ++ reads 2 2 ++
  (* transaction 1 is executed again, without the reset *)
  reads 0 2 ++ [BFinish 0] ++ publish 0 1 ++ validates 0 1 1 ++ validates 1 1 2 ++
  [BWorker (AExecutionTask 1); BBegin (mkTxVersion 1 2)] ++ reads 1 1 ++ [BFinish 1] ++ publish 1 0 ++
  (* transaction 2 reads the other slot *)
  reads 2 3 ++ [BFinish 2] ++ publish 2 0 ++ validates 1 2 1 ++ validates 2 1 4 ++
  (BWorker <$> [AClaim 3; AClaim 3; AClaim 3; AFinality; AFinality; AFinality]) ++ [BCommit 1; BCommit 1; BCommit 1; BStop].

Lemma rr_evm_ok t bh w asked sr :
  serial_run (λ h, [h]) (load_world cv_w0) bh w (rr_evm t) asked sr → evm_ok (λ h, [h]) 77 w asked sr.
Proof.
  destruct t as [|[|t]]; simpl.
  - intros (v & asked1 & -> & Hv & Hrun)%serial_basic_inv. destruct v as [i|]; [|by apply serial_done_inv in Hrun as [_ ?]].
    destruct (0 <=? _)%Z eqn:Hb in Hrun; apply serial_done_inv in Hrun as [-> Heq]; [|done]. injection Heq as <-.
    apply Z.leb_le in Hb. apply plain_ok; [|done]. simpl. intros a acc [<- <-]%lookup_singleton_Some. simpl.
    split_and!; [left|done|done|]. by exists (Some i).
  - intros (v & asked1 & -> & Hv & Hrun)%serial_basic_inv. destruct (bool_decide _) in Hrun.
    + apply serial_basic_inv in Hrun as (u & asked2 & -> & Hu & [-> [= <-]]%serial_done_inv).
      apply plain_ok; [|done]. simpl. intros a acc [<- <-]%lookup_singleton_Some. simpl.
      split_and!; [right; left|done|done|]. by exists u.
    + apply serial_done_inv in Hrun as [-> [= <-]]. by apply plain_ok; [|done]; intros a acc Ha; simpl in Ha; rewrite lookup_empty in Ha.
  - intros (v & asked1 & -> & Hv & Hrun)%serial_basic_inv.
    inversion Hrun; subst. match goal with H : serial_run _ _ _ _ (EvmStorage _ _ _) _ _ |- _ => inversion H; subst end.
    match goal with H : serial_run _ _ _ _ (EvmDone _) _ _ |- _ => apply serial_done_inv in H as [-> [= <-]] end.
    by apply plain_ok; [|done]; intros a acc Ha; simpl in Ha; rewrite lookup_empty in Ha.
Qed.

(** The serial results: the nonce of account 1 is 1 when transaction 1 runs, account 2 stays. *)
Lemma rr_serial bh rs sr :
  (∀ t sr, rs !! t = Some sr → ∃ asked,
     serial_run (λ h, [h]) (load_world cv_w0) bh (world_at 77 (load_world cv_w0) rs t) (rr_evm t) asked sr) →
  rs !! 2 = Some sr → sr_result sr = 9%Z.
Proof.
  intros Hser H2. set (w1 := load_world cv_w0) in *. assert (Hl := lookup_lt_Some _ _ _ H2).
  destruct (lookup_lt_is_Some_2 rs 0) as [sr0 H0]; [lia|]. destruct (lookup_lt_is_Some_2 rs 1) as [sr1 H1]; [lia|].
  destruct (Hser _ _ H0) as (asked0 & (v & ? & _ & [Hv _] & Hrun)%serial_basic_inv).
  destruct (Hser _ _ H1) as (asked1 & (u & ? & _ & [Hu _] & Hrun1)%serial_basic_inv).
  (* transaction 0 *)
  change (world_at 77 w1 rs 0) with w1 in Hv. assert (Hw1 : w_account w1 1 = Some (mkInfo 100 0 0 None)) by reflexivity.
  rewrite Hw1 in Hv. inversion Hv as [i ? (Hb & Hn & Hc)|]; subst v. destruct i as [b n h c].
  simpl in Hb, Hn, Hc. subst b n h. set (i := mkInfo 100 0 0 c) in *.
  apply serial_done_inv in Hrun as [_ [= <-]].
  assert (Hs1 : world_at 77 w1 rs 1 = commit_result 77 w1 (rr_bump i)) by exact (world_at_S 77 w1 rs 0 _ H0).
  assert (Hacc : w_account (world_at 77 w1 rs 1) 1 = Some (mkInfo (balance i) (nonce i + 1) (code_hash i) (code i))).
  { rewrite Hs1. reflexivity. }
  (* transaction 1 *)
  rewrite Hacc in Hu. inversion Hu as [i1 ? (_ & Hn1 & _)|]; subst u. simpl in Hn1, Hrun1. rewrite Hn1 in Hrun1.
  apply serial_done_inv in Hrun1 as [_ [= <-]].
  assert (Hst : w_storage (world_at 77 w1 rs 2) 2 3 = 9%Z).
  { rewrite (world_at_S 77 w1 rs 1 _ H1), Hs1, !commit_result_storage. simpl. rewrite lookup_empty, lookup_singleton_ne by lia. done. }
  (* transaction 2 *)
  destruct (Hser _ _ H2) as (asked2 & (v & ? & _ & _ & Hrun)%serial_basic_inv).
  inversion Hrun; subst. match goal with H : serial_run _ _ _ _ (EvmStorage _ _ _) _ _ |- _ => inversion H; subst end.
  match goal with H : serial_run _ _ _ _ (EvmDone _) _ _ |- _ => apply serial_done_inv in H as [_ [= <-]] end.
  exact Hst.
Qed.

(** All three are committed, and the last one returned 0. *)
Definition rr_end (x : Block (DB:=unit) (E:=unit)) : bool :=
  match p_return (x_pipe x), abort_flag (x_sched x), outcomes (p_output (x_pipe x)) with
  | Some None, false, [ExecutedOutcome _; ExecutedOutcome _; ExecutedOutcome v] => bool_decide ((v : Z) = 0%Z)
  | _, _, _ => false
  end.

Lemma rr_run : ∃ x, rtc (block_step rr_evm) rr_block x ∧ rr_end x = true.
Proof.
  assert (Hend : from_option rr_end false (block_run rr_evm rr_acts rr_block) = true) by (vm_compute; reflexivity).
  destruct (block_run rr_evm rr_acts rr_block) as [x|] eqn:Hr; [|discriminate Hend].
  exists x. split; [by eapply block_run_sound|exact Hend].
Qed.

(** C39. A block whose transactions keep every promise of revm, and a schedule that commits all of it
    without error: the outcomes are not those of any serial execution. Transaction 1 destroys
    account 2 in its first incarnation only; transaction 2 reads one slot of account 2 under
    that reset and one after it is gone, keeps only the second reset version, and passes
    validation with the stale value. *)
Theorem overwritten_reset_read bh :
  (∀ t w asked sr, serial_run (λ h, [h]) (load_world cv_w0) bh w (rr_evm t) asked sr → evm_ok (λ h, [h]) 77 w asked sr) ∧
  ∃ x, rtc (block_step rr_evm) rr_block x ∧ p_return (x_pipe x) = Some None ∧ abort_flag (x_sched x) = false ∧
    ¬ ∃ rs, outcomes (p_output (x_pipe x)) = (λ sr, ExecutedOutcome (sr_result sr)) <$> rs ∧
      ∀ t sr, rs !! t = Some sr → ∃ asked,
        serial_run (λ h, [h]) (load_world cv_w0) bh (world_at 77 (load_world cv_w0) rs t) (rr_evm t) asked sr.
Proof.
  split; [intros t w asked sr; apply rr_evm_ok|].
  destruct rr_run as (x & Hr & Hend). unfold rr_end in Hend.
  destruct (p_return (x_pipe x)) as [[e|]|] eqn:Hret; try done. destruct (abort_flag (x_sched x)) eqn:Ha; [done|].
  exists x. split_and!; [exact Hr|done|done|].
  intros (rs & Hrs & Hser). rewrite Hrs in Hend. destruct rs as [|sr0 [|sr1 [|sr2 rs]]]; try done. simpl in Hend.
  destruct rs; [|done]. by rewrite (rr_serial bh _ sr2 Hser eq_refl) in Hend.
Qed.

End reread.
