(* ===== verification/Executor.v ===== *)
(** Configuration and the per-incarnation executor: src/src/config.rs,
    src/src/delegated_safety/config.rs and src/src/scheduler/executor.rs, with the handler
    output of src/src/delegated_safety/handler.rs.

    revm's run of a transaction is the parameter [run_evm]: it reads through the incarnation
    database and returns the handler output and the journal. The theorems say what an executed
    incarnation publishes, and what the environment can change in the configuration. *)

From S2P Require Import Prelude Model Reward History World IncarnationDb Scheduler Reserve.
From stdpp Require Import pretty.
From Stdlib Require Import Ascii.

(** ** Configuration *)

Record DelegatedSafetyConfig := mkSafety {
  forbid_delegated_create : bool;
  reserve_delegated_balance : bool
}.

Definition disabled : DelegatedSafetyConfig := mkSafety false false.
Definition create_only : DelegatedSafetyConfig := mkSafety true false.
Definition reserve_only : DelegatedSafetyConfig := mkSafety false true.
Definition enabled : DelegatedSafetyConfig := mkSafety true true.

(** [is_prague spec] is revm's [spec.is_enabled_in(SpecId::PRAGUE)]. *)
Definition for_spec (is_prague : bool) (c : DelegatedSafetyConfig) : DelegatedSafetyConfig :=
  if is_prague then c else disabled.

Record GrevmConfig := mkConfig {
  cfg_concurrency_level : nat;
  cfg_force_sequential : bool;
  cfg_min_parallel_txs : nat;
  cfg_delegated_safety : DelegatedSafetyConfig
}.

(** [available_parallelism] may fail. *)
Definition GrevmConfig_default (available_parallelism : option nat) : GrevmConfig :=
  mkConfig (default 8 available_parallelism) false 64 disabled.

(** [usize::from_str]: an optional plus sign and decimal digits, within 64 bits. *)
Definition digit_value (c : ascii) : option Z :=
  let n := Z.of_N (N_of_ascii c) in
  if decide (48 ≤ n ≤ 57)%Z then Some (n - 48)%Z else None.

Fixpoint parse_digits (acc : Z) (s : string) : option Z :=
  match s with
  | EmptyString => Some acc
  | String c s =>
    match digit_value c with
    | Some d => let acc := (acc * 10 + d)%Z in if decide (acc ≤ U64_MAX)%Z then parse_digits acc s else None
    | None => None
    end
  end.

Definition parse_usize (s : string) : option nat :=
  let digits := match s with String c r => if decide (c = "+"%char) then r else s | EmptyString => s end in
  match digits with
  | EmptyString => None
  | _ => Z.to_nat <$> parse_digits 0 digits
  end.

(** [bool::from_str]. *)
Definition parse_bool (s : string) : option bool :=
  if String.eqb s "true" then Some true else if String.eqb s "false" then Some false else None.

Definition env_or {T} (env : string → option string) (parse : string → option T) (name : string) (d : T) : T :=
  match env name with
  | Some value => match parse value with Some t => t | None => d end
  | None => d
  end.

Definition from_env (env : string → option string) (available_parallelism : option nat) : GrevmConfig :=
  let defaults := GrevmConfig_default available_parallelism in
  mkConfig (env_or env parse_usize "GREVM_CONCURRENT_LEVEL" (cfg_concurrency_level defaults))
    (env_or env parse_bool "GREVM_FALLBACK_SEQUENTIAL" (cfg_force_sequential defaults))
    (env_or env parse_usize "GREVM_MIN_PARALLEL_TXS" (cfg_min_parallel_txs defaults))
    (cfg_delegated_safety defaults).

Definition with_delegated_safety (d : DelegatedSafetyConfig) (c : GrevmConfig) : GrevmConfig :=
  mkConfig (cfg_concurrency_level c) (cfg_force_sequential c) (cfg_min_parallel_txs c) d.

(** What [Scheduler::new_with_runtime_config] does with the configuration: the zero check, the
    normalization for the block's spec, and the planner. *)
Definition new_with_runtime_config `{!Revm} (is_prague : bool) (txs : list TxEnv) (c : GrevmConfig) :
    outcome (GrevmConfig * option ReservePlanner) :=
  let! _ := assert_that (bool_decide (0 < cfg_concurrency_level c)) in
  let c := with_delegated_safety (for_spec is_prague (cfg_delegated_safety c)) c in
  Done (c, if reserve_delegated_balance (cfg_delegated_safety c) then Some (ReservePlanner_new txs) else None).

(** Reading back a printed number. *)
Lemma digit_value_pretty n : (n < 10)%N → digit_value (pretty_N_char n) = Some (Z.of_N n).
Proof.
  intros Hn.
  assert (n = 0 ∨ n = 1 ∨ n = 2 ∨ n = 3 ∨ n = 4 ∨ n = 5 ∨ n = 6 ∨ n = 7 ∨ n = 8 ∨ n = 9)%N as Hcases by lia.
  by destruct_or! Hcases; subst.
Qed.

Lemma parse_digits_pretty n s :
  (0 < n)%N → (Z.of_N n ≤ U64_MAX)%Z → parse_digits 0 (pretty_N_go n s) = parse_digits (Z.of_N n) s.
Proof.
  revert s. induction (N.lt_wf_0 n) as [n _ IH]; intros s Hpos Hmax.
  rewrite pretty_N_go_step by done.
  assert (Hdm : n = (10 * (n `div` 10) + n `mod` 10)%N) by (by apply N.div_mod).
  assert (Hm : (n `mod` 10 < 10)%N) by (by apply N.mod_lt).
  assert (Hstep : parse_digits (Z.of_N (n `div` 10)) (String (pretty_N_char (n `mod` 10)) s) = parse_digits (Z.of_N n) s).
  { simpl. rewrite digit_value_pretty by lia.
    replace (Z.of_N (n `div` 10) * 10 + Z.of_N (n `mod` 10))%Z with (Z.of_N n) by lia.
    by rewrite decide_True. }
  destruct (decide (0 < n `div` 10)%N) as [Hd|Hd].
  - assert (Hq : (n `div` 10 < n)%N) by (apply N.div_lt; lia).
    rewrite IH; [apply Hstep|done|done|]. etrans; [|exact Hmax]. apply N2Z.inj_le, N.lt_le_incl, Hq.
  - rewrite <-Hstep. assert (n `div` 10 = 0)%N as -> by lia. by rewrite pretty_N_go_0.
Qed.

Lemma parse_usize_pretty n : (Z.of_nat n ≤ U64_MAX)%Z → parse_usize (pretty n) = Some n.
Proof.
  intros Hn. assert (Hp : parse_digits 0 (pretty n) = Some (Z.of_nat n)).
  { unfold pretty, pretty_nat, pretty, pretty_N. case_decide as Hz; [by destruct n|].
    rewrite parse_digits_pretty by lia. simpl. f_equal. lia. }
  unfold parse_usize. destruct (pretty n) as [|c s] eqn:Hs.
  { injection Hp as Hp. by replace n with 0 in Hs by lia. }
  case_decide as Hc; [by subst|]. rewrite Hp. simpl. f_equal. lia.
Qed.

(** C31. A level written in decimal in the environment is the level that is used, for every
    64-bit number; without a readable override the defaults hold; and the environment never
    changes the delegated-account policy, which stays off. *)
Theorem env_override_exact env parallelism n :
  (Z.of_nat n ≤ U64_MAX)%Z →
  let c := from_env env parallelism in
  (env "GREVM_CONCURRENT_LEVEL" = Some (pretty n) → cfg_concurrency_level c = n) ∧
  (env "GREVM_MIN_PARALLEL_TXS" = Some (pretty n) → cfg_min_parallel_txs c = n) ∧
  ((∀ v, env "GREVM_CONCURRENT_LEVEL" = Some v → parse_usize v = None) →
     cfg_concurrency_level c = default 8 parallelism) ∧
  cfg_delegated_safety c = disabled.
Proof.
  intros Hn. cbv zeta. unfold from_env, env_or. simpl. split_and!.
  - intros ->. by rewrite parse_usize_pretty.
  - intros ->. by rewrite parse_usize_pretty.
  - intros Hv. destruct (env _) as [v|]; [|done]. by rewrite (Hv v).
  - done.
Qed.

Lemma env_override_exact_witness :
  cfg_concurrency_level (from_env (λ x, if String.eqb x "GREVM_CONCURRENT_LEVEL" then Some "32" else None) None) = 32.
Proof.
  apply (env_override_exact (λ x, if String.eqb x "GREVM_CONCURRENT_LEVEL" then Some "32" else None) None 32);
    [unfold U64_MAX; lia|reflexivity].
Defined.

Section executor.
Context `{!Revm} {DB E : Type} `{!DatabaseRef DB E}.

(** ** Handler output *)

Record GrevmHandlerOutput := mkHandlerOutput {
  gho_result : ExecutionResult;
  gho_deferred_reward : option DeferredBeneficiaryReward
}.

Definition into_speculative (state : EvmState) (o : GrevmHandlerOutput) : SpeculativeResult :=
  match gho_deferred_reward o with
  | Some reward => deferred (gho_result o) state reward
  | None => settled (gho_result o) state
  end.

Definition into_immediate_result (o : GrevmHandlerOutput) : outcome ExecutionResult :=
  let! _ := assert_that (negb (bool_decide (is_Some (gho_deferred_reward o)))) in Done (gho_result o).

Inductive ReserveMode := NoReserve | WithReserve (txid : TxId) (planner : ReservePlanner).

Definition from_planner (txid : TxId) (planner : option ReservePlanner) : ReserveMode :=
  match planner with Some p => WithReserve txid p | None => NoReserve end.

(** ** One incarnation *)

(** revm's run over the incarnation database: handler output, journal, and the databases with
    what the run read. The planner caches schedules, so it is returned as well. *)
Context (run_evm : ReserveMode → BeneficiaryMode → TxEnv → BeneficiaryAccount → MVMemory →
  IncarnationDb → DB →
  outcome (result (EVMError E) GrevmHandlerOutput * EvmState * IncarnationDb * DB * option ReservePlanner)).

(** The executor's own state: its database adapter, the backing database and the planner. *)
Record ExecutorState := mkExecutor {
  ex_db : IncarnationDb;
  ex_backing : DB;
  ex_planner : option ReservePlanner
}.

Definition execute_incarnation (v : TxVersion) (tx : TxEnv) (ben : BeneficiaryAccount) (mv : MVMemory)
    (x : ExecutorState) : outcome (IncarnationExecution E * MVMemory * ExecutorState) :=
  let s := begin_incarnation v (ex_db x) in
  let reserve_mode := from_planner (txid v) (ex_planner x) in
  let! (output, state, s, db, planner) := run_evm reserve_mode Deferred tx ben mv s (ex_backing x) in
  match result_map (into_speculative state) output with
  | Ok sr =>
    let '(accesses, s, mv) := finish_incarnation ben (sr_state sr) s mv in
    Done (mkIncarnationExecution (Ok sr) accesses, mv, mkExecutor s db planner)
  | Err e =>
    let '(accesses, s) := discard_incarnation s in
    Done (mkIncarnationExecution (Err e) accesses, mv, mkExecutor s db planner)
  end.

Lemma into_speculative_state state o : sr_state (into_speculative state o) = state.
Proof. unfold into_speculative. by destruct (gho_deferred_reward o). Qed.

(** The database methods a run uses do not change the version. *)
Context (run_version : ∀ m b tx ben mv s db o st s' db' p,
  run_evm m b tx ben mv s db = Done (o, st, s', db', p) → version s' = version s).

(** C26. An executed incarnation publishes exactly the write set of its run, under its own
    version. After a success of the run, memory holds at each location that the journal writes
    (relative to the accounts the run had read) an entry of this incarnation, an estimate
    exactly when the run met one, and everything else is as before; the returned sets are the
    reads of the run and the written locations. After an error nothing is published and nothing
    is returned as read or written. In both cases the blockers are those the run met, and the
    adapter is empty for the next incarnation. *)
Theorem incarnation_publishes_exactly v tx ben mv x exec mv' x' :
  execute_incarnation v tx ben mv x = Done (exec, mv', x') →
  let a := ie_accesses exec in
  ∃ output state s db planner,
    run_evm (from_planner (txid v) (ex_planner x)) Deferred tx ben mv (begin_incarnation v (ex_db x)) (ex_backing x) =
      Done (output, state, s, db, planner) ∧
    ie_result exec = result_map (into_speculative state) output ∧
    ia_blocking_txs a = blocking_txs s ∧ ia_blocked_by_beneficiary a = blocked_by_beneficiary s ∧
    x' = mkExecutor (mkIncarnationDb ∅ ∅ v ∅ false) db planner ∧
    match output with
    | Ok _ =>
      ia_read_set a = read_set s ∧
      (∀ l, l ∈ ia_write_set a ↔ is_Some (written_value ben (account_snapshots s) state l)) ∧
      ∀ l j, mv_entry mv' l j =
        match written_value ben (account_snapshots s) state l with
        | Some d => if decide (j = txid v)
          then Some (mkMemoryEntry (tv_incarnation v) d (negb (bool_decide (blocking_txs s = ∅)))) else mv_entry mv l j
        | None => mv_entry mv l j
        end
    | Err _ => mv' = mv ∧ ia_write_set a = ∅ ∧ ia_read_set a = ∅
    end.
Proof.
  intros Hex. unfold execute_incarnation in Hex.
  apply outcome_bind_Done in Hex as ([[[[o st] s] db] p] & Hrun & Hex).
  assert (Hv : version s = v) by (by apply run_version in Hrun).
  exists o, st, s, db, p. split; [done|].
  destruct o as [o|e]; simpl in Hex; [|injection Hex as <- <- <-; simpl; by rewrite Hv].
  rewrite into_speculative_state in Hex. unfold finish_incarnation in Hex.
  destruct (publish_writes ben s st _ mv) as [ws mv1] eqn:Hp. injection Hex as <- <- <-. simpl.
  split_and!; [done|done|done|by rewrite Hv|done|..];
    apply publish_writes_spec in Hp as [Hws Hmv]; [done|]. by rewrite Hv in Hmv.
Qed.

End executor.

(** ** Witness *)

Section examples.
#[local] Existing Instance revm_example.
#[local] Instance ee_db : DatabaseRef unit unit :=
  world_db (λ h, [h]) (mkWorld (λ _, None) (λ _ _, 0%Z)).

(** A run that touches account 5 and reads nothing. *)
Definition ee_run (m : ReserveMode) (b : BeneficiaryMode) (tx : TxEnv) (ben : BeneficiaryAccount) (mv : MVMemory)
    (s : IncarnationDb) (db : unit) :
    outcome (result (EVMError unit) GrevmHandlerOutput * EvmState * IncarnationDb * unit * option ReservePlanner) :=
  Done (Ok (mkHandlerOutput (3%Z : ExecutionResult) None),
        <[5%Z := mkAccount true false false (mkInfo 8 1 0 None) ∅]> ∅, s, db, None).

Definition ee_call : outcome (IncarnationExecution unit * MVMemory * ExecutorState) :=
  execute_incarnation ee_run (mkTxVersion 4 2) (mkTxEnv 1 0 10 (Call 2) 21000 1)
    (Beneficiary_new 77 None 9) ∅ (mkExecutor IncarnationDb_new tt None).

Lemma incarnation_publishes_exactly_witness :
  ∃ exec mv' x', ee_call = Done (exec, mv', x') ∧ is_ok (ie_result exec) = true ∧
    ex_db x' = mkIncarnationDb ∅ ∅ (mkTxVersion 4 2) ∅ false ∧
    mv_entry mv' (LBasic 5) 4 = Some (mkMemoryEntry 2 (MVBasic (Some (mkInfo 8 1 0 None))) false).
Proof.
  assert (Hc : match ee_call with
    | Done (exec, mv', _) => is_ok (ie_result exec) && bool_decide (mv_entry mv' (LBasic 5) 4 =
        Some (mkMemoryEntry 2 (MVBasic (Some (mkInfo 8 1 0 None))) false))
    | Panic => false end = true) by (vm_compute; reflexivity).
  destruct ee_call as [[[exec mv'] x']|] eqn:He; [|done].
  apply andb_true_iff in Hc as [Hok Hmv%bool_decide_eq_true]. exists exec, mv', x'. split_and!; [done|done| |done].
  destruct (incarnation_publishes_exactly ee_run) with (2 := He) as (? & ? & ? & ? & ? & _ & _ & _ & _ & -> & _); [|done].
  by intros m b tx ben mv s db o st s' db' p [= _ _ <- _ _].
Defined.

End examples.
