(* ===== verification/Handler.v ===== *)
(** The reserve-aware transaction handler and the guarded CREATE instruction:
    src/src/delegated_safety/handler.rs and src/src/delegated_safety/instructions.rs.

    revm's handler stages and journal are the operations of the class [RevmHandler]. The hooks
    [pre_execution] and [post_execution] are written over them, with the cells of the handler
    as explicit state. The theorem says that a transaction that breaks the reserve leaves
    nothing of its execution behind but the gas it spent: it gives the frame, the gas and the
    state that are left, stage by stage. *)

From S2P Require Import Prelude Model Reward Reserve.

(** ** revm's interface *)

(** The instruction results the crate names, and one constructor for the others. *)
Inductive InstructionResult :=
| StateChangeDuringStaticCall | NotActivated | FatalExternalError | Revert
| OtherInstructionResult (code : Z).

(** The stages of revm's [Handler] trait and the journal operations the hooks call. The mutable
    arguments of the source are threaded; [Cfg] is the part of the context that never changes. *)
Class RevmHandler `{!Revm} (Evm HErr : Type) := {
  RevmGas : Type;
  InitialAndFloorGas : Type;
  ResultGas : Type;
  Checkpoint : Type;
  journal_i : Checkpoint → nat;
  evm_tx : Evm → TxEnv;
  evm_state : Evm → EvmState;
  evm_journal : Evm → list JournalEntry;
  reward_context : Evm → RewardContext;
  evm_beneficiary : Evm → Address;
  reward_gas : RevmGas → Gas;
  set_refund : Z → RevmGas → RevmGas;
  is_halt : InstructionResult → bool;
  checkpoint : Evm → Checkpoint * Evm;
  checkpoint_revert : Checkpoint → Evm → Evm;
  checkpoint_commit : Evm → Evm;
  validate_against_state_and_deduct_caller : InitialAndFloorGas → Evm → result HErr (InitialAndFloorGas * Evm);
  load_accounts : Evm → result HErr Evm;
  apply_eip7702_auth_list : InitialAndFloorGas → Evm → result HErr (Z * InitialAndFloorGas * Evm);
  refund : Z → RevmGas → RevmGas;
  build_result_gas : bool → RevmGas → InitialAndFloorGas → ResultGas;
  eip7623_check_gas_floor : InitialAndFloorGas → RevmGas → RevmGas;
  reimburse_caller : RevmGas → Evm → result HErr Evm;
  load_and_bump_nonce : Address → Evm → result HErr (bool * Evm);
  reward_beneficiary : RevmGas → Evm → result HErr Evm;
  nonce_overflow_error : HErr
}.

Section handler.
Context `{!Revm} {Evm HErr : Type} `{!RevmHandler Evm HErr}.

(** revm's [FrameResult]: the instruction result, the output and the gas. *)
Record FrameResult := mkFrame {
  fr_instruction : InstructionResult;
  fr_output : list Z;
  fr_gas : RevmGas
}.

Definition set_fr_gas (g : RevmGas) (f : FrameResult) : FrameResult := mkFrame (fr_instruction f) (fr_output f) g.

(** The cells of [WithReserveHandler]; the planner fills itself lazily. *)
Record WithReserveHandler := mkReserveHandler {
  wr_txid : TxId;
  wr_planner : ReservePlanner;
  wr_mode : BeneficiaryMode;
  wr_deferred_reward : option DeferredBeneficiaryReward;
  execution_checkpoint : option Checkpoint
}.

Definition WithReserveHandler_new (txid : TxId) (planner : ReservePlanner) (mode : BeneficiaryMode) :=
  mkReserveHandler txid planner mode None None.

(** ** Hooks *)

Definition pre_execution (g : InitialAndFloorGas) (h : WithReserveHandler) (evm : Evm) :
    result HErr (Z * InitialAndFloorGas * WithReserveHandler * Evm) :=
  let? (g, evm) := validate_against_state_and_deduct_caller g evm in
  let? evm := load_accounts evm in
  let? (eip7702_refund, g, evm) := apply_eip7702_auth_list g evm in
  let '(ck, evm) := checkpoint evm in
  Ok (eip7702_refund, g,
      mkReserveHandler (wr_txid h) (wr_planner h) (wr_mode h) (wr_deferred_reward h) (Some ck), evm).

Definition reserve_violation_result (gas : RevmGas) : FrameResult := mkFrame Revert [] (set_refund 0 gas).

Definition reapply_create_sender_nonce (evm : Evm) : result HErr Evm :=
  let? (bumped, evm) := load_and_bump_nonce (caller (evm_tx evm)) evm in
  if bumped : bool then Ok evm else Err nonce_overflow_error.

Definition is_create (k : TxKind) : bool := match k with Create => true | Call _ => false end.

(** The replacement of a violating execution, from the reverted state. *)
Definition charge_violation (g : InitialAndFloorGas) (eip7702_refund : Z) (execution_gas : RevmGas)
    (create : bool) (evm : Evm) : result HErr (ResultGas * FrameResult * Evm) :=
  let exec_result := reserve_violation_result execution_gas in
  let? evm := if create then reapply_create_sender_nonce evm else Ok evm in
  let exec_result := set_fr_gas (refund eip7702_refund (fr_gas exec_result)) exec_result in
  let result_gas := build_result_gas (is_halt (fr_instruction exec_result)) (fr_gas exec_result) g in
  let exec_result := set_fr_gas (eip7623_check_gas_floor g (fr_gas exec_result)) exec_result in
  let? evm := reimburse_caller (fr_gas exec_result) evm in
  Ok (result_gas, exec_result, evm).

Definition enforce_reserve (g : InitialAndFloorGas) (eip7702_refund : Z) (execution_gas : RevmGas)
    (exec_result : FrameResult) (h : WithReserveHandler) (evm : Evm) :
    outcome (result HErr (option ResultGas * FrameResult * WithReserveHandler * Evm)) :=
  match execution_checkpoint h with
  | None => Panic
  | Some ck =>
    let! (violated, planner) :=
      has_reserve_violation (wr_txid h) (evm_tx evm) (evm_state evm) (evm_journal evm) (journal_i ck) (wr_planner h) in
    let h := mkReserveHandler (wr_txid h) planner (wr_mode h) (wr_deferred_reward h) None in
    if violated : bool then
      let create := is_create (tx_kind (evm_tx evm)) in
      Done (let? (result_gas, exec_result, evm) :=
              charge_violation g eip7702_refund execution_gas create (checkpoint_revert ck evm) in
            Ok (Some result_gas, exec_result, h, evm))
    else Done (Ok (None, exec_result, h, checkpoint_commit evm))
  end.

Definition contains_beneficiary (evm : Evm) : bool :=
  bool_decide (is_Some (evm_state evm !! evm_beneficiary evm)).

(** [beneficiary_mode.apply] on the handler's reward cell. *)
Definition apply_policy (f : FrameResult) (h : WithReserveHandler) (evm : Evm) :
    outcome (result HErr (WithReserveHandler * Evm)) :=
  let! r := apply contains_beneficiary (reward_beneficiary (fr_gas f)) (wr_mode h) (reward_context evm)
              (reward_gas (fr_gas f)) evm (wr_deferred_reward h) in
  Done (let? (evm, reward) := r in
        Ok (mkReserveHandler (wr_txid h) (wr_planner h) (wr_mode h) reward (execution_checkpoint h), evm)).

Definition post_execution (g : InitialAndFloorGas) (eip7702_refund : Z) (exec_result : FrameResult)
    (h : WithReserveHandler) (evm : Evm) :
    outcome (result HErr (ResultGas * FrameResult * WithReserveHandler * Evm)) :=
  let execution_gas := fr_gas exec_result in
  let exec_result := set_fr_gas (refund eip7702_refund (fr_gas exec_result)) exec_result in
  let result_gas := build_result_gas (is_halt (fr_instruction exec_result)) (fr_gas exec_result) g in
  let exec_result := set_fr_gas (eip7623_check_gas_floor g (fr_gas exec_result)) exec_result in
  match reimburse_caller (fr_gas exec_result) evm with
  | Err e => Done (Err e)
  | Ok evm =>
    let! r := enforce_reserve g eip7702_refund execution_gas exec_result h evm in
    match r with
    | Err e => Done (Err e)
    | Ok (reserve_result_gas, exec_result, h, evm) =>
      let result_gas := default result_gas reserve_result_gas in
      let! r := apply_policy exec_result h evm in
      Done (let? (h, evm) := r in Ok (result_gas, exec_result, h, evm))
    end
  end.

(** ** The guarded CREATE *)

(** [load] is [Host::load_account_delegated]: no value on a fatal error, else whether the
    account is delegated (and how cold its delegate was); [create] is revm's instruction. *)
Definition guarded_create {Host} (is_create2 is_static petersburg : bool) (target : Address)
    (load : Address → Host → option (option bool) * Host) (create : Host → result InstructionResult Host)
    (host : Host) : result InstructionResult Host :=
  if is_static then Err StateChangeDuringStaticCall
  else if is_create2 && negb petersburg then Err NotActivated
  else
    match load target host with
    | (None, _) => Err FatalExternalError
    | (Some (Some _), _) => Err NotActivated
    | (Some None, host) => create host
    end.

(** ** A violation leaves only the charge *)

(** What a revert restores of the journaled state: every account that was loaded before has its
    value, its flags and its slots back; accounts and slots that were loaded since may stay in
    the maps, without a change. Of an account only the cached code may have been filled in. revm
    keeps the touch of the third precompile over a revert. *)
Definition PRECOMPILE3 : Address := 3%Z.

Definition restored_account (a : Address) (x y : Account) : Prop :=
  balance (acc_info y) = balance (acc_info x) ∧ nonce (acc_info y) = nonce (acc_info x) ∧
  code_hash (acc_info y) = code_hash (acc_info x) ∧
  (a ≠ PRECOMPILE3 → is_touched y = is_touched x) ∧
  is_selfdestructed y = is_selfdestructed x ∧ is_created y = is_created x ∧
  ∀ k, match acc_storage x !! k with
       | Some slot => acc_storage y !! k = Some slot
       | None => ∀ slot, acc_storage y !! k = Some slot → is_changed slot = false
       end.

Definition restored_state (b e : EvmState) : Prop :=
  ∀ a, match b !! a with
       | Some x => ∃ y, e !! a = Some y ∧ restored_account a x y
       | None => ∀ y, e !! a = Some y → (a ≠ PRECOMPILE3 → is_touched y = false) ∧
                   ∀ k slot, acc_storage y !! k = Some slot → is_changed slot = false
       end.

Record restored (b e : Evm) : Prop := {
  restored_tx : evm_tx e = evm_tx b;
  restored_beneficiary : evm_beneficiary e = evm_beneficiary b;
  restored_journal : evm_journal e = evm_journal b;
  restored_accounts : restored_state (evm_state b) (evm_state e)
}.

(** A stage that changes one account: the others are as before, and the nonce of the account,
    when it is loaded, grows by [bump]. *)
Definition changes_account (bump : Z) (a : Address) (e e' : Evm) : Prop :=
  evm_tx e' = evm_tx e ∧ evm_beneficiary e' = evm_beneficiary e ∧
  (∀ a', a' ≠ a → evm_state e' !! a' = evm_state e !! a') ∧
  ∀ x, evm_state e !! a = Some x →
    ∃ y, evm_state e' !! a = Some y ∧ nonce (acc_info y) = (nonce (acc_info x) + bump)%Z.

(** revm's journal: what is done after a checkpoint is undone by reverting to it. [since ck b e]
    says that [e] was reached from [b], the state in which [ck] was taken. The bump of a nonce,
    the reimbursement of the caller and the reward change one account each. *)
Class JournalLaws (since : Checkpoint → Evm → Evm → Prop) := {
  since_checkpoint evm ck evm' : checkpoint evm = (ck, evm') → since ck evm evm';
  since_reimburse ck b e g e' : since ck b e → reimburse_caller g e = Ok e' → since ck b e';
  since_revert ck b e : since ck b e → restored b (checkpoint_revert ck e);
  since_tx ck b e : since ck b e → evm_tx e = evm_tx b;
  bump_changes a e e' : load_and_bump_nonce a e = Ok (true, e') → changes_account 1 a e e';
  reimburse_changes g e e' : reimburse_caller g e = Ok e' → changes_account 0 (caller (evm_tx e)) e e';
  reward_changes g e e' : reward_beneficiary g e = Ok e' → changes_account 0 (evm_beneficiary e) e e'
}.
Context (since : Checkpoint → Evm → Evm → Prop) `{!JournalLaws since}.

(** [pre_execution] takes the checkpoint at the boundary. *)
Lemma pre_execution_boundary g h evm r g' h' evm' :
  pre_execution g h evm = Ok (r, g', h', evm') →
  ∃ ck boundary, execution_checkpoint h' = Some ck ∧ since ck boundary evm'.
Proof.
  unfold pre_execution. destruct (validate_against_state_and_deduct_caller g evm) as [[g1 e1]|]; [|done]. simpl.
  destruct (load_accounts e1) as [e2|]; [|done]. simpl.
  destruct (apply_eip7702_auth_list g1 e2) as [[[r2 g2] e3]|]; [|done]. simpl.
  destruct (checkpoint e3) as [ck e4] eqn:Hck. intros [= <- <- <- <-].
  exists ck, e3. split; [done|]. by apply since_checkpoint.
Qed.

(** The policy leaves the state or runs revm's settlement on it. *)
Lemma apply_cases {J E} (contains : J → bool) (rb : J → result E J) mode ctx gas e d e' d' :
  apply contains rb mode ctx gas e d = Done (Ok (e', d')) → e' = e ∨ rb e = Ok e'.
Proof.
  unfold apply. intros Ha.
  assert (Hrb : ∀ d, Done (let? evm' := rb e in Ok (evm', d)) = Done (Ok (e', d')) → rb e = Ok e')
    by (intros ? ?; destruct (rb e); naive_solver).
  destruct mode; [|right; by eapply Hrb]. destruct (from_gas ctx gas) as [r|]; [|left; naive_solver].
  destruct (_ || _); [right; by eapply Hrb|left]. destruct (defer r); naive_solver.
Qed.

(** What a violating transaction comes to from the restored state [base], stage by stage. [gas]
    is the gas of the execution before any refund: its own refund is dropped and only the
    authorization refund [auth] is given, under the refund cap and the gas floor. *)
Section settlement.
Context (g : InitialAndFloorGas) (auth : Z) (gas : RevmGas) (create : bool) (h : WithReserveHandler) (base : Evm).

Definition charged_gas : RevmGas := refund auth (set_refund 0 gas).
Definition charged_frame : FrameResult := mkFrame Revert [] (eip7623_check_gas_floor g charged_gas).

(** The nonce of a creating sender is bumped again; a call had bumped it before the checkpoint. *)
Inductive nonce_restored : result HErr Evm → Prop :=
| nr_call : create = false → nonce_restored (Ok base)
| nr_create e : create = true → load_and_bump_nonce (caller (evm_tx base)) base = Ok (true, e) → nonce_restored (Ok e)
| nr_overflow e : create = true → load_and_bump_nonce (caller (evm_tx base)) base = Ok (false, e) →
    nonce_restored (Err nonce_overflow_error)
| nr_error x : create = true → load_and_bump_nonce (caller (evm_tx base)) base = Err x → nonce_restored (Err x).

Inductive violation_settles : outcome (result HErr (ResultGas * FrameResult * WithReserveHandler * Evm)) → Prop :=
| vs_nonce_error x : nonce_restored (Err x) → violation_settles (Done (Err x))
| vs_reimburse_error e x : nonce_restored (Ok e) → reimburse_caller (fr_gas charged_frame) e = Err x →
    violation_settles (Done (Err x))
| vs_settled e paid r :
    nonce_restored (Ok e) → reimburse_caller (fr_gas charged_frame) e = Ok paid →
    apply contains_beneficiary (reward_beneficiary (fr_gas charged_frame)) (wr_mode h) (reward_context paid)
      (reward_gas (fr_gas charged_frame)) paid (wr_deferred_reward h) = r →
    violation_settles
      (match r with
       | Panic => Panic
       | Done (Err x) => Done (Err x)
       | Done (Ok (e', reward)) =>
         Done (Ok (build_result_gas (is_halt Revert) charged_gas g, charged_frame,
                   mkReserveHandler (wr_txid h) (wr_planner h) (wr_mode h) reward None, e'))
       end).

Lemma reapply_restores : nonce_restored (if create then reapply_create_sender_nonce base else Ok base).
Proof.
  destruct create eqn:Hc; [|by apply nr_call]. unfold reapply_create_sender_nonce.
  destruct (load_and_bump_nonce _ _) as [[[] e]|x] eqn:Hb; simpl; by econstructor.
Qed.

(** Every account but the caller's and the beneficiary's is the one of [base], and the nonce of
    the caller is the one of [base], bumped by [bump]. *)
Definition only_charged (bump : Z) (e : Evm) : Prop :=
  evm_tx e = evm_tx base ∧ evm_beneficiary e = evm_beneficiary base ∧
  (∀ a, a ≠ caller (evm_tx base) → a ≠ evm_beneficiary base → evm_state e !! a = evm_state base !! a) ∧
  ∀ x, evm_state base !! caller (evm_tx base) = Some x →
    ∃ y, evm_state e !! caller (evm_tx base) = Some y ∧ nonce (acc_info y) = (nonce (acc_info x) + bump)%Z.

Lemma only_charged_refl : only_charged 0 base.
Proof. split_and!; [done..|]. intros x Hx. exists x. split; [done|lia]. Qed.

Lemma only_charged_step n m a e e' :
  only_charged n e → changes_account m a e e' →
  a = caller (evm_tx base) ∨ (a = evm_beneficiary base ∧ m = 0%Z) →
  only_charged (n + m) e'.
Proof.
  intros (Htx & Hb & Ho & Hn) (Htx' & Hb' & Ho' & Hn') Ha. split_and!; [congruence|congruence| |].
  - intros a' Hc Hbn. rewrite Ho'; [by apply Ho|]. destruct Ha as [->|[-> _]]; done.
  - intros x Hx. destruct (Hn x Hx) as (y & Hy & Hyn). destruct (decide (caller (evm_tx base) = a)) as [<-|Hne].
    + destruct (Hn' y Hy) as (z & Hz & Hzn). exists z. split; [done|lia].
    + destruct Ha as [->|[-> ->]]; [done|]. exists y. rewrite Ho' by done. split; [done|lia].
Qed.

Lemma nonce_restored_only e : nonce_restored (Ok e) → only_charged (if create then 1 else 0) e.
Proof.
  inversion 1 as [Hc|e1 Hc Hb| |]; subst; rewrite Hc; [apply only_charged_refl|].
  apply (only_charged_step 0 1 (caller (evm_tx base)) base); [apply only_charged_refl| |by left].
  by apply bump_changes.
Qed.

Lemma settles_only rg f h' e' :
  violation_settles (Done (Ok (rg, f, h', e'))) → only_charged (if create then 1 else 0) e'.
Proof.
  inversion 1 as [| |e paid r He Hp Ha Hr]; subst. revert Hr.
  destruct (apply _ _ _ _ _ _ _) as [[[e1 rw]|]|] eqn:Ha; [|done|done]. intros [= <- <- <- <-].
  apply nonce_restored_only in He.
  assert (Hpaid : only_charged (if create then 1 else 0) paid).
  { rewrite <-(Z.add_0_r (if create then 1 else 0)). eapply only_charged_step; [exact He| |by left].
    destruct He as (Htx & _). rewrite <-Htx. by eapply reimburse_changes. }
  destruct (apply_cases _ _ _ _ _ _ _ _ _ Ha) as [->|Hrw]; [done|].
  rewrite <-(Z.add_0_r (if create then 1 else 0)). eapply only_charged_step; [exact Hpaid| |by right].
  destruct Hpaid as (_ & Hb & _). rewrite <-Hb. by eapply reward_changes.
Qed.

(** The code's charge, then its policy, settle the transaction. *)
Lemma charge_settles :
  execution_checkpoint h = None →
  violation_settles
    (match charge_violation g auth gas create base with
     | Err e => Done (Err e)
     | Ok (result_gas, f, evm) =>
       let! r := apply_policy f h evm in
       Done (let? (h, evm) := r in Ok (result_gas, f, h, evm))
     end).
Proof.
  intros Hh. pose proof reapply_restores as Hn. unfold charge_violation.
  destruct (if create then _ else _) as [e|x] eqn:He; simpl; [|by apply vs_nonce_error].
  destruct (reimburse_caller _ e) as [paid|x] eqn:Hp; simpl; [|by eapply vs_reimburse_error].
  pose proof (vs_settled e paid _ Hn Hp eq_refl) as Hv. unfold apply_policy. simpl. rewrite Hh.
  by destruct (apply _ _ _ _ _ _ _) as [[[e1 rw]|]|].
Qed.
End settlement.

(** C23. A violating transaction is charged and nothing else. Let [boundary] be the state after
    the up-front stages, where [pre_execution] takes its checkpoint, and let the execution end
    anywhere. If the reserve is violated, then the transaction settles from a state [base] that
    is restored to the boundary as [violation_settles] says: the nonce of a creating sender is
    bumped (an overflow is the error), the frame is an empty revert whose gas is that of the
    execution without its own refund, with the authorization refund and the gas floor applied,
    the reported gas is computed from that gas as not halted, the caller is reimbursed from it
    and the beneficiary policy runs on it. So in the final state every account but the caller's
    and the beneficiary's is the restored one and the caller's nonce has grown by one exactly for
    a creation: no effect of the execution is left. *)
Theorem violation_is_charged_only ck boundary h g eip7702_refund exec_result evm reimbursed planner :
  execution_checkpoint h = Some ck → since ck boundary evm →
  reimburse_caller (eip7623_check_gas_floor g (refund eip7702_refund (fr_gas exec_result))) evm = Ok reimbursed →
  has_reserve_violation (wr_txid h) (evm_tx reimbursed) (evm_state reimbursed) (evm_journal reimbursed)
    (journal_i ck) (wr_planner h) = Done (true, planner) →
  let create := match tx_kind (evm_tx boundary) with Create => true | Call _ => false end in
  let h' := mkReserveHandler (wr_txid h) planner (wr_mode h) (wr_deferred_reward h) None in
  let final := post_execution g eip7702_refund exec_result h evm in
  ∃ base, restored boundary base ∧
    violation_settles g eip7702_refund (fr_gas exec_result) create h' base final ∧
    ∀ rg f h'' e, final = Done (Ok (rg, f, h'', e)) → only_charged base (if create then 1 else 0) e.
Proof.
  intros Hck Hs Hre Hv create h' final.
  assert (Hs' : since ck boundary reimbursed) by (by eapply since_reimburse).
  exists (checkpoint_revert ck reimbursed). split; [by apply since_revert|].
  assert (Hset : violation_settles g eip7702_refund (fr_gas exec_result) create h' (checkpoint_revert ck reimbursed) final).
  { subst final. unfold post_execution, enforce_reserve. simpl. rewrite Hre, Hck, Hv. simpl.
    rewrite (since_tx _ _ _ Hs'). fold create h'.
    change (is_create (tx_kind (evm_tx boundary))) with create.
    pose proof (charge_settles g eip7702_refund (fr_gas exec_result) create h' (checkpoint_revert ck reimbursed) eq_refl) as Hset.
    by destruct (charge_violation _ _ _ _ _) as [[[rg f] e]|]. }
  split; [done|]. intros rg f h'' e Hf. rewrite Hf in Hset. by eapply settles_only.
Qed.

End handler.

(** ** Witness *)

Section examples.
#[local] Existing Instance revm_example.

(** A journal that keeps the whole state at a checkpoint. Gas is what was spent and its refund,
    of a limit of 1000; what is left of it is paid back to the caller. *)
Record HxEvm := mkHx { hx_tx : TxEnv; hx_state : EvmState; hx_journal : list JournalEntry }.

Definition hx_update (f : AccountInfo → AccountInfo) (a : Address) (e : HxEvm) : HxEvm :=
  mkHx (hx_tx e)
    (alter (λ x, mkAccount (is_touched x) (is_selfdestructed x) (is_created x) (f (acc_info x)) (acc_storage x)) a (hx_state e))
    (hx_journal e).

#[local] Instance hx_handler : RevmHandler HxEvm unit := {|
  RevmGas := Z * Z; InitialAndFloorGas := unit; ResultGas := Z; Checkpoint := HxEvm * nat;
  journal_i := snd;
  evm_tx := hx_tx; evm_state := hx_state; evm_journal := hx_journal;
  reward_context e := mkRewardContext true 0 true (hx_tx e);
  evm_beneficiary _ := 77%Z;
  reward_gas g := mkGas g.1 0;
  set_refund r g := (g.1, r);
  is_halt i := match i with Revert => false | OtherInstructionResult _ => false | _ => true end;
  checkpoint e := (e, length (hx_journal e), e);
  checkpoint_revert ck _ := ck.1;
  checkpoint_commit e := e;
  validate_against_state_and_deduct_caller g e := Ok (g, e);
  load_accounts e := Ok e;
  apply_eip7702_auth_list g e := Ok (0%Z, g, e);
  refund r g := (g.1, (g.2 + r)%Z);
  build_result_gas halt g _ := if halt : bool then g.1 else (g.1 - g.2)%Z;
  eip7623_check_gas_floor _ g := g;
  reimburse_caller g e :=
    Ok (hx_update (λ i, mkInfo (balance i + (1000 - g.1 + g.2)) (nonce i) (code_hash i) (code i)) (caller (hx_tx e)) e);
  load_and_bump_nonce a e :=
    Ok (true, hx_update (λ i, mkInfo (balance i) (nonce i + 1) (code_hash i) (code i)) a e);
  Handler.reward_beneficiary _ e := Ok e;
  nonce_overflow_error := tt
|}.

Lemma hx_update_changes f n a e :
  (∀ i, nonce (f i) = nonce i + n)%Z → changes_account n a e (hx_update f a e).
Proof.
  intros Hf. split_and!; [done|done| |]; simpl.
  - intros a' Hne. by rewrite lookup_alter_ne.
  - intros x Hx. rewrite lookup_alter_eq, Hx. simpl. eexists. split; [done|]. apply Hf.
Qed.

Definition hx_since (ck : HxEvm * nat) (b e : HxEvm) : Prop := ck.1 = b ∧ hx_tx e = hx_tx b.

#[local] Instance hx_laws : JournalLaws hx_since.
Proof.
  split; unfold hx_since; simpl.
  - by intros evm ck evm' [= <- <-].
  - by intros ck b e g e' [? ?] [= <-].
  - intros ck b e [<- ?]. split; simpl; [done|done|done|]. intros a.
    destruct (hx_state ck.1 !! a) as [x|]; [|done]. exists x. split; [done|].
    unfold restored_account. split_and!; try done. intros k. by destruct (acc_storage x !! k).
  - by intros ck b e [? ?].
  - intros a e e' [= <-]. by apply hx_update_changes.
  - intros g e e' [= <-]. apply hx_update_changes. intros i. simpl. lia.
  - intros g e e' [= <-]. split_and!; [done..|]. intros x Hx. exists x. split; [done|lia].
Qed.

(** Sender 9 creates a contract; the execution spends the reserve of the delegated account 1. *)
Definition hx_sender : Account := mkAccount true false false (mkInfo 500 6 0 None) ∅.
Definition hx_tx1 : TxEnv := mkTxEnv 9 0 4 Create 0 0.
Definition hx_boundary : HxEvm := mkHx hx_tx1 {[9%Z := hx_sender]} [].
Definition hx_executed : HxEvm := mkHx hx_tx1 (<[9%Z := hx_sender]> rx_state) rx_journal.
Definition hx_reimbursed (g : Z * Z) : HxEvm :=
  hx_update (λ i, mkInfo (balance i + (1000 - g.1 + g.2)) (nonce i) (code_hash i) (code i)) 9%Z hx_executed.

Definition hx_h : @WithReserveHandler _ HxEvm unit hx_handler :=
  @mkReserveHandler _ HxEvm unit hx_handler 1 (ReservePlanner_new rx_txs) Deferred None (Some (hx_boundary, 0)).
Definition hx_frame : @FrameResult _ HxEvm unit hx_handler :=
  @mkFrame _ HxEvm unit hx_handler (OtherInstructionResult 0) [7%Z] (100%Z, 30%Z).

(** What is reported of a settled execution: the gas, whether the frame is an empty revert, its
    gas, and whether account 1 is loaded. *)
Definition hx_report (r : outcome (result unit (Z * @FrameResult _ HxEvm unit hx_handler * WithReserveHandler * HxEvm))) :
    option (Z * bool * (Z * Z) * bool) :=
  match r with
  | Done (Ok (rg, f, _, e)) =>
    Some (rg, match fr_instruction f, fr_output f with Revert, [] => true | _, _ => false end, fr_gas f,
          bool_decide (is_Some (hx_state e !! 1%Z)))
  | _ => None
  end.

(** The execution had used 100 gas with a refund of 30; the authorizations give 20 back. The
    state falls back to the boundary, with the sender's nonce bumped, and the result reports 80
    gas, an empty output and no trace of the 30. *)
Lemma violation_is_charged_only_witness :
  ∃ rg f h evm, post_execution tt 20 hx_frame hx_h hx_executed = Done (Ok (rg, f, h, evm)) ∧
    hx_report (Done (Ok (rg, f, h, evm))) = Some (80, true, (100, 20), false)%Z ∧
    ∃ y, hx_state evm !! 9%Z = Some y ∧ nonce (acc_info y) = 7%Z.
Proof.
  destruct (has_reserve_violation 1 hx_tx1 (hx_state (hx_reimbursed (100, 50)%Z)) rx_journal 0 (ReservePlanner_new rx_txs))
    as [[[] p]|] eqn:Hv; [|by vm_compute in Hv|by vm_compute in Hv].
  destruct (@violation_is_charged_only revm_example HxEvm unit hx_handler hx_since hx_laws (hx_boundary, 0) hx_boundary
    hx_h tt 20 hx_frame hx_executed (hx_reimbursed (100, 50)%Z) p) as (base & Hb & _ & Ho); [done|done|done|exact Hv|].
  assert (Hc : hx_report (post_execution tt 20 hx_frame hx_h hx_executed) = Some (80, true, (100, 20), false)%Z)
    by (vm_compute; reflexivity).
  revert Ho Hc. generalize (post_execution (tt : InitialAndFloorGas) 20 hx_frame hx_h hx_executed).
  intros [[[[[rg f] h] evm]|]|] Ho Hc; [|done|done].
  exists rg, f, h, evm. split_and!; [done|exact Hc|].
  destruct (Ho _ _ _ _ eq_refl) as (_ & _ & _ & Hn). destruct Hb as [Ht _ _ Hr]. rewrite Ht in Hn.
  destruct (Hr 9%Z) as (x & Hx & _ & Hnx & _). destruct (Hn x Hx) as (y & Hy & Hyn). exists y.
  split; [exact Hy|]. by rewrite Hyn, Hnx.
Defined.

End examples.
