(* ===== verification/HandlerRun.v ===== *)
(** The transaction handler of the crate: [GrevmHandler] of src/src/delegated_safety/handler.rs.

    revm drives a transaction through its [Handler] trait; the crate overrides the beneficiary
    hook ([NoReserveHandler]) or the hooks around the execution ([WithReserveHandler], whose
    hooks are in Handler.v). The class [RevmLifecycle] states in which order revm calls them.
    The theorem says that a run meets none of the assertions of the hooks, and when a reward is
    deferred. *)

From S2P Require Import Prelude Model Reward Reserve Executor Handler.

Section run.
Context `{!Revm} {Evm HErr : Type} `{!RevmHandler Evm HErr}.

(** ** Hooks of a handler *)

(** The hooks of revm's [Handler] trait that a handler with state [H] may override. *)
Record Hooks (H : Type) := mkHooks {
  hook_pre_execution : InitialAndFloorGas → H → Evm → outcome (result HErr (Z * InitialAndFloorGas * H * Evm));
  hook_post_execution : InitialAndFloorGas → Z → FrameResult → H → Evm →
    outcome (result HErr (ResultGas * FrameResult * H * Evm))
}.
Arguments mkHooks {H}.
Arguments hook_pre_execution {H}.
Arguments hook_post_execution {H}.

(** revm's own stages around the hooks. *)
Class RevmLifecycle := {
  lc_validate : Evm → result HErr (InitialAndFloorGas * Evm);
  lc_execution : InitialAndFloorGas → Evm → result HErr (FrameResult * Evm);
  lc_execution_result : ResultGas → FrameResult → Evm → result HErr (ExecutionResult * Evm);
  default_pre_execution : InitialAndFloorGas → Evm → result HErr (Z * InitialAndFloorGas * Evm);
  (** The default [post_execution] calls the beneficiary hook. *)
  default_post_execution {H} : (FrameResult → H → Evm → outcome (result HErr (H * Evm))) →
    InitialAndFloorGas → Z → FrameResult → H → Evm → outcome (result HErr (ResultGas * FrameResult * H * Evm));
  handler_run {H} : Hooks H → H → Evm → outcome (result HErr (ExecutionResult * H * Evm));
  (** A run that reaches [post_execution], successfully or not, went through the stages in
      order, each once. *)
  run_stages {H} (hooks : Hooks H) h evm :
    match handler_run hooks h evm with
    | Done (Ok (r, h', evm')) => ∃ g evm0 refund g1 h1 evm1 f evm2 gas f' evm3,
        lc_validate evm = Ok (g, evm0) ∧ hook_pre_execution hooks g h evm0 = Done (Ok (refund, g1, h1, evm1)) ∧
        lc_execution g1 evm1 = Ok (f, evm2) ∧
        hook_post_execution hooks g1 refund f h1 evm2 = Done (Ok (gas, f', h', evm3)) ∧
        lc_execution_result gas f' evm3 = Ok (r, evm')
    | Done (Err _) => True
    | Panic =>
      (∃ g evm0, hook_pre_execution hooks g h evm0 = Panic) ∨
      ∃ g evm0 refund g1 h1 evm1 f evm2, hook_pre_execution hooks g h evm0 = Done (Ok (refund, g1, h1, evm1)) ∧
        hook_post_execution hooks g1 refund f h1 evm2 = Panic
    end;
  (** The default [post_execution] ends with its only call of the beneficiary hook. *)
  default_post_stages {H} reward g refund f (h : H) evm :
    match default_post_execution reward g refund f h evm with
    | Done (Ok (gas, f', h', evm')) => ∃ evm1, reward f' h evm1 = Done (Ok (h', evm'))
    | Done (Err _) => True
    | Panic => ∃ f' evm1, reward f' h evm1 = Panic
    end;
  (** Building the result does not change the accounts. *)
  execution_result_state gas f evm r evm' :
    lc_execution_result gas f evm = Ok (r, evm') → evm_state evm' = evm_state evm ∧ evm_beneficiary evm' = evm_beneficiary evm
}.
Context `{!RevmLifecycle}.

(** ** Without a reserve *)

Record NoReserveHandler := mkNoReserve {
  nr_mode : BeneficiaryMode;
  nr_deferred_reward : option DeferredBeneficiaryReward
}.
Definition NoReserveHandler_new (mode : BeneficiaryMode) : NoReserveHandler := mkNoReserve mode None.

Definition no_reserve_reward (f : FrameResult) (h : NoReserveHandler) (evm : Evm) :
    outcome (result HErr (NoReserveHandler * Evm)) :=
  let! r := apply contains_beneficiary (reward_beneficiary (fr_gas f)) (nr_mode h) (reward_context evm)
              (reward_gas (fr_gas f)) evm (nr_deferred_reward h) in
  Done (let? (evm, reward) := r in Ok (mkNoReserve (nr_mode h) reward, evm)).

Definition no_reserve_hooks : Hooks NoReserveHandler :=
  mkHooks
    (λ g h evm, Done (let? (refund, g, evm) := default_pre_execution g evm in Ok (refund, g, h, evm)))
    (default_post_execution no_reserve_reward).

Definition with_reserve_hooks : Hooks WithReserveHandler :=
  mkHooks (λ g h evm, Done (pre_execution g h evm)) post_execution.

(** ** The handler *)

Record GrevmHandler := mkGrevmHandler { reserve_mode : ReserveMode; beneficiary_mode : BeneficiaryMode }.
Definition GrevmHandler_new (m : ReserveMode) (b : BeneficiaryMode) : GrevmHandler := mkGrevmHandler m b.

(** The planner, which fills itself, is returned with the output. *)
Definition run (g : GrevmHandler) (evm : Evm) : outcome (result HErr (GrevmHandlerOutput * option ReservePlanner * Evm)) :=
  match reserve_mode g with
  | NoReserve =>
    let! r := handler_run no_reserve_hooks (NoReserveHandler_new (beneficiary_mode g)) evm in
    Done (let? (result, handler, evm) := r in Ok (mkHandlerOutput result (nr_deferred_reward handler), None, evm))
  | WithReserve txid planner =>
    let! r := handler_run with_reserve_hooks (WithReserveHandler_new txid planner (beneficiary_mode g)) evm in
    Done (let? (result, handler, evm) := r in
          Ok (mkHandlerOutput result (wr_deferred_reward handler), Some (wr_planner handler), evm))
  end.

(** ** What the beneficiary policy leaves *)

(** A reward is deferred only in deferred mode, is positive and at most a 128-bit number, and the
    journal does not hold the beneficiary then. *)
Definition deferral_ok (mode : BeneficiaryMode) (reward : option DeferredBeneficiaryReward) (evm : Evm) : Prop :=
  ∀ d, reward = Some d → mode = Deferred ∧ (0 < deferred_amount d ≤ U128_MAX)%Z ∧
    evm_state evm !! evm_beneficiary evm = None.

Lemma from_gas_range c g r : from_gas c g = Some r → (0 ≤ reward_amount r ≤ U128_MAX)%Z.
Proof.
  unfold from_gas. destruct (is_fee_charge_disabled c); [done|]. intros [= <-]. simpl. unfold wrapping_mul.
  match goal with |- context [(?a mod ?b)%Z] => pose proof (Z.mod_pos_bound a b ltac:(unfold U128_MAX; lia)) end. lia.
Qed.

Lemma apply_deferral mode ctx gas rg evm :
  ∃ r, apply contains_beneficiary (reward_beneficiary (Evm:=Evm) (HErr:=HErr) gas) mode ctx rg evm None = Done r ∧
    ∀ evm' reward, r = Ok (evm', reward) → deferral_ok mode reward evm'.
Proof.
  unfold apply. destruct mode.
  2: { eexists. split; [done|]. intros evm' reward. destruct (reward_beneficiary gas evm); [|done]. by intros [= <- <-]. }
  destruct (from_gas ctx rg) as [b|] eqn:Hg; [|eexists; split; [done|]; by intros ? ? [= <- <-]].
  destruct (is_zero b || contains_beneficiary evm) eqn:Hz.
  { eexists. split; [done|]. intros evm' reward. destruct (reward_beneficiary gas evm); [|done]. by intros [= <- <-]. }
  apply orb_false_iff in Hz as [Hz Hc]. unfold defer. rewrite Hz. simpl. eexists. split; [done|].
  intros evm' reward [= <- <-] d [= <-]. apply from_gas_range in Hg. unfold is_zero in Hz. apply bool_decide_eq_false in Hz.
  split_and!; [done|simpl; lia..|]. unfold contains_beneficiary in Hc. apply bool_decide_eq_false in Hc.
  by destruct (evm_state evm !! evm_beneficiary evm); [destruct Hc|].
Qed.

Lemma no_reserve_reward_ok f h evm :
  nr_deferred_reward h = None →
  ∃ r, no_reserve_reward f h evm = Done r ∧
    ∀ h' evm', r = Ok (h', evm') → deferral_ok (nr_mode h) (nr_deferred_reward h') evm'.
Proof.
  intros Hn. unfold no_reserve_reward. rewrite Hn.
  destruct (apply_deferral (nr_mode h) (reward_context evm) (fr_gas f) (reward_gas (fr_gas f)) evm) as (r & -> & Hr).
  simpl. eexists. split; [done|]. intros h' evm'. destruct r as [[e d]|]; [|done]. intros [= <- <-]. by apply Hr.
Qed.

Lemma apply_policy_ok f h evm :
  wr_deferred_reward h = None →
  ∃ r, apply_policy f h evm = Done r ∧
    ∀ h' evm', r = Ok (h', evm') → deferral_ok (wr_mode h) (wr_deferred_reward h') evm' ∧ wr_planner h' = wr_planner h ∧
      execution_checkpoint h' = execution_checkpoint h.
Proof.
  intros Hn. unfold apply_policy. rewrite Hn.
  destruct (apply_deferral (wr_mode h) (reward_context evm) (fr_gas f) (reward_gas (fr_gas f)) evm) as (r & -> & Hr).
  simpl. eexists. split; [done|]. intros h' evm'. destruct r as [[e d]|]; [|done]. intros [= <- <-]. split; [by apply Hr|done].
Qed.

(** ** The hooks with a reserve *)

Context (cost_nonneg : ∀ tx, (0 ≤ tx_cost tx)%Z) (txs : list TxEnv).

Lemma violation_total t cs p :
  planner_ok txs p → ∃ v p', violation_loop t cs p = Done (v, p') ∧ planner_ok txs p'.
Proof.
  revert p. induction cs as [|c cs IH]; intros p Hp; simpl; [by eexists _, _|].
  destruct (required_after_ok cost_nonneg txs p t (dd_address c) Hp) as (p1 & -> & Hp1). simpl.
  repeat case_decide; [by apply IH|by eexists _, _|by apply IH].
Qed.

(** The checkpoint that the hook after the execution takes is the one set before it. *)
Lemma post_execution_ok g refund f h evm :
  planner_ok txs (wr_planner h) → is_Some (execution_checkpoint h) → wr_deferred_reward h = None →
  ∃ r, post_execution g refund f h evm = Done r ∧
    ∀ gas f' h' evm', r = Ok (gas, f', h', evm') →
      deferral_ok (wr_mode h) (wr_deferred_reward h') evm' ∧ planner_ok txs (wr_planner h') ∧ execution_checkpoint h' = None.
Proof.
  intros Hp [ck Hck] Hn. unfold post_execution. cbv zeta.
  destruct (reimburse_caller _ evm) as [evm1|e]; [|by eexists].
  unfold enforce_reserve. rewrite Hck.
  destruct (violation_total (wr_txid h) (delegated_debits_since (evm_state evm1) (evm_journal evm1) (journal_i ck) (evm_tx evm1)) _ Hp)
    as (v & p' & Hv & Hp'). unfold has_reserve_violation. rewrite Hv. simpl.
  assert (Hend : ∀ (rg : ResultGas) f' evm2, ∃ r : result HErr (ResultGas * FrameResult * WithReserveHandler * Evm),
    (let! r := apply_policy f' (mkReserveHandler (wr_txid h) p' (wr_mode h) (wr_deferred_reward h) None) evm2 in
     Done (let? (h, evm) := r in Ok (rg, f', h, evm)) : outcome (result HErr _)) = Done r ∧
    ∀ gas f'' h' evm', r = Ok (gas, f'', h', evm') →
      deferral_ok (wr_mode h) (wr_deferred_reward h') evm' ∧ planner_ok txs (wr_planner h') ∧ execution_checkpoint h' = None).
  { intros rg f' evm2.
    destruct (apply_policy_ok f' (mkReserveHandler (wr_txid h) p' (wr_mode h) (wr_deferred_reward h) None) evm2 Hn)
      as (r & -> & Hr). simpl. eexists. split; [done|]. intros gas f'' h' evm'. destruct r as [[h2 e2]|]; [|done].
    intros [= <- <- <- <-]. destruct (Hr h2 e2 eq_refl) as (? & -> & ->). done. }
  destruct v; [|apply Hend].
  destruct (charge_violation _ _ _ _ _) as [[[rg f'] evm2]|e]; simpl; [apply Hend|by eexists].
Qed.

Lemma pre_execution_handler g h evm refund g' h' evm' :
  pre_execution g h evm = Ok (refund, g', h', evm') →
  is_Some (execution_checkpoint h') ∧ wr_planner h' = wr_planner h ∧ wr_mode h' = wr_mode h ∧
  wr_deferred_reward h' = wr_deferred_reward h.
Proof.
  unfold pre_execution. destruct (validate_against_state_and_deduct_caller g evm) as [[g1 e1]|]; [|done]. simpl.
  destruct (load_accounts e1) as [e2|]; [|done]. simpl. destruct (apply_eip7702_auth_list g1 e2) as [[[r2 g2] e3]|]; [|done]. simpl.
  destruct (checkpoint e3) as [ck e4]. intros [= <- <- <- <-]. simpl. eauto.
Qed.

(** ** Runs *)

(** A run whose hooks return, in the order of the stages, returns, with what the last hook
    established. *)
Lemma run_hooks {St} (hooks : Hooks St) h evm (Q : St → Evm → Prop) :
  (∀ g evm0, hook_pre_execution hooks g h evm0 ≠ Panic) →
  (∀ g evm0 rf g1 h1 evm1 f evm2, hook_pre_execution hooks g h evm0 = Done (Ok (rf, g1, h1, evm1)) →
    ∃ r, hook_post_execution hooks g1 rf f h1 evm2 = Done r ∧
      ∀ gas f' h' evm', r = Ok (gas, f', h', evm') → Q h' evm') →
  (∀ h' evm1 evm2 gas f x, Q h' evm1 → lc_execution_result gas f evm1 = Ok (x, evm2) → Q h' evm2) →
  ∃ r, handler_run hooks h evm = Done r ∧ ∀ x h' evm', r = Ok (x, h', evm') → Q h' evm'.
Proof.
  intros Hpre Hpost Hres. pose proof (run_stages hooks h evm) as Hs.
  destruct (handler_run hooks h evm) as [[[[x h'] evm']|e]|]; [|by eexists|].
  - eexists. split; [done|]. intros x' h'' evm'' [= <- <- <-].
    destruct Hs as (g & evm0 & rf & g1 & h1 & evm1 & f & evm2 & gas & f' & evm3 & _ & Hp & _ & Hq & Hr).
    destruct (Hpost _ _ _ _ _ _ f evm2 Hp) as (r & Heq & HQ). rewrite Hq in Heq. injection Heq as <-.
    eapply Hres; [by eapply HQ|exact Hr].
  - destruct Hs as [(g & evm0 & Hp)|(g & evm0 & rf & g1 & h1 & evm1 & f & evm2 & Hp & Hq)]; [by destruct (Hpre g evm0)|].
    destruct (Hpost _ _ _ _ _ _ f evm2 Hp) as (r & Heq & _). congruence.
Qed.

Lemma deferral_result mode reward gas f evm r evm' :
  deferral_ok mode reward evm → lc_execution_result gas f evm = Ok (r, evm') → deferral_ok mode reward evm'.
Proof. intros Hd Hr d He. destruct (execution_result_state _ _ _ _ _ Hr) as [-> ->]. by apply Hd. Qed.

Lemma no_reserve_run mode evm :
  ∃ r, handler_run no_reserve_hooks (NoReserveHandler_new mode) evm = Done r ∧
    ∀ x h' evm', r = Ok (x, h', evm') → deferral_ok mode (nr_deferred_reward h') evm'.
Proof.
  apply (run_hooks _ _ _ (λ h e, deferral_ok mode (nr_deferred_reward h) e)); [done| |intros; by eapply deferral_result].
  intros g evm0 rf g1 h1 evm1 f evm2 Hp. simpl in Hp |- *.
  destruct (default_pre_execution g evm0) as [[[? ?] ?]|]; [|done]. injection Hp as _ _ <- _.
  pose proof (default_post_stages no_reserve_reward g1 rf f (NoReserveHandler_new mode) evm2) as Hd.
  destruct (default_post_execution _ _ _ _ _ _) as [[[[[gas f'] h'] evm']|err]|]; [|by eexists|].
  - eexists. split; [done|]. intros ? ? ? ? [= <- <- <- <-]. destruct Hd as (e1 & Hrw).
    destruct (no_reserve_reward_ok f' (NoReserveHandler_new mode) e1 eq_refl) as (r1 & Heq & Hok).
    rewrite Hrw in Heq. injection Heq as <-. by apply Hok.
  - destruct Hd as (f' & e1 & Hrw). destruct (no_reserve_reward_ok f' (NoReserveHandler_new mode) e1 eq_refl) as (? & ? & _). congruence.
Qed.

Lemma with_reserve_run txid planner mode evm :
  planner_ok txs planner →
  ∃ r, handler_run with_reserve_hooks (WithReserveHandler_new txid planner mode) evm = Done r ∧
    ∀ x h' evm', r = Ok (x, h', evm') → deferral_ok mode (wr_deferred_reward h') evm' ∧ planner_ok txs (wr_planner h').
Proof.
  intros Hp. apply (run_hooks _ _ _ (λ h e, deferral_ok mode (wr_deferred_reward h) e ∧ planner_ok txs (wr_planner h))); [done| |].
  - intros g evm0 rf g1 h1 evm1 f evm2 Hpre. simpl in Hpre. injection Hpre as (Hck & Hpl & Hmo & Hde)%pre_execution_handler.
    simpl in *. destruct (post_execution_ok g1 rf f h1 evm2) as (r & Hr & HQ); [by rewrite Hpl|done|done|].
    exists r. split; [done|]. intros gas f' h' evm' He. destruct (HQ _ _ _ _ He) as (? & ? & _). by rewrite <-Hmo.
  - intros h' e1 e2 gas f x [? ?] ?. split; [by eapply deferral_result|done].
Qed.

(** ** Properties *)

Definition mode_planner_ok (m : ReserveMode) : Prop :=
  match m with NoReserve => True | WithReserve _ p => planner_ok txs p end.

Lemma deferral_immediate mode o evm :
  deferral_ok mode (gho_deferred_reward o) evm → mode = Immediate → into_immediate_result o = Done (gho_result o).
Proof.
  intros Hd ->. unfold into_immediate_result. destruct (gho_deferred_reward o) as [d|]; [|done]. by destruct (Hd d eq_refl).
Qed.

(** C22. A run of the handler meets none of its assertions: the reserve checkpoint is there when
    the reserve is enforced, the planner answers, and a zero reward is never deferred. A reward
    is deferred only in deferred mode; it is then positive, and the journal does not hold the
    beneficiary, so that ordered commit adds it to an account the transaction did not touch. In
    immediate mode the output passes the check of the sequential path. The planner stays exact
    for the block. *)
Theorem handler_run_sound g evm :
  mode_planner_ok (reserve_mode g) →
  ∃ r, run g evm = Done r ∧
    ∀ o planner evm', r = Ok (o, planner, evm') →
      (∀ d, gho_deferred_reward o = Some d → beneficiary_mode g = Deferred ∧ (0 < deferred_amount d ≤ U128_MAX)%Z ∧
        evm_state evm' !! evm_beneficiary evm' = None) ∧
      (beneficiary_mode g = Immediate → into_immediate_result o = Done (gho_result o)) ∧
      mode_planner_ok (from_planner 0 planner).
Proof.
  intros Hm. destruct g as [[|txid p] mode]; unfold run; simpl in *.
  - destruct (no_reserve_run mode evm) as (r & -> & Hr). simpl. eexists. split; [done|]. intros o pl e.
    destruct r as [[[x h'] e']|]; [|done]. intros [= <- <- <-]. specialize (Hr _ _ _ eq_refl).
    split_and!; [exact Hr|by eapply deferral_immediate|done].
  - destruct (with_reserve_run txid p mode evm Hm) as (r & -> & Hr). simpl. eexists. split; [done|]. intros o pl e.
    destruct r as [[[x h'] e']|]; [|done]. intros [= <- <- <-]. destruct (Hr _ _ _ eq_refl) as [Hd Hp].
    split_and!; [exact Hd|by eapply deferral_immediate|done].
Qed.

End run.

(** ** Witness *)

Section examples.
#[local] Existing Instance revm_example.
#[local] Existing Instance hx_handler.

(** A transaction that succeeds with 100 gas and touches nothing. *)
#[local] Instance hr_lifecycle : RevmLifecycle (Evm:=HxEvm) (HErr:=unit).
Proof.
  refine {|
    lc_validate e := Ok (tt, e);
    lc_execution _ e := Ok (hx_frame, e);
    lc_execution_result _ _ e := Ok ((1%Z : ExecutionResult), e);
    default_pre_execution g e := Ok (0%Z, g, e);
    default_post_execution H reward g rf f h e :=
      let! r := reward f h e in Done (let? (h, e) := r in Ok (build_result_gas false (fr_gas f) g, f, h, e));
    handler_run H hooks h e :=
      let! r := hook_pre_execution H hooks tt h e in
      match r with
      | Err x => Done (Err x)
      | Ok (rf, g, h, e) =>
        let! r := hook_post_execution H hooks g rf hx_frame h e in
        Done (let? (gas, f, h, e) := r in Ok ((1%Z : ExecutionResult), h, e))
      end
  |}.
  - intros H hooks h evm. destruct (hook_pre_execution H hooks tt h evm) as [[[[[rf g] h1] e1]|x]|] eqn:Hpre; simpl; [|done|eauto].
    destruct (hook_post_execution H hooks g rf hx_frame h1 e1) as [[[[[gas f'] h2] e2]|x]|] eqn:Hpost; simpl; [|done|].
    + exists tt, evm, rf, g, h1, e1, hx_frame, e1, gas, f', e2. done.
    + right. exists tt, evm, rf, g, h1, e1, hx_frame, e1. done.
  - intros H reward g rf f h evm. destruct (reward f h evm) as [[[h1 e1]|x]|] eqn:Hr; simpl; [eauto|done|eauto].
  - by intros gas f evm r evm' [= _ <-].
Defined.

Lemma handler_run_sound_witness :
  ∃ o p evm', run (GrevmHandler_new (WithReserve 1 (ReservePlanner_new rx_txs)) Deferred) hx_boundary = Done (Ok (o, p, evm')) ∧
    ∀ d, gho_deferred_reward o = Some d → (0 < deferred_amount d ≤ U128_MAX)%Z.
Proof.
  destruct (handler_run_sound rx_cost_nonneg rx_txs (GrevmHandler_new (WithReserve 1 (ReservePlanner_new rx_txs)) Deferred) hx_boundary)
    as (r & Hr & Hok); [apply rx_new_ok|].
  assert (Hc : match run (GrevmHandler_new (WithReserve 1 (ReservePlanner_new rx_txs)) Deferred) hx_boundary with
    Done r => is_ok r | Panic => false end = true) by (vm_compute; reflexivity).
  rewrite Hr in Hc. destruct r as [[[o p] evm']|]; [|done]. exists o, p, evm'. split; [exact Hr|].
  destruct (Hok o p evm' eq_refl) as (Hd & _). intros d He. by destruct (Hd d He) as (_ & ? & _).
Defined.

End examples.
