(* ===== verification/Precompile.v ===== *)
(** Custom precompiles for parallel execution: src/src/precompile.rs.

    An implementation of the trait [ParallelPrecompile] sees the values the accessors of its
    input return and reaches EVM state only through the facade, so its call is a [Program]: a
    tree of facade calls that ends in a result. [to_alloy] gives the precompile registered with
    the EVM. The journal behind the facade is the class [EvmInternals]. The theorems say that the
    first fault ends the call's access to state and decides its result, and that a static call
    changes nothing. *)

From S2P Require Import Prelude Model.

(** ** The journal interface *)

(** revm's [StateLoad]: a value and whether the access was cold. *)
Record StateLoad (T : Type) := mkStateLoad { sl_data : T; is_cold : bool }.
Arguments mkStateLoad {T} _ _.
Arguments sl_data {T} _.
Arguments is_cold {T} _.

Definition state_load_map {A B} (f : A → B) (l : StateLoad A) : StateLoad B := mkStateLoad (f (sl_data l)) (is_cold l).

(** alloy's [EvmInternals]: the operations the facade forwards to. *)
Class EvmInternals (I Error : Type) := {
  SStoreResult : Type;
  load_account : Address → I → result Error (StateLoad Account) * I;
  internals_sload : Address → U256 → I → result Error (StateLoad U256) * I;
  load_account_set_balance : Address → U256 → I → result Error (StateLoad unit) * I;
  internals_sstore : Address → U256 → U256 → I → result Error (StateLoad SStoreResult) * I;
  error_to_string : Error → string
}.

Section precompile.
Context {I Error Output : Type} `{!EvmInternals I Error}.

(** revm's [PrecompileHalt] and [PrecompileError], by their messages. *)
Inductive PrecompileHalt := HaltOther (message : string).
Inductive PrecompileError := FatalError (message : string).

Inductive ParallelPrecompileError :=
| Halt (reason : PrecompileHalt)
| Fatal (error : PrecompileError).

Definition From_PrecompileError (error : PrecompileError) : ParallelPrecompileError := Fatal error.
Definition From_PrecompileHalt (reason : PrecompileHalt) : ParallelPrecompileError := Halt reason.

(** [Display] and [Error::source], with revm's own message of a halt and of an error. *)
Definition precompile_fmt (halt_fmt : PrecompileHalt → string) (error_fmt : PrecompileError → string)
    (e : ParallelPrecompileError) : string :=
  match e with Halt reason => halt_fmt reason | Fatal error => error_fmt error end.

Definition error_source (e : ParallelPrecompileError) : option (PrecompileHalt + PrecompileError) :=
  match e with Halt reason => Some (inl reason) | Fatal error => Some (inr error) end.

Definition database_error (e : Error) : ParallelPrecompileError := Fatal (FatalError (error_to_string e)).

(** ** The facade *)

Record ParallelPrecompileState := mkPState {
  internals : I;
  ps_is_static : bool;
  fault : option ParallelPrecompileError
}.

Definition set_internals (i : I) (s : ParallelPrecompileState) := mkPState i (ps_is_static s) (fault s).

Definition ensure_healthy (s : ParallelPrecompileState) : result ParallelPrecompileError unit :=
  match fault s with Some f => Err f | None => Ok tt end.

(** The first fault is kept. *)
Definition record_fault {T} (f : ParallelPrecompileError) (s : ParallelPrecompileState) :
    result ParallelPrecompileError T * ParallelPrecompileState :=
  let f := default f (fault s) in (Err f, mkPState (internals s) (ps_is_static s) (Some f)).

Definition static_halt : ParallelPrecompileError := Halt (HaltOther "state change during static call").

Definition ensure_mutable (s : ParallelPrecompileState) :
    result ParallelPrecompileError unit * ParallelPrecompileState :=
  match ensure_healthy s with
  | Err f => (Err f, s)
  | Ok _ => if ps_is_static s then record_fault static_halt s else (Ok tt, s)
  end.

(** A journal operation behind the facade. *)
Definition forward {T} (op : I → result Error T * I) (s : ParallelPrecompileState) :
    result ParallelPrecompileError T * ParallelPrecompileState :=
  match op (internals s) with
  | (Ok v, i) => (Ok v, set_internals i s)
  | (Err e, i) => record_fault (database_error e) (set_internals i s)
  end.

Definition ps_balance (a : Address) (s : ParallelPrecompileState) :
    result ParallelPrecompileError (StateLoad U256) * ParallelPrecompileState :=
  match ensure_healthy s with
  | Err f => (Err f, s)
  | Ok _ =>
    let '(r, s) := forward (load_account a) s in
    (result_map (state_load_map (λ account, balance (acc_info account))) r, s)
  end.

Definition ps_sload (a : Address) (k : U256) (s : ParallelPrecompileState) :
    result ParallelPrecompileError (StateLoad U256) * ParallelPrecompileState :=
  match ensure_healthy s with
  | Err f => (Err f, s)
  | Ok _ => forward (internals_sload a k) s
  end.

Definition ps_set_balance (a : Address) (b : U256) (s : ParallelPrecompileState) :
    result ParallelPrecompileError (StateLoad unit) * ParallelPrecompileState :=
  match ensure_mutable s with
  | (Err f, s) => (Err f, s)
  | (Ok _, s) => forward (load_account_set_balance a b) s
  end.

Definition ps_sstore (a : Address) (k v : U256) (s : ParallelPrecompileState) :
    result ParallelPrecompileError (StateLoad SStoreResult) * ParallelPrecompileState :=
  match ensure_mutable s with
  | (Err f, s) => (Err f, s)
  | (Ok _, s) => forward (internals_sstore a k v) s
  end.

Definition take_fault (s : ParallelPrecompileState) : option ParallelPrecompileError * ParallelPrecompileState :=
  (fault s, mkPState (internals s) (ps_is_static s) None).

(** ** Inputs *)

(** alloy's [PrecompileInput]. *)
Record PrecompileInput := mkAlloyInput {
  ai_data : list Z; ai_gas : Z; ai_reservoir : Z; ai_caller : Address; ai_value : U256;
  ai_target_address : Address; ai_is_static : bool; ai_bytecode_address : Address; ai_internals : I
}.

Record ParallelPrecompileInput := mkInput {
  in_data : list Z; in_gas : Z; in_reservoir : Z; in_caller : Address; in_value : U256;
  in_target_address : Address; in_bytecode_address : Address; in_is_static : bool;
  in_state : ParallelPrecompileState
}.

Definition from_alloy (i : PrecompileInput) : ParallelPrecompileInput :=
  mkInput (ai_data i) (ai_gas i) (ai_reservoir i) (ai_caller i) (ai_value i) (ai_target_address i)
    (ai_bytecode_address i) (ai_is_static i) (mkPState (ai_internals i) (ai_is_static i) None).

Definition is_direct_call (i : ParallelPrecompileInput) : bool :=
  bool_decide (in_target_address i = in_bytecode_address i).

(** What the accessors of the input return: all that an implementation sees besides the facade. *)
Record InputView := mkView {
  v_data : list Z; v_gas : Z; v_reservoir : Z; v_caller : Address; v_value : U256;
  v_target_address : Address; v_bytecode_address : Address; v_is_direct_call : bool; v_is_static : bool
}.

Definition input_view (i : ParallelPrecompileInput) : InputView :=
  mkView (in_data i) (in_gas i) (in_reservoir i) (in_caller i) (in_value i) (in_target_address i)
    (in_bytecode_address i) (is_direct_call i) (in_is_static i).

(** ** Implementations *)

(** An implementation after its input is read: facade calls and a final result. *)
Inductive Program :=
| Return (r : result ParallelPrecompileError Output)
| Balance (a : Address) (k : result ParallelPrecompileError (StateLoad U256) → Program)
| Sload (a : Address) (key : U256) (k : result ParallelPrecompileError (StateLoad U256) → Program)
| SetBalance (a : Address) (b : U256) (k : result ParallelPrecompileError (StateLoad unit) → Program)
| Sstore (a : Address) (key v : U256) (k : result ParallelPrecompileError (StateLoad SStoreResult) → Program).

Fixpoint call (p : Program) (s : ParallelPrecompileState) :
    result ParallelPrecompileError Output * ParallelPrecompileState :=
  match p with
  | Return r => (r, s)
  | Balance a k => let '(r, s) := ps_balance a s in call (k r) s
  | Sload a key k => let '(r, s) := ps_sload a key s in call (k r) s
  | SetBalance a b k => let '(r, s) := ps_set_balance a b s in call (k r) s
  | Sstore a key v k => let '(r, s) := ps_sstore a key v s in call (k r) s
  end.

(** The trait; [PrecompileId] is the identifier type of revm. *)
Context {PrecompileId : Type}.

Class ParallelPrecompile (P : Type) := {
  precompile_id : P → PrecompileId;
  precompile_call : P → InputView → Program
}.

Record ClosurePrecompile := mkClosure { cl_id : PrecompileId; cl_f : InputView → Program }.
#[global] Instance closure_precompile : ParallelPrecompile ClosurePrecompile := {
  precompile_id := cl_id;
  precompile_call := cl_f
}.

(** [Arc<dyn ParallelPrecompile>]: an implementation with its methods. *)
Inductive DynParallelPrecompile :=
| mkDyn {P : Type} (imp : ParallelPrecompile P) (p : P).

Definition dyn_precompile_id (d : DynParallelPrecompile) : PrecompileId :=
  let 'mkDyn imp p := d in precompile_id p.
Definition dyn_precompile_call (d : DynParallelPrecompile) : InputView → Program :=
  let 'mkDyn imp p := d in precompile_call p.
Definition from_precompile {P} `{imp : !ParallelPrecompile P} (p : P) : DynParallelPrecompile := mkDyn imp p.
Definition dyn_new (id : PrecompileId) (f : InputView → Program) : DynParallelPrecompile :=
  mkDyn closure_precompile (mkClosure id f).

(** What the adapter returns to the EVM; a halt becomes an output with the given reservoir. *)
Inductive AdapterResult :=
| AdapterOutput (o : Output)
| AdapterHalt (reason : PrecompileHalt) (reservoir : Z)
| AdapterFatal (e : PrecompileError).

Definition adapter_result (reservoir : Z) (r : result ParallelPrecompileError Output) : AdapterResult :=
  match r with
  | Ok o => AdapterOutput o
  | Err (Halt reason) => AdapterHalt reason reservoir
  | Err (Fatal e) => AdapterFatal e
  end.

(** alloy's [DynPrecompile::new_stateful]: a registered precompile whose results are not cached. *)
Record DynPrecompile := mkAlloyPrecompile {
  alloy_id : PrecompileId;
  supports_caching : bool;
  alloy_call : PrecompileInput → AdapterResult * I
}.
Definition new_stateful (id : PrecompileId) (f : PrecompileInput → AdapterResult * I) : DynPrecompile :=
  mkAlloyPrecompile id false f.

Definition to_alloy (d : DynParallelPrecompile) : DynPrecompile :=
  new_stateful (dyn_precompile_id d) (λ input,
    let reservoir := ai_reservoir input in
    let input := from_alloy input in
    let '(r, s) := call (dyn_precompile_call d (input_view input)) (in_state input) in
    let '(f, s) := take_fault s in
    let r := match f with Some f => Err f | None => r end in
    (adapter_result reservoir r, internals s)).

(** ** Specification *)

(** The run until the first fault: its result, or the fault, with the journal at that point. *)
Definition mutate {T} (is_static : bool) (op : I → result Error T * I) (i : I) :
    result ParallelPrecompileError T * I :=
  if is_static then (Err static_halt, i)
  else let '(r, i) := op i in (result_map_err database_error r, i).

Fixpoint until_fault (is_static : bool) (p : Program) (i : I) :
    result ParallelPrecompileError Output * I :=
  match p with
  | Return r => (r, i)
  | Balance a k =>
    match load_account a i with
    | (Ok l, i) => until_fault is_static (k (Ok (state_load_map (λ account, balance (acc_info account)) l))) i
    | (Err e, i) => (Err (database_error e), i)
    end
  | Sload a key k =>
    match internals_sload a key i with
    | (Ok l, i) => until_fault is_static (k (Ok l)) i
    | (Err e, i) => (Err (database_error e), i)
    end
  | SetBalance a b k =>
    match mutate is_static (load_account_set_balance a b) i with
    | (Ok l, i) => until_fault is_static (k (Ok l)) i
    | (Err e, i) => (Err e, i)
    end
  | Sstore a key v k =>
    match mutate is_static (internals_sstore a key v) i with
    | (Ok l, i) => until_fault is_static (k (Ok l)) i
    | (Err e, i) => (Err e, i)
    end
  end.

(** After a fault no call reaches the journal. *)
Lemma call_faulted p i b f : ∃ r, call p (mkPState i b (Some f)) = (r, mkPState i b (Some f)).
Proof. induction p as [r|a k IH|a key k IH|a b' k IH|a key v k IH]; simpl; eauto. Qed.

Lemma call_until_fault p i b :
  ∃ r s, call p (mkPState i b None) = (r, s) ∧
    until_fault b p i = (match fault s with Some f => Err f | None => r end, internals s).
Proof.
  revert i. induction p as [r|a k IH|a key k IH|a b' k IH|a key v k IH]; intros i; simpl; [by eexists _, _| | | |].
  - unfold ps_balance, forward. simpl. destruct (load_account a i) as [[l|e] i']; simpl; [apply IH|].
    destruct (call_faulted (k (Err (database_error e))) i' b (database_error e)) as [r ->]. by eexists _, _.
  - unfold ps_sload, forward. simpl. destruct (internals_sload a key i) as [[l|e] i']; simpl; [apply IH|].
    destruct (call_faulted (k (Err (database_error e))) i' b (database_error e)) as [r ->]. by eexists _, _.
  - unfold ps_set_balance, ensure_mutable, mutate. simpl. destruct b; simpl.
    + destruct (call_faulted (k (Err static_halt)) i true static_halt) as [r ->]. by eexists _, _.
    + unfold forward. simpl. destruct (load_account_set_balance a b' i) as [[l|e] i']; simpl; [apply IH|].
      destruct (call_faulted (k (Err (database_error e))) i' false (database_error e)) as [r ->]. by eexists _, _.
  - unfold ps_sstore, ensure_mutable, mutate. simpl. destruct b; simpl.
    + destruct (call_faulted (k (Err static_halt)) i true static_halt) as [r ->]. by eexists _, _.
    + unfold forward. simpl. destruct (internals_sstore a key v i) as [[l|e] i']; simpl; [apply IH|].
      destruct (call_faulted (k (Err (database_error e))) i' false (database_error e)) as [r ->]. by eexists _, _.
Qed.

(** C29. The first fault decides. Whatever an implementation does after a failed journal access
    or a write attempted in a static call, even if it swallows the error and returns an output,
    the adapter returns that first fault (a database error is fatal, a static write halts the
    call) and the journal is as it was at the fault. Without a fault the result is the
    implementation's own. *)
Theorem first_fault_decides d input :
  alloy_call (to_alloy d) input =
  let '(r, i) := until_fault (ai_is_static input) (dyn_precompile_call d (input_view (from_alloy input)))
    (ai_internals input) in
  (adapter_result (ai_reservoir input) r, i).
Proof.
  simpl. destruct (call_until_fault (dyn_precompile_call d (input_view (from_alloy input))) (ai_internals input)
    (ai_is_static input)) as (r & s & -> & ->). simpl. done.
Qed.

(** Journal reads do not change what [view] shows of the state. *)
Context {View : Type} (view : I → View).
Context (load_account_view : ∀ a i, view (load_account a i).2 = view i).
Context (sload_view : ∀ a k i, view (internals_sload a k i).2 = view i).

(** A static call changes nothing: for every implementation, the state after the call shows
    what it showed before. *)
Theorem static_call_is_pure d input :
  ai_is_static input = true → view (alloy_call (to_alloy d) input).2 = view (ai_internals input).
Proof.
  destruct input as [data gas rsv cl v ta st ba i]. simpl. intros ->.
  set (p := dyn_precompile_call d _).
  assert (Hu : view (until_fault true p i).2 = view i).
  { clearbody p. revert i. induction p as [r|a k IH|a key k IH|a b' k IH|a key x k IH]; intros i; simpl; [done| | |done|done].
    - specialize (load_account_view a i). destruct (load_account a i) as [[l|e] i']; simpl in *; [|done].
      by rewrite IH.
    - specialize (sload_view a key i). destruct (internals_sload a key i) as [[l|e] i']; simpl in *; [|done].
      by rewrite IH. }
  rewrite <-Hu. destruct (call_until_fault p i true) as (r & s & -> & ->). done.
Qed.

End precompile.

(** ** Witness *)

Section examples.

(** A journal of balances with the set of warm addresses; loads never fail. *)
#[local] Instance pc_internals : EvmInternals (gmap Address Z * gset Address) unit := {|
  SStoreResult := unit;
  load_account a '(m, w) :=
    (Ok (mkStateLoad (mkAccount false false false (mkInfo (default 0%Z (m !! a)) 0 0 None) ∅) (bool_decide (a ∉ w))),
     (m, {[a]} ∪ w));
  internals_sload a k i := (Err tt, i);
  load_account_set_balance a b '(m, w) := (Ok (mkStateLoad tt (bool_decide (a ∉ w))), (<[a := b]> m, {[a]} ∪ w));
  internals_sstore a k v i := (Err tt, i);
  error_to_string _ := "db"
|}.

(** Reads a balance, tries to change it, ignores the error and reports success. *)
Definition pc_program : Program (I:=gmap Address Z * gset Address) (Output:=Z) :=
  Balance 5 (λ _, SetBalance 5 9 (λ _, Return (Ok 1%Z))).

Definition pc_dyn : DynParallelPrecompile := dyn_new "example" (λ _, pc_program).
Definition pc_input : PrecompileInput (I:=gmap Address Z * gset Address) :=
  mkAlloyInput [] 100 3 1 0 254 true 254 ({[5%Z := 4%Z]}, ∅).

Lemma static_call_is_pure_witness :
  (alloy_call (to_alloy pc_dyn) pc_input).1 = AdapterHalt (HaltOther "state change during static call") 3 ∧
  (alloy_call (to_alloy pc_dyn) pc_input).2.1 = {[5%Z := 4%Z]}.
Proof.
  split; [reflexivity|].
  apply (static_call_is_pure fst); [by intros a [m w]|done|done].
Defined.

End examples.
