(* ===== verification/BuildEvm.v ===== *)
(** Construction of the EVM: [build_evm] and [GrevmExecutor::new] of
    src/src/scheduler/executor.rs, and the instruction table of
    src/src/delegated_safety/instructions.rs.

    The tables that revm builds for a hard fork are the class [RevmTables]. The theorem says
    which instruction and which precompile every opcode and every address gets. *)

From S2P Require Import Prelude Model Reward History World IncarnationDb Scheduler Reserve Executor Handler Precompile.

(** revm's hard forks, instruction table and precompiles: an instruction with its static gas per
    opcode, and the precompiles by address. *)
Class RevmTables (SpecId Instruction : Type) (Standard : Type) := {
  is_enabled_in : SpecId → SpecId → bool;
  PRAGUE : SpecId;
  CREATE : Z;
  CREATE2 : Z;
  mainnet_instruction : SpecId → Z → Instruction;
  mainnet_static_gas : SpecId → Z → Z;
  mainnet_precompile : SpecId → Address → option Standard
}.

Section build.
Context {SpecId Standard Instruction : Type} `{!RevmTables SpecId Instruction Standard}.
Context {I Error Output PrecompileId : Type} `{!EvmInternals I Error}.
Context {Db Cfg Block : Type} (cfg_spec : Cfg → SpecId) (block_beneficiary : Block → Address).
Abbreviation Custom := (DynParallelPrecompile (I:=I) (Error:=Error) (Output:=Output) (PrecompileId:=PrecompileId)).
Abbreviation Alloy := (DynPrecompile (I:=I) (Output:=Output) (PrecompileId:=PrecompileId)).

(** ** Instructions *)

(** The crate's own instruction, or revm's. *)
Inductive TableInstruction :=
| Guarded (is_create2 : bool)
| Mainnet (i : Instruction).

Record EthInstructions := mkInstructions {
  instruction_table : Z → TableInstruction;
  gas_table : Z → Z
}.

Definition new_mainnet_with_spec (spec : SpecId) : EthInstructions :=
  mkInstructions (λ op, Mainnet (mainnet_instruction spec op)) (mainnet_static_gas spec).

Definition insert_instruction (opcode : Z) (i : TableInstruction) (static_gas : Z) (t : EthInstructions) : EthInstructions :=
  mkInstructions (λ op, if decide (op = opcode) then i else instruction_table t op)
    (λ op, if decide (op = opcode) then static_gas else gas_table t op).

Definition gravity_instructions (spec : SpecId) : EthInstructions :=
  let instructions := new_mainnet_with_spec spec in
  let instructions := insert_instruction CREATE (Guarded false) 0 instructions in
  let instructions := insert_instruction CREATE2 (Guarded true) 0 instructions in
  instructions.

(** ** The EVM *)

(** alloy's [PrecompilesMap]: standard precompiles, overridden by address. *)
Inductive AnyPrecompile := StandardPrecompile (p : Standard) | CustomPrecompile (p : Alloy).
Definition PrecompilesMap : Type := Address → option AnyPrecompile.

Definition apply_precompile (a : Address) (f : option AnyPrecompile → option AnyPrecompile) (m : PrecompilesMap) : PrecompilesMap :=
  λ b, if decide (b = a) then f (m a) else m b.

Record GrevmEvm := mkEvm {
  ge_db : Db;
  ge_cfg : Cfg;
  ge_block : Block;
  ge_instruction : EthInstructions;
  ge_precompiles : PrecompilesMap
}.

Definition build_evm (db : Db) (cfg : Cfg) (block : Block) (custom_precompiles : list (Address * Custom))
    (forbid_delegated_create : bool) : GrevmEvm :=
  let spec := cfg_spec cfg in
  let instruction :=
    if forbid_delegated_create && is_enabled_in spec PRAGUE then gravity_instructions spec
    else new_mainnet_with_spec spec in
  let precompiles := foldl (λ m '(address, precompile),
      let precompile := to_alloy precompile in
      apply_precompile address (λ _, Some (CustomPrecompile precompile)) m)
    (λ a, StandardPrecompile <$> mainnet_precompile spec a) custom_precompiles in
  mkEvm db cfg block instruction precompiles.

(** ** The executor *)

(** [IncarnationDb] knows the coordinated beneficiary of the block. *)
Context `{!Revm} (coordinated : Db → BeneficiaryAccount).
Definition beneficiary_matches (db : Db) (address : Address) : bool := matches (coordinated db) address.

Record GrevmExecutor := mkGrevmExecutor { gx_evm : GrevmEvm; gx_reserve_planner : option ReservePlanner }.

(** Both assertions are part of the constructor. *)
Definition GrevmExecutor_new (incarnation_db : Db) (cfg : Cfg) (block : Block)
    (custom_precompiles : list (Address * Custom)) (safety : DelegatedSafetyConfig) (reserve_planner : option ReservePlanner) :
    outcome GrevmExecutor :=
  let! _ := assert_that (beneficiary_matches incarnation_db (block_beneficiary block)) in
  let evm := build_evm incarnation_db cfg block custom_precompiles (forbid_delegated_create safety) in
  let! _ := assert_that (Bool.eqb (reserve_delegated_balance safety) (bool_decide (is_Some reserve_planner))) in
  Done (mkGrevmExecutor evm reserve_planner).

(** ** What every opcode and address gets *)

(** The last registration of an address. *)
Fixpoint registered (a : Address) (l : list (Address * Custom)) : option Custom :=
  match l with
  | [] => None
  | (b, p) :: l => match registered a l with Some q => Some q | None => if decide (a = b) then Some p else None end
  end.

Lemma custom_precompiles_last a l m :
  foldl (λ m '(address, precompile), apply_precompile address (λ _, Some (CustomPrecompile (to_alloy precompile))) m) m l a =
  match registered a l with Some p => Some (CustomPrecompile (to_alloy p)) | None => m a end.
Proof.
  revert m. induction l as [|[b p] l IH]; intros m; simpl; [done|]. rewrite IH.
  destruct (registered a l); [done|]. unfold apply_precompile. by case_decide.
Qed.

Definition guarded_opcode (op : Z) : option bool :=
  if decide (op = CREATE2) then Some true else if decide (op = CREATE) then Some false else None.

(** C28. The EVM of a block is revm's for the fork of the block, but for what was asked for: an
    address has the last custom precompile registered for it, or else the standard one; CREATE
    and CREATE2 are guarded exactly when the policy forbids delegated creation and the fork has
    delegation, and no other opcode changes; and where revm charges no static gas for the two
    creating opcodes, the guard does not change what any opcode charges. *)
Theorem build_evm_exact db cfg block custom forbid :
  (∀ op, is_Some (guarded_opcode op) → mainnet_static_gas (cfg_spec cfg) op = 0%Z) →
  let evm := build_evm db cfg block custom forbid in
  let spec := cfg_spec cfg in
  (∀ a, ge_precompiles evm a =
    match registered a custom with
    | Some p => Some (CustomPrecompile (to_alloy p))
    | None => StandardPrecompile <$> mainnet_precompile spec a
    end) ∧
  (∀ op, instruction_table (ge_instruction evm) op =
    match guarded_opcode op with
    | Some is_create2 => if forbid && is_enabled_in spec PRAGUE then Guarded is_create2 else Mainnet (mainnet_instruction spec op)
    | None => Mainnet (mainnet_instruction spec op)
    end) ∧
  (∀ op, gas_table (ge_instruction evm) op = mainnet_static_gas spec op) ∧
  ge_db evm = db ∧ ge_cfg evm = cfg ∧ ge_block evm = block.
Proof.
  intros Hgas evm spec. split_and!; try done.
  - intros a. apply custom_precompiles_last.
  - intros op. unfold evm, build_evm, guarded_opcode. simpl. fold spec.
    destruct (forbid && _); simpl; repeat case_decide; done.
  - intros op. specialize (Hgas op). unfold evm, build_evm. simpl. fold spec in Hgas |- *.
    destruct (forbid && _); simpl; [|done]. unfold guarded_opcode in Hgas.
    repeat case_decide; try done; symmetry; apply Hgas; eauto.
Qed.

(** A worker's executor is built without a panic from what the scheduler holds: the planner exists
    exactly when the normalized policy asks for it, and the policy only guards where the fork has
    delegation. *)
Lemma worker_executor_built is_prague txs c c' planner db cfg block custom :
  new_with_runtime_config is_prague txs c = Done (c', planner) →
  b_address (coordinated db) = block_beneficiary block →
  GrevmExecutor_new db cfg block custom (cfg_delegated_safety c') planner =
  Done (mkGrevmExecutor (build_evm db cfg block custom (is_prague && forbid_delegated_create (cfg_delegated_safety c))) planner).
Proof.
  unfold new_with_runtime_config. intros (_ & _ & [= <- <-])%outcome_bind_Done Hb. unfold GrevmExecutor_new.
  unfold beneficiary_matches, matches. rewrite Hb, bool_decide_eq_true_2 by done. simpl.
  destruct is_prague; simpl; [|done]. by destruct (reserve_delegated_balance (cfg_delegated_safety c)).
Qed.

End build.

(** ** Witness *)

Section examples.

(** Forks are numbers, the fork of delegation is 20; no opcode has static gas. *)
#[local] Instance bx_tables : RevmTables nat unit string := {|
  is_enabled_in a b := Nat.leb b a;
  PRAGUE := 20; CREATE := 240; CREATE2 := 245;
  mainnet_instruction _ _ := tt;
  mainnet_static_gas _ _ := 0%Z;
  mainnet_precompile _ a := if decide (a = 1%Z) then Some "ecrecover" else None
|}.
#[local] Existing Instance pc_internals.

(** Address 9 is registered twice. *)
Definition bx_second : DynParallelPrecompile := dyn_new "second" (λ _, pc_program).
Definition bx_custom : list (Address * DynParallelPrecompile) := [(9%Z, pc_dyn); (9%Z, bx_second)].

Lemma build_evm_exact_witness :
  let evm := build_evm (λ c : nat, c) tt 20 tt bx_custom true in
  instruction_table (ge_instruction evm) 245%Z = Guarded true ∧
  ge_precompiles evm 1%Z = Some (StandardPrecompile "ecrecover") ∧
  ge_precompiles evm 9%Z = Some (CustomPrecompile (to_alloy bx_second)).
Proof.
  destruct (build_evm_exact (λ c : nat, c) tt 20 tt bx_custom true) as (Hp & Hi & _); [done|].
  split; [exact (Hi 245%Z)|]. split; [exact (Hp 1%Z)|exact (Hp 9%Z)].
Defined.

End examples.
