(* ===== verification/Collections.v ===== *)
(** The collections of the Rust standard library that the tools and test utilities use.

    A [BTreeMap] is a finite map whose iteration visits the keys in ascending order; a slice is
    split by [chunks]. *)

From S2P Require Import Prelude.
From stdpp Require Import sorting.

(** ** Ordered iteration *)

(** The keys of a [BTreeMap] and the elements of a [BTreeSet], in order. *)
Definition btree_elements (X : gset Z) : list Z := merge_sort Z.le (elements X).
Definition btree_keys {A} (m : gmap Z A) : list Z := btree_elements (dom m).
Definition btree_iter {A} (m : gmap Z A) : list (Z * A) :=
  omap (λ k, pair k <$> m !! k) (btree_keys m).

(** [entry(k).or_insert(v)]. *)
Definition or_insert {A} (k : Z) (v : A) (m : gmap Z A) : gmap Z A :=
  match m !! k with Some _ => m | None => <[k := v]> m end.

(** [slice.chunks(n)] for a positive [n]: every chunk takes at least one element, so the length
    of the slice bounds their number. *)
Fixpoint chunks_loop {A} (fuel n : nat) (l : list A) : list (list A) :=
  match fuel, l with
  | S fuel, _ :: _ => take n l :: chunks_loop fuel n (drop n l)
  | _, _ => []
  end.
Definition chunks {A} (n : nat) (l : list A) : list (list A) := chunks_loop (length l) n l.

(** [(lo..=hi)]. *)
Definition range_inclusive (lo hi : Z) : list Z := seqZ lo (hi - lo + 1).

(** ** Lemmas *)

Lemma elem_of_btree_elements X x : x ∈ btree_elements X ↔ x ∈ X.
Proof. unfold btree_elements. by rewrite merge_sort_Permutation, elem_of_elements. Qed.

Lemma btree_elements_NoDup X : NoDup (btree_elements X).
Proof. unfold btree_elements. rewrite merge_sort_Permutation. apply NoDup_elements. Qed.

Lemma btree_elements_Sorted X : Sorted Z.le (btree_elements X).
Proof. apply (Sorted_merge_sort _). Qed.

Lemma btree_elements_ext X Y : X ≡ Y → btree_elements X = btree_elements Y.
Proof. intros HXY. apply leibniz_equiv in HXY. by subst. Qed.

Lemma elem_of_btree_iter {A} (m : gmap Z A) k v : (k, v) ∈ btree_iter m ↔ m !! k = Some v.
Proof.
  unfold btree_iter, btree_keys. rewrite list_elem_of_omap. split.
  - intros (k' & _ & (v' & Hv & [= <- <-])%fmap_Some). done.
  - intros Hv. exists k. rewrite elem_of_btree_elements, elem_of_dom, Hv. by split.
Qed.

Lemma omap_pair_keys {A} (m : gmap Z A) ks :
  (∀ k, k ∈ ks → is_Some (m !! k)) → (omap (λ k, pair k <$> m !! k) ks).*1 = ks.
Proof.
  induction ks as [|k ks IH]; intros Hks; [done|]. simpl.
  destruct (Hks k) as [v ->]; [by left|]. simpl. f_equal. apply IH. intros. apply Hks. by right.
Qed.

Lemma btree_iter_keys {A} (m : gmap Z A) : (btree_iter m).*1 = btree_keys m.
Proof.
  apply omap_pair_keys. intros k. unfold btree_keys. rewrite elem_of_btree_elements. apply elem_of_dom.
Qed.

Lemma btree_iter_NoDup {A} (m : gmap Z A) : NoDup (btree_iter m).*1.
Proof. rewrite btree_iter_keys. apply btree_elements_NoDup. Qed.

Lemma btree_iter_to_map {A} (m : gmap Z A) : list_to_map (btree_iter m) = m.
Proof.
  apply map_eq. intros k. apply option_eq. intros v.
  rewrite <-elem_of_list_to_map by apply btree_iter_NoDup. apply elem_of_btree_iter.
Qed.

Lemma lookup_or_insert {A} k (v : A) m k' :
  or_insert k v m !! k' = if decide (k = k') then Some (default v (m !! k)) else m !! k'.
Proof.
  unfold or_insert. case_decide as Hk; [subst|]; destruct (m !! _) eqn:Hm; simpl;
    rewrite ?lookup_insert_eq, ?lookup_insert_ne by done; done.
Qed.

Lemma chunks_loop_concat {A} fuel n (l : list A) : 0 < n → length l ≤ fuel → concat (chunks_loop fuel n l) = l.
Proof.
  intros Hn. revert l. induction fuel as [|fuel IH]; intros [|x l] Hl; simpl in *; [done|lia|done|].
  rewrite IH; [by rewrite (take_drop n (x :: l))|]. rewrite length_drop. simpl. lia.
Qed.

Lemma concat_chunks {A} n (l : list A) : 0 < n → concat (chunks n l) = l.
Proof. intros. by apply chunks_loop_concat. Qed.

Lemma chunks_elem {A} n (l : list A) c x : 0 < n → c ∈ chunks n l → x ∈ c → x ∈ l.
Proof.
  intros Hn Hc Hx. rewrite <-(concat_chunks n l Hn). apply list_elem_of_In, in_concat.
  exists c. by rewrite <-!list_elem_of_In.
Qed.

Lemma elem_of_range_inclusive lo hi x : x ∈ range_inclusive lo hi ↔ (lo ≤ x ≤ hi)%Z.
Proof. unfold range_inclusive. rewrite elem_of_seqZ. lia. Qed.

Lemma chunks_loop_length {A} fuel n (l : list A) : length (chunks_loop fuel n l) ≤ fuel.
Proof. revert l. induction fuel as [|fuel IH]; intros [|x l]; simpl; [lia..|]. specialize (IH (drop n (x :: l))). lia. Qed.

Lemma chunks_length {A} n (l : list A) : length (chunks n l) ≤ length l.
Proof. apply chunks_loop_length. Qed.

Lemma range_inclusive_length lo hi : length (range_inclusive lo hi) = Z.to_nat (hi - lo + 1).
Proof. apply length_seqZ. Qed.

Lemma btree_iter_length {A} (m : gmap Z A) : length (btree_iter m) = size m.
Proof.
  rewrite <-(length_fmap fst), btree_iter_keys. unfold btree_keys, btree_elements.
  rewrite merge_sort_Permutation. by rewrite <-size_dom.
Qed.

Lemma btree_iter_inj {A} (m n : gmap Z A) : btree_iter m = btree_iter n → m = n.
Proof. intros Heq. by rewrite <-(btree_iter_to_map m), Heq, btree_iter_to_map. Qed.

(** Two ordered iterations side by side visit the same keys with related values exactly when
    the maps are related key by key. *)
Lemma btree_iter_Forall2 {A B} (P : A → B → Prop) (m : gmap Z A) (n : gmap Z B) :
  Forall2 (λ p q, p.1 = q.1 ∧ P p.2 q.2) (btree_iter m) (btree_iter n) ↔ ∀ a, option_Forall2 P (m !! a) (n !! a).
Proof.
  split.
  - intros HF a. destruct (m !! a) as [x|] eqn:Hm.
    + apply elem_of_btree_iter, list_elem_of_lookup_1 in Hm as [i Hi].
      destruct (Forall2_lookup_l _ _ _ _ _ HF Hi) as ([a' y] & Hj & Heq & HP). simpl in *. subst a'.
      apply list_elem_of_lookup_2, elem_of_btree_iter in Hj. rewrite Hj. by constructor.
    + destruct (n !! a) as [y|] eqn:Hn; [|constructor].
      apply elem_of_btree_iter, list_elem_of_lookup_1 in Hn as [i Hi].
      destruct (Forall2_lookup_r _ _ _ _ _ HF Hi) as ([a' x] & Hj & Heq & HP). simpl in *. subst a'.
      apply list_elem_of_lookup_2, elem_of_btree_iter in Hj. by rewrite Hj in Hm.
  - intros HP. assert (Hdom : dom m = dom n).
    { apply set_eq. intros a. rewrite !elem_of_dom. destruct (HP a); split; intros [? ?]; eauto; done. }
    unfold btree_iter, btree_keys. rewrite <-Hdom. generalize (btree_elements (dom m)). intros ks.
    induction ks as [|k ks IH]; simpl; [constructor|]. destruct (HP k); simpl; [|done]. by constructor.
Qed.

Lemma zip_Forall2 {A B} (P : A → B → Prop) l k :
  length l = length k → Forall (λ xy, P xy.1 xy.2) (zip l k) ↔ Forall2 P l k.
Proof.
  revert k. induction l as [|x l IH]; intros [|y k] Hlen; simpl in *; [|lia|lia|].
  - split; [constructor|by constructor].
  - rewrite Forall_cons, Forall2_cons, IH by lia. done.
Qed.
