(* ===== verification/Text.v ===== *)
(** Text and JSON of the tools (src/src/bin, src/src/test_utils/common/mainnet.rs).

    The string functions of the Rust standard library that the tools use, and the interface of
    serde_json's [Value] they read responses through. *)

From S2P Require Import Prelude Model.
From Stdlib Require Import Ascii.

Open Scope string_scope.
Open Scope list_scope.
Open Scope nat_scope.

(** ** Strings *)

Definition ascii_lower (c : ascii) : ascii :=
  let n := nat_of_ascii c in
  if decide (65 ≤ n ≤ 90) then ascii_of_nat (n + 32) else c.

(** [str::to_ascii_lowercase]. *)
Fixpoint to_ascii_lowercase (s : string) : string :=
  match s with EmptyString => EmptyString | String c s => String (ascii_lower c) (to_ascii_lowercase s) end.

(** [str::eq_ignore_ascii_case]. *)
Definition eq_ignore_ascii_case (s t : string) : bool := bool_decide (to_ascii_lowercase s = to_ascii_lowercase t).

(** [str::strip_prefix]. *)
Fixpoint str_strip_prefix (p s : string) : option string :=
  match p, s with
  | EmptyString, _ => Some s
  | String a p, String b s => if decide (a = b) then str_strip_prefix p s else None
  | _, _ => None
  end.

(** [str::contains]. *)
Fixpoint contains (s sub : string) : bool :=
  match str_strip_prefix sub s, s with
  | Some _, _ => true
  | None, EmptyString => false
  | None, String _ s => contains s sub
  end.

(** [str::trim_start_matches]: the prefix is removed as often as it occurs; each removal is of
    at least one character, so the length of the string bounds their number. *)
Fixpoint trim_loop (fuel : nat) (p s : string) : string :=
  match fuel with
  | 0 => s
  | S fuel => match str_strip_prefix p s with Some s => trim_loop fuel p s | None => s end
  end.
Definition trim_start_matches (p s : string) : string := trim_loop (String.length s) p s.

Lemma strip_prefix_length p s s' : str_strip_prefix p s = Some s' → String.length s = String.length p + String.length s'.
Proof.
  revert s. induction p as [|a p IH]; intros [|b s]; simpl; [by intros [= <-]..|done|].
  case_decide; [|done]. intros ->%IH. done.
Qed.

(** The bound is enough: nothing is left to remove. *)
Lemma trim_start_matches_done p s : p ≠ "" → str_strip_prefix p (trim_start_matches p s) = None.
Proof.
  intros Hp. unfold trim_start_matches.
  assert (Hgen : ∀ fuel s, String.length s ≤ fuel → str_strip_prefix p (trim_loop fuel p s) = None); [|by apply Hgen].
  intros fuel. induction fuel as [|fuel IH]; intros t Ht; simpl;
    (destruct (str_strip_prefix p t) as [t'|] eqn:Hs; [|done]); apply strip_prefix_length in Hs;
    (destruct p; [done|]); simpl in *; [lia|]. apply IH. lia.
Qed.

(** ** Numbers *)

Definition radix_digit (c : ascii) : option Z :=
  let n := Z.of_nat (nat_of_ascii c) in
  if decide (48 ≤ n ≤ 57)%Z then Some (n - 48)%Z
  else if decide (97 ≤ n ≤ 122)%Z then Some (n - 87)%Z
  else if decide (65 ≤ n ≤ 90)%Z then Some (n - 55)%Z
  else None.

Fixpoint radix_digits (radix max acc : Z) (s : string) : option Z :=
  match s with
  | EmptyString => Some acc
  | String c s =>
    match radix_digit c with
    | Some d =>
      if decide (d < radix)%Z then
        let acc := (acc * radix + d)%Z in
        if decide (acc ≤ max)%Z then radix_digits radix max acc s else None
      else None
    | None => None
    end
  end.

(** [from_str_radix] of an unsigned type: an optional plus sign, then digits within range. *)
Definition from_str_radix (radix max : Z) (s : string) : option Z :=
  let digits := match s with String c r => if decide (c = "+"%char) then r else s | EmptyString => s end in
  match digits with
  | EmptyString => None
  | _ => radix_digits radix max 0 digits
  end.

(** The digits of [format!("{n:x}")]; sixteen are enough for a [u64]. *)
Definition hex_digit (n : Z) : ascii := ascii_of_nat (Z.to_nat (if decide (n < 10)%Z then n + 48 else n + 87)).
Fixpoint hex_loop (fuel : nat) (n : Z) (acc : string) : string :=
  match fuel with
  | 0 => acc
  | S fuel =>
    let acc := String (hex_digit (n mod 16)) acc in
    if decide (n < 16)%Z then acc else hex_loop fuel (n / 16) acc
  end.
Definition to_hex (n : Z) : string := hex_loop 16 n "".

(** [format!("0x{n:x}")]. *)
Definition block_tag (n : Z) : string := "0x" +:+ to_hex n.

Lemma radix_digit_hex d : (0 ≤ d < 16)%Z → radix_digit (hex_digit d) = Some d.
Proof.
  intros Hd. assert (Hin : d ∈ seqZ 0 16) by (apply elem_of_seqZ; lia). revert Hin. clear Hd.
  vm_compute (seqZ 0 16). rewrite !elem_of_cons, elem_of_nil.
  intros Hin. repeat destruct Hin as [->|Hin]; reflexivity || done.
Qed.

Lemma radix_digits_hex fuel n s :
  (0 ≤ n ≤ U64_MAX)%Z → (n < 16 ^ Z.of_nat fuel)%Z → 0 < fuel →
  radix_digits 16 U64_MAX 0 (hex_loop fuel n s) = radix_digits 16 U64_MAX n s.
Proof.
  revert n s. induction fuel as [|fuel IH]; intros n s Hn Hf Hpos; [lia|].
  assert (Hdig : ∀ a, (a * 16 + n mod 16 = n)%Z →
    radix_digits 16 U64_MAX a (String (hex_digit (n mod 16)) s) = radix_digits 16 U64_MAX n s).
  { intros a Ha. pose proof (Z.mod_pos_bound n 16). cbn [radix_digits]. rewrite radix_digit_hex by lia.
    rewrite decide_True by lia. cbv zeta. rewrite Ha. by rewrite decide_True by lia. }
  cbn [hex_loop]. case_decide as Hlt.
  - apply Hdig. rewrite Z.mod_small by lia. lia.
  - assert (Hd := Z.div_mod n 16 ltac:(lia)). pose proof (Z.mod_pos_bound n 16).
    rewrite Nat2Z.inj_succ, Z.pow_succ_r in Hf by lia.
    assert (0 < fuel). { destruct fuel; [|lia]. simpl in Hf. lia. }
    rewrite IH by (done || lia). apply Hdig. lia.
Qed.

Lemma hex_loop_nonempty fuel n s : ∃ c r, hex_loop (S fuel) n s = String c r ∧ c ≠ "+"%char ∧ c ≠ "x"%char.
Proof.
  assert (Hc : ∀ m, hex_digit (m mod 16) ≠ "+"%char ∧ hex_digit (m mod 16) ≠ "x"%char).
  { intros m. pose proof (Z.mod_pos_bound m 16). pose proof (radix_digit_hex (m mod 16)) as Hr.
    split; intros Heq; rewrite Heq in Hr; assert (None = Some (m mod 16)%Z ∨ (m mod 16 = 33)%Z) as [?|?]; try done; try lia.
    - left. rewrite <-Hr by lia. done.
    - right. assert (Some 33%Z = Some (m mod 16)%Z) as [= <-] by (rewrite <-Hr by lia; done). done. }
  revert n s. induction fuel as [|fuel IH]; intros n s; cbn [hex_loop].
  - case_decide; eexists _, _; split; done || apply Hc.
  - case_decide; [eexists _, _; split; [done|apply Hc]|]. apply IH.
Qed.

(** Strings without the letter of the prefix. *)
Fixpoint no_x (s : string) : Prop := match s with EmptyString => True | String c s => c ≠ "x"%char ∧ no_x s end.

Lemma hex_digit_no_x d : (0 ≤ d < 16)%Z → hex_digit d ≠ "x"%char.
Proof. intros Hd Heq. pose proof (radix_digit_hex d Hd) as Hr. rewrite Heq in Hr. vm_compute in Hr. simplify_eq. lia. Qed.

Lemma hex_loop_no_x fuel n s : no_x s → no_x (hex_loop fuel n s).
Proof.
  revert n s. induction fuel as [|fuel IH]; intros n s Hs; cbn [hex_loop]; [done|].
  assert (no_x (String (hex_digit (n mod 16)) s)).
  { split; [|done]. apply hex_digit_no_x, Z.mod_pos_bound. lia. }
  case_decide; [done|]. by apply IH.
Qed.

Lemma strip_0x_no_x s : no_x s → str_strip_prefix "0x" s = None.
Proof.
  destruct s as [|a [|b s]]; simpl; [done|by case_decide|]. intros (_ & Hb & _). case_decide; [|done].
  rewrite decide_False; [done|]. by intros <-.
Qed.

(** The prefix of a hexadecimal tag is removed once. *)
Lemma trim_block_tag n : trim_start_matches "0x" (block_tag n) = to_hex n.
Proof.
  assert (Hx : no_x (to_hex n)) by by apply hex_loop_no_x.
  unfold trim_start_matches, block_tag.
  change (trim_loop (S (S (String.length (to_hex n)))) "0x" ("0x" +:+ to_hex n) = to_hex n).
  cbn [trim_loop]. change (str_strip_prefix "0x" ("0x" +:+ to_hex n)) with (Some (to_hex n)).
  cbv iota beta. by rewrite strip_0x_no_x.
Qed.

Lemma radix_digit_nonneg c d : radix_digit c = Some d → (0 ≤ d)%Z.
Proof. unfold radix_digit. repeat case_decide; intros [= <-]; lia. Qed.

(** What is parsed is in range. *)
Lemma from_str_radix_range radix max s n : (0 < radix)%Z → from_str_radix radix max s = Some n → (0 ≤ n ≤ Z.max 0 max)%Z.
Proof.
  intros Hr. assert (Hgen : ∀ s acc, (0 ≤ acc ≤ Z.max 0 max)%Z → radix_digits radix max acc s = Some n → (0 ≤ n ≤ Z.max 0 max)%Z).
  { intros t. induction t as [|c t IH]; intros acc Ha; simpl; [by intros [= <-]|].
    destruct (radix_digit c) as [d|] eqn:Hd; [|done]. apply radix_digit_nonneg in Hd. case_decide; [|done].
    case_decide; [|done]. apply IH. nia. }
  unfold from_str_radix. destruct s as [|c s]; [done|]. case_decide; [destruct s; [done|]|]; apply Hgen; lia.
Qed.

(** A number in hexadecimal reads back. *)
Lemma from_str_radix_hex n : (0 ≤ n ≤ U64_MAX)%Z → from_str_radix 16 U64_MAX (to_hex n) = Some n.
Proof.
  intros Hn. unfold from_str_radix, to_hex. destruct (hex_loop_nonempty 15 n "") as (c & r & Hs & Hc & _). rewrite Hs.
  rewrite decide_False by done. rewrite <-Hs, radix_digits_hex; [done|done|unfold U64_MAX in Hn; lia|lia].
Qed.

(** ** JSON *)

(** serde_json's [Value]: the constructors and the accessors the tools use. An object is the
    sequence of its entries, in the order its iterator gives them. *)
Class Json := {
  Value : Type;
  JNull : Value;
  JBool : bool → Value;
  JNumber : Z → Value;
  JString : string → Value;
  JArray : list Value → Value;
  JObject : list (string * Value) → Value;
  as_str : Value → option string;
  as_u64 : Value → option Z;
  as_i64 : Value → option Z;
  as_array : Value → option (list Value);
  as_object : Value → option (list (string * Value));
  is_null : Value → bool;
  json_size : Value → nat
}.

(** A value is a finite tree, its objects have one entry per key, and its integers fit a [u64]. *)
Class JsonLaws `{!Json} := {
  size_array v l x : as_array v = Some l → x ∈ l → json_size x < json_size v;
  size_object v l k x : as_object v = Some l → (k, x) ∈ l → json_size x < json_size v;
  object_keys v l : as_object v = Some l → NoDup l.*1;
  as_u64_range v n : as_u64 v = Some n → in_range U64_MAX n
}.

(** [Map::get]. *)
Fixpoint map_get {V} (l : list (string * V)) (key : string) : option V :=
  match l with
  | [] => None
  | (k, v) :: l => if decide (k = key) then Some v else map_get l key
  end.

Lemma map_get_elem {V} (l : list (string * V)) k v : map_get l k = Some v → (k, v) ∈ l.
Proof.
  induction l as [|[k' v'] l IH]; [done|]. simpl. case_decide; intros; simplify_eq; [by left|right; auto].
Qed.

Section json.
Context `{!Json}.

(** [Value::get] with a key: the entry of an object, and nothing for any other value. *)
Definition get (v : Value) (key : string) : option Value :=
  match as_object v with Some l => map_get l key | None => None end.

(** [v.get(key).and_then(Value::as_str)] and [v.get(key).and_then(Value::as_array)]. *)
Definition get_str (v : Value) (key : string) : option string := get v key ≫= as_str.
Definition get_array (v : Value) (key : string) : option (list Value) := get v key ≫= as_array.

Lemma size_get `{!JsonLaws} v k x : get v k = Some x → json_size x < json_size v.
Proof.
  unfold get. case_match eqn:Ho; [|done]. intros Hx. eapply size_object; [done|by apply map_get_elem].
Qed.
End json.

(** JSON trees, for the examples. *)
#[warnings="-register-all"]
Inductive Tree :=
| TNull
| TBool (b : bool)
| TNumber (n : Z)
| TString (s : string)
| TArray (l : list Tree)
| TObject (l : list (string * Tree)).

Fixpoint tree_size (t : Tree) : nat :=
  match t with
  | TArray l => S (foldr (λ t n, tree_size t + n) 0 l)
  | TObject l => S (foldr (λ kt n, tree_size kt.2 + n) 0 l)
  | _ => 1
  end.

#[local] Definition first_entries (l : list (string * Tree)) : list (string * Tree) :=
  foldr (λ kt l, kt :: filter (λ kt', kt'.1 ≠ kt.1) l) [] l.

Definition tree_json : Json := {|
  Value := Tree;
  JNull := TNull;
  JBool := TBool;
  JNumber := TNumber;
  JString := TString;
  JArray := TArray;
  JObject := TObject;
  as_str t := match t with TString s => Some s | _ => None end;
  as_u64 t := match t with TNumber n => if decide (0 ≤ n ≤ U64_MAX)%Z then Some n else None | _ => None end;
  as_i64 t := match t with TNumber n => if decide (- 2 ^ 63 ≤ n < 2 ^ 63)%Z then Some n else None | _ => None end;
  as_array t := match t with TArray l => Some l | _ => None end;
  as_object t := match t with TObject l => Some (first_entries l) | _ => None end;
  is_null t := match t with TNull => true | _ => false end;
  json_size := tree_size
|}.

Lemma tree_size_entries l kt : kt ∈ first_entries l → kt ∈ l.
Proof.
  induction l as [|kt' l IH]; simpl; [done|]. rewrite !elem_of_cons, list_elem_of_filter. naive_solver.
Qed.

Lemma elem_sum_le {A} (f : A → nat) (l : list A) x : x ∈ l → f x ≤ foldr (λ x n, f x + n) 0 l.
Proof. induction 1; simpl; lia. Qed.

Lemma first_entries_keys l : NoDup (first_entries l).*1.
Proof.
  induction l as [|kt l IH]; simpl; constructor.
  - intros ([k v] & -> & [Hk _]%list_elem_of_filter)%list_elem_of_fmap. done.
  - revert IH. generalize (first_entries l). intros m. induction m as [|kt' m IHm]; [done|].
    rewrite filter_cons. simpl. intros [Hn Hd]%NoDup_cons. case_decide; simpl; [|auto].
    constructor; [|auto]. intros ([k v] & Hk & [_ Hm]%list_elem_of_filter)%list_elem_of_fmap.
    apply Hn. apply list_elem_of_fmap. by eexists.
Qed.

Lemma tree_json_laws : @JsonLaws tree_json.
Proof.
  split; simpl.
  - intros [] ? x Hl Hx; simplify_eq. simpl. by apply Nat.lt_succ_r, (elem_sum_le tree_size).
  - intros [] ? k x Hl Hx; simplify_eq. apply tree_size_entries in Hx. simpl.
    by apply Nat.lt_succ_r, (elem_sum_le (λ kt : string * Tree, tree_size kt.2) _ (k, x)).
  - intros [] ? Hl; simplify_eq. apply first_entries_keys.
  - intros [] m Hm; simplify_eq. by case_decide; simplify_eq.
Qed.
