(* ===== verification/MemoryDb.v ===== *)
(** The in-memory test database and the storage builder: src/src/test_utils/common/storage.rs.

    Words are values of [Z] below 2^256; the builder writes through their 32 big-endian bytes.
    The functions of alloy and revm the test utilities call are the class [Alloy]. *)

From S2P Require Import Prelude Model World.
From stdpp Require Import pretty.
From Stdlib Require Import Ascii.

(** alloy's and revm's parsing, hashing, address derivation and bytecode checks. *)
Class Alloy := {
  keccak256 : list Z → B256;
  KECCAK_EMPTY : B256;
  new_raw_checked : list Z → option Bytecode;
  hash_slow : Bytecode → B256;
  parse_address : string → result string Address;
  parse_hash : string → result string B256;
  parse_hex_bytes : string → result string (list Z);
  u256_from_str_radix : string → Z → result string U256;
  u256_from_str : string → result string U256;
  create_address : Address → Z → Address;
  address_to_string : Address → string
}.

(** ** Bytes *)

(** The bytes of a string. *)
Definition as_bytes (s : string) : list Z := (λ c, Z.of_nat (nat_of_ascii c)) <$> String.list_ascii_of_string s.

(** The [n] big-endian bytes of a word, and the word of a byte sequence. *)
Fixpoint to_be_bytes (n : nat) (v : Z) : list Z :=
  match n with 0 => [] | S n => to_be_bytes n (v / 256) ++ [(v mod 256)%Z] end.
Definition from_be_bytes (l : list Z) : Z := foldl (λ acc b, acc * 256 + b)%Z 0%Z l.

Lemma to_be_bytes_length n v : length (to_be_bytes n v) = n.
Proof. revert v. induction n as [|n IH]; intros; simpl; [done|]. rewrite length_app, IH. simpl. lia. Qed.

Lemma from_be_bytes_snoc l b : from_be_bytes (l ++ [b]) = (from_be_bytes l * 256 + b)%Z.
Proof. unfold from_be_bytes. by rewrite foldl_app. Qed.

Lemma from_to_be_bytes n v : from_be_bytes (to_be_bytes n v) = (v mod 256 ^ Z.of_nat n)%Z.
Proof.
  revert v. induction n as [|n IH]; intros v; [by rewrite Z.mod_1_r|].
  cbn [to_be_bytes]. rewrite from_be_bytes_snoc, IH, Nat2Z.inj_succ, Z.pow_succ_r by lia.
  rewrite (Z.rem_mul_r v 256) by lia. lia.
Qed.

Definition is_byte (b : Z) : Prop := (0 ≤ b < 256)%Z.

Lemma from_be_bytes_range l : Forall is_byte l → (0 ≤ from_be_bytes l < 256 ^ Z.of_nat (length l))%Z.
Proof.
  induction l as [|b l IH] using rev_ind; [done|]. rewrite Forall_app, Forall_singleton. intros [Hl Hb].
  rewrite from_be_bytes_snoc, length_app, Nat2Z.inj_add, Z.pow_add_r by lia. specialize (IH Hl).
  unfold is_byte in Hb. simpl length. lia.
Qed.

Lemma to_from_be_bytes l : Forall is_byte l → to_be_bytes (length l) (from_be_bytes l) = l.
Proof.
  induction l as [|b l IH] using rev_ind; [done|]. rewrite Forall_app, Forall_singleton. intros [Hl Hb].
  unfold is_byte in Hb. rewrite from_be_bytes_snoc, length_app, Nat.add_comm. simpl.
  rewrite Z.div_add_l, Z.div_small, Z.add_0_r, IH by (done || lia).
  rewrite (Z.add_comm (_ * 256)), Z.mod_add, Z.mod_small by lia. done.
Qed.

Lemma to_be_bytes_bytes n v : Forall is_byte (to_be_bytes n v).
Proof.
  revert v. induction n as [|n IH]; intros v; simpl; [done|]. apply Forall_app. split; [done|].
  apply Forall_singleton. apply Z.mod_pos_bound. lia.
Qed.

(** Byte [i] of a word, counted from the least significant one. *)
Definition byte_at (i : nat) (v : Z) : Z := (v / 256 ^ Z.of_nat i) mod 256.

Lemma to_be_bytes_lookup n v i : i < n → to_be_bytes n v !! i = Some (byte_at (n - 1 - i) v).
Proof.
  revert v. induction n as [|n IH]; intros v Hi; [lia|]. cbn [to_be_bytes].
  destruct (decide (i = n)) as [->|].
  - rewrite lookup_app_r, to_be_bytes_length, Nat.sub_diag by (rewrite to_be_bytes_length; lia).
    unfold byte_at. rewrite Nat.sub_succ, Nat.sub_0_r, Nat.sub_diag, Z.div_1_r. done.
  - rewrite lookup_app_l by (rewrite to_be_bytes_length; lia). rewrite IH by lia. unfold byte_at.
    replace (S n - 1 - i) with (S (n - 1 - i)) by lia. rewrite Nat2Z.inj_succ, Z.pow_succ_r, Z.div_div by lia. done.
Qed.

Lemma byte_at_lookup n v i : i < n → to_be_bytes n v !! (n - 1 - i) = Some (byte_at i v).
Proof. intros. rewrite to_be_bytes_lookup by lia. do 2 f_equal. lia. Qed.

(** ** InMemoryDB *)

(** revm's [PlainAccount]. *)
Record PlainAccount := mkPlainAccount {
  pa_info : AccountInfo;
  pa_storage : gmap U256 U256
}.

Record InMemoryDB := mkInMemoryDB {
  im_accounts : gmap Address PlainAccount;
  im_bytecodes : gmap B256 Bytecode;
  im_block_hashes : gmap Z B256;
  latency_us : Z
}.

Definition InMemoryDB_new (accounts : gmap Address PlainAccount) (bytecodes : gmap B256 Bytecode)
    (block_hashes : gmap Z B256) : InMemoryDB :=
  mkInMemoryDB accounts bytecodes block_hashes 0.

(** [CustomDBError], by the message it carries. *)
Inductive CustomDBError :=
| NoCodeByHash (h : B256)
| NoAccount (a : Address).

Section memory_db.
Context `{!Alloy}.

Definition im_basic_ref (db : InMemoryDB) (a : Address) : result CustomDBError (option AccountInfo) * InMemoryDB :=
  (Ok (pa_info <$> im_accounts db !! a), db).
Definition im_code_by_hash_ref (db : InMemoryDB) (h : B256) : result CustomDBError Bytecode * InMemoryDB :=
  (match im_bytecodes db !! h with Some c => Ok c | None => Err (NoCodeByHash h) end, db).
Definition im_storage_ref (db : InMemoryDB) (a : Address) (k : U256) : result CustomDBError U256 * InMemoryDB :=
  (match im_accounts db !! a with
   | Some acc => Ok (default 0%Z (pa_storage acc !! k))
   | None => Err (NoAccount a)
   end, db).
Definition im_block_hash_ref (db : InMemoryDB) (n : Z) : result CustomDBError B256 * InMemoryDB :=
  (Ok (match im_block_hashes db !! n with Some h => h | None => keccak256 (as_bytes (pretty n)) end), db).

#[export] Instance InMemoryDB_ref : DatabaseRef InMemoryDB CustomDBError := {|
  basic_ref := im_basic_ref;
  code_by_hash_ref := im_code_by_hash_ref;
  storage_ref := im_storage_ref;
  block_hash_ref := im_block_hash_ref
|}.

(** ** StorageBuilder *)

Record StorageBuilder := mkStorageBuilder { dict : gmap U256 U256 }.

Definition StorageBuilder_new : StorageBuilder := mkStorageBuilder ∅.

Definition sb_set (slot value : U256) (b : StorageBuilder) : StorageBuilder :=
  mkStorageBuilder (<[slot := value]> (dict b)).

Definition u256_wrapping_add (x y : U256) : U256 := (x + y) mod 2 ^ 256.

Fixpoint set_many_loop (starting_slot : U256) (index : nat) (value : list U256) (b : StorageBuilder) : StorageBuilder :=
  match value with
  | [] => b
  | item :: value =>
    let slot := u256_wrapping_add starting_slot (Z.of_nat index) in
    set_many_loop starting_slot (S index) value (mkStorageBuilder (<[slot := item]> (dict b)))
  end.
Definition sb_set_many (starting_slot : U256) (value : list U256) (b : StorageBuilder) : StorageBuilder :=
  set_many_loop starting_slot 0 value b.

(** [buffer[a..b].copy_from_slice(src)]: the range must be inside the buffer. *)
Definition copy_range (buffer : list Z) (a b : nat) (src : list Z) : list Z :=
  take a buffer ++ src ++ drop b buffer.

(** The indices of the two slices underflow, and the slices panic, unless the field fits. *)
Definition set_with_offset (key : U256) (offset len : nat) (value : U256) (b : StorageBuilder) : outcome StorageBuilder :=
  let entry := default 0%Z (dict b !! key) in
  let buffer := to_be_bytes 32 entry in
  let value_buffer := to_be_bytes 32 value in
  let! _ := assert_that (bool_decide (offset + len ≤ 32)) in
  let buffer := copy_range buffer (32 - offset - len) (32 - offset) (drop (32 - len) value_buffer) in
  Done (mkStorageBuilder (<[key := from_be_bytes buffer]> (dict b))).

Definition sb_build (b : StorageBuilder) : gmap U256 U256 := dict b.

(** ** Slot keys and values *)

Definition from_address (a : Address) : U256 := a.

(** The short string encoding of Solidity: the text left aligned, twice its length in the last
    byte. *)
Definition right_padding_from (l : list Z) : list Z := l ++ replicate (32 - length l) 0%Z.
Definition left_padding_from (l : list Z) : list Z := replicate (32 - length l) 0%Z ++ l.
Definition from_short_string (text : string) : outcome U256 :=
  let bytes := as_bytes text in
  let! _ := assert_that (bool_decide (length bytes < 32)) in
  Done (from_be_bytes (zip_with Z.lor (right_padding_from bytes)
                         (left_padding_from [(Z.of_nat (length bytes) * 2) mod 256]%Z))).

Definition from_indices (slot : U256) (indices : list U256) : U256 :=
  foldl (λ result index, keccak256 (to_be_bytes 32 index ++ to_be_bytes 32 result)) slot indices.

(** The two's complement of a signed tick. *)
Definition from_tick (tick : Z) : U256 := tick mod 2 ^ 256.

(** ** Properties *)

Lemma copy_range_lookup buffer a b src i :
  a ≤ b ≤ length buffer → length src = b - a →
  copy_range buffer a b src !! i = if decide (a ≤ i < b) then src !! (i - a) else buffer !! i.
Proof.
  intros Hab Hsrc. unfold copy_range. case_decide as Hi.
  - rewrite lookup_app_r, length_take, Nat.min_l by (rewrite ?length_take; lia). by rewrite lookup_app_l by lia.
  - destruct (decide (i < a)).
    + rewrite lookup_app_l by (rewrite length_take; lia). by rewrite lookup_take_lt.
    + rewrite lookup_app_r, length_take, Nat.min_l by (rewrite ?length_take; lia).
      rewrite lookup_app_r, lookup_drop by lia. f_equal. lia.
Qed.

(** The bytes of a field written into a word. *)
Lemma copy_field_bytes entry value offset len i :
  offset + len ≤ 32 → i < 32 →
  let w := from_be_bytes (copy_range (to_be_bytes 32 entry) (32 - offset - len) (32 - offset)
                            (drop (32 - len) (to_be_bytes 32 value))) in
  in_range U256_MAX w ∧
  byte_at i w = if decide (offset ≤ i < offset + len) then byte_at (i - offset) value else byte_at i entry.
Proof.
  intros Hfit Hi w. pose (l := copy_range (to_be_bytes 32 entry) (32 - offset - len) (32 - offset)
                                 (drop (32 - len) (to_be_bytes 32 value))).
  assert (Hlen : length l = 32).
  { unfold l, copy_range. rewrite !length_app, length_take, !length_drop, !to_be_bytes_length. lia. }
  assert (Hb : Forall is_byte l).
  { unfold l, copy_range. rewrite !Forall_app. repeat split;
      [apply Forall_take|apply Forall_drop|apply Forall_drop]; apply to_be_bytes_bytes. }
  split.
  { pose proof (from_be_bytes_range l Hb) as Hr. rewrite Hlen in Hr. unfold in_range, U256_MAX.
    change (w) with (from_be_bytes l). change (256 ^ Z.of_nat 32)%Z with (2 ^ 256)%Z in Hr. lia. }
  apply Some_inj. rewrite <-(byte_at_lookup 32) by done.
  assert (Hw : to_be_bytes 32 w = l) by (rewrite <-Hlen; by apply to_from_be_bytes).
  rewrite Hw. unfold l.
  rewrite copy_range_lookup by (rewrite ?length_drop, ?to_be_bytes_length; lia).
  case_decide; case_decide; try lia.
  - rewrite lookup_drop, <-(byte_at_lookup 32) by lia. f_equal. lia.
  - by rewrite <-(byte_at_lookup 32) by lia.
Qed.

(** Packing a field into a storage word: when the field fits the word, byte by byte the
    word of the key holds the low bytes of the value inside the field and its previous content
    outside, it stays within 256 bits, and every other key is untouched; a field that does not
    fit panics. *)
Lemma set_with_offset_packs key offset len value b :
  (32 < offset + len → set_with_offset key offset len value b = Panic) ∧
  (offset + len ≤ 32 → ∃ w b',
    set_with_offset key offset len value b = Done b' ∧ sb_build b' = <[key := w]> (sb_build b) ∧ in_range U256_MAX w ∧
    ∀ i, i < 32 → byte_at i w =
      if decide (offset ≤ i < offset + len) then byte_at (i - offset) value
      else byte_at i (default 0%Z (sb_build b !! key))).
Proof.
  unfold set_with_offset, sb_build. split; intros Hfit.
  - by rewrite bool_decide_eq_false_2 by lia.
  - rewrite bool_decide_eq_true_2 by done. eexists _, _. split; [done|]. split; [done|].
    split; [by apply (copy_field_bytes _ _ _ _ 0); [|lia]|]. intros i Hi. by apply copy_field_bytes.
Qed.

Lemma set_with_offset_packs_witness :
  30 + 1 ≤ 32 ∧ ∃ w b',
    set_with_offset 0 30 1 1 StorageBuilder_new = Done b' ∧ sb_build b' = <[0%Z := w]> (sb_build StorageBuilder_new) ∧
    in_range U256_MAX w ∧
    ∀ i, i < 32 → byte_at i w =
      if decide (30 ≤ i < 30 + 1) then byte_at (i - 30) 1 else byte_at i (default 0%Z (sb_build StorageBuilder_new !! 0%Z)).
Proof. split; [lia|]. apply (set_with_offset_packs 0 30 1 1 StorageBuilder_new). lia. Defined.

(** A packed word of the Uniswap pool's first slot: price, then tick, then the unlocked flag. *)
Example packed_slot :
  (let! b := set_with_offset 0 0 20 (2 ^ 96) StorageBuilder_new in
   let! b := set_with_offset 0 20 3 (from_tick (-2)) b in
   let! b := set_with_offset 0 30 1 1 b in Done (sb_build b !! 0%Z)) =
  Done (Some (2 ^ 96 + (2 ^ 24 - 2) * 2 ^ 160 + 2 ^ 240)%Z).
Proof. vm_compute. reflexivity. Qed.

End memory_db.
