(* ===== verification/Erc20.v ===== *)
(** Test accounts and the ERC20 fixtures: src/src/test_utils/common/account.rs and
    src/src/test_utils/erc20/.

    The compiled contract is a data file, the parameter [ERC20_TOKEN]. Random draws come from the
    class [Rng], one for each position of a counter that the generators thread. The theorems say
    that the built account has the storage layout of the contract, that call data decodes to its
    arguments, and that a generated batch is one a block can hold. *)

From S2P Require Import Prelude Model World Text MemoryDb.
From Stdlib Require Import Ascii.

(** ** Mock accounts *)

Section accounts.
Context `{!Alloy}.

Definition MINER_ADDRESS : Address := 255%Z.

Definition mock_miner_account : Address * PlainAccount :=
  (MINER_ADDRESS, mkPlainAccount (mkInfo 0 1 KECCAK_EMPTY None) ∅).

Definition ADDRESS_OFFSET : nat := 1000.
Definition mock_eoa_address (idx : nat) : Address := Z.of_nat (idx + ADDRESS_OFFSET).

Definition mock_eoa_account (idx : nat) : Address * PlainAccount :=
  (mock_eoa_address idx, mkPlainAccount (mkInfo 1000000000000000000 1 KECCAK_EMPTY None) ∅).

Definition mock_block_accounts (size : nat) : gmap Address PlainAccount :=
  let accounts := list_to_map (mock_eoa_account <$> seq 0 size) in
  let miner := mock_miner_account in
  <[miner.1 := miner.2]> accounts.

(** The block starts with the miner and the given number of funded accounts, nothing else. *)
Lemma mock_block_accounts_exact size a acc :
  mock_block_accounts size !! a = Some acc ↔
  (a, acc) = mock_miner_account ∨ a ≠ MINER_ADDRESS ∧ ∃ i, i < size ∧ (a, acc) = mock_eoa_account i.
Proof.
  unfold mock_block_accounts. rewrite lookup_insert_Some. simpl.
  assert (Hl : list_to_map (M:=gmap Address PlainAccount) (mock_eoa_account <$> seq 0 size) !! a = Some acc ↔
    (a, acc) ∈ mock_eoa_account <$> seq 0 size).
  { symmetry. apply elem_of_list_to_map. rewrite <-list_fmap_compose. apply NoDup_fmap_2_strong; [|apply NoDup_seq].
    intros i j _ _ Hij. simpl in Hij. unfold mock_eoa_address in Hij. lia. }
  rewrite Hl, list_elem_of_fmap. unfold mock_miner_account. split.
  - intros [[<- <-]|[Hne (i & Hi & Hin%elem_of_seq)]]; [by left|right]. split; [done|]. exists i. split; [lia|done].
  - intros [[= -> ->]|[Hne (i & Hi & Heq)]]; [by left|right]. split; [done|]. exists i. split; [done|]. apply elem_of_seq. lia.
Qed.
End accounts.

(** ** Assets *)

(** [str::trim] on ASCII white space. *)
Definition is_space (c : ascii) : bool := bool_decide (nat_of_ascii c ∈ [9; 10; 11; 12; 13; 32]).
Fixpoint trim_start (s : string) : string :=
  match s with
  | String c t => if is_space c then trim_start t else s
  | EmptyString => s
  end.
Fixpoint trim_end (s : string) : string :=
  match s with
  | String c t => match trim_end t with EmptyString => if is_space c then "" else String c "" | t => String c t end
  | EmptyString => s
  end.
Definition str_trim (s : string) : string := trim_end (trim_start s).

(** [Bytecode::new_raw(Bytes::from_hex(hex).unwrap())]. *)
Definition bytecode_from_hex `{!Alloy} (hex : string) : outcome Bytecode :=
  match parse_hex_bytes hex with
  | Ok bytes => match new_raw_checked bytes with Some c => Done c | None => Panic end
  | Err _ => Panic
  end.

(** The account of a deployed contract. *)
Definition contract_account `{!Alloy} (bytecode : Bytecode) (storage : gmap U256 U256) : PlainAccount :=
  mkPlainAccount (mkInfo 0 1 (hash_slow bytecode) (Some bytecode)) storage.

(** ** The token *)

Record ERC20Token := mkToken {
  tk_name : string;
  tk_symbol : string;
  tk_decimals : U256;
  initial_supply : U256;
  balances : gmap Address U256;
  allowances : gmap (Address * Address) U256
}.

Definition ERC20Token_new (name symbol : string) (decimals supply : U256) : ERC20Token :=
  mkToken name symbol decimals supply ∅ ∅.

Definition add_balances (addresses : list Address) (amount : U256) (t : ERC20Token) : ERC20Token :=
  foldl (λ t address,
    mkToken (tk_name t) (tk_symbol t) (tk_decimals t) (initial_supply t) (<[address := amount]> (balances t)) (allowances t))
    t addresses.

Definition add_allowances (addresses : list Address) (spender : Address) (amount : U256) (t : ERC20Token) : ERC20Token :=
  foldl (λ t address,
    mkToken (tk_name t) (tk_symbol t) (tk_decimals t) (initial_supply t) (balances t)
      (<[(address, spender) := amount]> (allowances t)))
    t addresses.

Section token.
Context `{!Alloy} (ERC20_TOKEN : string).

Definition balance_slot (a : Address) : U256 := from_indices 0 [from_address a].
Definition allowance_slot (p : Address * Address) : U256 := from_indices 1 [from_address p.1; from_address p.2].

Definition erc20_build (t : ERC20Token) : outcome PlainAccount :=
  let! bytecode := bytecode_from_hex (str_trim ERC20_TOKEN) in
  let store := StorageBuilder_new in
  let store := sb_set 0 0 store in
  let store := sb_set 1 0 store in
  let store := sb_set 2 (initial_supply t) store in
  let! name := from_short_string (tk_name t) in
  let store := sb_set 3 name store in
  let! symbol := from_short_string (tk_symbol t) in
  let store := sb_set 4 symbol store in
  let store := sb_set 5 (tk_decimals t) store in
  let store := map_fold (λ address amount store, sb_set (balance_slot address) amount store) store (balances t) in
  let store := map_fold (λ p amount store, sb_set (allowance_slot p) amount store) store (allowances t) in
  Done (contract_account bytecode (sb_build store)).

(** ** Layout *)

(** Writing the entries of a mapping, whose slots are distinct, one after the other. *)
Lemma fold_slots `{Countable K} (key : K → U256) (m : gmap K U256) store :
  (∀ i j, is_Some (m !! i) → is_Some (m !! j) → key i = key j → i = j) →
  let r := map_fold (λ i v s, sb_set (key i) v s) store m in
  (∀ i v, m !! i = Some v → dict r !! key i = Some v) ∧
  (∀ k, (∀ i, is_Some (m !! i) → key i ≠ k) → dict r !! k = dict store !! k).
Proof.
  revert m. apply (map_fold_weak_ind (λ r m, (∀ i j, is_Some (m !! i) → is_Some (m !! j) → key i = key j → i = j) →
    (∀ i v, m !! i = Some v → dict r !! key i = Some v) ∧
    (∀ k, (∀ i, is_Some (m !! i) → key i ≠ k) → dict r !! k = dict store !! k))).
  { intros _. split; [intros i v; by rewrite lookup_empty|done]. }
  intros i x m r Hi IH Hinj. destruct IH as [Hin Hout].
  { intros a b [va Ha] [vb Hb]. apply Hinj; apply lookup_insert_is_Some'; eauto. }
  split.
  - intros j v. rewrite lookup_insert_Some. intros [[<- <-]|[Hne Hj]]; simpl; [by rewrite lookup_insert_eq|].
    rewrite lookup_insert_ne; [by apply Hin|]. intros Heq. destruct Hne.
    apply Hinj; [by rewrite lookup_insert_eq|rewrite lookup_insert_ne by congruence; by eexists|done].
  - intros k Hk. simpl. rewrite lookup_insert_ne by (apply Hk; by rewrite lookup_insert_eq).
    apply Hout. intros j Hj. apply Hk. apply lookup_insert_is_Some'; eauto.
Qed.

(** No two storage locations of the token collide. *)
Record slots_distinct (t : ERC20Token) : Prop := {
  sd_balance a b : is_Some (balances t !! a) → is_Some (balances t !! b) → balance_slot a = balance_slot b → a = b;
  sd_allowance p q : is_Some (allowances t !! p) → is_Some (allowances t !! q) → allowance_slot p = allowance_slot q → p = q;
  sd_mappings a p : is_Some (balances t !! a) → is_Some (allowances t !! p) → balance_slot a ≠ allowance_slot p;
  sd_fixed_balance a : is_Some (balances t !! a) → (balance_slot a < 0 ∨ 5 < balance_slot a)%Z;
  sd_fixed_allowance p : is_Some (allowances t !! p) → (allowance_slot p < 0 ∨ 5 < allowance_slot p)%Z
}.

(** The account built for a token has the storage layout of the contract: supply, name, symbol
    and decimals in their slots, every balance and every allowance in the slot its mapping
    computes; and it is a contract account with the code of the asset. *)
Theorem erc20_layout t acc :
  slots_distinct t → erc20_build t = Done acc →
  (∀ a v, balances t !! a = Some v → pa_storage acc !! balance_slot a = Some v) ∧
  (∀ p v, allowances t !! p = Some v → pa_storage acc !! allowance_slot p = Some v) ∧
  pa_storage acc !! 2%Z = Some (initial_supply t) ∧ pa_storage acc !! 5%Z = Some (tk_decimals t) ∧
  (∃ n, from_short_string (tk_name t) = Done n ∧ pa_storage acc !! 3%Z = Some n) ∧
  (∃ n, from_short_string (tk_symbol t) = Done n ∧ pa_storage acc !! 4%Z = Some n) ∧
  ∃ c, bytecode_from_hex (str_trim ERC20_TOKEN) = Done c ∧ pa_info acc = mkInfo 0 1 (hash_slow c) (Some c).
Proof.
  intros [Hb Ha Hba Hfb Hfa]. unfold erc20_build.
  intros (c & Hc & (name & Hname & (symbol & Hsym & [= <-])%outcome_bind_Done)%outcome_bind_Done)%outcome_bind_Done.
  set (s0 := sb_set 5 (tk_decimals t) _) in *.
  destruct (fold_slots balance_slot (balances t) s0 Hb) as [Hin1 Hout1].
  set (s1 := map_fold _ s0 (balances t)) in *.
  destruct (fold_slots allowance_slot (allowances t) s1 Ha) as [Hin2 Hout2].
  assert (Hfix : ∀ k v, (0 ≤ k ≤ 5)%Z → dict s0 !! k = Some v →
    dict (map_fold (λ p amount store, sb_set (allowance_slot p) amount store) s1 (allowances t)) !! k = Some v).
  { intros k v Hk <-. rewrite Hout2, Hout1; [done|..]; intros i Hi <-; [apply Hfb in Hi|apply Hfa in Hi]; lia. }
  simpl. split_and!.
  - intros a v Hv. rewrite Hout2; [by apply Hin1|]. intros p Hp Heq. by eapply Hba; [by eexists|exact Hp|].
  - intros p v Hv. by apply Hin2.
  - apply Hfix; [lia|]. subst s0. simpl. by rewrite !lookup_insert_ne, lookup_insert_eq by lia.
  - apply Hfix; [lia|]. subst s0. simpl. by rewrite lookup_insert_eq.
  - exists name. split; [done|]. apply Hfix; [lia|]. subst s0. simpl. by rewrite !lookup_insert_ne, lookup_insert_eq by lia.
  - exists symbol. split; [done|]. apply Hfix; [lia|]. subst s0. simpl. by rewrite !lookup_insert_ne, lookup_insert_eq by lia.
  - by exists c.
Qed.

End token.

(** ** Call data *)

(** A selector and 32-byte words. *)
Definition call_data (selector : list Z) (words : list U256) : list Z := selector ++ mjoin (to_be_bytes 32 <$> words).

Definition erc20_transfer (recipient : Address) (amount : U256) : list Z :=
  call_data [169; 5; 156; 187]%Z [from_address recipient; amount].
Definition erc20_transfer_from (sender recipient : Address) (amount : U256) : list Z :=
  call_data [35; 184; 114; 221]%Z [from_address sender; from_address recipient; amount].

(** The words of call data, as the contract reads them. *)
Definition data_word (data : list Z) (i : nat) : U256 := from_be_bytes (take 32 (drop (4 + 32 * i) data)).

Lemma word_of_join (f : U256 → list Z) words i w :
  (∀ w, length (f w) = 32) → words !! i = Some w → take 32 (drop (32 * i) (mjoin (f <$> words))) = f w.
Proof.
  intros Hf. revert i. induction words as [|x words IH]; intros i Hi; [done|].
  change (mjoin (f <$> x :: words)) with (f x ++ mjoin (f <$> words)). destruct i as [|i]; simpl in Hi.
  - injection Hi as ->. rewrite Nat.mul_0_r, drop_0. by apply take_app_length'.
  - rewrite drop_app_ge by (rewrite Hf; lia). rewrite Hf. replace (32 * S i - 32) with (32 * i) by lia. by apply IH.
Qed.

Lemma data_word_call selector words i w :
  length selector = 4 → (∀ w, w ∈ words → 0 ≤ w < 2 ^ 256)%Z → words !! i = Some w →
  data_word (call_data selector words) i = w.
Proof.
  intros Hs Hw Hi. unfold data_word, call_data. rewrite <-drop_drop, drop_app_length' by done.
  rewrite (word_of_join (to_be_bytes 32) _ _ _ (to_be_bytes_length 32) Hi), from_to_be_bytes.
  assert (Hw' := Hw w (list_elem_of_lookup_2 _ _ _ Hi)).
  apply Z.mod_small. change (256 ^ Z.of_nat 32)%Z with (2 ^ 256)%Z. lia.
Qed.

(** ** Transaction batches *)

Inductive TransactionCallDataType :=
| CallEmpty | CallMix | CallAllowance | CallApprove | CallBalanceOf | CallDecimals | CallDecreaseAllowance
| CallIncreaseAllowance | CallName | CallSymbol | CallTotalSupply | CallTransfer | CallTransferFrom.

Inductive TransactionModeType := ModeRandom | ModeSameCaller | ModeEmpty.

Record TxnBatchConfig := mkBatchConfig {
  num_eoa : nat;
  num_sca : nat;
  num_txns_per_address : nat;
  transaction_call_data_type : TransactionCallDataType;
  transaction_mode_type : TransactionModeType
}.

(** The thread's random generator: the draw at each position of a counter. *)
Class Rng := {
  random_address : nat → Address;
  random_u8 : nat → U256;
  random_hash : nat → B256;
  random_range : nat → nat → nat
}.

(** A generated transaction: its environment and its call data. *)
Record GeneratedTx := mkGenerated { gt_env : TxEnv; gt_data : list Z }.

Section batches.
Context `{!Revm} `{!Alloy} `{!Rng} (ERC20_TOKEN : string).

Definition ERC20_GAS_LIMIT : Z := 35000.
Definition GAS_PRICE : Z := 3000000007.

(** [rand::rng().random_range(0..n)]: an empty range panics. *)
Definition pick {A} (l : list A) (seed : nat) : outcome (A * nat) :=
  let! _ := assert_that (bool_decide (0 < length l)) in
  let! a := index l (random_range seed (length l)) in
  Done (a, S seed).

Definition generate_addresses (n seed : nat) : list Address * nat := (random_address <$> seq seed n, seed + n).

Definition generate_tx (eoa sca : list Address) (cd : TransactionCallDataType) (mode : TransactionModeType)
    (nonce caller_index seed : nat) : outcome (GeneratedTx * nat) :=
  let! sender := index eoa caller_index in
  let! (recipient, seed) :=
    match mode with
    | ModeSameCaller => Done (sender, seed)
    | ModeRandom => pick eoa seed
    | ModeEmpty => Done (0%Z, seed)
    end in
  let! (to_address, seed) := pick sca seed in
  let tx_env := mkTxEnv sender (Z.of_nat nonce) 0 (Call to_address) ERC20_GAS_LIMIT GAS_PRICE in
  Done (match cd with
        | CallTransfer => (mkGenerated tx_env (erc20_transfer recipient (random_u8 seed)), S seed)
        | CallTransferFrom => (mkGenerated tx_env (erc20_transfer_from sender recipient (random_u8 seed)), S seed)
        | _ => (mkGenerated tx_env [], seed)
        end).

(** The inner loop over callers and the outer loop over nonces. *)
Fixpoint callers_loop (eoa sca : list Address) cd mode (nonce : nat) (callers : list nat) (txns : list GeneratedTx) (seed : nat) :
    outcome (list GeneratedTx * nat) :=
  match callers with
  | [] => Done (txns, seed)
  | caller_index :: callers =>
    let! (tx, seed) := generate_tx eoa sca cd mode nonce caller_index seed in
    callers_loop eoa sca cd mode nonce callers (txns ++ [tx]) seed
  end.
Fixpoint nonces_loop (eoa sca : list Address) cd mode (nonces : list nat) (txns : list GeneratedTx) (seed : nat) :
    outcome (list GeneratedTx * nat) :=
  match nonces with
  | [] => Done (txns, seed)
  | nonce :: nonces =>
    let! (txns, seed) := callers_loop eoa sca cd mode nonce (seq 0 (length eoa)) txns seed in
    nonces_loop eoa sca cd mode nonces txns seed
  end.
Definition generate_erc20_batch (eoa sca : list Address) (num_transfers_per_eoa : nat) cd mode (seed : nat) :
    outcome (list GeneratedTx * nat) :=
  nonces_loop eoa sca cd mode (seq 0 num_transfers_per_eoa) [] seed.

(** ** Clusters *)

Definition take_code (acc : PlainAccount) : PlainAccount :=
  let i := pa_info acc in mkPlainAccount (mkInfo (balance i) (nonce i) (code_hash i) None) (pa_storage acc).

Fixpoint erc20_contracts_loop (n : nat) (eoa : list Address) (accounts : list (Address * PlainAccount))
    (bytecodes : gmap B256 Bytecode) (seed : nat) : outcome (list (Address * PlainAccount) * gmap B256 Bytecode * nat) :=
  match n with
  | 0 => Done (accounts, bytecodes, seed)
  | S n =>
    let gld_address := random_address seed in
    let! gld := erc20_build ERC20_TOKEN
      (add_balances eoa 1000000000000000000 (ERC20Token_new "Gold Token" "GLD" 18 222222000000000000000000)) in
    match code (pa_info gld) with
    | None => Panic
    | Some c =>
      erc20_contracts_loop n eoa (accounts ++ [(gld_address, take_code gld)]) (<[code_hash (pa_info gld) := c]> bytecodes) (S seed)
    end
  end.
Definition erc20_contract_accounts (n : nat) (eoa : list Address) (seed : nat) :=
  erc20_contracts_loop n eoa [] ∅ seed.

(** [AccountInfo { balance, ..AccountInfo::default() }]. *)
Definition default_account (b : U256) : PlainAccount :=
  mkPlainAccount (mkInfo b (nonce info_default) (code_hash info_default) (code info_default)) ∅.

Definition erc20_cluster (num_eoa num_sca seed : nat) :
    outcome (gmap Address PlainAccount * gmap B256 Bytecode * list Address * list Address * nat) :=
  let '(eoa, seed) := generate_addresses num_eoa seed in
  let state := foldl (λ state person, <[person := default_account 1000000000000000000]> state) ∅ eoa in
  let! (contracts, bytecodes, seed) := erc20_contract_accounts num_sca eoa seed in
  let '(state, sca) := foldl (λ '(state, l) '(addr, acc), (<[addr := acc]> state, l ++ [addr])) (state, []) contracts in
  Done (state, bytecodes, eoa, sca, seed).

Definition generate_cluster_and_txs (c : TxnBatchConfig) (seed : nat) :
    outcome (gmap Address PlainAccount * gmap B256 Bytecode * list GeneratedTx * nat) :=
  let! (state, bytecodes, eoa, sca, seed) := erc20_cluster (num_eoa c) (num_sca c) seed in
  let! (txs, seed) := generate_erc20_batch eoa sca (num_txns_per_address c) (transaction_call_data_type c)
    (transaction_mode_type c) seed in
  Done (state, bytecodes, txs, seed).

(** ** Properties *)

Context (random_range_lt : ∀ seed n, 0 < n → random_range seed n < n).

Lemma pick_ok {A} (l : list A) seed : 0 < length l → ∃ a, pick l seed = Done (a, S seed) ∧ a ∈ l.
Proof.
  intros Hl. unfold pick. rewrite bool_decide_eq_true_2 by done. simpl.
  destruct (lookup_lt_is_Some_2 l (random_range seed (length l))) as [a Ha]; [by apply random_range_lt|].
  rewrite (proj2 (index_Done _ _ _) Ha). simpl. exists a. split; [done|]. by eapply list_elem_of_lookup_2.
Qed.

(** What a generated transaction of a sender is. *)
Definition tx_of (eoa sca : list Address) (nonce caller_index : nat) (tx : GeneratedTx) : Prop :=
  eoa !! caller_index = Some (caller (gt_env tx)) ∧ tx_nonce (gt_env tx) = Z.of_nat nonce ∧
  tx_value (gt_env tx) = 0%Z ∧ gas_limit (gt_env tx) = ERC20_GAS_LIMIT ∧ ∃ a, a ∈ sca ∧ tx_kind (gt_env tx) = Call a.

Lemma generate_tx_ok eoa sca cd mode n i seed :
  i < length eoa → 0 < length sca → ∃ tx seed', generate_tx eoa sca cd mode n i seed = Done (tx, seed') ∧ tx_of eoa sca n i tx.
Proof.
  intros Hi Hsca. unfold generate_tx. destruct (lookup_lt_is_Some_2 eoa i Hi) as [sender Hs].
  rewrite (proj2 (index_Done _ _ _) Hs). simpl.
  assert (Hr : ∃ rc seed1, (match mode with ModeSameCaller => Done (sender, seed) | ModeRandom => pick eoa seed
    | ModeEmpty => Done (0%Z, seed) end) = Done (rc, seed1)).
  { destruct mode; [destruct (pick_ok eoa seed) as (a & -> & _); [lia|]|..]; eauto. }
  destruct Hr as (rc & seed1 & ->). simpl. destruct (pick_ok sca seed1 Hsca) as (a & -> & Ha). simpl.
  destruct cd; eexists _, _; (split; [done|]); (split_and!; [done|done|done|done|by exists a]).
Qed.

Lemma callers_loop_ok eoa sca cd mode n m k txns seed :
  k + m ≤ length eoa → 0 < length sca →
  ∃ l seed', callers_loop eoa sca cd mode n (seq k m) txns seed = Done (txns ++ l, seed') ∧ length l = m ∧
    ∀ j tx, l !! j = Some tx → tx_of eoa sca n (k + j) tx.
Proof.
  intros Hk Hsca. revert k txns seed Hk. induction m as [|m IH]; intros k txns seed Hk; simpl.
  { exists [], seed. by rewrite app_nil_r. }
  destruct (generate_tx_ok eoa sca cd mode n k seed) as (tx & s1 & -> & Htx); [lia|done|]. simpl.
  destruct (IH (S k) (txns ++ [tx]) s1) as (l & s2 & -> & Hl & Hall); [lia|].
  exists (tx :: l), s2. rewrite <-app_assoc. simpl. split_and!; [done|lia|].
  intros [|j] tx' Hj; simpl in Hj; [injection Hj as <-; by rewrite Nat.add_0_r|].
  rewrite <-Nat.add_succ_comm. by apply Hall.
Qed.

Lemma nonces_loop_ok eoa sca cd mode m k txns seed :
  0 < length sca →
  ∃ l seed', nonces_loop eoa sca cd mode (seq k m) txns seed = Done (txns ++ l, seed') ∧ length l = m * length eoa ∧
    ∀ i j tx, j < length eoa → l !! (i * length eoa + j) = Some tx → tx_of eoa sca (k + i) j tx.
Proof.
  intros Hsca. revert k txns seed. induction m as [|m IH]; intros k txns seed; simpl.
  { exists [], seed. rewrite app_nil_r. split_and!; [done|done|]. by intros. }
  destruct (callers_loop_ok eoa sca cd mode k (length eoa) 0 txns seed) as (l1 & s1 & -> & Hl1 & Hx1); [lia|done|]. simpl.
  destruct (IH (S k) (txns ++ l1) s1) as (l2 & s2 & -> & Hl2 & Hx2).
  exists (l1 ++ l2), s2. rewrite <-app_assoc, length_app. split_and!; [done|lia|].
  intros [|i] j tx Hj; simpl.
  - rewrite lookup_app_l by lia. rewrite Nat.add_0_r. apply Hx1.
  - rewrite lookup_app_r by lia. replace (length eoa + i * length eoa + j - length l1) with (i * length eoa + j) by lia.
    rewrite <-Nat.add_succ_comm. by apply Hx2.
Qed.

(** A generated batch is one a block can execute: for every choice of call data, mode and random
    draws, and with at least one contract, the generator does not panic and returns one
    transaction per account and nonce, round by round, so that the transactions of an account
    appear with the nonces 0, 1, 2, ... in block order; each calls one of the contracts. *)
Theorem erc20_batch_in_order eoa sca n cd mode seed :
  0 < length sca →
  ∃ txs seed', generate_erc20_batch eoa sca n cd mode seed = Done (txs, seed') ∧ length txs = n * length eoa ∧
    ∀ i j tx, j < length eoa → txs !! (i * length eoa + j) = Some tx →
      eoa !! j = Some (caller (gt_env tx)) ∧ tx_nonce (gt_env tx) = Z.of_nat i ∧ ∃ a, a ∈ sca ∧ tx_kind (gt_env tx) = Call a.
Proof.
  intros Hsca. unfold generate_erc20_batch. destruct (nonces_loop_ok eoa sca cd mode n 0 [] seed Hsca) as (l & s & -> & Hl & Hall).
  exists l, s. split_and!; [done|done|]. intros i j tx Hj Ht. destruct (Hall i j tx Hj Ht) as (? & ? & _ & _ & ?). done.
Qed.

(** Transfer call data decodes to its arguments: four selector bytes, then the recipient and
    the amount (the sender first for a delegated transfer), each in its 32-byte word. *)
Theorem erc20_call_data_decodes sender recipient amount :
  (0 ≤ sender < 2 ^ 160)%Z → (0 ≤ recipient < 2 ^ 160)%Z → (0 ≤ amount < 2 ^ 256)%Z →
  (length (erc20_transfer recipient amount) = 68 ∧ take 4 (erc20_transfer recipient amount) = [169; 5; 156; 187]%Z ∧
   data_word (erc20_transfer recipient amount) 0 = recipient ∧ data_word (erc20_transfer recipient amount) 1 = amount) ∧
  (length (erc20_transfer_from sender recipient amount) = 100 ∧
   data_word (erc20_transfer_from sender recipient amount) 0 = sender ∧
   data_word (erc20_transfer_from sender recipient amount) 1 = recipient ∧
   data_word (erc20_transfer_from sender recipient amount) 2 = amount).
Proof.
  intros Hs Hr Ha. assert (2 ^ 160 < 2 ^ 256)%Z by lia.
  assert (Hw : ∀ w, w ∈ [recipient; amount] → (0 ≤ w < 2 ^ 256)%Z) by (intros w [->|[->|[]%elem_of_nil]%elem_of_cons]%elem_of_cons; lia).
  assert (Hw2 : ∀ w, w ∈ [sender; recipient; amount] → (0 ≤ w < 2 ^ 256)%Z)
    by (intros w [->|[->|[->|[]%elem_of_nil]%elem_of_cons]%elem_of_cons]%elem_of_cons; lia).
  split; split_and!; try done; by apply data_word_call.
Qed.

End batches.

(** ** Example *)

Section examples.
#[local] Instance rng_example : Rng := {|
  random_address n := (Z.of_nat n + 50)%Z; random_u8 n := Z.of_nat (n mod 256); random_hash n := Z.of_nat n;
  random_range seed n := seed mod n
|}.

Lemma erc20_batch_in_order_witness :
  0 < length [7%Z] ∧ ∃ txs seed',
    generate_erc20_batch [1; 2]%Z [7%Z] 2 CallTransfer ModeRandom 0 = Done (txs, seed') ∧ length txs = 4 ∧
    (caller ∘ gt_env <$> txs) = [1; 2; 1; 2]%Z ∧ (tx_nonce ∘ gt_env <$> txs) = [0; 0; 1; 1]%Z.
Proof.
  split; [simpl; lia|].
  assert (Hr : ∀ seed n, 0 < n → random_range seed n < n) by (intros seed n Hn; apply Nat.mod_upper_bound; lia).
  destruct (erc20_batch_in_order Hr [1; 2]%Z [7%Z] 2 CallTransfer ModeRandom 0) as (txs & s & Hg & Hl & _); [simpl; lia|].
  exists txs, s. split; [exact Hg|]. split; [exact Hl|]. vm_compute in Hg. injection Hg as <- _. by vm_compute.
Defined.
End examples.
