(* ===== verification/Uniswap.v ===== *)
(** The Uniswap fixtures: src/src/test_utils/uniswap/.

    Each contract is a record with the arguments of its constructor and a [build] that patches
    the compiled code and writes the storage layout; the compiled files are the class
    [UniswapAssets]. The theorems say which bit of the tick bitmap a tick sets, and that the
    generated cluster is closed: its contract accounts carry no code, and the code of each is in
    the table under its hash. *)

From S2P Require Import Prelude Model World Text MemoryDb Erc20.
From Stdlib Require Import Ascii.

Class UniswapAssets := {
  SINGLE_SWAP : string;
  UNISWAP_V3_FACTORY : string;
  WETH9_HEX : string;
  UNISWAP_V3_POOL : string;
  SWAP_ROUTER : string
}.

Definition POOL_FEE : Z := 3000.
Definition TICK_SPACING : Z := 60.

(** ** Text and hashes *)

(** [encode_hex]: two lower-case digits for each byte. *)
Fixpoint encode_hex (bytes : list Z) : string :=
  match bytes with
  | [] => ""
  | b :: bytes => String (hex_digit (b / 16)) (String (hex_digit (b mod 16)) (encode_hex bytes))
  end.
Definition address_hex (a : Address) : string := encode_hex (to_be_bytes 20 a).
Definition hash_hex (h : B256) : string := encode_hex (to_be_bytes 32 h).

(** [str::replace]: every occurrence from left to right; the fuel bounds the length. *)
Fixpoint replace_loop (fuel : nat) (from to s : string) : string :=
  match fuel with
  | 0 => s
  | S fuel =>
    match str_strip_prefix from s with
    | Some rest => to +:+ replace_loop fuel from to rest
    | None => match s with EmptyString => s | String c s => String c (replace_loop fuel from to s) end
    end
  end.
Definition str_replace (from to s : string) : string := replace_loop (S (String.length s)) from to s.

Section contracts.
Context `{!Alloy} `{!UniswapAssets}.

Definition keccak256_all (chunks : list (list Z)) : B256 := keccak256 (mjoin chunks).

(** ** WETH9 *)

Definition weth9_build : outcome PlainAccount :=
  let! bytecode := bytecode_from_hex (str_trim WETH9_HEX) in
  let store := StorageBuilder_new in
  let! name := from_short_string "Wrapped Ether" in
  let store := sb_set 0 name store in
  let! symbol := from_short_string "WETH" in
  let store := sb_set 1 symbol store in
  let store := sb_set 3 18 store in
  let store := sb_set 4 0 store in
  let store := sb_set 5 0 store in
  Done (contract_account bytecode (sb_build store)).

(** ** Factory *)

Record UniswapV3Factory := mkFactory {
  fa_owner : Address;
  fa_pools : gmap (Address * Address * U256) Address
}.
Definition UniswapV3Factory_new (owner : Address) : UniswapV3Factory := mkFactory owner ∅.
Definition add_pool (token_0 token_1 pool_address : Address) (f : UniswapV3Factory) : UniswapV3Factory :=
  mkFactory (fa_owner f) (<[(token_0, token_1, POOL_FEE) := pool_address]> (fa_pools f)).

Definition pool_slot (token_0 token_1 : Address) (fee : U256) : U256 :=
  from_indices 5 [from_address token_0; from_address token_1; fee].

Definition factory_build (address : Address) (f : UniswapV3Factory) : outcome PlainAccount :=
  let hex := str_replace "0b748751e6f8b1a38c9386a19d9f8966b3593a9e" (address_hex address) (str_trim UNISWAP_V3_FACTORY) in
  let! bytecode := bytecode_from_hex hex in
  let store := StorageBuilder_new in
  let store := sb_set 0 0 store in
  let store := sb_set 1 0 store in
  let store := sb_set 2 0 store in
  let store := sb_set 3 (from_address (fa_owner f)) store in
  let store := sb_set 4 0 store in
  let store := sb_set 5 0 store in
  let store := sb_set (from_indices 4 [500%Z]) 10 store in
  let store := sb_set (from_indices 4 [3000%Z]) 60 store in
  let store := sb_set (from_indices 4 [10000%Z]) 200 store in
  let store := map_fold (λ '(token_0, token_1, pool_fee) pool_address store,
      sb_set (pool_slot token_1 token_0 pool_fee) (from_address pool_address)
        (sb_set (pool_slot token_0 token_1 pool_fee) (from_address pool_address) store)) store (fa_pools f) in
  Done (contract_account bytecode (sb_build store)).

(** ** Pool *)

Record UniswapV3Pool := mkPool {
  po_token_0 : Address;
  po_token_1 : Address;
  po_factory : Address;
  positions : gmap U256 (list U256);
  ticks : gmap U256 (list U256);
  tick_bitmap : gmap U256 U256
}.
Definition UniswapV3Pool_new (token_0 token_1 factory : Address) : UniswapV3Pool :=
  mkPool token_0 token_1 factory ∅ ∅ ∅.

Definition position_key (owner : Address) (tick_lower tick_upper : Z) : U256 :=
  keccak256 (to_be_bytes 20 owner ++ drop 29 (to_be_bytes 32 (from_tick tick_lower)) ++
             drop 29 (to_be_bytes 32 (from_tick tick_upper))).

Definition add_position (owner : Address) (tick_lower tick_upper : Z) (value : list U256) (p : UniswapV3Pool) : UniswapV3Pool :=
  mkPool (po_token_0 p) (po_token_1 p) (po_factory p)
    (<[position_key owner tick_lower tick_upper := value]> (positions p)) (ticks p) (tick_bitmap p).

(** Signed division truncates, the shift is arithmetic. *)
Definition add_tick (tick : Z) (value : list U256) (p : UniswapV3Pool) : UniswapV3Pool :=
  let index := Z.quot tick TICK_SPACING in
  let word := from_tick (Z.shiftr index 8) in
  mkPool (po_token_0 p) (po_token_1 p) (po_factory p) (positions p) (<[from_tick tick := value]> (ticks p))
    (<[word := Z.setbit (default 0%Z (tick_bitmap p !! word)) (Z.land index 255)]> (tick_bitmap p)).

Definition pool_build (address : Address) (p : UniswapV3Pool) : outcome PlainAccount :=
  let hex := str_trim UNISWAP_V3_POOL in
  let hex := str_replace "261d8c5e9742e6f7f1076fa1f560894524e19cad" (address_hex (po_token_0 p)) hex in
  let hex := str_replace "ce3478a9e0167a6bc5716dc39dbbbfac38f27623" (address_hex (po_token_1 p)) hex in
  let hex := str_replace "cba6b9a951749b8735c603e7ffc5151849248772" (address_hex (po_factory p)) hex in
  let hex := str_replace "d495d5e5cab2567777fff988c4fcd71328b17c9d" (address_hex address) hex in
  let! bytecode := bytecode_from_hex hex in
  let store := StorageBuilder_new in
  let store := sb_set 0 0x0001000001000100000000000000000000000001000000000000000000000000 store in
  let store := sb_set 1 0 store in
  let store := sb_set 2 0 store in
  let store := sb_set 3 0 store in
  let store := sb_set 4 111111000000010412955141 store in
  let store := sb_set 5 0 store in
  let store := sb_set 6 0 store in
  let store := sb_set 7 0 store in
  let store := sb_set 8 0x0100000000000000000000000000000000000000000000000000000000000001 store in
  let store := map_fold (λ key value store, sb_set_many (from_indices 5 [key]) value store) store (ticks p) in
  let store := map_fold (λ key value store, sb_set (from_indices 6 [key]) value store) store (tick_bitmap p) in
  let store := map_fold (λ key value store, sb_set_many (from_indices 7 [key]) value store) store (positions p) in
  Done (contract_account bytecode (sb_build store)).

(** The CREATE2 address: the last 20 bytes of the hash. *)
Definition get_address (factory_address : Address) (pool_init_code_hash : B256) (p : UniswapV3Pool) : Address :=
  let salt := keccak256_all [to_be_bytes 32 (po_token_0 p); to_be_bytes 32 (po_token_1 p); to_be_bytes 32 POOL_FEE] in
  let hash := keccak256_all [[255%Z]; to_be_bytes 20 factory_address; to_be_bytes 32 salt; to_be_bytes 32 pool_init_code_hash] in
  from_be_bytes (drop 12 (to_be_bytes 32 hash)).

(** ** Router and entry contract *)

Record SwapRouter := mkRouter { ro_weth9 : Address; ro_factory : Address; ro_pool_init_code_hash : B256 }.
Definition router_build (r : SwapRouter) : outcome PlainAccount :=
  let hex := str_trim SWAP_ROUTER in
  let hex := str_replace "6509f2a854ba7441039fce3b959d5badd2ffcfcd" (address_hex (ro_weth9 r)) hex in
  let hex := str_replace "d787a42ee3ac477c46dd6c912e7af795d44453d5" (address_hex (ro_factory r)) hex in
  let hex := str_replace "636fcf59d7fdf3a03833dba1c6d936c9d7c6730057c8c4c8e5059feaeab60e04" (hash_hex (ro_pool_init_code_hash r)) hex in
  let! bytecode := bytecode_from_hex hex in
  let store := sb_set 0 U256_MAX StorageBuilder_new in
  Done (contract_account bytecode (sb_build store)).

Record SingleSwap := mkSwap { sw_router : Address; sw_token_0 : Address; sw_token_1 : Address }.
Definition single_swap_build (w : SingleSwap) : outcome PlainAccount :=
  let hex := str_replace "e7cfcccb38ce07ba9d8d13431afe8cf6172de031" (address_hex (sw_router w)) (str_trim SINGLE_SWAP) in
  let! bytecode := bytecode_from_hex hex in
  let store := sb_set 0 (from_address (sw_token_0 w)) StorageBuilder_new in
  let store := sb_set 1 (from_address (sw_token_1 w)) store in
  let! store := set_with_offset 1 20 3 POOL_FEE store in
  Done (contract_account bytecode (sb_build store)).

Definition sell_token0 (amount : U256) : list Z := call_data [201; 43; 8; 145]%Z [amount].
Definition sell_token1 (amount : U256) : list Z := call_data [107; 5; 82; 96]%Z [amount].
Definition buy_token0 (arg1 arg2 : U256) : list Z := call_data [141; 195; 63; 130]%Z [arg1; arg2].
Definition buy_token1 (arg1 arg2 : U256) : list Z := call_data [178; 219; 24; 162]%Z [arg1; arg2].

End contracts.

(** ** Generation *)

Section cluster.
Context `{!Revm} `{!Alloy} `{!UniswapAssets} `{!Rng} (ERC20_TOKEN : string).

Definition UNISWAP_GAS_LIMIT : Z := 200000.

Definition stable_token (name : string) (pool single_swap : Address) (eoa : list Address) : outcome PlainAccount :=
  erc20_build ERC20_TOKEN
    (add_allowances eoa single_swap 1000000000000000000
      (add_balances eoa 1000000000000000000
        (add_balances [pool] 111111000000000000000000
          (ERC20Token_new name name 18 222222000000000000000000)))).

Definition liquidity : U256 := 0x178756e190b388651605.
Definition lower_tick : list U256 :=
  [0x000000000000178756e190b388651605000000000000178756e190b388651605; 0; 0;
   0x0100000001000000000000000000000000000000000000000000000000000000]%Z.
Definition upper_tick : list U256 :=
  [0xffffffffffffe878a91e6f4c779ae9fb000000000000178756e190b388651605; 0; 0;
   0x0100000000000000000000000000000000000000000000000000000000000000]%Z.

(** The accounts lose their code, and the table gets it. *)
Definition take_codes (accounts : list (Address * PlainAccount)) : list (Address * PlainAccount) * gmap B256 Bytecode :=
  foldl (λ '(accounts, bytecodes) '(addr, account),
    match code (pa_info account) with
    | Some c => (accounts ++ [(addr, take_code account)], <[code_hash (pa_info account) := c]> bytecodes)
    | None => (accounts ++ [(addr, take_code account)], bytecodes)
    end) ([], ∅) accounts.

Definition uniswap_contract_accounts (eoa : list Address) (seed : nat) :
    outcome (list (Address * PlainAccount) * gmap B256 Bytecode * Address * nat) :=
  let x := random_address seed in
  let y := random_address (seed + 1) in
  let dai_address := Z.min x y in
  let usdc_address := Z.max x y in
  let pool_init_code_hash := random_hash (seed + 2) in
  let swap_router_address := random_address (seed + 3) in
  let single_swap_address := random_address (seed + 4) in
  let weth9_address := random_address (seed + 5) in
  let owner := random_address (seed + 6) in
  let factory_address := random_address (seed + 7) in
  let position_manager := random_address (seed + 8) in
  let pool := UniswapV3Pool_new dai_address usdc_address factory_address in
  let pool_address := get_address factory_address pool_init_code_hash pool in
  let! weth9_account := weth9_build in
  let! dai_account := stable_token "DAI" pool_address single_swap_address eoa in
  let! usdc_account := stable_token "USDC" pool_address single_swap_address eoa in
  let! factory_account := factory_build factory_address
    (add_pool dai_address usdc_address pool_address (UniswapV3Factory_new owner)) in
  let! pool_account := pool_build pool_address
    (add_tick 600000 upper_tick (add_tick (-600000) lower_tick
      (add_position position_manager (-600000) 600000 [liquidity; 0; 0; 0]%Z pool))) in
  let! swap_router_account := router_build (mkRouter weth9_address factory_address pool_init_code_hash) in
  let! single_swap_account := single_swap_build (mkSwap swap_router_address dai_address usdc_address) in
  let '(accounts, bytecodes) := take_codes
    [(weth9_address, weth9_account); (dai_address, dai_account); (usdc_address, usdc_account);
     (factory_address, factory_account); (pool_address, pool_account);
     (swap_router_address, swap_router_account); (single_swap_address, single_swap_account)] in
  Done (accounts, bytecodes, single_swap_address, seed + 9).

Definition swap_data (nonce : nat) : list Z :=
  match Nat.modulo nonce 4 with
  | 0 => sell_token0 2000
  | 1 => sell_token1 2000
  | 2 => buy_token0 1000 2000
  | 3 => buy_token1 1000 2000
  | _ => []
  end.

Definition swap_tx (single_swap : Address) (nonce : nat) (person : Address) : GeneratedTx :=
  mkGenerated (mkTxEnv person (Z.of_nat nonce) 0 (Call single_swap) UNISWAP_GAS_LIMIT GAS_PRICE) (swap_data nonce).

Definition uniswap_cluster (num_people num_swaps_per_person seed : nat) :
    outcome (gmap Address PlainAccount * gmap B256 Bytecode * list GeneratedTx * nat) :=
  let '(people, seed) := generate_addresses num_people seed in
  let! (contracts, bytecodes, single_swap_address, seed) := uniswap_contract_accounts people seed in
  let state := foldl (λ state '(a, acc), <[a := acc]> state) ∅ contracts in
  let state := foldl (λ state person, <[person := default_account 4567000000000000000000]> state) state people in
  let txs := mjoin ((λ nonce, swap_tx single_swap_address nonce <$> people) <$> seq 0 num_swaps_per_person) in
  Done (state, bytecodes, txs, seed).

(** ** Properties *)

(** A word and a bit name a tick index, and back. *)
Lemma tick_index_split index : (Z.shiftr index 8 * 256 + Z.land index 255 = index)%Z ∧ (0 ≤ Z.land index 255 < 256)%Z.
Proof.
  rewrite Z.shiftr_div_pow2 by lia. change 255%Z with (Z.ones 8). rewrite Z.land_ones by lia.
  change (2 ^ 8)%Z with 256%Z. pose proof (Z.div_mod index 256 ltac:(lia)). pose proof (Z.mod_pos_bound index 256 ltac:(lia)). lia.
Qed.

(** Adding a tick initializes exactly its bit: in the bitmap, as the contract addresses it (a
    256-bit word per 256 indices, two's complement keys), the bit of the tick's index is set
    and every other bit is as before. *)
Theorem add_tick_sets_its_bit tick value p j :
  (- 2 ^ 31 ≤ tick < 2 ^ 31)%Z → (- 2 ^ 31 ≤ j < 2 ^ 31)%Z →
  let bit p i := Z.testbit (default 0%Z (tick_bitmap p !! from_tick (Z.shiftr i 8))) (Z.land i 255) in
  bit (add_tick tick value p) j = if decide (j = Z.quot tick TICK_SPACING) then true else bit p j.
Proof.
  intros Ht Hj bit. subst bit. cbv beta. unfold add_tick. cbn [tick_bitmap].
  set (index := Z.quot tick TICK_SPACING).
  assert (Hi : (- 2 ^ 31 ≤ index < 2 ^ 31)%Z).
  { unfold index, TICK_SPACING. pose proof (Z.quot_rem' tick 60). pose proof (Z.rem_bound_abs tick 60 ltac:(lia)).
    pose proof (Z.quot_le_mono tick (2 ^ 31 - 1) 60 ltac:(lia) ltac:(lia)).
    pose proof (Z.quot_le_mono (- 2 ^ 31) tick 60 ltac:(lia) ltac:(lia)).
    change (Z.quot (2 ^ 31 - 1) 60) with 35791394%Z in *. change (Z.quot (- 2 ^ 31) 60) with (-35791394)%Z in *. lia. }
  destruct (tick_index_split index) as [Hs1 Hr1], (tick_index_split j) as [Hs2 Hr2].
  destruct (decide (from_tick (Z.shiftr j 8) = from_tick (Z.shiftr index 8))) as [Heq|Hne].
  - assert (Hw : Z.shiftr j 8 = Z.shiftr index 8).
    { unfold from_tick in Heq. assert (Hz : ((Z.shiftr j 8 - Z.shiftr index 8) mod 2 ^ 256 = 0)%Z).
      { rewrite Zminus_mod, Heq, Z.sub_diag. done. }
      apply Z.mod_divide in Hz as [q Hq]; [|lia]. lia. }
    rewrite Heq, lookup_insert_eq. simpl.
    case_decide as Hd; [subst j; by rewrite Z.setbit_eq by lia|].
    rewrite Z.setbit_neq; [done|lia|]. lia.
  - rewrite lookup_insert_ne by done. rewrite decide_False; [done|]. intros ->. done.
Qed.

(** The table of [take_codes] holds the code of every account, when hashes tell codes apart. *)
Lemma take_codes_spec accounts :
  let '(accounts', bytecodes) := take_codes accounts in
  accounts' = (λ '(a, acc), (a, take_code acc)) <$> accounts ∧
  ∀ h, is_Some (bytecodes !! h) ↔ ∃ a acc, (a, acc) ∈ accounts ∧ is_Some (code (pa_info acc)) ∧ code_hash (pa_info acc) = h.
Proof.
  unfold take_codes. induction accounts as [|[a acc] accounts IH] using rev_ind; simpl.
  { split; [done|]. intros h. rewrite lookup_empty. split; [by intros []|by intros (? & ? & ?%elem_of_nil & _)]. }
  rewrite foldl_app. destruct (foldl _ _ accounts) as [l m]. destruct IH as [-> Hm]. simpl.
  rewrite fmap_app. destruct (code (pa_info acc)) as [c|] eqn:Hc; (split; [done|]); intros h.
  - rewrite lookup_insert_is_Some', Hm. split.
    + intros [<-|(b & x & ? & ? & ?)]; [exists a, acc|exists b, x]; (split_and!; [set_solver| |done]); [by rewrite Hc|done].
    + intros (b & x & [?|[= -> ->]%list_elem_of_singleton]%elem_of_app & ? & ?); [right; by exists b, x|by left].
  - rewrite Hm. split.
    + intros (b & x & ? & ? & ?). exists b, x. split_and!; [set_solver|done|done].
    + intros (b & x & [?|[= -> ->]%list_elem_of_singleton]%elem_of_app & Hs & ?); [by exists b, x|]. rewrite Hc in Hs. by destruct Hs.
Qed.

(** What [contract_account] builds. *)
Definition deployed (acc : PlainAccount) : Prop := ∃ c st, acc = contract_account c st.

Lemma deployed_builds acc :
  weth9_build = Done acc ∨ (∃ name p w eoa, stable_token name p w eoa = Done acc) ∨
  (∃ a f, factory_build a f = Done acc) ∨ (∃ a p, pool_build a p = Done acc) ∨
  (∃ r, router_build r = Done acc) ∨ (∃ w, single_swap_build w = Done acc) → deployed acc.
Proof.
  intros [Hd|[(name & p & w & eoa & Hd)|[(a & f & Hd)|[(a & p & Hd)|[(r & Hd)|(w & Hd)]]]]].
  - apply outcome_bind_Done in Hd as (c & _ & Hd). 
    repeat (apply outcome_bind_Done in Hd as (? & _ & Hd)). injection Hd as <-. by eexists _, _.
  - apply outcome_bind_Done in Hd as (c & _ & Hd).
    repeat (apply outcome_bind_Done in Hd as (? & _ & Hd)). injection Hd as <-. by eexists _, _.
  - apply outcome_bind_Done in Hd as (c & _ & Hd). injection Hd as <-. by eexists _, _.
  - apply outcome_bind_Done in Hd as (c & _ & Hd). injection Hd as <-. by eexists _, _.
  - apply outcome_bind_Done in Hd as (c & _ & Hd). injection Hd as <-. by eexists _, _.
  - apply outcome_bind_Done in Hd as (c & _ & Hd). apply outcome_bind_Done in Hd as (? & _ & Hd).
    injection Hd as <-. by eexists _, _.
Qed.

(** The generated contracts are deployed consistently: seven accounts without their code, each of
    whose code hashes is in the table of codes, and the entry contract is one of them. *)
Theorem uniswap_cluster_closed eoa seed accounts bytecodes entry seed' :
  uniswap_contract_accounts eoa seed = Done (accounts, bytecodes, entry, seed') →
  length accounts = 7 ∧ (∃ acc, (entry, acc) ∈ accounts) ∧
  ∀ a acc, (a, acc) ∈ accounts → code (pa_info acc) = None ∧ nonce (pa_info acc) = 1%Z ∧
    is_Some (bytecodes !! code_hash (pa_info acc)).
Proof.
  unfold uniswap_contract_accounts. cbv zeta.
  intros (a1 & Hb1 & Hd)%outcome_bind_Done. apply outcome_bind_Done in Hd as (a2 & Hb2 & Hd).
  apply outcome_bind_Done in Hd as (a3 & Hb3 & Hd). apply outcome_bind_Done in Hd as (a4 & Hb4 & Hd).
  apply outcome_bind_Done in Hd as (a5 & Hb5 & Hd). apply outcome_bind_Done in Hd as (a6 & Hb6 & Hd).
  apply outcome_bind_Done in Hd as (a7 & Hb7 & Hd).
  match type of Hd with context [take_codes ?l] => set (accs := l) in Hd end.
  pose proof (take_codes_spec accs) as Hspec. destruct (take_codes accs) as [l m]. destruct Hspec as [-> Hm].
  injection Hd as <- <- <- <-.
  assert (Hall : Forall (λ x, deployed x.2) accs).
  { repeat constructor; simpl; apply deployed_builds; naive_solver. }
  split_and!; [done|eexists; unfold accs; simpl; repeat (apply list_elem_of_here || apply list_elem_of_further)|].
  intros a acc Hin. apply (list_elem_of_fmap (λ '(a, acc), (a, take_code acc)) accs) in Hin as ([b x] & [= -> ->] & Hin).
  pose proof (proj1 (Forall_forall _ _) Hall _ Hin) as (c & st & Hx). simpl in Hx. subst x.
  split_and!; [done|done|]. apply Hm. exists b. by eexists.
Qed.

End cluster.
