(* ===== verification/Mainnet.v ===== *)
(** Replay fixtures of mainnet blocks: src/src/test_utils/common/mainnet.rs.

    The fixtures' records, the resolution of the hardfork, the conversion to revm's environments
    and to the in-memory database, and the ingestion of JSON-RPC responses. Reading and writing
    the fixture files is input and output and is left out. *)

From S2P Require Import Prelude Model Reward World Collections Text MemoryDb.
From stdpp Require Import pretty sorting.

Open Scope string_scope.
Open Scope list_scope.
Open Scope nat_scope.

(** revm's [SpecId]: its names and the variant the crate compares with. *)
Class Specs := {
  SpecId : Type;
  SpecId_dec :: EqDecision SpecId;
  spec_from_str : string → option SpecId;
  MERGE : SpecId
}.

(** revm's recovery of the authority that signed an authorization. *)
Record SignedAuthorization := mkSignedAuthorization {
  sa_chain_id : U256;
  sa_address : Address;
  sa_nonce : Z;
  sa_y_parity : Z;
  sa_r : U256;
  sa_s : U256
}.

(** ** Fixtures *)

Record BlockFixture := mkBlockFixture {
  bf_number : Z;
  coinbase : Address;
  bf_timestamp : Z;
  bf_gas_limit : Z;
  basefee : Z;
  difficulty : U256;
  prevrandao : option B256;
  excess_blob_gas : option Z;
  bf_chain_id : Z;
  bf_spec_id : string;
  block_hashes : gmap Z B256
}.

Definition set_block_hashes (h : gmap Z B256) (b : BlockFixture) : BlockFixture :=
  mkBlockFixture (bf_number b) (coinbase b) (bf_timestamp b) (bf_gas_limit b) (basefee b) (difficulty b)
    (prevrandao b) (excess_blob_gas b) (bf_chain_id b) (bf_spec_id b) h.

Record AccessFixture := mkAccessFixture {
  acc_address : Address;
  storage_keys : list B256
}.

Record AuthFixture := mkAuthFixture {
  au_chain_id : U256;
  au_address : Address;
  au_nonce : Z;
  y_parity : Z;
  au_r : U256;
  au_s : U256
}.

Record TxFixture := mkTxFixture {
  tf_tx_type : Z;
  tf_caller : Address;
  tf_to : option Address;
  tf_nonce : Z;
  tf_value : U256;
  tf_data : list Z;
  tf_gas_limit : Z;
  tf_gas_price : Z;
  tf_gas_priority_fee : option Z;
  tf_chain_id : option Z;
  tf_access_list : list AccessFixture;
  tf_blob_hashes : list B256;
  tf_max_fee_per_blob_gas : Z;
  tf_authorization_list : list AuthFixture
}.

Record AccountFixture := mkAccountFixture {
  af_balance : U256;
  af_nonce : Z;
  af_code : option (list Z);
  af_storage : gmap U256 U256
}.

Abbreviation PreState := (gmap Address AccountFixture) (only parsing).

#[export] Instance AccountFixture_eq_dec : EqDecision AccountFixture.
Proof. solve_decision. Defined.

(** ** Hardforks *)

Definition spec_for_timestamp (ts : Z) : string :=
  if (1764798551 <=? ts)%Z then "Osaka"
  else if (1746612311 <=? ts)%Z then "Prague"
  else if (1710338135 <=? ts)%Z then "Cancun"
  else if (1681338455 <=? ts)%Z then "Shanghai"
  else "Merge".

Definition spec_for_mainnet_block (number timestamp : Z) : string :=
  if (1764798551 <=? timestamp)%Z then "Osaka"
  else if (1746612311 <=? timestamp)%Z then "Prague"
  else if (1710338135 <=? timestamp)%Z then "Cancun"
  else if (1681338455 <=? timestamp)%Z then "Shanghai"
  else if (15537394 <=? number)%Z then "Merge"
  else if (12965000 <=? number)%Z then "London"
  else if (12244000 <=? number)%Z then "Berlin"
  else if (9069000 <=? number)%Z then "Istanbul"
  else if (7280000 <=? number)%Z then "Petersburg"
  else if (4370000 <=? number)%Z then "Byzantium"
  else if (2675000 <=? number)%Z then "Spurious"
  else if (2463000 <=? number)%Z then "Tangerine"
  else if (1150000 <=? number)%Z then "Homestead"
  else "Frontier".

(** The names above in the order of their activation. *)
Definition hardforks : list string :=
  ["Frontier"; "Homestead"; "Tangerine"; "Spurious"; "Byzantium"; "Petersburg"; "Istanbul"; "Berlin"; "London";
   "Merge"; "Shanghai"; "Cancun"; "Prague"; "Osaka"].
Definition fork_rank (name : string) : option nat := fst <$> list_find (eq name) hardforks.

Section fixtures.
Context `{!Specs}.

(** [BlockFixture::spec_id]. *)
Definition historical (b : BlockFixture) : outcome SpecId :=
  match spec_from_str (spec_for_mainnet_block (bf_number b) (bf_timestamp b)) with
  | Some spec => Done spec
  | None => Panic
  end.
Definition fixture_spec_id (b : BlockFixture) : outcome SpecId :=
  match spec_from_str (bf_spec_id b) with
  | Some stored => if bool_decide (stored = MERGE) && (bf_number b <? 15537394)%Z then historical b else Done stored
  | None => historical b
  end.

(** ** Conversion to revm's environments *)

(** revm's [CfgEnv]: the fields the fixture sets. *)
Record CfgEnv := mkCfgEnv {
  cfg_spec : SpecId;
  cfg_chain_id : Z
}.

Definition to_cfg (b : BlockFixture) : outcome CfgEnv :=
  let! spec := fixture_spec_id b in
  Done (mkCfgEnv spec (bf_chain_id b)).

(** revm's [BlockEnv]. *)
Record BlockEnv := mkBlockEnv {
  be_number : U256;
  beneficiary : Address;
  be_timestamp : U256;
  be_gas_limit : Z;
  be_basefee : Z;
  be_difficulty : U256;
  be_prevrandao : option B256;
  blob_excess_gas_and_price : option (Z * Z);
  slot_num : Z
}.

Definition to_block_env (b : BlockFixture) : BlockEnv :=
  mkBlockEnv (bf_number b) (coinbase b) (bf_timestamp b) (bf_gas_limit b) (basefee b) (difficulty b) (prevrandao b)
    (match excess_blob_gas b with Some excess => Some (excess, 1%Z) | None => None end) 0.

(** revm's [TxEnv] with all its fields; [TxEnv] of the data model keeps the ones the scheduler
    reads. An authorization is passed signed. *)
Record FullTxEnv := mkFullTxEnv {
  te_tx_type : Z;
  te_caller : Address;
  te_gas_limit : Z;
  te_gas_price : Z;
  te_kind : TxKind;
  te_value : U256;
  te_data : list Z;
  te_nonce : Z;
  te_chain_id : option Z;
  te_access_list : list (Address * list B256);
  te_gas_priority_fee : option Z;
  te_blob_hashes : list B256;
  te_max_fee_per_blob_gas : Z;
  te_authorization_list : list SignedAuthorization
}.

Definition to_signed (a : AuthFixture) : SignedAuthorization :=
  mkSignedAuthorization (au_chain_id a) (au_address a) (au_nonce a) (y_parity a) (au_r a) (au_s a).

Definition to_tx_env (t : TxFixture) : FullTxEnv :=
  mkFullTxEnv (tf_tx_type t) (tf_caller t) (tf_gas_limit t) (tf_gas_price t)
    (match tf_to t with Some addr => Call addr | None => Create end)
    (tf_value t) (tf_data t) (tf_nonce t) (tf_chain_id t)
    ((λ a, (acc_address a, storage_keys a)) <$> tf_access_list t)
    (tf_gas_priority_fee t) (tf_blob_hashes t) (tf_max_fee_per_blob_gas t)
    (to_signed <$> tf_authorization_list t).

(** ** The fixture as a database *)

Context `{!Revm} `{!Alloy}.

(** The code hash and code of one account, and the entry its code adds to the bytecodes. *)
Definition fixture_code (acc : AccountFixture) : outcome (B256 * option Bytecode) :=
  match af_code acc with
  | Some ((_ :: _) as bytes) =>
    match new_raw_checked bytes with
    | Some bytecode => Done (hash_slow bytecode, Some bytecode)
    | None => Panic
    end
  | _ => Done (KECCAK_EMPTY, None)
  end.

(** One iteration of [pre_state_to_db]. *)
Definition add_account (maps : gmap Address PlainAccount * gmap B256 Bytecode) (addr : Address) (acc : AccountFixture) :
    outcome (gmap Address PlainAccount * gmap B256 Bytecode) :=
  let '(accounts, bytecodes) := maps in
  let! (code_hash, code) := fixture_code acc in
  let bytecodes := match code with Some bytecode => <[code_hash := bytecode]> bytecodes | None => bytecodes end in
  let info := mkInfo (af_balance acc) (af_nonce acc) code_hash code in
  Done (<[addr := mkPlainAccount info (af_storage acc)]> accounts, bytecodes).

Fixpoint add_accounts (maps : gmap Address PlainAccount * gmap B256 Bytecode) (l : list (Address * AccountFixture)) :
    outcome (gmap Address PlainAccount * gmap B256 Bytecode) :=
  match l with
  | [] => Done maps
  | (addr, acc) :: l => let! maps := add_account maps addr acc in add_accounts maps l
  end.

Definition pre_state_to_db (pre_state : PreState) : outcome InMemoryDB :=
  let! (accounts, bytecodes) := add_accounts (∅, ∅) (btree_iter pre_state) in
  Done (InMemoryDB_new accounts bytecodes ∅).

(** ** Delegation targets *)

Definition EIP7702_MAGIC : list Z := [239; 1; 0]%Z.

Definition is_designator (bytes : list Z) : bool :=
  bool_decide (length bytes = 23) && bool_decide (take 3 bytes = EIP7702_MAGIC).

Definition authorization_targets (targets : gset Address) (tx : TxFixture) : gset Address :=
  foldl (λ targets auth, if negb (bool_decide (au_address auth = 0%Z)) then {[au_address auth]} ∪ targets else targets)
    targets (tf_authorization_list tx).

Definition designator_target (targets : gset Address) (acc : AccountFixture) : gset Address :=
  match af_code acc with
  | Some bytes => if is_designator bytes then {[from_be_bytes (drop 3 bytes)]} ∪ targets else targets
  | None => targets
  end.

Definition delegation_targets (txs : list TxFixture) (pre_state : PreState) : list Address :=
  let targets := foldl authorization_targets ∅ txs in
  let targets := foldl designator_target targets (btree_iter pre_state).*2 in
  btree_elements targets.

(** ** Loaded blocks *)

Record MainnetBlock := mkMainnetBlock {
  mb_label : string;
  mb_number : Z;
  mb_spec : SpecId;
  mb_cfg : CfgEnv;
  mb_block_env : BlockEnv;
  mb_txs : list FullTxEnv;
  mb_db : InMemoryDB
}.

Definition from_fixtures (label : string) (block : BlockFixture) (txs : list TxFixture) (pre_state : PreState) :
    outcome MainnetBlock :=
  let! db := pre_state_to_db pre_state in
  let db := mkInMemoryDB (im_accounts db) (im_bytecodes db) (block_hashes block) (latency_us db) in
  let! spec := fixture_spec_id block in
  let! cfg := to_cfg block in
  Done (mkMainnetBlock label (bf_number block) spec cfg (to_block_env block) (to_tx_env <$> txs) db).

End fixtures.

(** ** JSON-RPC ingestion *)

(** [Option::transpose] and [collect::<Result<_, _>>]. *)
Definition transpose {E A} (x : option (result E A)) : result E (option A) :=
  match x with Some (Ok a) => Ok (Some a) | Some (Err e) => Err e | None => Ok None end.
Fixpoint collect {E A B} (f : A → result E B) (l : list A) : result E (list B) :=
  match l with
  | [] => Ok []
  | x :: l => let? y := f x in let? ys := collect f l in Ok (y :: ys)
  end.

Lemma collect_Ok {E A B} (f : A → result E B) l ys :
  collect f l = Ok ys ↔ Forall2 (λ x y, f x = Ok y) l ys.
Proof.
  revert ys. induction l as [|x l IH]; intros ys; simpl.
  - split; [by intros [= <-]|]. by intros ->%Forall2_nil_inv_l.
  - destruct (f x) as [y|] eqn:Hx; simpl.
    + destruct (collect f l) as [zs|] eqn:Hl; simpl.
      * split.
        -- intros [= <-]. constructor; [done|]. by apply IH.
        -- intros (y' & ys' & Hy & Hys & ->)%Forall2_cons_inv_l. rewrite Hx in Hy. simplify_eq.
           apply IH in Hys. by simplify_eq.
      * split; [done|]. intros (y' & ys' & _ & Hys & ->)%Forall2_cons_inv_l. by apply IH in Hys.
    + split; [done|]. intros (y' & ys' & Hy & _)%Forall2_cons_inv_l. by rewrite Hx in Hy.
Qed.

(** The hexadecimal fields: a prefix is optional and an invalid number is zero. *)
Definition hex_u64 (s : string) : Z := default 0%Z (from_str_radix 16 U64_MAX (trim_start_matches "0x" s)).
Definition hex_u128 (s : string) : Z := default 0%Z (from_str_radix 16 U128_MAX (trim_start_matches "0x" s)).
(** [as u8]. *)
Definition as_u8 (n : Z) : Z := n mod 256.

Section ingestion.
Context `{!Json} `{!Alloy}.

Definition req_str (v : Value) (key : string) : result string string :=
  match get_str v key with Some s => Ok s | None => Err ("missing field `" +:+ key +:+ "`") end.

Definition parse_u256 (s : string) : result string U256 := u256_from_str_radix (trim_start_matches "0x" s) 16.
Definition opt_u256 (v : option Value) : result string (option U256) :=
  transpose (parse_u256 <$> (v ≫= as_str)).
Definition parse_addr (s : string) : result string Address := parse_address s.
Definition parse_b256 (s : string) : result string B256 := parse_hash s.
Definition parse_bytes (s : string) : result string (list Z) := parse_hex_bytes s.

(** [BlockFixture::from_rpc]. *)
Definition block_from_rpc (number chain_id : Z) (spec_id : string) (block : Value) : result string BlockFixture :=
  let? miner := req_str block "miner" in
  let? coinbase := parse_addr miner in
  let? timestamp := req_str block "timestamp" in
  let? gas_limit := req_str block "gasLimit" in
  let basefee := default 0%Z (hex_u64 <$> get_str block "baseFeePerGas") in
  let? difficulty := opt_u256 (get block "difficulty") in
  let? prevrandao := transpose (parse_b256 <$> get_str block "mixHash") in
  Ok (mkBlockFixture number coinbase (hex_u64 timestamp) (hex_u64 gas_limit) basefee (default 0%Z difficulty) prevrandao
        (hex_u64 <$> get_str block "excessBlobGas") chain_id spec_id ∅).

Definition parse_access (item : Value) : result string AccessFixture :=
  let? address := req_str item "address" in
  let? address := parse_addr address in
  let? storage_keys :=
    match get_array item "storageKeys" with
    | Some ks => collect parse_b256 (omap as_str ks)
    | None => Ok []
    end in
  Ok (mkAccessFixture address storage_keys).

Definition parse_auth (a : Value) : result string AuthFixture :=
  let? chain_id := req_str a "chainId" in
  let? chain_id := parse_u256 chain_id in
  let? address := req_str a "address" in
  let? address := parse_addr address in
  let? nonce := req_str a "nonce" in
  let parity := match get a "yParity" with Some v => Some v | None => get a "v" end in
  let? r := req_str a "r" in
  let? r := parse_u256 r in
  let? s := req_str a "s" in
  let? s := parse_u256 s in
  Ok (mkAuthFixture chain_id address (hex_u64 nonce) (as_u8 (hex_u64 (default "0x0" (parity ≫= as_str)))) r s).

(** [TxFixture::from_rpc]. *)
Definition tx_from_rpc (tx : Value) : result string TxFixture :=
  let tx_type := as_u8 (default 0%Z (hex_u64 <$> get_str tx "type")) in
  let? to := transpose (parse_addr <$> get_str tx "to") in
  let max_fee := hex_u128 <$> get_str tx "maxFeePerGas" in
  let gas_price := default 0%Z (match max_fee with Some fee => Some fee | None => hex_u128 <$> get_str tx "gasPrice" end) in
  let? access_list := match get_array tx "accessList" with Some items => collect parse_access items | None => Ok [] end in
  let? blob_hashes :=
    match get_array tx "blobVersionedHashes" with Some hs => collect parse_b256 (omap as_str hs) | None => Ok [] end in
  let? authorization_list :=
    match get_array tx "authorizationList" with Some auths => collect parse_auth auths | None => Ok [] end in
  let? from := req_str tx "from" in
  let? caller := parse_addr from in
  let? nonce := req_str tx "nonce" in
  let? value := req_str tx "value" in
  let? value := parse_u256 value in
  let? input := req_str tx "input" in
  let? data := parse_bytes input in
  let? gas := req_str tx "gas" in
  Ok (mkTxFixture tx_type caller to (hex_u64 nonce) value data (hex_u64 gas) gas_price
        (hex_u128 <$> get_str tx "maxPriorityFeePerGas") (hex_u64 <$> get_str tx "chainId") access_list blob_hashes
        (default 0%Z (hex_u128 <$> get_str tx "maxFeePerBlobGas")) authorization_list).

(** ** The opening state of a block *)

Definition empty_account : AccountFixture := mkAccountFixture 0 0 None ∅.

(** Seed every top-level CREATE destination. *)
Definition seed_creates (txs : list TxFixture) (merged : PreState) : PreState :=
  foldl (λ merged tx,
    match tf_to tx with
    | None => or_insert (create_address (tf_caller tx) (tf_nonce tx)) empty_account merged
    | Some _ => merged
    end) merged txs.

(** The account value of one snapshot. *)
Definition snapshot_account (acc : Value) : result string AccountFixture :=
  let? balance := opt_u256 (get acc "balance") in
  let nonce := default 0%Z (get acc "nonce" ≫= as_u64) in
  let code := match get_str acc "code" with Some s => if decide (s = "0x") then None else Some s | None => None end in
  let? code := transpose (parse_bytes <$> code) in
  Ok (mkAccountFixture (default 0%Z balance) nonce code ∅).

Definition set_af_storage (storage : gmap U256 U256) (acc : AccountFixture) : AccountFixture :=
  mkAccountFixture (af_balance acc) (af_nonce acc) (af_code acc) storage.

(** The loop over the slots of one snapshot: the first value of a slot stays. On an error the
    slots merged so far remain. *)
Fixpoint merge_slots (slots : list (string * Value)) (storage : gmap U256 U256) : result string unit * gmap U256 U256 :=
  match slots with
  | [] => (Ok tt, storage)
  | (slot, val) :: slots =>
    match parse_u256 slot with
    | Err e => (Err e, storage)
    | Ok slot =>
      match parse_u256 (default "0x0" (as_str val)) with
      | Err e => (Err e, storage)
      | Ok val => merge_slots slots (or_insert slot val storage)
      end
    end
  end.

(** The body of the loop over the accounts of one transaction's prestate. *)
Definition merge_account (addr_str : string) (acc : Value) (merged : PreState) : result string unit * PreState :=
  match parse_addr addr_str with
  | Err e => (Err e, merged)
  | Ok addr =>
    let entry := match merged !! addr with Some account => Ok account | None => snapshot_account acc end in
    match entry with
    | Err e => (Err e, merged)
    | Ok account =>
      let merged := <[addr := account]> merged in
      match get acc "storage" ≫= as_object with
      | Some slots =>
        let '(r, storage) := merge_slots slots (af_storage account) in
        (r, <[addr := set_af_storage storage account]> merged)
      | None => (Ok tt, merged)
      end
    end
  end.

Fixpoint merge_accounts (pre : list (string * Value)) (merged : PreState) : result string unit * PreState :=
  match pre with
  | [] => (Ok tt, merged)
  | (addr_str, acc) :: pre =>
    match merge_account addr_str acc merged with
    | (Ok _, merged) => merge_accounts pre merged
    | (Err e, merged) => (Err e, merged)
    end
  end.

(** The prestate map of one entry of the trace. *)
Definition entry_accounts (entry : Value) : list (string * Value) :=
  let result := default entry (get entry "result") in
  default [] (as_object result).

Fixpoint merge_entries (entries : list Value) (merged : PreState) : result string unit * PreState :=
  match entries with
  | [] => (Ok tt, merged)
  | entry :: entries =>
    match merge_accounts (entry_accounts entry) merged with
    | (Ok _, merged) => merge_entries entries merged
    | (Err e, merged) => (Err e, merged)
    end
  end.

Definition accumulate_prestate (merged : PreState) (trace : Value) (txs : list TxFixture) :
    result string unit * PreState :=
  let merged := seed_creates txs merged in
  match as_array trace with
  | None => (Err "debug_traceBlockByNumber did not return an array", merged)
  | Some entries => merge_entries entries merged
  end.

End ingestion.

(** ** Hardfork resolution *)

Definition spec_rank (number timestamp : Z) : nat :=
  if (1764798551 <=? timestamp)%Z then 13
  else if (1746612311 <=? timestamp)%Z then 12
  else if (1710338135 <=? timestamp)%Z then 11
  else if (1681338455 <=? timestamp)%Z then 10
  else if (15537394 <=? number)%Z then 9
  else if (12965000 <=? number)%Z then 8
  else if (12244000 <=? number)%Z then 7
  else if (9069000 <=? number)%Z then 6
  else if (7280000 <=? number)%Z then 5
  else if (4370000 <=? number)%Z then 4
  else if (2675000 <=? number)%Z then 3
  else if (2463000 <=? number)%Z then 2
  else if (1150000 <=? number)%Z then 1
  else 0.

Lemma fork_rank_spec number timestamp :
  fork_rank (spec_for_mainnet_block number timestamp) = Some (spec_rank number timestamp).
Proof. unfold spec_for_mainnet_block, spec_rank. repeat case_match; reflexivity. Qed.

Lemma spec_rank_mono n n' t t' : (n ≤ n')%Z → (t ≤ t')%Z → spec_rank n t ≤ spec_rank n' t'.
Proof.
  intros Hn Ht. unfold spec_rank.
  repeat match goal with |- context [(?c <=? ?x)%Z] => destruct (Z.leb_spec c x); try lia end.
Qed.

(** Later blocks run on the same or a later hardfork, the name is always one of the known
    ones, and from the merge on the timestamp alone decides. *)
Lemma spec_for_mainnet_block_monotone n n' t t' :
  (n ≤ n')%Z → (t ≤ t')%Z →
  (∃ r r', fork_rank (spec_for_mainnet_block n t) = Some r ∧ fork_rank (spec_for_mainnet_block n' t') = Some r' ∧ r ≤ r') ∧
  ((15537394 ≤ n)%Z → spec_for_mainnet_block n t = spec_for_timestamp t).
Proof.
  intros Hn Ht. split.
  - eexists _, _. rewrite !fork_rank_spec. split_and!; [done..|]. by apply spec_rank_mono.
  - intros Hm. unfold spec_for_mainnet_block, spec_for_timestamp. rewrite (proj2 (Z.leb_le 15537394 n)) by done. done.
Qed.

(** ** The fixture database *)

Section fixture_db.
Context `{!Specs} `{!Revm} `{!Alloy}.

(** Code hashes do not collide. *)
Definition hash_injective : Prop := ∀ c c', hash_slow c = hash_slow c' → c = c'.

(** The code a fixture account has: none when the field is missing or empty, else the bytecode of
    its bytes, which must be valid. *)
Definition fixture_bytecode (acc : AccountFixture) : option Bytecode :=
  match af_code acc with
  | None => None
  | Some bytes => if decide (bytes = []) then None else new_raw_checked bytes
  end.
Definition valid_fixture (acc : AccountFixture) : Prop :=
  ∀ bytes, af_code acc = Some bytes → bytes ≠ [] → is_Some (new_raw_checked bytes).

(** The account a fixture stands for, and the world of all of them. *)
Definition fixture_info (acc : AccountFixture) : AccountInfo :=
  mkInfo (af_balance acc) (af_nonce acc) (from_option hash_slow KECCAK_EMPTY (fixture_bytecode acc)) (fixture_bytecode acc).
Definition fixture_world (pre_state : PreState) : World :=
  mkWorld (λ a, fixture_info <$> pre_state !! a)
    (λ a k, default 0%Z (pre_state !! a ≫= λ acc, af_storage acc !! k)).

Definition plain_of (acc : AccountFixture) : PlainAccount := mkPlainAccount (fixture_info acc) (af_storage acc).

(** Every bytecode is stored under its hash. *)
Definition hashed (B : gmap B256 Bytecode) : Prop := ∀ h c, B !! h = Some c → hash_slow c = h.

(** The conversion of the code does what the fixture says. *)
Lemma fixture_code_Done acc h c :
  fixture_code acc = Done (h, c) → valid_fixture acc ∧ h = code_hash (fixture_info acc) ∧ c = fixture_bytecode acc.
Proof.
  unfold fixture_code, valid_fixture, fixture_info, fixture_bytecode. simpl.
  destruct (af_code acc) as [[|x l]|]; simpl; [| |].
  - intros [= <- <-]. split_and!; [|done..]. by intros ? [= <-].
  - destruct (new_raw_checked (x :: l)) as [c'|] eqn:Hc; [|done]. intros [= <- <-].
    split_and!; [|done..]. intros bytes [= <-] _. by eexists.
  - intros [= <- <-]. by split_and!.
Qed.

Lemma fixture_code_panics acc : fixture_code acc ≠ Panic ↔ valid_fixture acc.
Proof.
  split.
  - intros Hp. destruct (fixture_code acc) as [[h c]|] eqn:Hc; [|done]. by apply fixture_code_Done in Hc as [? _].
  - unfold fixture_code, valid_fixture. intros Hv. destruct (af_code acc) as [[|x l]|]; [done| |done].
    by destruct (Hv (x :: l) eq_refl) as [c ->].
Qed.

Lemma fixture_code_hash acc h c : fixture_code acc = Done (h, Some c) → hash_slow c = h.
Proof. intros (_ & -> & Hc)%fixture_code_Done. simpl. by rewrite <-Hc. Qed.

Lemma fixture_code_info acc h c :
  fixture_code acc = Done (h, c) → fixture_info acc = mkInfo (af_balance acc) (af_nonce acc) h c.
Proof. by intros (_ & -> & ->)%fixture_code_Done. Qed.

Lemma add_account_Done A B a acc A' B' :
  add_account (A, B) a acc = Done (A', B') ↔
  ∃ h c, fixture_code acc = Done (h, c) ∧
    A' = <[a := mkPlainAccount (mkInfo (af_balance acc) (af_nonce acc) h c) (af_storage acc)]> A ∧
    B' = match c with Some c => <[h := c]> B | None => B end.
Proof. unfold add_account. rewrite outcome_bind_Done. split; [intros ([h c] & ? & [= <- <-])|intros (h & c & ? & -> & ->)]; eauto. Qed.

(** Every bytecode is stored under its hash, and none is lost. *)
Lemma add_account_bytecodes A B a acc A' B' :
  add_account (A, B) a acc = Done (A', B') → hashed B →
  hashed B' ∧ dom B ⊆ dom B' ∧ ∀ h c, fixture_code acc = Done (h, Some c) → h ∈ dom B'.
Proof.
  intros (h & c & Hc & -> & ->)%add_account_Done HB. rewrite Hc. destruct c as [c|].
  - split_and!.
    + intros h' c' [[<- <-]|[_ ?]]%lookup_insert_Some; [by eapply fixture_code_hash|by apply HB].
    + set_solver.
    + intros ? ? [= <- <-]. set_solver.
  - by split_and!.
Qed.

Lemma add_accounts_bytecodes l A B A' B' :
  add_accounts (A, B) l = Done (A', B') → hashed B →
  hashed B' ∧ dom B ⊆ dom B' ∧ ∀ a acc h c, (a, acc) ∈ l → fixture_code acc = Done (h, Some c) → h ∈ dom B'.
Proof.
  revert A B. induction l as [|[a acc] l IH]; intros A B; cbn [add_accounts].
  { intros [= <- <-] HB. split_and!; [done..|]. by intros ???? ?%elem_of_nil. }
  rewrite outcome_bind_Done. intros ([A1 B1] & Hadd & Hrest) HB.
  destruct (add_account_bytecodes _ _ _ _ _ _ Hadd HB) as (HB1 & Hsub1 & Hin1).
  destruct (IH _ _ Hrest HB1) as (HB' & Hsub & Hin). split_and!; [done|set_solver|].
  intros a' acc' h c [[= -> ->]|?]%elem_of_cons Hc; [|by eapply Hin].
  apply Hsub. by eapply Hin1.
Qed.

Lemma add_accounts_accounts l A B A' B' a :
  NoDup l.*1 → add_accounts (A, B) l = Done (A', B') →
  A' !! a = match (list_to_map l : PreState) !! a with Some acc => Some (plain_of acc) | None => A !! a end.
Proof.
  revert A B. induction l as [|[a1 acc] l IH]; intros A B; cbn [add_accounts].
  { by intros _ [= <- <-]. }
  cbn. intros [Hn Hnd]%NoDup_cons. rewrite outcome_bind_Done. intros ([A1 B1] & Hadd & Hrest).
  rewrite (IH _ _ Hnd Hrest). apply add_account_Done in Hadd as (h & c & Hc & -> & _).
  destruct (decide (a1 = a)) as [->|].
  - rewrite (not_elem_of_list_to_map_1 l a) by done. rewrite !lookup_insert_eq. unfold plain_of.
    by rewrite (fixture_code_info _ _ _ Hc).
  - by rewrite !lookup_insert_ne.
Qed.

Lemma add_accounts_total l A B :
  (∃ A' B', add_accounts (A, B) l = Done (A', B')) ↔ Forall (λ aacc, fixture_code aacc.2 ≠ Panic) l.
Proof.
  revert A B. induction l as [|[a acc] l IH]; intros A B; cbn [add_accounts].
  { split; [constructor|]. by eexists _, _. }
  rewrite Forall_cons. simpl. destruct (fixture_code acc) as [[h c]|] eqn:Hc; simpl.
  - rewrite IH. naive_solver.
  - naive_solver.
Qed.

(** The content of a fixture database. *)
Lemma pre_state_to_db_spec pre_state db :
  pre_state_to_db pre_state = Done db →
  hashed (im_bytecodes db) ∧ (∀ a, im_accounts db !! a = plain_of <$> pre_state !! a) ∧
  (∀ a acc, pre_state !! a = Some acc → valid_fixture acc) ∧
  ∀ a acc h c, pre_state !! a = Some acc → fixture_code acc = Done (h, Some c) → h ∈ dom (im_bytecodes db).
Proof.
  unfold pre_state_to_db. rewrite outcome_bind_Done. intros ([A B] & Hadd & [= <-]). simpl.
  destruct (add_accounts_bytecodes _ _ _ _ _ Hadd) as (HB & _ & Hin); [by intros ??|].
  split_and!; [done| | |].
  - intros a. rewrite (add_accounts_accounts _ _ _ _ _ a (btree_iter_NoDup _) Hadd), btree_iter_to_map.
    by destruct (pre_state !! a).
  - intros a acc Ha. assert (Hall : ∃ A B, add_accounts (∅, ∅) (btree_iter pre_state) = Done (A, B)) by eauto.
    apply add_accounts_total in Hall. rewrite Forall_forall in Hall.
    apply fixture_code_panics, (Hall (a, acc)). by apply elem_of_btree_iter.
  - intros a acc h c Ha. by eapply Hin, elem_of_btree_iter.
Qed.

Definition db_code (db : InMemoryDB) (h : B256) : Bytecode := default [] (im_bytecodes db !! h).

(** The code of an account is served under its hash. *)
Lemma fixture_bytecode_stored pre_state db a acc c :
  hash_injective → pre_state_to_db pre_state = Done db → pre_state !! a = Some acc →
  fixture_bytecode acc = Some c → im_bytecodes db !! hash_slow c = Some c.
Proof.
  intros Hinj (HB & _ & Hval & Hin)%pre_state_to_db_spec Ha Hc. specialize (Hval _ _ Ha).
  apply fixture_code_panics in Hval. destruct (fixture_code acc) as [[h c']|] eqn:Hcode; [|done].
  destruct (fixture_code_Done _ _ _ Hcode) as (_ & Hh & ->). rewrite Hc in *. simpl in Hh. rewrite Hc in Hh. simpl in Hh. subst h.
  specialize (Hin _ _ _ _ Ha Hcode). apply elem_of_dom in Hin as [c' Hc'].
  rewrite Hc'. f_equal. apply Hinj. by apply HB.
Qed.

Lemma fixture_code_ok pre_state db a acc :
  hash_injective → pre_state_to_db pre_state = Done db → pre_state !! a = Some acc → code_ok (db_code db) (Some (fixture_info acc)).
Proof.
  intros Hinj Hdb Ha i c [= <-] Hc _. simpl in *. rewrite Hc. simpl. unfold db_code.
  by rewrite (fixture_bytecode_stored _ _ _ _ _ Hinj Hdb Ha Hc).
Qed.

(** The conversion is total exactly on valid codes. *)
Lemma pre_state_to_db_total pre_state :
  (∃ db, pre_state_to_db pre_state = Done db) ↔ ∀ a acc, pre_state !! a = Some acc → valid_fixture acc.
Proof.
  split; [intros [db (_ & _ & Hval & _)%pre_state_to_db_spec]; exact Hval|]. intros Hall.
  unfold pre_state_to_db. setoid_rewrite outcome_bind_Done.
  destruct (add_accounts_total (btree_iter pre_state) ∅ ∅) as [_ (A & B & Hadd)]; [|eauto].
  apply Forall_forall. intros [a acc] Ha%elem_of_btree_iter. apply fixture_code_panics. by eapply Hall.
Qed.


End fixture_db.

(** ** The reconstructed opening state *)

Section opening.
Context `{!Json} `{!Alloy}.

(** What a trace says: the snapshots of all its entries, in order. *)
Definition observations (entries : list Value) : list (string * Value) := concat (entry_accounts <$> entries).

(** The first snapshot of an address. *)
Fixpoint first_snapshot (obs : list (string * Value)) (a : Address) : option Value :=
  match obs with
  | [] => None
  | (s, acc) :: obs =>
    match parse_addr s with
    | Ok b => if decide (b = a) then Some acc else first_snapshot obs a
    | Err _ => first_snapshot obs a
    end
  end.

(** The first value of a slot in a storage map, and in all snapshots of an address. *)
Fixpoint first_value (slots : list (string * Value)) (k : U256) : option U256 :=
  match slots with
  | [] => None
  | (s, val) :: slots =>
    match parse_u256 s, parse_u256 (default "0x0" (as_str val)) with
    | Ok k', Ok v => if decide (k' = k) then Some v else first_value slots k
    | _, _ => first_value slots k
    end
  end.
Definition snapshot_slots (acc : Value) : list (string * Value) := default [] (get acc "storage" ≫= as_object).
Fixpoint first_slot (obs : list (string * Value)) (a : Address) (k : U256) : option U256 :=
  match obs with
  | [] => None
  | (s, acc) :: obs =>
    match parse_addr s with
    | Ok b =>
      if decide (b = a) then
        match first_value (snapshot_slots acc) k with Some v => Some v | None => first_slot obs a k end
      else first_slot obs a k
    | Err _ => first_slot obs a k
    end
  end.

(** An account without its storage, and one slot of a prestate. *)
Definition header (acc : AccountFixture) : AccountFixture := set_af_storage ∅ acc.
Definition slot_of (m : PreState) (a : Address) (k : U256) : option U256 := m !! a ≫= λ acc, af_storage acc !! k.

Definition ok_value {A} (r : result string A) : option A := match r with Ok a => Some a | Err _ => None end.

(** The creation destinations of a block. *)
Definition is_created_by (txs : list TxFixture) (a : Address) : bool :=
  existsb (λ tx, match tf_to tx with
                 | None => bool_decide (create_address (tf_caller tx) (tf_nonce tx) = a)
                 | Some _ => false
                 end) txs.

(** First seen wins: an address already merged, else a creation of this block, else the first
    snapshot in the trace. *)
Definition opening_account (merged : PreState) (txs : list TxFixture) (obs : list (string * Value)) (a : Address) :
    option AccountFixture :=
  match merged !! a with
  | Some acc => Some (header acc)
  | None => if is_created_by txs a then Some empty_account else first_snapshot obs a ≫= λ acc, ok_value (snapshot_account acc)
  end.
Definition opening_slot (merged : PreState) (obs : list (string * Value)) (a : Address) (k : U256) : option U256 :=
  match slot_of merged a k with Some v => Some v | None => first_slot obs a k end.

Lemma seed_creates_lookup txs merged a :
  seed_creates txs merged !! a =
    match merged !! a with Some acc => Some acc | None => if is_created_by txs a then Some empty_account else None end.
Proof.
  unfold seed_creates. revert merged. induction txs as [|tx txs IH]; intros merged; simpl.
  { by destruct (merged !! a). }
  rewrite IH. destruct (tf_to tx); simpl; [done|]. rewrite lookup_or_insert.
  destruct (decide (create_address (tf_caller tx) (tf_nonce tx) = a)) as [->|].
  - rewrite bool_decide_eq_true_2 by done. by destruct (merged !! a).
  - by rewrite bool_decide_eq_false_2 by done.
Qed.

Lemma seed_creates_slot txs merged a k : slot_of (seed_creates txs merged) a k = slot_of merged a k.
Proof. unfold slot_of. rewrite seed_creates_lookup. destruct (merged !! a); [done|]. by destruct (is_created_by txs a). Qed.

Lemma merge_slots_spec slots st st' k :
  merge_slots slots st = (Ok tt, st') →
  st' !! k = match st !! k with Some v => Some v | None => first_value slots k end.
Proof.
  revert st. induction slots as [|[s val] slots IH]; intros st; simpl.
  { intros [= <-]. by destruct (st !! k). }
  destruct (parse_u256 s) as [k'|]; [|done]. destruct (parse_u256 _) as [v|]; [|done].
  intros ->%IH. rewrite lookup_or_insert. case_decide; subst; by destruct (st !! _).
Qed.

(** One snapshot: its address, the entry it creates or keeps, and the slots it adds. *)
Lemma merge_account_spec s acc m m' :
  merge_account s acc m = (Ok tt, m') → ∃ addr account,
    parse_addr s = Ok addr ∧
    match m !! addr with Some account => Ok account | None => snapshot_account acc end = Ok account ∧
    (∀ a, header <$> m' !! a = header <$> <[addr := account]> m !! a) ∧
    ∀ a k, slot_of m' a k = match slot_of (<[addr := account]> m) a k with
                            | Some v => Some v
                            | None => if decide (addr = a) then first_value (snapshot_slots acc) k else None
                            end.
Proof.
  unfold merge_account, snapshot_slots. destruct (parse_addr s) as [addr|] eqn:Hs; [|done].
  destruct (match m !! addr with Some account => Ok account | None => snapshot_account acc end) as [account|] eqn:He; [|done].
  intros Hm. exists addr, account. split; [done|]. split; [done|].
  destruct (get acc "storage" ≫= as_object) as [slots|]; simpl in *.
  - destruct (merge_slots slots (af_storage account)) as [r st] eqn:Hst. simplify_eq.
    split.
    + intros a. rewrite insert_insert_eq. destruct (decide (addr = a)) as [->|];
        rewrite ?lookup_insert_eq, ?lookup_insert_ne by done; done.
    + intros a k. unfold slot_of. rewrite insert_insert_eq. case_decide as Ha.
      * subst. rewrite !lookup_insert_eq. simpl. by rewrite (merge_slots_spec _ _ _ _ Hst).
      * rewrite !lookup_insert_ne by done. by destruct (m !! a ≫= _).
  - simplify_eq. split; [done|]. intros a k. destruct (slot_of _ a k); [done|]. by case_decide.
Qed.

Lemma snapshot_account_storage acc account : snapshot_account acc = Ok account → af_storage account = ∅.
Proof.
  unfold snapshot_account. destruct (opt_u256 _); [|done]. simpl. destruct (transpose _); [|done]. by intros [= <-].
Qed.

Lemma snapshot_account_header acc account : snapshot_account acc = Ok account → header account = account.
Proof. intros He%snapshot_account_storage. destruct account. unfold header, set_af_storage. simpl in *. by subst. Qed.

Lemma merge_accounts_spec obs m m' :
  merge_accounts obs m = (Ok tt, m') →
  (∀ a, header <$> m' !! a = match m !! a with
                             | Some acc => Some (header acc)
                             | None => first_snapshot obs a ≫= λ acc, ok_value (snapshot_account acc)
                             end) ∧
  ∀ a k, slot_of m' a k = match slot_of m a k with Some v => Some v | None => first_slot obs a k end.
Proof.
  revert m. induction obs as [|[s acc] obs IH]; intros m; simpl.
  { intros [= <-]. split; intros a; [by destruct (m !! a)|]. intros k. by destruct (slot_of m a k). }
  destruct (merge_account s acc m) as [[[]|] m1] eqn:Hm1; [|done]. intros Hrest.
  destruct (merge_account_spec _ _ _ _ Hm1) as (addr & account & Hs & He & Hhead & Hslot).
  destruct (IH _ Hrest) as [IHh IHs]. rewrite Hs. split.
  - intros a. rewrite IHh. specialize (Hhead a). destruct (decide (addr = a)) as [->|Ha].
    + rewrite lookup_insert_eq in Hhead. destruct (m1 !! a) as [acc1|]; [|done]. cbn [fmap option_fmap option_map] in Hhead.
      rewrite Hhead. destruct (m !! a) as [acc0|]; [by simplify_eq|]. simpl. rewrite He. simpl.
      f_equal. by apply snapshot_account_header in He.
    + rewrite lookup_insert_ne in Hhead by done.
      destruct (m1 !! a) as [acc1|], (m !! a) as [acc0|]; cbn [fmap option_fmap option_map] in Hhead; congruence || done.
  - intros a k. rewrite IHs, Hslot. unfold slot_of at 1. destruct (decide (addr = a)) as [->|Ha].
    + rewrite lookup_insert_eq. simpl. unfold slot_of. destruct (m !! a) as [acc0|]; simpl.
      * simplify_eq. by destruct (af_storage account !! k).
      * by rewrite (snapshot_account_storage _ _ He), lookup_empty.
    + rewrite lookup_insert_ne by done. fold (slot_of m a k). by destruct (slot_of m a k).
Qed.

Lemma merge_accounts_app obs1 obs2 m :
  merge_accounts (obs1 ++ obs2) m =
    match merge_accounts obs1 m with (Ok _, m) => merge_accounts obs2 m | (Err e, m) => (Err e, m) end.
Proof.
  revert m. induction obs1 as [|[s acc] obs1 IH]; intros m; simpl; [done|].
  destruct (merge_account s acc m) as [[|] m1]; [apply IH|done].
Qed.

Lemma merge_entries_observations entries m : merge_entries entries m = merge_accounts (observations entries) m.
Proof.
  revert m. induction entries as [|entry entries IH]; intros m; [done|]. unfold observations. simpl.
  rewrite merge_accounts_app. destruct (merge_accounts _ m) as [[|] m1]; [apply IH|done].
Qed.

(** Snapshots whose numbers and addresses parse. *)
Definition slots_parse (slots : list (string * Value)) : Prop :=
  Forall (λ sv, is_Some (ok_value (parse_u256 sv.1)) ∧ is_Some (ok_value (parse_u256 (default "0x0" (as_str sv.2))))) slots.
Definition snapshot_parses (o : string * Value) : Prop :=
  is_Some (ok_value (parse_addr o.1)) ∧ is_Some (ok_value (snapshot_account o.2)) ∧ slots_parse (snapshot_slots o.2).

Lemma merge_slots_total slots st : slots_parse slots → ∃ st', merge_slots slots st = (Ok tt, st').
Proof.
  intros Hp. revert st. induction Hp as [|[s v] slots [Hs Hv] _ IH]; intros st; simpl; [eauto|]. simpl in *.
  destruct (parse_u256 s); [|by destruct Hs]. destruct (parse_u256 _); [apply IH|by destruct Hv].
Qed.

Lemma merge_accounts_total obs m : Forall snapshot_parses obs → ∃ m', merge_accounts obs m = (Ok tt, m').
Proof.
  intros Hp. revert m. induction Hp as [|[s acc] obs (Ha & Hacc & Hsl) _ IH]; intros m; simpl in *; [eauto|].
  assert (∃ m1, merge_account s acc m = (Ok tt, m1)) as [m1 ->]; [|apply IH].
  unfold merge_account. destruct (parse_addr s) as [addr|]; [|by destruct Ha].
  destruct (snapshot_account acc) as [account|]; [|by destruct Hacc]. unfold snapshot_slots in Hsl.
  destruct (m !! addr) as [acc0|]; destruct (get acc "storage" ≫= as_object) as [slots|]; simpl in Hsl; try by eexists.
  - destruct (merge_slots_total slots (af_storage acc0) Hsl) as [st' ->]. by eexists.
  - destruct (merge_slots_total slots (af_storage account) Hsl) as [st' ->]. by eexists.
Qed.

(** The opening state of a block is reconstructed "first seen wins": a trace whose
    snapshots parse is always accepted, and then every account is the one already merged, else
    the empty account of a creation of this block, else its first snapshot in the trace, and
    every storage slot is the one already merged, else the first one the trace reports. *)
Theorem accumulate_prestate_first_seen merged trace txs entries :
  as_array trace = Some entries →
  (Forall snapshot_parses (observations entries) → (accumulate_prestate merged trace txs).1 = Ok tt) ∧
  ∀ merged', accumulate_prestate merged trace txs = (Ok tt, merged') →
    (∀ a, header <$> merged' !! a = opening_account merged txs (observations entries) a) ∧
    ∀ a k, slot_of merged' a k = opening_slot merged (observations entries) a k.
Proof.
  intros Htr. unfold accumulate_prestate. rewrite Htr, merge_entries_observations. split.
  - intros Hp. destruct (merge_accounts_total _ (seed_creates txs merged) Hp) as [m' ->]. done.
  - intros m' [Hh Hs]%merge_accounts_spec. split.
    + intros a. rewrite Hh, seed_creates_lookup. unfold opening_account. destruct (merged !! a); [done|].
      by destruct (is_created_by txs a).
    + intros a k. by rewrite Hs, seed_creates_slot.
Qed.

End opening.

(** ** Delegation targets *)

Lemma authorization_targets_spec targets tx a :
  a ∈ authorization_targets targets tx ↔
  a ∈ targets ∨ a ≠ 0%Z ∧ ∃ auth, auth ∈ tf_authorization_list tx ∧ au_address auth = a.
Proof.
  unfold authorization_targets. revert targets. induction (tf_authorization_list tx) as [|au l IH]; intros targets; simpl.
  { set_solver. }
  rewrite IH. destruct (decide (au_address au = 0%Z)).
  - rewrite bool_decide_eq_true_2 by done. set_solver.
  - rewrite bool_decide_eq_false_2 by done. set_solver.
Qed.

Lemma authorizations_targets_spec txs targets a :
  a ∈ foldl authorization_targets targets txs ↔
  a ∈ targets ∨ a ≠ 0%Z ∧ ∃ tx auth, tx ∈ txs ∧ auth ∈ tf_authorization_list tx ∧ au_address auth = a.
Proof.
  revert targets. induction txs as [|tx txs IH]; intros targets; simpl; [set_solver|].
  rewrite IH, authorization_targets_spec. set_solver.
Qed.

Lemma designators_targets_spec accs targets a :
  a ∈ foldl designator_target targets accs ↔
  a ∈ targets ∨ ∃ acc bytes, acc ∈ accs ∧ af_code acc = Some bytes ∧ is_designator bytes = true ∧
    from_be_bytes (drop 3 bytes) = a.
Proof.
  revert targets. induction accs as [|acc accs IH]; intros targets; simpl; [set_solver|].
  rewrite IH. assert (Hone : a ∈ designator_target targets acc ↔ a ∈ targets ∨
    ∃ bytes, af_code acc = Some bytes ∧ is_designator bytes = true ∧ from_be_bytes (drop 3 bytes) = a).
  { unfold designator_target. destruct (af_code acc) as [bytes|].
    - destruct (is_designator bytes) eqn:Hd; rewrite ?elem_of_union, ?elem_of_singleton; split.
      + intros [->|?]; [right; by exists bytes|by left].
      + intros [?|(? & [= <-] & _ & <-)]; [by right|by left].
      + by left.
      + intros [?|(? & [= <-] & ? & _)]; congruence.
    - split; [by left|]. by intros [?|(? & ? & _)]. }
  rewrite Hone. setoid_rewrite elem_of_cons. split.
  - intros [[?|(bytes & ?)]|(acc' & bytes & ? & ?)]; [by left|right; exists acc, bytes|right; exists acc', bytes]; tauto.
  - intros [?|(acc' & bytes & [->|?] & ?)]; [by left; left|left; right; by exists bytes|right; by exists acc', bytes].
Qed.

(** The delegation targets are listed once each in ascending order, and an address is one of
    them exactly when some authorization names it and it is not zero, or some account of the
    prestate holds a designator of it. *)
Lemma delegation_targets_exact txs pre_state :
  Sorted Z.le (delegation_targets txs pre_state) ∧ NoDup (delegation_targets txs pre_state) ∧
  ∀ a, a ∈ delegation_targets txs pre_state ↔
    (a ≠ 0%Z ∧ ∃ tx auth, tx ∈ txs ∧ auth ∈ tf_authorization_list tx ∧ au_address auth = a) ∨
    ∃ b acc bytes, pre_state !! b = Some acc ∧ af_code acc = Some bytes ∧ is_designator bytes = true ∧
      from_be_bytes (drop 3 bytes) = a.
Proof.
  unfold delegation_targets. split; [apply btree_elements_Sorted|]. split; [apply btree_elements_NoDup|].
  intros a. rewrite elem_of_btree_elements, designators_targets_spec, authorizations_targets_spec.
  split.
  - intros [[?|?]|(acc & bytes & ([b ?] & -> & Hb%elem_of_btree_iter)%list_elem_of_fmap & ?)]; [set_solver|by left|right].
    naive_solver.
  - intros [?|(b & acc & bytes & Hb & ?)]; [by left; right|right]. exists acc, bytes. split; [|done].
    apply list_elem_of_fmap. exists (b, acc). by rewrite elem_of_btree_iter.
Qed.

(** ** A concrete instance of the parameters, for examples and witnesses *)

Definition parse_hex_example (max : Z) (s : string) : result string Z :=
  match from_str_radix 16 max (trim_start_matches "0x" s) with Some n => Ok n | None => Err "invalid" end.

Definition alloy_example : Alloy := {|
  keccak256 l := from_be_bytes l;
  KECCAK_EMPTY := 0;
  new_raw_checked c := Some c;
  hash_slow c := Zpos (encode c);
  parse_address := parse_hex_example (2 ^ 160 - 1);
  parse_hash := parse_hex_example U256_MAX;
  parse_hex_bytes s := result_map (to_be_bytes 2) (parse_hex_example 65535 s);
  u256_from_str_radix s r :=
    match from_str_radix r U256_MAX s with Some n => Ok n | None => Err "invalid" end;
  u256_from_str := parse_hex_example U256_MAX;
  create_address a n := (a * 1000 + n)%Z;
  address_to_string a := block_tag a
|}.

Lemma alloy_example_injective : @hash_injective alloy_example.
Proof. intros c c' [= Hc]. by apply encode_inj in Hc. Qed.

Section examples.
#[local] Existing Instance revm_example.
#[local] Existing Instance alloy_example.
#[local] Existing Instance tree_json.

Definition ex_pre_state : PreState :=
  <[7%Z := mkAccountFixture 5 1 (Some [96; 0]%Z) (<[1%Z := 2%Z]> ∅)]> (<[8%Z := mkAccountFixture 9 0 None ∅]> ∅).


(** A creation that a later transaction reads: its snapshot does not replace the empty account. *)
Definition ex_create : TxFixture := mkTxFixture 2 35 None 22 0 [] 100000 1 (Some 0%Z) (Some 1%Z) [] [] 0 [].
Definition ex_snapshot (nonce : Z) (code v : string) : Value :=
  JObject [("balance", JString "0x0"); ("nonce", JNumber nonce); ("code", JString code);
           ("storage", JObject [("0x01", JString v)])].
Definition ex_entries : list Value :=
  [JObject [("result", JObject [("0x88ce", ex_snapshot 1 "0x6000" "0x02"); ("0x7", ex_snapshot 3 "0x" "0x5")])];
   JObject [("result", JObject [("0x7", ex_snapshot 4 "0x" "0x6")])]].

Lemma accumulate_prestate_first_seen_witness :
  as_array (JArray ex_entries) = Some ex_entries ∧
  (accumulate_prestate ∅ (JArray ex_entries) [ex_create]).1 = Ok tt ∧
  (∀ merged', accumulate_prestate ∅ (JArray ex_entries) [ex_create] = (Ok tt, merged') →
    header <$> merged' !! 35022%Z = Some empty_account ∧ slot_of merged' 35022 1 = Some 2%Z ∧
    header <$> merged' !! 7%Z = Some (mkAccountFixture 0 3 None ∅) ∧ slot_of merged' 7 1 = Some 5%Z).
Proof.
  split; [reflexivity|].
  destruct (accumulate_prestate_first_seen ∅ (JArray ex_entries) [ex_create] ex_entries eq_refl) as [Hok Hspec].
  split.
  - apply Hok. repeat constructor; vm_compute; by eexists.
  - intros merged' Hm. destruct (Hspec _ Hm) as [Hh Hs]. rewrite !Hh, !Hs. by vm_compute.
Defined.

End examples.
