(* ===== verification/FixtureFiles.v ===== *)
(** Fixture files: the reading and writing of block fixtures in
    src/src/test_utils/common/mainnet.rs.

    The file system is a set of directories and a map of files by path; an operation of
    [std::fs] returns its result and the file system. serde_json is the class [Serde]: what it
    writes for a value it reads back. The order in which a directory is listed is not
    specified; it is the parameter [dir_order]. *)

From S2P Require Import Prelude Model World Executor Collections Text MemoryDb Mainnet.
From stdpp Require Import sorting pretty.
From Stdlib Require Import Ascii.

(** ** File system *)

Abbreviation Path := (list string) (only parsing).

Record Fs := mkFs {
  fs_dirs : gset (list string);
  fs_files : gmap (list string) string
}.

Inductive IoError :=
| NotFound (p : Path) | NotADirectory (p : Path) | InvalidData (p : Path) (message : string) | OtherIo (p : Path) (message : string).

Definition is_dir (fs : Fs) (p : Path) : bool := bool_decide (p ∈ fs_dirs fs).
Definition is_file (fs : Fs) (p : Path) : bool := bool_decide (is_Some (fs_files fs !! p)).

(** The path and its ancestors. *)
Definition ancestors (p : Path) : list Path := (λ n, take n p) <$> seq 0 (S (length p)).

(** [fs::create_dir_all]. *)
Definition create_dir_all (p : Path) (fs : Fs) : result IoError unit * Fs :=
  if existsb (is_file fs) (ancestors p) then (Err (NotADirectory p), fs)
  else (Ok tt, mkFs (fs_dirs fs ∪ list_to_set (ancestors p)) (fs_files fs)).

(** [File::create] of a file in a directory: an existing file is truncated. *)
Definition file_create (dir : Path) (name : string) (fs : Fs) : result IoError unit * Fs :=
  if is_dir fs dir && negb (is_dir fs (dir ++ [name])) then
    (Ok tt, mkFs (fs_dirs fs) (<[dir ++ [name] := ""]> (fs_files fs)))
  else (Err (NotFound (dir ++ [name])), fs).

(** [fs::read_dir] *)
Section listing.
Context (dir_order : list Path → list Path).
Definition children (root : Path) (fs : Fs) : list Path :=
  filter (λ p, length p = S (length root) ∧ take (length root) p = root) (elements (fs_dirs fs ∪ dom (fs_files fs))).
Definition read_dir (root : Path) (fs : Fs) : option (list Path) :=
  if is_dir fs root then Some (dir_order (children root fs)) else None.
End listing.

(** ** serde_json *)

Class Serde (T : Type) := {
  to_json : T → result string string;
  from_json : string → result string T;
  json_roundtrip v s : to_json v = Ok s → from_json s = Ok v
}.

(** ** Fixtures *)

Section files.
Context `{!Revm} `{!Alloy} `{!Specs}.
Context `{!Serde BlockFixture} `{!Serde (list TxFixture)} `{!Serde (gmap Address AccountFixture)}.
Context (dir_order : list Path → list Path) (dir_order_ok : ∀ l, dir_order l ≡ₚ l).

Definition DEFAULT_MAINNET_BLOCKS_DIR : Path := ["test_data"; "mainnet_blocks"].
Definition DEFAULT_CONTINUOUS_BLOCKS_DIR : Path := ["test_data"; "con_eth_blocks"].

(** [env] is the environment of the process, each value read as a path. *)
Definition mainnet_blocks_root (env : string → option Path) : Path :=
  match env "GREVM_MAINNET_BLOCKS" with Some p => p | None => DEFAULT_MAINNET_BLOCKS_DIR end.
Definition continuous_blocks_root (env : string → option Path) : Path :=
  match env "GREVM_CONTINUOUS_BLOCKS" with Some p => p | None => DEFAULT_CONTINUOUS_BLOCKS_DIR end.

Definition read_json {T} `{!Serde T} (path : Path) (fs : Fs) : result IoError T :=
  match fs_files fs !! path with
  | None => Err (NotFound path)
  | Some file => match from_json file with Ok v => Ok v | Err e => Err (InvalidData path e) end
  end.

Definition write_json {T} `{!Serde T} (dir : Path) (name : string) (value : T) (fs : Fs) : result IoError unit * Fs :=
  match file_create dir name fs with
  | (Err e, fs) => (Err e, fs)
  | (Ok _, fs) =>
    match to_json value with
    | Ok s => (Ok tt, mkFs (fs_dirs fs) (<[dir ++ [name] := s]> (fs_files fs)))
    | Err e => (Err (OtherIo (dir ++ [name]) e), fs)
    end
  end.

Definition load_mainnet_block (dir : Path) (fs : Fs) : outcome (result IoError MainnetBlock) :=
  match read_json (T:=BlockFixture) (dir ++ ["block.json"]) fs with
  | Err e => Done (Err e)
  | Ok block =>
    match read_json (T:=list TxFixture) (dir ++ ["txs.json"]) fs with
    | Err e => Done (Err e)
    | Ok txs =>
      match read_json (T:=gmap Address AccountFixture) (dir ++ ["pre_state.json"]) fs with
      | Err e => Done (Err e)
      | Ok pre_state =>
        let label := default "" (last dir) in
        let! b := from_fixtures label block txs pre_state in Done (Ok b)
      end
    end
  end.

(** [str::split('_').next()] *)
Fixpoint before_underscore (s : string) : string :=
  match s with
  | EmptyString => ""
  | String c s => if decide (c = "_"%char) then "" else String c (before_underscore s)
  end.

(** The key of the sort. *)
Definition dir_key (p : Path) : Z :=
  default U64_MAX (n ← last p; Z.of_nat <$> parse_usize (before_underscore n)).

(** [slice::sort_by_key]: a stable sort. *)
Fixpoint insert_by_key (p : Path) (l : list Path) : list Path :=
  match l with
  | [] => [p]
  | q :: l => if decide (dir_key p ≤ dir_key q)%Z then p :: q :: l else q :: insert_by_key p l
  end.
Definition sort_by_key (l : list Path) : list Path := foldr insert_by_key [] l.

Fixpoint load_dirs (dirs : list Path) (fs : Fs) : outcome (list MainnetBlock) :=
  match dirs with
  | [] => Done []
  | dir :: dirs =>
    let! r := load_mainnet_block dir fs in
    match r with
    | Ok b => let! bs := load_dirs dirs fs in Done (b :: bs)
    | Err _ => Panic
    end
  end.

Definition load_blocks_from (root : Path) (fs : Fs) : outcome (list MainnetBlock) :=
  match read_dir dir_order root fs with
  | None => Done []
  | Some entries =>
    let dirs := filter (λ p, is_dir fs p && is_file fs (p ++ ["block.json"])) entries in
    load_dirs (sort_by_key dirs) fs
  end.

Definition load_mainnet_blocks (env : string → option Path) : Fs → outcome (list MainnetBlock) :=
  load_blocks_from (mainnet_blocks_root env).
Definition load_continuous_blocks (env : string → option Path) : Fs → outcome (list MainnetBlock) :=
  load_blocks_from (continuous_blocks_root env).

Definition write_block (dir : Path) (block : BlockFixture) (txs : list TxFixture) (pre_state : PreState) (fs : Fs) :
    result IoError unit * Fs :=
  match create_dir_all dir fs with
  | (Err e, fs) => (Err e, fs)
  | (Ok _, fs) =>
    match write_json dir "block.json" block fs with
    | (Err e, fs) => (Err e, fs)
    | (Ok _, fs) =>
      match write_json dir "txs.json" txs fs with
      | (Err e, fs) => (Err e, fs)
      | (Ok _, fs) => write_json dir "pre_state.json" pre_state fs
      end
    end
  end.

(** The directory of a block: its number in decimal. *)
Definition block_dir (root : Path) (number : Z) : Path := root ++ [pretty (Z.to_nat number)].

Definition write_mainnet_block (root : Path) (block : BlockFixture) (txs : list TxFixture) (pre_state : PreState) (fs : Fs) :
    result IoError Path * Fs :=
  let dir := block_dir root (bf_number block) in
  match write_block dir block txs pre_state fs with
  | (Ok _, fs) => (Ok dir, fs)
  | (Err e, fs) => (Err e, fs)
  end.

(** ** Files on disk *)

Abbreviation Fixture := (BlockFixture * list TxFixture * gmap Address AccountFixture)%type (only parsing).

(** The directory holds the three files of a fixture. *)
Definition stored (dir : Path) (x : Fixture) (fs : Fs) : Prop :=
  let '(block, txs, pre_state) := x in ∃ s1 s2 s3,
  to_json block = Ok s1 ∧ to_json txs = Ok s2 ∧ to_json pre_state = Ok s3 ∧
  fs_files fs !! (dir ++ ["block.json"]) = Some s1 ∧ fs_files fs !! (dir ++ ["txs.json"]) = Some s2 ∧
  fs_files fs !! (dir ++ ["pre_state.json"]) = Some s3.

Lemma write_json_Ok {T} `{!Serde T} dir name (value : T) fs fs' :
  write_json dir name value fs = (Ok tt, fs') → ∃ s, to_json value = Ok s ∧
  fs' = mkFs (fs_dirs fs) (<[dir ++ [name] := s]> (fs_files fs)).
Proof.
  unfold write_json, file_create. destruct (is_dir fs dir && _); [|done].
  destruct (to_json value) as [s|]; [|done]. intros [= <-]. exists s. simpl. by rewrite insert_insert_eq.
Qed.

Lemma write_block_Ok dir block txs pre_state fs fs' :
  write_block dir block txs pre_state fs = (Ok tt, fs') →
  stored dir (block, txs, pre_state) fs' ∧ fs_dirs fs' = fs_dirs fs ∪ list_to_set (ancestors dir) ∧
  (∀ p, (∀ name, p ≠ dir ++ [name]) → fs_files fs' !! p = fs_files fs !! p) ∧
  (∀ p, is_Some (fs_files fs' !! p) → is_Some (fs_files fs !! p) ∨ ∃ name, p = dir ++ [name]).
Proof.
  unfold write_block, create_dir_all. destruct (existsb _ _); [done|].
  destruct (write_json dir "block.json" block _) as [[[]|] fs1] eqn:W1; [|done].
  destruct (write_json dir "txs.json" txs _) as [[[]|] fs2] eqn:W2; [|done]. intros W3.
  apply write_json_Ok in W1 as (s1 & Hs1 & ->), W2 as (s2 & Hs2 & ->), W3 as (s3 & Hs3 & ->). cbn [fs_dirs fs_files].
  assert (Hne : ∀ n m, n ≠ m → dir ++ [n] ≠ dir ++ [m]) by (intros n m Hnm Heq; by simplify_list_eq).
  split_and!; [|done|intros p Hp; by rewrite !lookup_insert_ne by done|].
  - exists s1, s2, s3. split_and!; try done; cbn [fs_files]; by rewrite ?lookup_insert_ne, lookup_insert_eq by (by apply Hne).
  - intros p. rewrite !lookup_insert_is_Some'. naive_solver.
Qed.

Lemma stored_load dir x fs :
  stored dir x fs →
  load_mainnet_block dir fs = (let! b := from_fixtures (default "" (last dir)) x.1.1 x.1.2 x.2 in Done (Ok b)).
Proof.
  destruct x as [[block txs] pre_state]. intros (s1 & s2 & s3 & W1 & W2 & W3 & F1 & F2 & F3).
  unfold load_mainnet_block, read_json. by rewrite F1, F2, F3, (json_roundtrip _ _ W1), (json_roundtrip _ _ W2), (json_roundtrip _ _ W3).
Qed.

(** ** Names and keys *)

Lemma parse_digits_no_underscore acc s n : parse_digits acc s = Some n → before_underscore s = s.
Proof.
  revert acc. induction s as [|c s IH]; intros acc; simpl; [done|]. destruct (decide (c = "_"%char)) as [->|]; [done|].
  destruct (digit_value c); [|done]. case_decide; [|done]. by intros ->%IH.
Qed.

Lemma before_underscore_number s n : parse_usize s = Some n → before_underscore s = s.
Proof.
  unfold parse_usize. destruct s as [|c s]; [done|]. case_decide as Hc.
  - subst c. destruct s as [|c s]; [done|]. intros (d & Hd & _)%fmap_Some.
    apply parse_digits_no_underscore in Hd. simpl in *. by rewrite Hd.
  - intros (d & Hd & _)%fmap_Some. by eapply parse_digits_no_underscore.
Qed.

Lemma dir_key_block root n : in_range U64_MAX n → dir_key (block_dir root n) = n.
Proof.
  intros [W0 W1]. unfold dir_key, block_dir. rewrite last_snoc. simpl.
  assert (Hp : parse_usize (pretty (Z.to_nat n)) = Some (Z.to_nat n)) by (apply parse_usize_pretty; lia).
  rewrite (before_underscore_number _ _ Hp), Hp. simpl. lia.
Qed.

Lemma block_dir_inj root n m : in_range U64_MAX n → in_range U64_MAX m → block_dir root n = block_dir root m → n = m.
Proof. intros Hn Hm Heq. by rewrite <-(dir_key_block root n), Heq, dir_key_block. Qed.

Lemma insert_by_key_perm p l : insert_by_key p l ≡ₚ p :: l.
Proof. induction l as [|q l IH]; simpl; [done|]. case_decide; [done|]. rewrite IH. apply Permutation_swap. Qed.
Lemma sort_by_key_perm l : sort_by_key l ≡ₚ l.
Proof. induction l as [|p l IH]; simpl; [done|]. by rewrite insert_by_key_perm, IH. Qed.

Abbreviation key_le := (λ p q, (dir_key p ≤ dir_key q)%Z).

Lemma insert_by_key_sorted p l : StronglySorted key_le l → StronglySorted key_le (insert_by_key p l).
Proof.
  induction 1 as [|q l Hs IH Hq]; simpl; [repeat constructor|]. case_decide as Hpq.
  - constructor; [by constructor|]. constructor; [done|]. eapply Forall_impl; [exact Hq|]. simpl. lia.
  - constructor; [done|]. rewrite insert_by_key_perm. constructor; [lia|done].
Qed.
Lemma sort_by_key_sorted l : StronglySorted key_le (sort_by_key l).
Proof. induction l as [|p l IH]; simpl; [constructor|]. by apply insert_by_key_sorted. Qed.

(** ** An archive of blocks *)

Abbreviation fixture_number := (λ x : Fixture, bf_number x.1.1).
Abbreviation fixture_dir := (λ (root : Path) (x : Fixture), block_dir root (bf_number x.1.1)).

(** Below [root] there are the directories of the fixtures [l], and nothing else. *)
Record archive (root : Path) (l : list Fixture) (fs : Fs) : Prop := {
  ar_root : l ≠ [] → root ∈ fs_dirs fs;
  ar_stored x : x ∈ l → stored (fixture_dir root x) x fs ∧ fixture_dir root x ∈ fs_dirs fs;
  ar_only p : p ∈ children root fs → ∃ x, x ∈ l ∧ p = fixture_dir root x
}.

Lemma elem_children p root fs :
  p ∈ children root fs ↔ (p ∈ fs_dirs fs ∨ is_Some (fs_files fs !! p)) ∧ ∃ name, p = root ++ [name].
Proof.
  unfold children. rewrite list_elem_of_filter, elem_of_elements, elem_of_union, elem_of_dom.
  split; intros [W1 W2].
  - split; [done|]. destruct W1 as [Hl Ht]. assert (Hd : length (drop (length root) p) = 1) by (rewrite length_drop; lia).
    destruct (drop (length root) p) as [|name [|]] eqn:He; try done. exists name.
    by rewrite <-(take_drop (length root) p), Ht, He.
  - split; [|done]. destruct W2 as [name ->]. rewrite length_app. simpl. split; [lia|]. by rewrite take_app_length.
Qed.

Lemma elem_ancestors p q : p ∈ ancestors q ↔ p `prefix_of` q.
Proof.
  unfold ancestors. rewrite list_elem_of_fmap. split.
  - intros (n & -> & _). apply prefix_take.
  - intros [k ->]. exists (length p). rewrite take_app_length. split; [done|]. apply elem_of_seq. rewrite length_app. lia.
Qed.

Lemma archive_write root l x fs fs' :
  in_range U64_MAX (fixture_number x) → Forall (λ y, in_range U64_MAX (fixture_number y) ∧ fixture_number y ≠ fixture_number x) l →
  archive root l fs → write_block (fixture_dir root x) x.1.1 x.1.2 x.2 fs = (Ok tt, fs') → archive root (x :: l) fs'.
Proof.
  intros Hx Hl [Hr Hs Ho] (Hst & Hd & Hf & Hf')%write_block_Ok. rewrite <-!surjective_pairing in Hst.
  assert (Hanc : ∀ p, p ∈ fs_dirs fs' ↔ p ∈ fs_dirs fs ∨ p `prefix_of` fixture_dir root x).
  { intros p. by rewrite Hd, elem_of_union, elem_of_list_to_set, elem_ancestors. }
  split.
  - intros _. apply Hanc. right. unfold block_dir. by apply prefix_app_r.
  - intros y [->|Hy]%elem_of_cons; [split; [done|apply Hanc; by right]|].
    destruct (Hs y Hy) as [Hsy Hdy]. split; [|apply Hanc; by left].
    apply (proj1 (Forall_forall _ _) Hl) in Hy as [Hyr Hyx].
    assert (Hsame : ∀ name, fs_files fs' !! (fixture_dir root y ++ [name]) = fs_files fs !! (fixture_dir root y ++ [name])).
    { intros name. apply Hf. intros name' Heq. apply app_inj_tail in Heq as [Heq _]. by apply block_dir_inj in Heq. }
    destruct y as [[b t] ps]. unfold stored in *. by rewrite !Hsame.
  - intros p [[Hp|Hp] [name ->]]%elem_children.
    + apply Hanc in Hp as [Hp|Hp].
      * destruct (Ho (root ++ [name])) as (y & Hy & ->); [apply elem_children; eauto|]. exists y. split; [by right|done].
      * exists x. split; [by left|]. destruct Hp as [k Hk]. unfold block_dir in *. simplify_list_eq. done.
    + apply Hf' in Hp as [Hp|[name' Hp]].
      * destruct (Ho (root ++ [name])) as (y & Hy & ->); [apply elem_children; eauto|]. exists y. split; [by right|done].
      * apply (f_equal length) in Hp. unfold block_dir in Hp. rewrite !length_app in Hp. simpl in Hp. lia.
Qed.

(** Write the blocks one after the other. *)
Fixpoint write_blocks (root : Path) (l : list Fixture) (fs : Fs) : result IoError (list Path) * Fs :=
  match l with
  | [] => (Ok [], fs)
  | x :: l =>
    match write_mainnet_block root x.1.1 x.1.2 x.2 fs with
    | (Err e, fs) => (Err e, fs)
    | (Ok dir, fs) => let '(r, fs) := write_blocks root l fs in (result_map (cons dir) r, fs)
    end
  end.

Lemma archive_writes root l done_ fs dirs fs' :
  Forall (λ y, in_range U64_MAX (fixture_number y)) (l ++ done_) → NoDup (fixture_number <$> l ++ done_) →
  archive root done_ fs → write_blocks root l fs = (Ok dirs, fs') →
  dirs = fixture_dir root <$> l ∧ archive root (rev l ++ done_) fs'.
Proof.
  revert done_ fs dirs. induction l as [|x l IH]; intros dn fs dirs Hr Hnd Ha; simpl; [by intros [= <- <-]|].
  unfold write_mainnet_block. destruct (write_block _ _ _ _ fs) as [[[]|] fs1] eqn:Hw; [|done].
  destruct (write_blocks root l fs1) as [[dirs1|] fs2] eqn:Hws; [|done]. intros [= <- <-].
  apply Forall_cons in Hr as [Hx Hr]. apply NoDup_cons in Hnd as [Hni Hnd].
  assert (Hx' : archive root (x :: dn) fs1).
  { eapply (archive_write root dn x fs); [done| |done|done]. apply Forall_app in Hr as [_ Hr]. apply Forall_forall. intros y Hy.
    split; [by apply (proj1 (Forall_forall _ _) Hr)|]. intros Heq. destruct Hni. apply list_elem_of_fmap. exists y.
    split; [done|]. apply elem_of_app. by right. }
  assert (Hp : l ++ x :: dn ≡ₚ x :: l ++ dn) by by rewrite Permutation_middle.
  destruct (IH (x :: dn) fs1 dirs1) as [-> Har]; [| |done|done|].
  - rewrite Hp. by constructor.
  - rewrite Hp. simpl. by constructor.
  - split; [done|]. by rewrite <-app_assoc.
Qed.

Lemma load_dirs_stored root l fs :
  Forall (λ x, stored (fixture_dir root x) x fs) l →
  load_dirs (fixture_dir root <$> l) fs =
  foldr (λ x rest, let! b := from_fixtures (pretty (Z.to_nat (fixture_number x))) x.1.1 x.1.2 x.2 in
                   let! bs := rest in Done (b :: bs)) (Done []) l.
Proof.
  induction 1 as [|x l Hx Hl IH]; [done|]. rewrite fmap_cons. cbn [load_dirs foldr]. rewrite (stored_load _ _ _ Hx), IH.
  unfold block_dir at 1. rewrite last_snoc. cbn [default]. by destruct (from_fixtures _ _ _ _).
Qed.

Lemma NoDup_fixture_dirs root l :
  Forall (λ x, in_range U64_MAX (fixture_number x)) l → NoDup (fixture_number <$> l) → NoDup (fixture_dir root <$> l).
Proof.
  induction 1 as [|x l Hx Hl IH]; simpl; [constructor|]. intros [Hni Hnd]%NoDup_cons. constructor; [|by apply IH].
  intros (y & Heq & Hy)%list_elem_of_fmap. destruct Hni. apply list_elem_of_fmap. exists y. split; [|done].
  eapply block_dir_inj; [done| |exact Heq]. by apply (proj1 (Forall_forall _ _) Hl).
Qed.

Lemma sorted_dirs_numbers root l :
  Forall (λ x, in_range U64_MAX (fixture_number x)) l → NoDup (fixture_number <$> l) →
  StronglySorted key_le (fixture_dir root <$> l) → StronglySorted (λ x y, (fixture_number x < fixture_number y)%Z) l.
Proof.
  induction 1 as [|x l Hx Hl IH]; simpl; [constructor|]. intros [Hni Hnd]%NoDup_cons [Hs Hf]%StronglySorted_inv.
  constructor; [by apply IH|]. apply Forall_forall. intros y Hy.
  assert (Hle := proj1 (Forall_forall _ _) Hf (fixture_dir root y) ltac:(apply list_elem_of_fmap; by exists y)).
  simpl in Hle. rewrite !dir_key_block in Hle by (done || by apply (proj1 (Forall_forall _ _) Hl)).
  assert (fixture_number y ≠ fixture_number x); [|cbv beta in *; lia]. intros Heq. destruct Hni. apply list_elem_of_fmap. by exists y.
Qed.

(** What [load_blocks_from] makes of fixtures. *)
Definition built_blocks (l : list Fixture) : outcome (list MainnetBlock) :=
  foldr (λ x rest, let! b := from_fixtures (pretty (Z.to_nat (fixture_number x))) x.1.1 x.1.2 x.2 in
                   let! bs := rest in Done (b :: bs)) (Done []) l.

(** C33. Fixtures survive the disk: blocks with distinct numbers written below a root that holds
    nothing else are stored in the directories of their numbers, and loading the root, whatever
    the order in which the directory is listed, gives exactly the blocks built from the written
    fixtures, each once, in the ascending order of their numbers (the order of the decimal
    numbers, not of the names). *)
Theorem written_blocks_load root l fs dirs fs' :
  Forall (λ x, in_range U64_MAX (fixture_number x)) l → NoDup (fixture_number <$> l) → l ≠ [] →
  children root fs = [] → write_blocks root l fs = (Ok dirs, fs') →
  dirs = fixture_dir root <$> l ∧
  ∃ l', l' ≡ₚ l ∧ StronglySorted (λ x y, (fixture_number x < fixture_number y)%Z) l' ∧
    load_blocks_from root fs' = built_blocks l'.
Proof.
  intros Hr Hnd Hne Hc Hw.
  destruct (archive_writes root l [] fs dirs fs') as [Hdirs [Hroot Hst Ho]]; rewrite ?app_nil_r; try done.
  { split; [done|by intros x ?%elem_of_nil|]. intros p. rewrite Hc. by intros ?%elem_of_nil. }
  rewrite app_nil_r in *. split; [done|]. assert (Hrev : rev l ≡ₚ l) by apply Permutation_sym, Permutation_rev.
  unfold load_blocks_from, read_dir, is_dir at 1. rewrite bool_decide_eq_true_2.
  2: { apply Hroot. intros Hn. apply Hne, Permutation_nil_r. by rewrite <-Hn, Hrev. }
  set (entries := filter _ (dir_order _)).
  assert (Hperm : sort_by_key entries ≡ₚ fixture_dir root <$> l).
  { rewrite sort_by_key_perm. apply NoDup_Permutation; [|by apply NoDup_fixture_dirs|].
    - apply NoDup_filter. rewrite dir_order_ok. apply NoDup_filter, NoDup_elements.
    - intros p. unfold entries. rewrite list_elem_of_filter, dir_order_ok, list_elem_of_fmap. split.
      + intros [_ (x & Hx & ->)%Ho]. exists x. split; [done|]. by rewrite <-Hrev.
      + intros (x & -> & Hx). rewrite <-Hrev in Hx. destruct (Hst x Hx) as [Hs Hd]. split.
        * unfold is_dir, is_file. rewrite !bool_decide_eq_true_2; [done| |done].
          destruct x as [[b t] ps]. destruct Hs as (s1 & ? & ? & _ & _ & _ & Hs & _). by rewrite Hs.
        * apply elem_children. split; [by left|]. by eexists. }
  apply (Permutation_map_inv (fixture_dir root)) in Hperm as (l' & Hl' & Hp).
  assert (Hd : sort_by_key entries = fixture_dir root <$> l') by exact Hl'. clear Hl'. exists l'. split; [by symmetry|].
  assert (Hr' : Forall (λ x, in_range U64_MAX (fixture_number x)) l') by by rewrite <-Hp.
  split.
  - apply sorted_dirs_numbers with root; [done| |]; [by rewrite <-Hp|].
    rewrite <-Hd. apply sort_by_key_sorted.
  - rewrite Hd. apply load_dirs_stored. apply Forall_forall. intros x Hx. apply Hst. by rewrite Hrev, Hp.
Qed.

End files.

(** ** Example *)

Section examples.
#[local] Existing Instance revm_example.
#[local] Existing Instance alloy_example.

#[local] Instance BlockFixture_eq_dec : EqDecision BlockFixture.
Proof. solve_decision. Defined.

#[local] Instance ff_specs : Specs := {|
  SpecId := string; spec_from_str s := if decide (s = "Prague") then Some s else None; MERGE := "Merge"
|}.

(** Block 10 is written before block 9. *)
Definition ff_block (n : Z) : BlockFixture := mkBlockFixture n 1 2 3 4 5 None None 1 "Prague" ∅.

#[local] Program Instance ff_serde_block : Serde BlockFixture := {|
  to_json b := if decide (b = ff_block 9) then Ok "9" else if decide (b = ff_block 10) then Ok "10" else Err "unknown";
  from_json s := if decide (s = "9") then Ok (ff_block 9) else if decide (s = "10") then Ok (ff_block 10) else Err "unknown"
|}.
Next Obligation. intros. simpl in *. repeat (case_match || case_decide); by simplify_eq/=. Qed.
#[local] Instance ff_serde_txs : Serde (list TxFixture).
Proof.
  refine {| to_json l := match l with [] => Ok "[]" | _ => Err "unknown" end;
            from_json s := if decide (s = "[]") then Ok [] else Err "unknown" |}.
  intros [|] s; [|done]. by intros [= <-].
Defined.
#[local] Program Instance ff_serde_state : Serde (gmap Address AccountFixture) := {|
  to_json m := if decide (m = ∅) then Ok "{}" else Err "unknown";
  from_json s := if decide (s = "{}") then Ok ∅ else Err "unknown"
|}.
Next Obligation. intros. simpl in *. repeat (case_match || case_decide); by simplify_eq/=. Qed.

Definition ff_fixtures : list (BlockFixture * list TxFixture * gmap Address AccountFixture) :=
  [(ff_block 10, [], ∅); (ff_block 9, [], ∅)].

Lemma written_blocks_load_witness : ∃ dirs fs' blocks,
  write_blocks ["data"] ff_fixtures (mkFs ∅ ∅) = (Ok dirs, fs') ∧
  load_blocks_from (@rev _) ["data"] fs' = Done blocks ∧ (mb_number <$> blocks) = [9; 10]%Z.
Proof.
  destruct (write_blocks ["data"] ff_fixtures (mkFs ∅ ∅)) as [[dirs|] fs'] eqn:Hw; [|by vm_compute in Hw].
  destruct (written_blocks_load (@rev _) (λ l, Permutation_sym (Permutation_rev l)) ["data"] ff_fixtures (mkFs ∅ ∅) dirs fs')
    as (_ & l' & Hp & Hs & Hl); [by repeat constructor| |done|by vm_compute|done|].
  { simpl. apply NoDup_cons. split; [|apply NoDup_singleton]. by intros Hn%list_elem_of_singleton. }
  symmetry in Hp. apply Permutation_length_2_inv in Hp as [->| ->].
  { apply StronglySorted_inv in Hs as [_ Hs]. apply Forall_cons in Hs as [Hs _]. by vm_compute in Hs. }
  destruct (built_blocks [(ff_block 9, [], ∅); (ff_block 10, [], ∅)]) as [blocks|] eqn:Hb; [|by vm_compute in Hb].
  exists dirs, fs', blocks. split; [done|]. split; [by rewrite Hl|].
  vm_compute in Hb. injection Hb as <-. by vm_compute.
Defined.
End examples.
