(* ===== verification/Rpc.v ===== *)
(** The JSON-RPC client of the tools: src/src/bin/rpc.rs.

    The HTTP agent is the class [Http]: a request body and the state of the network give a
    response. A client is that network with the log of what it did, posts and sleeps, so that
    the retry loops can be bounded. A client computation is a state and error monad over it that
    may panic (the loops end in [unreachable!()]). *)

From S2P Require Import Prelude Model Collections Text MemoryDb Mainnet.
From stdpp Require Import sorting pretty.

Open Scope string_scope.
Open Scope list_scope.
Open Scope nat_scope.

(** ureq's agent: [send_json] and [into_json]. *)
Class Http {J : Json} := {
  Net : Type;
  HttpError : Type;
  post : Value → Net → (Z + result HttpError (result HttpError Value)) * Net
}.

(** A response: a status of the error range, a transport error, or a body that may fail to
    decode. *)
Abbreviation Response E V := (Z + result E (result E V))%type (only parsing).

Inductive Effect {J : Json} :=
| Posted (body : Value)
| Slept (ms : Z).

(** The boxed errors of the client, by their origin. *)
Inductive RpcError {J : Json} {H : Http} :=
| HttpStatusAfter (code : Z) (attempts : nat)
| HttpStatus (code : Z)
| HttpFailure (e : HttpError)
| CallFailed (method : string) (error : Value)
| NoResult (method : string)
| InvalidNumber (s : string)
| CouldNotFetch (number : Z) (e : RpcError)
| NoHash (number : Z)
| InvalidHash (number : Z) (e : string)
| NoCode (a : Address)
| InvalidCode (a : Address) (e : string)
| InvalidField (e : string)
| OtherError (e : string).

Record Client {J : Json} {H : Http} := mkClient {
  net : Net;
  log : list Effect
}.

Arguments mkClient {_ _} net log.
Arguments net {_ _} c.
Arguments log {_ _} c.

(** ** The client monad *)

Definition M {J : Json} {H : Http} (S A : Type) : Type := S → outcome (result RpcError A * S).

#[export] Instance M_ret {J : Json} {H : Http} S : MRet (M S) := λ A a s, Done (Ok a, s).
#[export] Instance M_bind {J : Json} {H : Http} S : MBind (M S) := λ A B f m s,
  let! (r, s) := m s in
  match r with Ok a => f a s | Err e => Done (Err e, s) end.

Section rpc.
Context {J : Json} {H : Http} `{!Alloy}.

Definition raise {S A} (e : RpcError) : M S A := λ s, Done (Err e, s).
Definition unreachable {S A} : M S A := λ _, Panic.
Definition lift {S A} (r : result RpcError A) : M S A := λ s, Done (r, s).
(** A change of the state next to the client. *)
Definition update {X} (f : X → X) : M (Client * X) unit := λ '(c, x), Done (Ok tt, (c, f x)).
(** A client operation next to other state. *)
Definition zoom {X A} (m : M Client A) : M (Client * X) A := λ '(c, x), let! (r, c) := m c in Done (r, (c, x)).
Definition map_err {S A} (f : RpcError → RpcError) (m : M S A) : M S A := λ s,
  let! (r, s) := m s in Done (result_map_err f r, s).

(** ** Constants and helpers *)

Definition RETRY_ATTEMPTS : nat := 7.
Definition INITIAL_RETRY_DELAY : Z := 400.
Definition MAX_RETRY_DELAY : Z := 10000.
Definition BLOCK_HASH_BATCH_SIZE : nat := 32.
Definition ACCOUNT_CODE_BATCH_SIZE : nat := 64.

(** Sleep for the delay; the next one is twice as long, up to the maximum. *)
Definition backoff (delay : Z) : M Client Z := λ c,
  Done (Ok (Z.min (delay * 2) MAX_RETRY_DELAY), mkClient (net c) (log c ++ [Slept delay])).

Definition is_rate_limit_error (error : Value) : bool :=
  let code := get error "code" ≫= as_i64 in
  let message := to_ascii_lowercase (default "" (get_str error "message")) in
  match code with Some n => bool_decide (n ∈ [429; -32005; -32007]%Z) | None => false end
  || contains message "rate limit" || contains message "request limit" || contains message "too many requests".

Definition response_id (response : Value) : option Z :=
  id ← get response "id";
  match as_u64 id with
  | Some n => Some n
  | None => s ← as_str id; from_str_radix 10 U64_MAX s
  end.

(** ** Requests *)

Definition http_post (body : Value) : M Client (Response HttpError Value) := λ c,
  let '(r, n) := post body (net c) in
  Done (Ok r, mkClient n (log c ++ [Posted body])).

Fixpoint send_loop (remaining attempt : nat) (delay : Z) (body : Value) : M Client Value :=
  match remaining with
  | 0 => unreachable
  | S remaining =>
    r ← http_post body;
    match r with
    | inr (Ok (Ok v)) => mret v
    | inr (Ok (Err e)) => raise (HttpFailure e)
    | inr (Err e) => raise (HttpFailure e)
    | inl code =>
      if bool_decide (code = 429%Z) || (500 <=? code)%Z then
        if (attempt + 1 =? RETRY_ATTEMPTS)%nat then raise (HttpStatusAfter code (attempt + 1))
        else delay ← backoff delay; send_loop remaining (attempt + 1) delay body
      else raise (HttpStatus code)
    end
  end.
Definition send (body : Value) : M Client Value := send_loop RETRY_ATTEMPTS 0 INITIAL_RETRY_DELAY body.

Definition call_body (method : string) (params : Value) : Value :=
  JObject [("jsonrpc", JString "2.0"); ("id", JNumber 1); ("method", JString method); ("params", params)].

Fixpoint call_loop (remaining attempt : nat) (delay : Z) (method : string) (body : Value) : M Client Value :=
  match remaining with
  | 0 => unreachable
  | S remaining =>
    resp ← send body;
    match get resp "error" with
    | Some error =>
      if is_rate_limit_error error && (attempt + 1 <? RETRY_ATTEMPTS)%nat then
        delay ← backoff delay; call_loop remaining (attempt + 1) delay method body
      else raise (CallFailed method error)
    | None => mret (default JNull (get resp "result"))
    end
  end.
Definition call (method : string) (params : Value) : M Client Value :=
  call_loop RETRY_ATTEMPTS 0 INITIAL_RETRY_DELAY method (call_body method params).

Definition rpc_chain_id : M Client Z :=
  v ← call "eth_chainId" (JArray []);
  let s := default "0x1" (as_str v) in
  mret (default 1%Z (from_str_radix 16 U64_MAX (trim_start_matches "0x" s))).

Definition head_block : M Client Z :=
  v ← call "eth_blockNumber" (JArray []);
  match as_str v with
  | None => raise (NoResult "eth_blockNumber")
  | Some s =>
    match from_str_radix 16 U64_MAX (trim_start_matches "0x" s) with
    | Some n => mret n
    | None => raise (InvalidNumber s)
    end
  end.

(** ** Block hashes *)

Abbreviation Hashes := (gmap Z B256) (only parsing).

Definition missing_hashes (cache : Hashes) (lo hi : Z) : list Z :=
  filter (λ n, cache !! n = None) (range_inclusive lo hi).

Definition block_request (b : Z) : Value :=
  JObject [("jsonrpc", JString "2.0"); ("id", JNumber b); ("method", JString "eth_getBlockByNumber");
           ("params", JArray [JString (block_tag b); JBool false])].

Definition item_hash (item : Value) : option string := get item "result" ≫= λ r, get_str r "hash".

(** The loop over the responses of one batch; the flag reports throttling. *)
Fixpoint process_items (chunk : list Z) (items : list Value) (rate_limited : bool) (cache : Hashes) :
    result RpcError bool * Hashes :=
  match items with
  | [] => (Ok rate_limited, cache)
  | item :: items =>
    if match get item "error" with Some e => is_rate_limit_error e | None => false end then
      process_items chunk items true cache
    else
      match response_id item, item_hash item with
      | Some id, Some hash =>
        if bool_decide (id ∈ chunk) then
          match parse_hash hash with
          | Ok h => process_items chunk items rate_limited (<[id := h]> cache)
          | Err e => (Err (InvalidHash id e), cache)
          end
        else process_items chunk items rate_limited cache
      | _, _ => process_items chunk items rate_limited cache
      end
  end.

Fixpoint fetch_chunks (cs : list (list Z)) : M (Client * Hashes) unit :=
  match cs with
  | [] => mret tt
  | chunk :: cs =>
    resp ← zoom (send (JArray (block_request <$> chunk)));
    match as_array resp with
    | None =>
      let rate_limited := match get resp "error" with Some e => is_rate_limit_error e | None => false end in
      if rate_limited then mret tt else fetch_chunks cs
    | Some responses =>
      rate_limited ← (λ '(c, cache), let '(r, cache) := process_items chunk responses false cache in Done (r, (c, cache)));
      if (rate_limited : bool) then mret tt else fetch_chunks cs
    end
  end.

(** The batch passes: [true] is the early return of a complete range. *)
Fixpoint hash_passes (remaining attempt : nat) (delay : Z) (lo hi : Z) : M (Client * Hashes) bool :=
  match remaining with
  | 0 => mret false
  | S remaining => λ st,
    let missing := missing_hashes st.2 lo hi in
    if bool_decide (missing = []) then Done (Ok true, st)
    else
      (delay ← (if (0 <? attempt)%nat then zoom (backoff delay) else mret delay);
       _ ← fetch_chunks (chunks BLOCK_HASH_BATCH_SIZE missing);
       hash_passes remaining (attempt + 1) delay lo hi) st
  end.

Fixpoint fetch_residual (missing : list Z) : M (Client * Hashes) unit :=
  match missing with
  | [] => mret tt
  | number :: missing =>
    block ← map_err (CouldNotFetch number)
      (zoom (call "eth_getBlockByNumber" (JArray [JString (block_tag number); JBool false])));
    match get_str block "hash" with
    | None => raise (NoHash number)
    | Some s =>
      match parse_hash s with
      | Err e => raise (InvalidHash number e)
      | Ok hash =>
        _ ← update (λ cache : Hashes, <[number := hash]> cache);
        fetch_residual missing
      end
    end
  end.

Definition fetch_block_hashes_into (lo hi : Z) : M (Client * Hashes) unit :=
  complete ← hash_passes RETRY_ATTEMPTS 0 INITIAL_RETRY_DELAY lo hi;
  if (complete : bool) then mret tt
  else λ st, fetch_residual (missing_hashes st.2 lo hi) st.

Definition fetch_block_hashes (lo hi : Z) : M Client Hashes := λ c,
  let! (r, st) := fetch_block_hashes_into lo hi (c, ∅) in
  Done (result_map (λ _, st.2) r, st.1).

(** ** Account codes *)

Definition code_request (at_block : string) (id : nat) (address : Address) : Value :=
  JObject [("jsonrpc", JString "2.0"); ("id", JNumber (Z.of_nat id)); ("method", JString "eth_getCode");
           ("params", JArray [JString (address_to_string address); JString at_block])].

Abbreviation Codes := (gmap Address (list Z)) (only parsing).

Fixpoint process_codes (addresses : list Address) (items : list Value) (codes : Codes) : result RpcError Codes :=
  match items with
  | [] => Ok codes
  | item :: items =>
    match get item "error" with
    | Some _ => process_codes addresses items codes
    | None =>
      match response_id item with
      | None => process_codes addresses items codes
      | Some id =>
        match addresses !! Z.to_nat id with
        | None => process_codes addresses items codes
        | Some address =>
          match get_str item "result" with
          | None => process_codes addresses items codes
          | Some code =>
            match parse_hex_bytes code with
            | Err e => Err (InvalidCode address e)
            | Ok code => process_codes addresses items (<[address := code]> codes)
            end
          end
        end
      end
    end
  end.

Fixpoint code_batches (addresses : list Address) (at_block : string) (chunk_index : nat) (cs : list (list Address))
    (codes : Codes) : M Client Codes :=
  match cs with
  | [] => mret codes
  | chunk :: cs =>
    let id_base := chunk_index * ACCOUNT_CODE_BATCH_SIZE in
    response ← send (JArray (imap (λ index address, code_request at_block (id_base + index) address) chunk));
    match as_array response with
    | None => code_batches addresses at_block (S chunk_index) cs codes
    | Some items =>
      codes ← lift (process_codes addresses items codes);
      code_batches addresses at_block (S chunk_index) cs codes
    end
  end.

Fixpoint residual_codes (at_block : string) (addresses : list Address) (codes : Codes) : M Client Codes :=
  match addresses with
  | [] => mret codes
  | address :: addresses =>
    match codes !! address with
    | Some _ => residual_codes at_block addresses codes
    | None =>
      code ← call "eth_getCode" (JArray [JString (address_to_string address); JString at_block]);
      match as_str code with
      | None => raise (NoCode address)
      | Some code =>
        match parse_hex_bytes code with
        | Err e => raise (InvalidCode address e)
        | Ok code => residual_codes at_block addresses (<[address := code]> codes)
        end
      end
    end
  end.

Definition fetch_account_codes (addresses : list Address) (at_block : string) : M Client Codes :=
  codes ← code_batches addresses at_block 0 (chunks ACCOUNT_CODE_BATCH_SIZE addresses) ∅;
  residual_codes at_block addresses codes.

(** ** Delegation targets *)

Definition fetch_account_with_code (addr at_block : string) : M Client (option AccountFixture) :=
  code ← call "eth_getCode" (JArray [JString addr; JString at_block]);
  let code := default "0x" (as_str code) in
  if bool_decide (code = "0x") || bool_decide (code = "") then mret None
  else
    balance ← call "eth_getBalance" (JArray [JString addr; JString at_block]);
    nonce ← call "eth_getTransactionCount" (JArray [JString addr; JString at_block]);
    match u256_from_str (default "0x0" (as_str balance)) with
    | Err e => raise (InvalidField e)
    | Ok balance =>
      let nonce := default 0%Z (from_str_radix 16 U64_MAX (trim_start_matches "0x" (default "0x0" (as_str nonce)))) in
      match parse_hex_bytes code with
      | Err e => raise (InvalidField e)
      | Ok code => mret (Some (mkAccountFixture balance nonce (Some code) ∅))
      end
    end.

Abbreviation Delegates := (gmap Address (option AccountFixture)) (only parsing).

Definition has_code (acc : option AccountFixture) : bool :=
  match acc with Some acc => match af_code acc with Some (_ :: _) => true | _ => false end | None => false end.

Fixpoint supplement_loop (targets : list Address) (at_block : string) (added : nat) :
    M (Client * (PreState * Delegates)) nat :=
  match targets with
  | [] => mret added
  | target :: targets => λ st,
    let '(c, (pre_state, cache)) := st in
    if has_code (pre_state !! target) then supplement_loop targets at_block added st
    else
      (account ← match cache !! target with
                 | Some cached => mret (M := M (Client * (PreState * Delegates))) cached
                 | None =>
                   fetched ← zoom (fetch_account_with_code (address_to_string target) at_block);
                   _ ← update (prod_map id (λ cache : Delegates, <[target := fetched]> cache));
                   mret fetched
                 end;
       match (account : option AccountFixture) with
       | Some account =>
         _ ← update (prod_map (λ pre_state : PreState, <[target := account]> pre_state) id);
         supplement_loop targets at_block (added + 1)
       | None => supplement_loop targets at_block added
       end) st
  end.

Definition supplement_delegations_cached (txs : list TxFixture) (at_block : string) :
    M (Client * (PreState * Delegates)) nat := λ st,
  supplement_loop (delegation_targets txs st.2.1) at_block 0 st.

Definition supplement_delegations (txs : list TxFixture) (at_block : string) : M (Client * PreState) nat := λ st,
  let! (r, (c, (pre_state, _))) := supplement_delegations_cached txs at_block (st.1, (st.2, ∅)) in
  Done (r, (c, pre_state)).

End rpc.

(** ** Block arguments *)

Definition parse_block_number (s : string) : option Z :=
  match str_strip_prefix "0x" s with
  | Some hex => from_str_radix 16 U64_MAX hex
  | None => from_str_radix 10 U64_MAX s
  end.
