(* ===== verification/RpcProps.v ===== *)
(** Correctness of the JSON-RPC client: the retry loops end without panicking within a bounded
    number of requests and bounded waiting, and the batched fetches are complete.

    [run m s Q] is total correctness of a client computation: it does not panic, and its result
    and final state satisfy [Q]. *)

From S2P Require Import Prelude Model Collections Text MemoryDb Mainnet Rpc.
From stdpp Require Import sorting.

Open Scope string_scope.
Open Scope list_scope.
Open Scope nat_scope.

Section rules.
Context {J : Json} {H : Http} `{!Alloy}.

(** ** Total correctness *)

Definition run {S A} (m : M S A) (s : S) (Q : result RpcError A → S → Prop) : Prop :=
  match m s with Done (r, s') => Q r s' | Panic => False end.

Lemma run_mono {S A} (m : M S A) s (Q Q' : result RpcError A → S → Prop) :
  run m s Q → (∀ r s', Q r s' → Q' r s') → run m s Q'.
Proof. unfold run. destruct (m s) as [[r s']|]; auto. Qed.

Lemma run_mbind {S A B} (m : M S A) (f : A → M S B) s (Q : result RpcError B → S → Prop) :
  run m s (λ r s', match r with Ok a => run (f a) s' Q | Err e => Q (Err e) s' end) → run (m ≫= f) s Q.
Proof. unfold run, mbind, M_bind. destruct (m s) as [[[a|e] s']|]; simpl; auto. Qed.

Lemma run_ret {S A} (a : A) s (Q : result RpcError A → S → Prop) : Q (Ok a) s → run (mret a) s Q.
Proof. done. Qed.

Lemma run_raise {S A} e s (Q : result RpcError A → S → Prop) : Q (Err e) s → run (raise e) s Q.
Proof. done. Qed.

Lemma run_update {X} (f : X → X) c x (Q : result RpcError unit → Client * X → Prop) :
  Q (Ok tt) (c, f x) → run (update f) (c, x) Q.
Proof. done. Qed.

Lemma run_zoom {X A} (m : M Client A) c (x : X) (Q : result RpcError A → Client * X → Prop) :
  run m c (λ r c', Q r (c', x)) → run (zoom m) (c, x) Q.
Proof. unfold run, zoom. destruct (m c) as [[r c']|]; simpl; auto. Qed.

Lemma run_map_err {S A} g (m : M S A) s (Q : result RpcError A → S → Prop) :
  run m s (λ r s', Q (result_map_err g r) s') → run (map_err g m) s Q.
Proof. unfold run, map_err. destruct (m s) as [[r s']|]; simpl; auto. Qed.

(** ** What an operation costs *)

Definition posts (eff : list Effect) : nat := length (omap (λ e, match e with Posted body => Some body | Slept _ => None end) eff).
Definition waiting (eff : list Effect) : Z := foldr (λ e n, match e with Posted _ => n | Slept ms => (ms + n)%Z end) 0%Z eff.
Definition short_wait (e : Effect) : Prop := match e with Posted _ => True | Slept ms => (0 ≤ ms ≤ MAX_RETRY_DELAY)%Z end.

(** From one client to the next: at most [p] posts, at most [w] milliseconds of sleep, and no
    single sleep above the maximum. *)
Definition cost (p : nat) (w : Z) (c c' : Client) : Prop :=
  ∃ eff, log c' = log c ++ eff ∧ posts eff ≤ p ∧ (0 ≤ waiting eff ≤ w)%Z ∧ Forall short_wait eff.

Lemma posts_app e1 e2 : posts (e1 ++ e2) = posts e1 + posts e2.
Proof. unfold posts. by rewrite omap_app, length_app. Qed.
Lemma waiting_app e1 e2 : waiting (e1 ++ e2) = (waiting e1 + waiting e2)%Z.
Proof. induction e1 as [|[] e1 IH]; simpl; [done|apply IH|]. rewrite IH. lia. Qed.

Lemma cost_refl c : cost 0 0 c c.
Proof. exists []. split_and!; [by rewrite app_nil_r|done..]. Qed.

Lemma cost_trans p w p' w' c c' c'' : cost p w c c' → cost p' w' c' c'' → cost (p + p') (w + w') c c''.
Proof.
  intros (e1 & H1 & Hp1 & Hw1 & Hs1) (e2 & H2 & Hp2 & Hw2 & Hs2). exists (e1 ++ e2).
  rewrite H2, H1, posts_app, waiting_app, <-app_assoc. split_and!; [done|lia|lia|lia|by apply Forall_app].
Qed.

Lemma cost_weaken p w p' w' c c' : cost p w c c' → p ≤ p' → (w ≤ w')%Z → cost p' w' c c'.
Proof. intros (e & ? & ? & ? & ?) ??. exists e. split_and!; [done|lia|lia|lia|done]. Qed.

(** The total of [k] backoffs that start at [delay]. *)
Fixpoint backoff_total (k : nat) (delay : Z) : Z :=
  match k with 0 => 0%Z | S k => (delay + backoff_total k (Z.min (delay * 2) MAX_RETRY_DELAY))%Z end.

Definition delay_ok (delay : Z) : Prop := (0 ≤ delay ≤ MAX_RETRY_DELAY)%Z.

Lemma backoff_total_nonneg k delay : delay_ok delay → (0 ≤ backoff_total k delay)%Z.
Proof.
  unfold delay_ok. revert delay. induction k as [|k IH]; intros delay Hd; cbn [backoff_total]; [lia|].
  assert (0 ≤ backoff_total k (Z.min (delay * 2) MAX_RETRY_DELAY))%Z; [|lia]. apply IH. unfold MAX_RETRY_DELAY in *. lia.
Qed.

Lemma run_backoff delay c (Q : result RpcError Z → Client → Prop) :
  delay_ok delay →
  (∀ c', cost 0 delay c c' → delay_ok (Z.min (delay * 2) MAX_RETRY_DELAY) →
    Q (Ok (Z.min (delay * 2) MAX_RETRY_DELAY)) c') →
  run (backoff delay) c Q.
Proof.
  unfold delay_ok, MAX_RETRY_DELAY. intros Hd HQ. apply HQ; [|lia]. exists [Slept delay].
  unfold posts. simpl. split_and!; [done|done|lia|lia|]. repeat constructor; unfold MAX_RETRY_DELAY; lia.
Qed.

Lemma run_http_post body c (Q : result RpcError (Response HttpError Value) → Client → Prop) :
  (∀ r n' c', post body (net c) = (r, n') → cost 1 0 c c' → Q (Ok r) c') → run (http_post body) c Q.
Proof.
  intros HQ. unfold run, http_post. destruct (post body (net c)) as [r n'] eqn:Hp. eapply HQ; [done|].
  exists [Posted body]. split_and!; [done|done|done|done|by repeat constructor].
Qed.

(** The node answered [body] with [v]. *)
Definition replied (body v : Value) : Prop := ∃ n n', post body n = (inr (Ok (Ok v)), n').

Lemma send_loop_run remaining attempt delay body c :
  remaining + attempt = RETRY_ATTEMPTS → 0 < remaining → delay_ok delay →
  run (send_loop remaining attempt delay body) c
    (λ r c', cost remaining (backoff_total (remaining - 1) delay) c c' ∧ ∀ v, r = Ok v → replied body v).
Proof.
  revert attempt delay c. induction remaining as [|remaining IH]; intros attempt delay c Hn Hpos Hd; [lia|].
  cbn [send_loop]. rewrite Nat.sub_succ, Nat.sub_0_r.
  pose proof (backoff_total_nonneg remaining delay Hd) as Hw.
  apply run_mbind, run_http_post. intros r n' c1 Hp Hc.
  assert (Hone : cost (S remaining) (backoff_total remaining delay) c c1) by (eapply cost_weaken; [done|lia|lia]).
  destruct r as [code|[[v|e]|e]].
  - case_match; [|by apply run_raise]. case_match eqn:Hlast; [by apply run_raise|].
    apply Nat.eqb_neq in Hlast. destruct remaining as [|remaining]; [lia|].
    apply run_mbind, run_backoff; [done|]. intros c2 Hc2 Hd2. eapply run_mono; [by apply IH; [lia|lia|]|].
    intros r' c3 [Hc3 Hr]. split; [|done]. rewrite Nat.sub_succ, Nat.sub_0_r in Hc3.
    eapply cost_weaken; [eapply cost_trans; [exact Hc|eapply cost_trans; [exact Hc2|exact Hc3]]|lia|]. simpl. lia.
  - apply run_ret. split; [done|]. intros ? [= <-]. by eexists _, _.
  - by apply run_raise.
  - by apply run_raise.
Qed.

Lemma send_run body c :
  run (send body) c (λ r c', cost 7 22400 c c' ∧ ∀ v, r = Ok v → replied body v).
Proof. apply (send_loop_run 7 0 400); [done|lia|done]. Qed.

Lemma call_loop_run remaining attempt delay method body c :
  remaining + attempt = RETRY_ATTEMPTS → 0 < remaining → delay_ok delay →
  run (call_loop remaining attempt delay method body) c
    (λ r c', cost (remaining * 7) (Z.of_nat remaining * 22400 + backoff_total (remaining - 1) delay) c c' ∧
      ∀ v, r = Ok v → ∃ resp, replied body resp ∧ get resp "error" = None ∧ v = default JNull (get resp "result")).
Proof.
  revert attempt delay c. induction remaining as [|remaining IH]; intros attempt delay c Hn Hpos Hd; [lia|].
  cbn [call_loop]. rewrite Nat.sub_succ, Nat.sub_0_r.
  pose proof (backoff_total_nonneg remaining delay Hd) as Hw.
  apply run_mbind. eapply run_mono; [apply send_run|]. intros r c1 [Hc Hr].
  assert (Hone : cost (S remaining * 7) (Z.of_nat (S remaining) * 22400 + backoff_total remaining delay) c c1)
    by (eapply cost_weaken; [done|lia|lia]).
  destruct r as [resp|e]; [|done]. destruct (get resp "error") as [error|] eqn:Herr.
  - case_match eqn:Hlim; [|by apply run_raise]. apply andb_true_iff in Hlim as [_ Hlt%Nat.ltb_lt].
    destruct remaining as [|remaining]; [lia|].
    apply run_mbind, run_backoff; [done|]. intros c2 Hc2 Hd2. eapply run_mono; [by apply IH; [lia|lia|]|].
    intros r' c3 [Hc3 Hr']. split; [|done]. rewrite Nat.sub_succ, Nat.sub_0_r in Hc3.
    eapply cost_weaken; [eapply cost_trans; [exact Hc|eapply cost_trans; [exact Hc2|exact Hc3]]|lia|]. simpl backoff_total. lia.
  - apply run_ret. split; [done|]. intros ? [= <-]. exists resp. auto.
Qed.

Lemma call_run method params c :
  run (call method params) c (λ r c', cost 49 179200 c c' ∧
    ∀ v, r = Ok v → ∃ resp, replied (call_body method params) resp ∧ get resp "error" = None ∧ v = default JNull (get resp "result")).
Proof. apply (call_loop_run 7 0 400); [done|lia|done]. Qed.

(** C38. A JSON-RPC call always returns within its retry budget: it never reaches the end of
    its retry loops, issues at most 49 requests, never sleeps more than ten seconds at a time
    nor more than 179.2 seconds in all, and a result it returns is the result field of a response of
    the node to this very request that reports no error. *)
Theorem call_bounded method params c :
  ∃ r c' eff, call method params c = Done (r, c') ∧ log c' = log c ++ eff ∧
    posts eff ≤ RETRY_ATTEMPTS * RETRY_ATTEMPTS ∧ (waiting eff ≤ 179200)%Z ∧ Forall short_wait eff ∧
    ∀ v, r = Ok v → ∃ resp, replied (call_body method params) resp ∧ get resp "error" = None ∧
      v = default JNull (get resp "result").
Proof.
  pose proof (call_run method params c) as Hrun. unfold run in Hrun.
  destruct (call method params c) as [[r c']|]; [|done]. destruct Hrun as [(eff & Hlog & Hp & Hw & Hs) Hr].
  exists r, c', eff. split_and!; [done|done|done|lia|done|done].
Qed.

(** ** Block hashes *)

(** The node reported [h] as the hash of block [n], in a batch or on its own. *)
Definition answered (n : Z) (h : B256) : Prop :=
  (∃ body v l item s, replied body v ∧ as_array v = Some l ∧ item ∈ l ∧ response_id item = Some n ∧
    item_hash item = Some s ∧ parse_hash s = Ok h) ∨
  (∃ v r s, replied (call_body "eth_getBlockByNumber" (JArray [JString (block_tag n); JBool false])) v ∧
    get v "error" = None ∧ r = default JNull (get v "result") ∧ get_str r "hash" = Some s ∧ parse_hash s = Ok h).

Section hashes.
Context (lo hi : Z) (cache0 : gmap Z B256).

(** The blocks the fetch may add, and the caches it may reach from [cache0]. *)
Definition wanted (n : Z) : Prop := cache0 !! n = None ∧ (lo ≤ n ≤ hi)%Z.
Definition extends (cache : gmap Z B256) : Prop :=
  cache0 ⊆ cache ∧ ∀ n h, cache !! n = Some h → cache0 !! n = Some h ∨ (lo ≤ n ≤ hi)%Z ∧ answered n h.

Lemma extends_insert cache n h : extends cache → wanted n → answered n h → extends (<[n := h]> cache).
Proof.
  intros [Hsub Hnew] [Hn Hr] Ha. split.
  - apply insert_subseteq_r; done.
  - intros n' h' [[<- <-]|[_ ?]]%lookup_insert_Some; [by right|auto].
Qed.

Lemma missing_wanted cache n : extends cache → n ∈ missing_hashes cache lo hi → wanted n.
Proof.
  intros [Hsub _] [Hn Hr%elem_of_range_inclusive]%list_elem_of_filter. split; [|done].
  destruct (cache0 !! n) as [h|] eqn:Hh; [|done]. by rewrite (lookup_weaken _ _ _ _ Hh Hsub) in Hn.
Qed.

Lemma missing_length cache : length (missing_hashes cache lo hi) ≤ length (range_inclusive lo hi).
Proof. apply length_filter. Qed.

Lemma process_items_extends chunk items limited cache :
  (∀ n, n ∈ chunk → wanted n) →
  (∀ item n s h, item ∈ items → response_id item = Some n → item_hash item = Some s → parse_hash s = Ok h → answered n h) →
  extends cache → extends (process_items chunk items limited cache).2 ∧ dom cache ⊆ dom (process_items chunk items limited cache).2.
Proof.
  intros Hchunk. revert limited cache. induction items as [|item items IH]; intros limited cache Hans Hext; cbn [process_items]; [done|].
  assert (Hrest : ∀ limited cache, extends cache → extends (process_items chunk items limited cache).2 ∧
    dom cache ⊆ dom (process_items chunk items limited cache).2).
  { intros. apply IH; [|done]. intros. eapply Hans; [by right|done..]. }
  case_match; [auto|]. destruct (response_id item) as [n|] eqn:Hid; [|auto].
  destruct (item_hash item) as [s|] eqn:Hs; [|auto]. case_bool_decide as Hin; [|auto].
  destruct (parse_hash s) as [h|] eqn:Hh; [|done].
  destruct (Hrest limited (<[n := h]> cache)) as [? Hdom].
  { apply extends_insert; [done|by apply Hchunk|]. eapply Hans; [by left|done..]. }
  split; [done|set_solver].
Qed.

Lemma fetch_chunks_run cs c cache :
  (∀ chunk n, chunk ∈ cs → n ∈ chunk → wanted n) → extends cache →
  run (fetch_chunks cs) (c, cache) (λ r st,
    cost (7 * length cs) (22400 * Z.of_nat (length cs)) c st.1 ∧ extends st.2).
Proof.
  revert c cache. induction cs as [|chunk cs IH]; intros c cache Hcs Hext; cbn [fetch_chunks].
  { apply run_ret. split; [apply cost_refl|done]. }
  assert (Hrest : ∀ c1 cache1, cost 7 22400 c c1 → extends cache1 → run (fetch_chunks cs) (c1, cache1) (λ r st,
    cost (7 * length (chunk :: cs)) (22400 * Z.of_nat (length (chunk :: cs))) c st.1 ∧ extends st.2)).
  { intros c1 cache1 Hc1 Hext1. eapply run_mono; [apply IH; [|done]|].
    - intros. eapply Hcs; [by right|done].
    - intros r st [Hc Hst]. split; [|done]. eapply cost_weaken; [eapply cost_trans; [exact Hc1|exact Hc]|simpl; lia..]. }
  apply run_mbind, run_zoom. eapply run_mono; [apply send_run|]. intros r c1 [Hc1 Hreply].
  assert (Hstop : cost (7 * length (chunk :: cs)) (22400 * Z.of_nat (length (chunk :: cs))) c c1)
    by (eapply cost_weaken; [done|simpl; lia..]).
  destruct r as [resp|e]; [|done]. destruct (as_array resp) as [items|] eqn:Harr.
  - apply run_mbind. unfold run at 1.
    destruct (process_items_extends chunk items false cache) as [Hext1 _]; [|  |done|].
    + intros n. apply Hcs. by left.
    + intros item n s h Hitem Hid Hs Hh. left. eexists _, resp, items, item, s. split; [by apply Hreply|done].
    + destruct (process_items chunk items false cache) as [[[]|e] cache1]; [by apply run_ret|by apply Hrest|done].
  - destruct (match get resp "error" with Some e => is_rate_limit_error e | None => false end);
      [by apply run_ret|by apply Hrest].
Qed.

Lemma missing_chunks_wanted cache chunk n :
  extends cache → chunk ∈ chunks BLOCK_HASH_BATCH_SIZE (missing_hashes cache lo hi) → n ∈ chunk → wanted n.
Proof. intros ? Hc Hn. eapply missing_wanted; [done|]. eapply chunks_elem; [|done..]. unfold BLOCK_HASH_BATCH_SIZE. lia. Qed.

Definition passed (k : nat) (c : Client) (r : result RpcError bool) (st : Client * gmap Z B256) : Prop :=
  let n := length (range_inclusive lo hi) in
  cost (k * (7 * n)) (Z.of_nat k * (MAX_RETRY_DELAY + 22400 * Z.of_nat n)) c st.1 ∧ extends st.2 ∧
  (r = Ok true → missing_hashes st.2 lo hi = []).

(** One pass, and what follows it. *)
Lemma hash_pass_run k (next : M (Client * gmap Z B256) bool) c c1 cache :
  extends cache → cost 0 MAX_RETRY_DELAY c c1 → (∀ c2 cache2, extends cache2 → run next (c2, cache2) (passed k c2)) →
  run (_ ← fetch_chunks (chunks BLOCK_HASH_BATCH_SIZE (missing_hashes cache lo hi)); next) (c1, cache) (passed (S k) c).
Proof.
  intros Hext Hc1 Hnext. apply run_mbind. eapply run_mono; [apply fetch_chunks_run; [|done]|].
  { intros chunk m. by apply missing_chunks_wanted. }
  pose proof (chunks_length BLOCK_HASH_BATCH_SIZE (missing_hashes cache lo hi)) as Hl1.
  pose proof (missing_length cache) as Hl2. unfold passed. set (n := length (range_inclusive lo hi)) in *.
  intros r [c2 cache2] [Hc2 Hext2]. cbn [fst snd] in *.
  assert (Hc12 : cost (7 * n) (MAX_RETRY_DELAY + 22400 * Z.of_nat n) c c2).
  { eapply cost_weaken; [eapply cost_trans; [exact Hc1|exact Hc2]|lia|lia]. }
  destruct r as [[]|e].
  - eapply run_mono; [by apply Hnext|]. intros r [c3 cache3] (Hc3 & ? & ?). cbn [fst snd] in *. split; [|done].
    fold n in Hc3. eapply cost_weaken; [eapply cost_trans; [exact Hc12|exact Hc3]|lia|lia].
  - split; [|done]. eapply cost_weaken; [exact Hc12|lia|unfold MAX_RETRY_DELAY; lia].
Qed.

Lemma hash_passes_run remaining attempt delay c cache :
  delay_ok delay → extends cache → run (hash_passes remaining attempt delay lo hi) (c, cache) (passed remaining c).
Proof.
  revert attempt delay c cache. induction remaining as [|remaining IH]; intros attempt delay c cache Hd Hext; cbn [hash_passes].
  { apply run_ret. split; [apply cost_refl|done]. }
  unfold run at 1. cbn [snd]. case_bool_decide as Hm.
  { split; [|done]. eapply cost_weaken; [apply cost_refl|lia|unfold MAX_RETRY_DELAY; lia]. }
  match goal with |- match ?m _ with _ => _ end => change (run m (c, cache) (passed (S remaining) c)) end.
  apply run_mbind. destruct (0 <? attempt)%nat.
  - apply run_zoom, run_backoff; [done|]. intros c1 Hc1 Hd1. apply hash_pass_run; [done| |auto].
    eapply cost_weaken; [done|lia|]. apply Hd.
  - apply run_ret, hash_pass_run; [done| |auto]. eapply cost_weaken; [apply cost_refl|lia|done].
Qed.

Lemma fetch_residual_run l c cache :
  (∀ n, n ∈ l → wanted n) → extends cache →
  run (fetch_residual l) (c, cache) (λ r st,
    cost (49 * length l) (179200 * Z.of_nat (length l)) c st.1 ∧ extends st.2 ∧ dom cache ⊆ dom st.2 ∧
    (r = Ok tt → ∀ n, n ∈ l → n ∈ dom st.2)).
Proof.
  revert c cache. induction l as [|n l IH]; intros c cache Hl Hext; cbn [fetch_residual].
  { apply run_ret. split_and!; [apply cost_refl|done|done|]. by intros _ n ?%elem_of_nil. }
  apply run_mbind, run_map_err, run_zoom. eapply run_mono; [apply call_run|]. intros r c1 [Hc1 Hr].
  assert (Hstop : cost (49 * length (n :: l)) (179200 * Z.of_nat (length (n :: l))) c c1)
    by (eapply cost_weaken; [done|simpl; lia..]).
  destruct r as [block|e]; cbn [result_map_err]; [|by split_and!].
  destruct (get_str block "hash") as [s|] eqn:Hs; [|apply run_raise; by split_and!].
  destruct (parse_hash s) as [h|] eqn:Hh; [|apply run_raise; by split_and!].
  assert (Hans : answered n h).
  { right. destruct (Hr _ eq_refl) as (resp & ? & ? & ?). by exists resp, block, s. }
  apply run_mbind, run_update. eapply run_mono; [apply (IH c1 (<[n := h]> cache))|].
  - intros. apply Hl. by right.
  - apply extends_insert; [done| |done]. apply Hl. by left.
  - intros r [c2 cache2] (Hc2 & Hext2 & Hdom & Hall). cbn [fst snd] in *. split_and!; [|done|set_solver|].
    + eapply cost_weaken; [eapply cost_trans; [exact Hc1|exact Hc2]|simpl; lia..].
    + intros Hok m [->|?]%elem_of_cons; [set_solver|by apply Hall].
Qed.

Lemma in_range_cases cache n : (lo ≤ n ≤ hi)%Z → n ∈ missing_hashes cache lo hi ∨ n ∈ dom cache.
Proof.
  intros Hn. destruct (cache !! n) eqn:Hc; [right; by apply elem_of_dom_2 in Hc|left].
  apply list_elem_of_filter. by rewrite elem_of_range_inclusive.
Qed.

Definition fetched (p : nat) (w : Z) (c : Client) (r : result RpcError unit) (st : Client * gmap Z B256) : Prop :=
  cost p w c st.1 ∧ extends st.2 ∧ (r = Ok tt → ∀ n, (lo ≤ n ≤ hi)%Z → n ∈ dom st.2).

Lemma fetch_remainder_run c cache :
  extends cache →
  let n := length (range_inclusive lo hi) in
  run (λ st, fetch_residual (missing_hashes st.2 lo hi) st) (c, cache) (fetched (49 * n) (179200 * Z.of_nat n) c).
Proof.
  intros Hext n. pose proof (missing_length cache) as Hlen. fold n in Hlen. unfold run at 1. cbn [snd].
  apply (run_mono (fetch_residual (missing_hashes cache lo hi)) (c, cache) _ _
    (fetch_residual_run (missing_hashes cache lo hi) c cache (λ m, missing_wanted _ _ Hext) Hext)).
  intros r [c' cache'] (Hc & Hext' & Hdom & Hall). cbn [fst snd] in *. split_and!; [|done|].
  - eapply cost_weaken; [exact Hc|lia..].
  - intros Hok m Hm. destruct (in_range_cases cache m Hm); [by apply Hall|by apply Hdom].
Qed.

Lemma fetch_into_run c :
  let n := length (range_inclusive lo hi) in
  run (fetch_block_hashes_into lo hi) (c, cache0) (fetched (98 * n) (70000 + 336000 * Z.of_nat n) c).
Proof.
  intros n. apply run_mbind. eapply run_mono; [apply hash_passes_run; [done|split; [done|auto]]|].
  unfold passed. fold n.
  unfold RETRY_ATTEMPTS, MAX_RETRY_DELAY. intros r [c1 cache1] (Hc1 & Hext1 & Hm). cbn [fst snd] in *.
  destruct r as [[]|e].
  - apply run_ret. split_and!; [eapply cost_weaken; [exact Hc1|lia..]|done|].
    intros _ m Hmr. destruct (in_range_cases cache1 m Hmr) as [Hmi|?]; [|done].
    rewrite Hm in Hmi by done. by apply elem_of_nil in Hmi.
  - eapply run_mono; [by apply fetch_remainder_run|]. intros r st (Hc2 & ? & ?). split_and!; [|done|done].
    eapply cost_weaken; [eapply cost_trans; [exact Hc1|exact Hc2]|lia..].
  - split_and!; [eapply cost_weaken; [exact Hc1|lia..]|done|done].
Qed.

End hashes.

(** C34. Fetching block hashes ends with the range complete or an error, whatever the node
    answers: it never panics, it issues at most 98 requests per block of the range, it keeps
    every hash the cache already had, every hash it adds is inside the range and is one the node
    reported for that block, and on success no block of the range is missing. *)
Theorem fetch_block_hashes_into_complete lo hi c cache :
  ∃ r c' cache', fetch_block_hashes_into lo hi (c, cache) = Done (r, (c', cache')) ∧
    (let n := Z.to_nat (hi - lo + 1) in cost (98 * n) (70000 + 336000 * Z.of_nat n) c c') ∧
    cache ⊆ cache' ∧
    (∀ n h, cache' !! n = Some h → cache !! n = Some h ∨ (lo ≤ n ≤ hi)%Z ∧ answered n h) ∧
    (r = Ok tt → ∀ n, (lo ≤ n ≤ hi)%Z → is_Some (cache' !! n)).
Proof.
  pose proof (fetch_into_run lo hi cache c) as Hrun. cbv zeta in Hrun. rewrite range_inclusive_length in Hrun. unfold run in Hrun.
  destruct (fetch_block_hashes_into lo hi (c, cache)) as [[r [c' cache']]|]; [|done].
  destruct Hrun as (? & [? ?] & Hall). exists r, c', cache'. split_and!; [done..|].
  intros Hok n Hn. by apply elem_of_dom, Hall.
Qed.

(** ** Account codes *)

Lemma process_codes_dom addresses items codes codes' :
  process_codes addresses items codes = Ok codes' → dom codes ⊆ list_to_set addresses → dom codes' ⊆ list_to_set addresses.
Proof.
  revert codes. induction items as [|item items IH]; intros codes; cbn [process_codes]; [by intros [= <-]|].
  destruct (get item "error"); [apply IH|]. destruct (response_id item) as [id|]; [|apply IH].
  destruct (addresses !! Z.to_nat id) as [a|] eqn:Ha; [|apply IH]. destruct (get_str item "result"); [|apply IH].
  destruct (parse_hex_bytes _); [|done]. intros Hrest Hdom. apply (IH _ Hrest).
  apply list_elem_of_lookup_2 in Ha. set_solver.
Qed.

Lemma code_batches_run addresses at_block k cs codes c :
  dom codes ⊆ (list_to_set addresses : gset Z) →
  run (code_batches addresses at_block k cs codes) c (λ r c',
    ∀ codes', r = Ok codes' → dom codes' ⊆ (list_to_set addresses : gset Z)).
Proof.
  revert k codes c. induction cs as [|chunk cs IH]; intros k codes c Hdom; cbn [code_batches].
  { apply run_ret. by intros ? [= <-]. }
  apply run_mbind. eapply run_mono; [apply send_run|]. intros [resp|] c1 _; [|done].
  destruct (as_array resp) as [items|]; [|by apply IH]. apply run_mbind. unfold run at 1, lift.
  destruct (process_codes addresses items codes) as [codes1|] eqn:Hp; [|done].
  apply IH. by eapply process_codes_dom.
Qed.

Lemma residual_codes_run at_block addresses codes c :
  run (residual_codes at_block addresses codes) c (λ r c',
    ∀ codes', r = Ok codes' → dom codes' = dom codes ∪ (list_to_set addresses : gset Z)).
Proof.
  revert codes c. induction addresses as [|a addresses IH]; intros codes c; cbn [residual_codes].
  { apply run_ret. intros ? [= <-]. set_solver. }
  destruct (codes !! a) as [code|] eqn:Ha.
  { eapply run_mono; [apply IH|]. intros r c' Hr codes' Hok. rewrite (Hr _ Hok). apply elem_of_dom_2 in Ha. set_solver. }
  apply run_mbind. eapply run_mono; [apply call_run|]. intros [code|] c1 _; [|done].
  destruct (as_str code) as [s|]; [|by apply run_raise]. destruct (parse_hex_bytes s) as [bytes|]; [|by apply run_raise].
  eapply run_mono; [apply IH|]. intros r c' Hr codes' Hok. rewrite (Hr _ Hok). set_solver.
Qed.

(** Fetching account codes never panics, and on success it has the code of exactly the
    requested accounts. *)
Lemma fetch_account_codes_run addresses at_block c :
  run (fetch_account_codes addresses at_block) c (λ r c',
    ∀ codes, r = Ok codes → dom codes = (list_to_set addresses : gset Z)).
Proof.
  unfold fetch_account_codes. apply run_mbind. eapply run_mono; [apply code_batches_run; set_solver|].
  intros [codes|] c1 Hdom; [|done]. specialize (Hdom _ eq_refl). eapply run_mono; [apply residual_codes_run|].
  intros r c' Hr codes' Hok. rewrite (Hr _ Hok). set_solver.
Qed.

(** ** Delegation targets *)

Lemma fetch_account_with_code_run addr at_block c :
  run (fetch_account_with_code addr at_block) c (λ r c', True).
Proof.
  unfold fetch_account_with_code. apply run_mbind. eapply run_mono; [apply call_run|]. intros [code|] c1 _; [|done].
  case_match; [done|]. apply run_mbind. eapply run_mono; [apply call_run|]. intros [balance|] c2 _; [|done].
  apply run_mbind. eapply run_mono; [apply call_run|]. intros [nonce|] c3 _; [|done].
  destruct (u256_from_str _); [|done]. by destruct (parse_hex_bytes _).
Qed.

(** What a run over the targets has done: the cache grows, accounts that are no target or have
    code are untouched, and every other target is now the cached account, if it has one. *)
Definition supplemented (targets : list Address) (pre : gmap Z AccountFixture) (cache : gmap Z (option AccountFixture))
    (r : result RpcError nat) (st : Client * (gmap Z AccountFixture * gmap Z (option AccountFixture))) : Prop :=
  cache ⊆ st.2.2 ∧
  (∀ a, a ∉ targets ∨ has_code (pre !! a) = true → st.2.1 !! a = pre !! a) ∧
  (is_ok r = true → ∀ a, a ∈ targets → has_code (pre !! a) = false → ∃ acc,
    st.2.2 !! a = Some acc ∧ st.2.1 !! a = match acc with Some x => Some x | None => pre !! a end).

Lemma supplemented_refl targets pre cache e c : supplemented targets pre cache (Err e) (c, (pre, cache)).
Proof. by split_and!. Qed.

Lemma supplemented_cons target targets pre cache acc cache1 r st :
  target ∉ targets → has_code (pre !! target) = false → cache ⊆ cache1 → cache1 !! target = Some acc →
  supplemented targets (match acc with Some x => <[target := x]> pre | None => pre end) cache1 r st →
  supplemented (target :: targets) pre cache r st.
Proof.
  intros Hnin Hcode Hsub Hacc (Hsub' & Hkeep & Hok).
  assert (Hother : ∀ a, a ≠ target → match acc with Some x => <[target := x]> pre | None => pre end !! a = pre !! a).
  { intros a Ha. destruct acc; [by rewrite lookup_insert_ne|done]. }
  split_and!; [by etrans|..].
  - intros a Ha. assert (a ≠ target) by (intros ->; destruct Ha as [Ha|Ha]; [apply Ha; by left|congruence]).
    rewrite <-(Hother a) by done. apply Hkeep. rewrite Hother by done.
    destruct Ha as [Ha|Ha]; [left; intros ?; apply Ha; by right|by right].
  - intros Hr a [->|Ha]%elem_of_cons Hca.
    + exists acc. split; [by eapply lookup_weaken|]. rewrite Hkeep by by left.
      destruct acc; [by rewrite lookup_insert_eq|done].
    + assert (a ≠ target) by (by intros ->). rewrite <-(Hother a) by done. apply Hok; [done|done|]. by rewrite Hother.
Qed.

Lemma supplement_loop_run targets at_block added c pre cache :
  NoDup targets → run (supplement_loop targets at_block added) (c, (pre, cache)) (supplemented targets pre cache).
Proof.
  intros Hnd. revert added c pre cache. induction Hnd as [|target targets Hnin Hnd IH]; intros added c pre cache; cbn [supplement_loop].
  { split_and!; [done|done|]. by intros _ a ?%elem_of_nil. }
  unfold run at 1. destruct (has_code (pre !! target)) eqn:Hcode.
  { apply (run_mono (supplement_loop targets at_block added) _ _ _ (IH added c pre cache)).
    intros r st (Hs & Hk & Hok). split_and!; [done| |].
    - intros a [Ha|Ha]; apply Hk; [left; set_solver|by right].
    - intros Hr a [->|Ha]%elem_of_cons Hca; [congruence|auto]. }
  match goal with |- match ?m _ with _ => _ end => change (run m (c, (pre, cache)) (supplemented (target :: targets) pre cache)) end.
  assert (Hrest : ∀ acc c1 cache1, cache ⊆ cache1 → cache1 !! target = Some acc →
    run (match acc with
         | Some account => _ ← update (prod_map (λ pre_state, <[target := account]> pre_state) id);
                           supplement_loop targets at_block (added + 1)
         | None => supplement_loop targets at_block added
         end) (c1, (pre, cache1)) (supplemented (target :: targets) pre cache)).
  { intros acc c1 cache1 Hsub Hacc.
    assert (Hstep : ∀ n, run (supplement_loop targets at_block n)
      (c1, (match acc with Some x => <[target := x]> pre | None => pre end, cache1)) (supplemented (target :: targets) pre cache)).
    { intros n. eapply run_mono; [apply IH|]. intros r st. by apply supplemented_cons. }
    destruct acc; [apply run_mbind, run_update|]; apply Hstep. }
  apply run_mbind. destruct (cache !! target) as [acc|] eqn:Hc; [by apply run_ret, Hrest|].
  apply run_mbind, run_zoom. eapply run_mono; [apply fetch_account_with_code_run|]. intros [acc|e] c1 _.
  - apply run_mbind, run_update, run_ret, Hrest; [by apply insert_subseteq|by rewrite lookup_insert_eq].
  - apply supplemented_refl.
Qed.

(** Supplementing delegations never panics, and on success every delegation target without code
    in the prestate holds the account the node reported, unless that is no contract. *)
Lemma supplement_delegations_run txs at_block c pre cache :
  run (supplement_delegations_cached txs at_block) (c, (pre, cache)) (supplemented (delegation_targets txs pre) pre cache).
Proof. apply supplement_loop_run. apply delegation_targets_exact. Qed.

End rules.

(** ** Block numbers *)

(** Block numbers written as hexadecimal tags read back: the command line parser and the
    parser of the node's quantities both return the number of any 64-bit tag. *)
Lemma block_tag_roundtrip n :
  in_range U64_MAX n → parse_block_number (block_tag n) = Some n ∧ hex_u64 (block_tag n) = n.
Proof.
  intros Hn. split.
  - unfold parse_block_number, block_tag. simpl. by apply from_str_radix_hex.
  - unfold hex_u64. by rewrite trim_block_tag, from_str_radix_hex.
Qed.

Lemma block_tag_roundtrip_witness :
  in_range U64_MAX 25323281 ∧ parse_block_number (block_tag 25323281) = Some 25323281%Z ∧
  hex_u64 (block_tag 25323281) = 25323281%Z.
Proof. split; [done|]. apply (block_tag_roundtrip 25323281). done. Defined.

(** ** Examples *)

Section examples.
#[local] Existing Instance tree_json.
#[local] Existing Instance alloy_example.

(** A node that throttles its first request, answers only the even blocks of a batch, and every
    single request. *)
Definition ex_item (item : Value) : option Value :=
  match as_u64 (default JNull (get item "id")) with
  | Some n =>
    if Z.even n then Some (JObject [("id", JNumber n); ("result", JObject [("hash", JString (block_tag (n + 1000)))])])
    else None
  | None => None
  end.
Definition ex_post (body : Value) (count : nat) : (Z + result unit (result unit Value)) * nat :=
  (if (count =? 0)%nat then inl 429%Z
   else inr (Ok (Ok match as_array body with
                    | Some items => JArray (omap ex_item items)
                    | None => JObject [("result", JObject [("hash", JString "0x7")])]
                    end)), S count).
#[local] Instance ex_http : Http := {| Net := nat; HttpError := unit; post := ex_post |}.

Example fetch_block_hashes_example :
  match fetch_block_hashes 10 13 (mkClient 0 []) with
  | Done (Ok hashes, c) => btree_iter hashes = [(10, 1010); (11, 7); (12, 1012); (13, 7)]%Z ∧ posts (log c) = 10
  | _ => False
  end.
Proof. vm_compute. done. Qed.

End examples.
