(* ===== verification/ReplayTool.v ===== *)
(** The block replay tool: src/src/bin/replay_mainnet.rs.

    The filters, the analysis of call traces, the construction of a replayable block and the
    prefetch loop. The recursion over call frames takes the size of the JSON value as fuel.
    Printing, the environment variables and the thread around the prefetch loop are left out;
    the receiving end of the channel is the parameter [accepts]. *)

From S2P Require Import Prelude Model Reward World Collections Text MemoryDb Mainnet Rpc RpcProps.
From stdpp Require Import sorting pretty.

Open Scope string_scope.
Open Scope list_scope.
Open Scope nat_scope.

(** ** Filters *)

Inductive Filter := FAll | FEip7702 | FDelegatedSafety.

(** The error names the filter it does not know. *)
Inductive FilterError := UnknownFilter (other : string).

Definition filter_parse (s : string) : result FilterError Filter :=
  let s := to_ascii_lowercase s in
  if bool_decide (s = "all") then Ok FAll
  else if bool_decide (s ∈ ["eip-7702"; "eip7702"; "7702"]) then Ok FEip7702
  else if bool_decide (s = "delegated-safety") then Ok FDelegatedSafety
  else Err (UnknownFilter s).

Definition filter_label (f : Filter) : string :=
  match f with FAll => "all" | FEip7702 => "EIP-7702" | FDelegatedSafety => "delegated safety" end.

(** The messages of the trace analysis. *)
Inductive TraceError {J : Json} :=
| NonArrayTrace
| WrongCount (got expected : nat)
| TxTraceFailed (tx_index : nat) (error : Value)
| NonObjectFrame (tx_index : nat)
| InvalidValue (tx_index : nat) (e : string)
| OmittedFrom (tx_index : nat) (frame_type : string)
| InvalidFrom (tx_index : nat) (frame_type : string) (e : string)
| NonArrayCalls (tx_index : nat).

(** [DelegatedSafetyCandidate]: the transaction and the account. *)
Abbreviation Candidate := (nat * Z)%type (only parsing).

Section replay_tool.
Context {J : Json} {H : Http} `{!Alloy} `{!Specs}.
(** revm's recovery of the signer of an authorization. *)
Context (authority : SignedAuthorization → option Address).

(** ** Call traces *)

Definition frame_str (entries : list (string * Value)) (key : string) : option string := map_get entries key ≫= as_str.

(** Whether an internal frame moves value or creates a contract. *)
Definition frame_candidate (tx_index : nat) (entries : list (string * Value)) : result TraceError bool :=
  let frame_type := default "" (frame_str entries "type") in
  if bool_decide (frame_type ∈ ["CREATE"; "CREATE2"; "SELFDESTRUCT"]) then Ok true
  else if bool_decide (frame_type = "CALL") then
    let? value := result_map_err (InvalidValue tx_index) (u256_from_str (default "0x0" (frame_str entries "value"))) in
    let different_accounts :=
      match frame_str entries "from", frame_str entries "to" with
      | Some from, Some to => negb (eq_ignore_ascii_case from to)
      | _, _ => true
      end in
    Ok (negb (bool_decide (value = 0%Z)) && different_accounts)
  else Ok false.

Definition frame_source (tx_index : nat) (entries : list (string * Value)) : result TraceError Address :=
  let frame_type := default "" (frame_str entries "type") in
  match frame_str entries "from" with
  | None => Err (OmittedFrom tx_index frame_type)
  | Some s => result_map_err (InvalidFrom tx_index frame_type) (parse_address s)
  end.

(** What one frame adds, before its children. *)
Definition visit_frame (tx_index : nat) (is_root : bool) (entries : list (string * Value)) (candidates : gset Candidate) :
    result TraceError (gset Candidate) :=
  let? is_candidate := if is_root then Ok false else frame_candidate tx_index entries in
  if is_candidate : bool then let? source := frame_source tx_index entries in Ok ({[(tx_index, source)]} ∪ candidates)
  else Ok candidates.

Definition frame_children (tx_index : nat) (entries : list (string * Value)) : result TraceError (list Value) :=
  match map_get entries "calls" with
  | None => Ok []
  | Some children => match as_array children with Some l => Ok l | None => Err (NonArrayCalls tx_index) end
  end.

(** The recursion; [None] is running out of fuel. *)
Fixpoint collect_frames (fuel : nat) (frame : Value) (tx_index : nat) (is_root : bool) (candidates : gset Candidate) :
    option (result TraceError (gset Candidate)) :=
  match fuel with
  | 0 => None
  | S fuel =>
    match as_object frame with
    | None => Some (Err (NonObjectFrame tx_index))
    | Some entries =>
      match visit_frame tx_index is_root entries candidates with
      | Err e => Some (Err e)
      | Ok candidates =>
        match frame_children tx_index entries with
        | Err e => Some (Err e)
        | Ok children =>
          foldl (λ acc child,
            match acc with
            | Some (Ok candidates) => collect_frames fuel child tx_index false candidates
            | _ => acc
            end) (Some (Ok candidates)) children
        end
      end
    end
  end.
Definition collect_delegated_safety_frames (frame : Value) (tx_index : nat) (is_root : bool) (candidates : gset Candidate) :
    option (result TraceError (gset Candidate)) :=
  collect_frames (S (json_size frame)) frame tx_index is_root candidates.

Definition trace_root (transaction : Value) : Value := default transaction (get transaction "result").

Fixpoint collect_transactions (tx_index : nat) (transactions : list Value) (candidates : gset Candidate) :
    option (result TraceError (gset Candidate)) :=
  match transactions with
  | [] => Some (Ok candidates)
  | transaction :: transactions =>
    match get transaction "error" with
    | Some error =>
      if is_null error then
        match collect_delegated_safety_frames (trace_root transaction) tx_index true candidates with
        | Some (Ok candidates) => collect_transactions (S tx_index) transactions candidates
        | r => r
        end
      else Some (Err (TxTraceFailed tx_index error))
    | None =>
      match collect_delegated_safety_frames (trace_root transaction) tx_index true candidates with
      | Some (Ok candidates) => collect_transactions (S tx_index) transactions candidates
      | r => r
      end
    end
  end.

Definition delegated_safety_candidates (trace : Value) (expected_transactions : nat) :
    option (result TraceError (gset Candidate)) :=
  match as_array trace with
  | None => Some (Err NonArrayTrace)
  | Some transactions =>
    if bool_decide (length transactions = expected_transactions) then collect_transactions 0 transactions ∅
    else Some (Err (WrongCount (length transactions) expected_transactions))
  end.

(** ** Authorizations *)

Definition note_authorizations (tx_index : nat) (tx : TxFixture) (earliest : gmap Address nat) : gmap Address nat :=
  foldl (λ earliest authorization,
    if negb (bool_decide (sa_address authorization = 0%Z)) then
      match authority authorization with Some a => or_insert a tx_index earliest | None => earliest end
    else earliest) earliest (te_authorization_list (to_tx_env tx)).

Fixpoint earliest_loop (tx_index : nat) (txs : list TxFixture) (earliest : gmap Address nat) : gmap Address nat :=
  match txs with
  | [] => earliest
  | tx :: txs => earliest_loop (S tx_index) txs (note_authorizations tx_index tx earliest)
  end.
Definition earliest_non_clearing_authorizations (txs : list TxFixture) : gmap Address nat := earliest_loop 0 txs ∅.

Definition is_eip7702_designator (code : list Z) : bool :=
  bool_decide (length code = 23) && bool_decide (take 3 code = [239; 1; 0]%Z).

(** ** Matching blocks *)

(** Errors of the trace analysis and of the fixtures, as client errors; the JSON a message quotes
    is left out. *)
Definition trace_message (e : TraceError) : string :=
  match e with
  | NonArrayTrace => "callTracer returned a non-array result"
  | WrongCount got expected =>
    "callTracer returned " +:+ pretty got +:+ " transaction results for a block with " +:+ pretty expected +:+ " transactions"
  | TxTraceFailed i _ => "callTracer failed for transaction " +:+ pretty i
  | NonObjectFrame i => "callTracer transaction " +:+ pretty i +:+ " contained a non-object frame"
  | InvalidValue i e => "callTracer transaction " +:+ pretty i +:+ " returned invalid value: " +:+ e
  | OmittedFrom i ty => "callTracer transaction " +:+ pretty i +:+ " " +:+ ty +:+ " frame omitted `from`"
  | InvalidFrom i ty e => "callTracer transaction " +:+ pretty i +:+ " " +:+ ty +:+ " frame has invalid `from`: " +:+ e
  | NonArrayCalls i => "callTracer transaction " +:+ pretty i +:+ " returned a non-array `calls` field"
  end.
Definition lift_string {S A} (r : result string A) : M S A := lift (result_map_err OtherError r).

Definition authorized_candidate (authorizations : gmap Address nat) (candidate : Candidate) : bool :=
  match authorizations !! candidate.2 with Some tx_index => (tx_index <=? candidate.1)%nat | None => false end.

Definition delegated_safety_trace_matches (block_number : Z) (block trace : Value) : M Client bool :=
  match get_array block "transactions" with
  | None => raise (OtherError "full block response did not contain a transaction array")
  | Some tx_values =>
    match delegated_safety_candidates trace (length tx_values) with
    | None => unreachable
    | Some (Err e) => raise (OtherError (trace_message e))
    | Some (Ok candidates) =>
      if bool_decide (candidates = ∅) then mret false
      else
        txs ← lift_string (collect tx_from_rpc tx_values);
        let authorizations := earliest_non_clearing_authorizations txs in
        if existsb (authorized_candidate authorizations) (elements candidates) then mret true
        else
          let sources := btree_elements (set_map snd candidates) in
          let parent := block_tag (saturating_sub block_number 1) in
          codes ← fetch_account_codes sources parent;
          mret (existsb is_eip7702_designator (btree_iter codes).*2)
    end
  end.

Definition filter_matches (f : Filter) (block_number : Z) (block : Value) : M Client bool :=
  let txs := get_array block "transactions" in
  match f with
  | FAll => mret (match txs with Some (_ :: _) => true | _ => false end)
  | FEip7702 => mret (match txs with Some t => existsb (λ x, bool_decide (get_str x "type" = Some "0x4")) t | None => false end)
  | FDelegatedSafety =>
    match txs with
    | Some (_ :: _) =>
      trace ← call "debug_traceBlockByNumber"
        (JArray [JString (block_tag block_number);
                 JObject [("tracer", JString "callTracer");
                          ("tracerConfig", JObject [("onlyTopCall", JBool false)]);
                          ("timeout", JString "60s")]]);
      delegated_safety_trace_matches block_number block trace
    | _ => mret false
    end
  end.

(** ** Building a block *)

Record Caches := mkCaches {
  hashes : gmap Z B256;
  delegates : gmap Address (option AccountFixture)
}.
Definition Caches_default : Caches := mkCaches ∅ ∅.

(** Run an operation on one field of the caches. *)
Definition with_hashes {A} (m : M (Client * gmap Z B256) A) : M (Client * Caches) A := λ '(c, caches),
  let! (r, (c, h)) := m (c, hashes caches) in Done (r, (c, mkCaches h (delegates caches))).

(** [write_mainnet_block], when a directory is given. *)
Context (save : option (BlockFixture → list TxFixture → gmap Address AccountFixture → result string unit)).

Definition hash_window (number : Z) : Z * Z := (saturating_sub number 256, saturating_sub number 1).

(** The hashes of the window, out of a cache that keeps nothing older. *)
Definition take_window (lo hi : Z) : M (Client * Caches) (gmap Z B256) := λ '(c, caches),
  Done (Ok (filter (λ kv, (lo ≤ kv.1 ≤ hi)%Z) (hashes caches)),
        (c, mkCaches (filter (λ kv, (lo ≤ kv.1)%Z) (hashes caches)) (delegates caches))).

Definition with_delegates (txs : list TxFixture) (parent : string) (pre_state : gmap Address AccountFixture) :
    M (Client * Caches) (gmap Address AccountFixture) := λ '(c, caches),
  let! (r, (c, (pre_state, d))) := supplement_delegations_cached txs parent (c, (pre_state, delegates caches)) in
  Done (result_map (λ _, pre_state) r, (c, mkCaches (hashes caches) d)).

Definition finish (label : string) (bf : BlockFixture) (txs : list TxFixture) (pre_state : gmap Address AccountFixture) :
    M (Client * Caches) MainnetBlock := λ st,
  let! b := from_fixtures label bf txs pre_state in Done (Ok b, st).

Definition build_block (number chain_id : Z) (block : Value) : M (Client * Caches) MainnetBlock :=
  let ts := default "0x0" (get_str block "timestamp") in
  let spec := spec_for_mainnet_block number (default 0%Z (from_str_radix 16 U64_MAX (trim_start_matches "0x" ts))) in
  bf ← lift_string (block_from_rpc number chain_id spec block);
  let '(lo, hi) := hash_window number in
  _ ← with_hashes (fetch_block_hashes_into lo hi);
  window ← take_window lo hi;
  let bf := set_block_hashes window bf in
  txs ← lift_string (match get_array block "transactions" with Some v => collect tx_from_rpc v | None => Ok [] end);
  trace ← zoom (call "debug_traceBlockByNumber"
    (JArray [JString (block_tag number); JObject [("tracer", JString "prestateTracer")]]));
  let '(r, pre_state) := accumulate_prestate ∅ trace txs in
  _ ← lift_string r;
  pre_state ← with_delegates txs (block_tag (saturating_sub number 1)) pre_state;
  _ ← lift_string (match save with Some write => write bf txs pre_state | None => Ok tt end);
  finish (pretty number) bf txs pre_state.

(** The scan of [next_match]; [remaining] bounds the blocks left and [None] is running out of
    it. The block number is a [u64]. *)
Fixpoint scan (remaining : nat) (f : Filter) (bn head chain_id : Z) (st : Client * Caches) :
    option (outcome (result RpcError (option MainnetBlock) * (Client * Caches))) :=
  if (bn <=? head)%Z then
    match remaining with
    | 0 => None
    | S remaining =>
      let step : M (Client * Caches) (option MainnetBlock) :=
        block ← zoom (call "eth_getBlockByNumber" (JArray [JString (block_tag bn); JBool true]));
        if is_null block then mret None
        else
          found ← zoom (filter_matches f bn block);
          if (found : bool) then b ← build_block bn chain_id block; mret (Some b) else mret None in
      match step st with
      | Done (Ok None, st) => scan remaining f ((bn + 1) mod 2 ^ 64) head chain_id st
      | r => Some r
      end
    end
  else Some (Done (Ok None, st)).
Definition next_match (f : Filter) (from head chain_id : Z) (st : Client * Caches) :
    option (outcome (result RpcError (option MainnetBlock) * (Client * Caches))) :=
  scan (Z.to_nat (head - from + 1)) f from head chain_id st.

(** The prefetch loop: the blocks it sent. The channel may be closed before a send. *)
Context (accepts : nat → bool).
Definition fetch_done (count : option nat) (produced : nat) : bool :=
  match count with Some c => (c <=? produced)%nat | None => false end.
Fixpoint fetch_loop (fuel : nat) (f : Filter) (count : option nat) (from head chain_id : Z) (produced : nat)
    (sent : list MainnetBlock) (st : Client * Caches) :
    option (outcome (result RpcError (list MainnetBlock) * (Client * Caches))) :=
  match fuel with
  | 0 => None
  | S fuel =>
    if fetch_done count produced then Some (Done (Ok sent, st))
    else
      match next_match f from head chain_id st with
      | None => None
      | Some Panic => Some Panic
      | Some (Done (Err e, st)) => Some (Done (Err e, st))
      | Some (Done (Ok None, st)) => Some (Done (Ok sent, st))
      | Some (Done (Ok (Some block), st)) =>
        let next := ((mb_number block + 1) mod 2 ^ 64)%Z in
        if accepts produced then fetch_loop fuel f count next head chain_id (produced + 1) (sent ++ [block]) st
        else Some (Done (Ok sent, st))
      end
  end.

End replay_tool.
