(* ===== verification/ReplayToolProps.v ===== *)
(** Correctness of the replay tool: the trace analysis terminates and finds exactly the
    value-moving internal frames, the authorization index is exact, and a block that is built
    serves the hashes of its ancestors. *)

From S2P Require Import Prelude Model Reward World Collections Text MemoryDb Mainnet Rpc RpcProps ReplayTool.
From stdpp Require Import sorting pretty.

Open Scope string_scope.
Open Scope list_scope.
Open Scope nat_scope.

Section traces.
Context {J : Json} {H : Http} `{!Alloy}.

(** ** Frames *)

(** The calls a frame makes, and the frames below it. *)
Definition calls (f : Value) : list Value :=
  match as_object f with
  | Some e => match map_get e "calls" with Some v => default [] (as_array v) | None => [] end
  | None => []
  end.
Definition child (f x : Value) : Prop := x ∈ calls f.

(** The frame moves value out of, or creates or destroys a contract as, the account [a]. *)
Definition moves (x : Value) (a : Address) : Prop :=
  ∃ e from, as_object x = Some e ∧ frame_str e "from" = Some from ∧ parse_address from = Ok a ∧
    (default "" (frame_str e "type") ∈ ["CREATE"; "CREATE2"; "SELFDESTRUCT"] ∨
     default "" (frame_str e "type") = "CALL" ∧
     (∃ v, u256_from_str (default "0x0" (frame_str e "value")) = Ok v ∧ v ≠ 0%Z) ∧
     ∀ to, frame_str e "to" = Some to → to_ascii_lowercase from ≠ to_ascii_lowercase to).

Lemma frame_candidate_Ok i e b from a x :
  as_object x = Some e → frame_str e "from" = Some from → parse_address from = Ok a →
  frame_candidate i e = Ok b → b = true ↔ moves x a.
Proof.
  intros Hx Hfrom Ha Hc. transitivity
    (default "" (frame_str e "type") ∈ ["CREATE"; "CREATE2"; "SELFDESTRUCT"] ∨
     default "" (frame_str e "type") = "CALL" ∧
     (∃ v, u256_from_str (default "0x0" (frame_str e "value")) = Ok v ∧ v ≠ 0%Z) ∧
     ∀ to, frame_str e "to" = Some to → to_ascii_lowercase from ≠ to_ascii_lowercase to).
  - unfold frame_candidate in Hc. rewrite Hfrom in Hc. case_bool_decide as Hty; [simplify_eq; by split; [left|]|].
    case_bool_decide as Hcall; [|simplify_eq; split; [done|]; by intros [?|[? _]]].
    destruct (u256_from_str _) as [v|]; [|done]. simpl in Hc. simplify_eq.
    rewrite andb_true_iff, negb_true_iff, bool_decide_eq_false. split.
    + intros [Hv Hd]. right. split; [done|]. split; [by exists v|]. intros to Hto. rewrite Hto in Hd.
      unfold eq_ignore_ascii_case in Hd. by apply negb_true_iff, bool_decide_eq_false in Hd.
    + intros [?|(_ & (v' & [= <-] & Hv) & Hd)]; [done|]. split; [done|]. destruct (frame_str e "to") as [to|]; [|done].
      apply negb_true_iff, bool_decide_eq_false. by apply Hd.
  - split; [intros Hm; by exists e, from|]. intros (e' & from' & He & Hf & _ & Hm). by simplify_eq.
Qed.

Lemma visit_frame_Ok i root x e C C' :
  as_object x = Some e → visit_frame i root e C = Ok C' →
  ∀ p, p ∈ C' ↔ p ∈ C ∨ root = false ∧ p.1 = i ∧ moves x p.2.
Proof.
  unfold visit_frame. intros Hx Hv p. destruct root; simpl in Hv; [simplify_eq; naive_solver|].
  destruct (frame_candidate i e) as [b|] eqn:Hc; [|done]. simpl in Hv.
  assert (Hsrc : ∀ a, moves x a → frame_source i e = Ok a).
  { intros a (e' & from & He & Hf & Ha & _). simplify_eq. unfold frame_source. by rewrite Hf, Ha. }
  destruct b.
  - unfold frame_source in *. destruct (frame_str e "from") as [from|] eqn:Hf; [|done].
    destruct (parse_address from) as [a|] eqn:Ha; [|done]. simpl in Hv. simplify_eq.
    rewrite elem_of_union, elem_of_singleton. pose proof (frame_candidate_Ok _ _ _ _ _ _ Hx Hf Ha Hc) as [Hm _].
    split; [intros [->|?]; [right; auto|by left]|]. intros [?|(_ & Hi & Hp)]; [by right|left].
    apply Hsrc in Hp. simpl in Hp. destruct p. by simplify_eq/=.
  - simplify_eq. split; [by left|]. intros [?|(_ & _ & Hp)]; [done|].
    destruct Hp as (e' & from & He & Hf & Ha & Hk). simplify_eq.
    assert (Hm : moves x p.2) by (by exists e, from).
    by apply (frame_candidate_Ok _ _ _ _ _ _ Hx Hf Ha Hc) in Hm.
Qed.

Lemma frame_children_Ok i x e ch : as_object x = Some e → frame_children i e = Ok ch → calls x = ch.
Proof. unfold frame_children, calls. intros ->. intros. split_cases; done. Qed.

(** ** The recursion *)

(** What a frame contributes: itself unless it is the root, and everything below it. *)
Definition contributes (root : bool) (f : Value) (a : Address) : Prop :=
  ∃ x, (if root then tc child f x else rtc child f x) ∧ moves x a.

Definition visit_all (fuel i : nat) (acc : option (result TraceError (gset Candidate))) (children : list Value) :=
  foldl (λ acc child,
    match acc with Some (Ok candidates) => collect_frames fuel child i false candidates | _ => acc end) acc children.

Lemma visit_all_stuck fuel i acc children C :
  visit_all fuel i acc children = Some (Ok C) → ∃ C0, acc = Some (Ok C0).
Proof.
  revert acc. induction children as [|x children IH]; intros acc; simpl; [eauto|].
  intros (C0 & Hx)%IH. destruct acc as [[C1|]|]; [eauto|done..].
Qed.

Lemma visit_all_Ok fuel i children C C' :
  (∀ x C C', collect_frames fuel x i false C = Some (Ok C') →
    ∀ p, p ∈ C' ↔ p ∈ C ∨ p.1 = i ∧ contributes false x p.2) →
  visit_all fuel i (Some (Ok C)) children = Some (Ok C') →
  ∀ p, p ∈ C' ↔ p ∈ C ∨ p.1 = i ∧ ∃ x, x ∈ children ∧ contributes false x p.2.
Proof.
  intros Hone. revert C. induction children as [|x children IH]; intros C; simpl.
  { intros [= <-] p. split; [by left|]. by intros [?|(_ & x & ?%elem_of_nil & _)]. }
  intros Hv p. destruct (visit_all_stuck _ _ _ _ _ Hv) as [C1 Hx]. fold (visit_all fuel i) in Hv. rewrite Hx in Hv.
  rewrite (IH _ Hv p), (Hone _ _ _ Hx p). setoid_rewrite elem_of_cons. naive_solver.
Qed.

Lemma contributes_step root f a :
  contributes root f a ↔ (root = false ∧ moves f a) ∨ ∃ x, x ∈ calls f ∧ contributes false x a.
Proof.
  unfold contributes. split.
  - intros (x & Hx & Hm). destruct root.
    + right. destruct Hx as [f x Hx|f y x Hy Hx].
      * exists x. split; [done|]. exists x. by split; [apply rtc_refl|].
      * exists y. split; [done|]. exists x. by split; [apply tc_rtc|].
    + apply rtc_inv in Hx as [<-|(y & Hy & Hx)]; [by left|]. right. exists y. split; [done|]. by exists x.
  - intros [[-> Hm]|(y & Hy & x & Hx & Hm)]; [exists f; by split; [apply rtc_refl|]|].
    exists x. split; [|done]. destruct root; [by eapply tc_rtc_r; [apply tc_once|]|by eapply rtc_l].
Qed.

Lemma collect_frames_Ok fuel f i root C C' :
  collect_frames fuel f i root C = Some (Ok C') →
  ∀ p, p ∈ C' ↔ p ∈ C ∨ p.1 = i ∧ contributes root f p.2.
Proof.
  revert f root C C'. induction fuel as [|fuel IH]; intros f root C C'; cbn [collect_frames]; [done|].
  destruct (as_object f) as [e|] eqn:Hf; [|done]. destruct (visit_frame i root e C) as [C1|] eqn:Hv; [|done].
  destruct (frame_children i e) as [ch|] eqn:Hch; [|done]. intros Hall p.
  rewrite (visit_all_Ok _ _ _ _ _ (λ x, IH x false) Hall p), (visit_frame_Ok _ _ _ _ _ _ Hf Hv p), contributes_step.
  rewrite (frame_children_Ok _ _ _ _ Hf Hch). naive_solver.
Qed.

(** Enough fuel for the size of the frame. *)
Lemma calls_size `{!JsonLaws} f x : x ∈ calls f → json_size x < json_size f.
Proof.
  unfold calls. destruct (as_object f) as [e|] eqn:Hf; [|by intros ?%elem_of_nil].
  destruct (map_get e "calls") as [v|] eqn:Hv; [|by intros ?%elem_of_nil].
  destruct (as_array v) as [l|] eqn:Hl; [|by intros ?%elem_of_nil]. simpl. intros Hx.
  transitivity (json_size v); [by eapply size_array|]. eapply size_object; [done|by apply map_get_elem].
Qed.

Lemma collect_frames_total `{!JsonLaws} fuel f i root C : json_size f < fuel → is_Some (collect_frames fuel f i root C).
Proof.
  revert f root C. induction fuel as [|fuel IH]; intros f root C Hsize; [lia|]. cbn [collect_frames].
  destruct (as_object f) as [e|] eqn:Hf; [|done]. destruct (visit_frame i root e C) as [C1|]; [|done].
  destruct (frame_children i e) as [ch|] eqn:Hch; [|done]. apply (frame_children_Ok _ _ _ _ Hf) in Hch.
  assert (Hsub : ∀ x, x ∈ ch → json_size x < fuel).
  { intros x Hx. rewrite <-Hch in Hx. apply calls_size in Hx. lia. }
  assert (Hacc : is_Some (Some (Ok C1 : result TraceError _))) by done. revert Hacc. clear Hch.
  generalize (Some (Ok C1 : result TraceError (gset Candidate))). induction ch as [|x ch IHch]; intros acc Hacc; simpl; [done|].
  apply IHch; [intros; apply Hsub; by right|]. destruct acc as [[C2|]|]; [|done|done]. apply IH, Hsub. by left.
Qed.

(** ** Transactions *)

Lemma collect_transactions_Ok k txs C C' :
  collect_transactions k txs C = Some (Ok C') →
  ∀ i a, (i, a) ∈ C' ↔ (i, a) ∈ C ∨ ∃ tx, k ≤ i ∧ txs !! (i - k) = Some tx ∧ contributes true (trace_root tx) a.
Proof.
  revert k C. induction txs as [|tx txs IH]; intros k C Hc i a; cbn [collect_transactions] in Hc.
  { simplify_eq. split; [by left|]. by intros [?|(tx & _ & ? & _)]. }
  assert (∃ C1, collect_delegated_safety_frames (trace_root tx) k true C = Some (Ok C1) ∧
    collect_transactions (S k) txs C1 = Some (Ok C')) as (C1 & H1 & H2).
  { destruct (get tx "error"); [destruct (is_null _); [|done]|];
      (destruct (collect_delegated_safety_frames _ _ _ _) as [[C1|]|]; [eauto|done..]). }
  rewrite (IH _ _ H2), (collect_frames_Ok _ _ _ _ _ _ H1). simpl. split.
  - intros [[?|[-> ?]]|(tx' & ? & Htx & ?)]; [by left|right|right].
    + exists tx. rewrite Nat.sub_diag. by split_and!.
    + exists tx'. split; [lia|]. split; [|done]. by replace (i - k) with (S (i - S k)) by lia.
  - intros [?|(tx' & ? & Htx & ?)]; [by left; left|]. destruct (decide (i = k)) as [->|].
    + rewrite Nat.sub_diag in Htx. simplify_eq/=. by left; right.
    + right. exists tx'. split; [lia|]. split; [|done]. by replace (i - k) with (S (i - S k)) in Htx by lia.
Qed.

Lemma collect_transactions_total `{!JsonLaws} k txs C : is_Some (collect_transactions k txs C).
Proof.
  revert k C. induction txs as [|tx txs IH]; intros k C; cbn [collect_transactions]; [done|].
  assert (Hone : is_Some (match collect_delegated_safety_frames (trace_root tx) k true C with
    | Some (Ok C) => collect_transactions (S k) txs C | r => r end)).
  { destruct (collect_frames_total (S (json_size (trace_root tx))) (trace_root tx) k true C) as [r Hr]; [lia|].
    unfold collect_delegated_safety_frames. rewrite Hr. by destruct r. }
  destruct (get tx "error"); [destruct (is_null _); [done|done]|done].
Qed.

(** C35. The trace analysis of the delegated-safety filter terminates on every trace, and a set
    of candidates it returns is exact: there is one call tree per transaction of the block, and
    an account is a candidate of transaction [i] precisely when some frame strictly below the
    root of that transaction's tree creates or destroys a contract as that account, or calls a different account
    with a non-zero value from it. *)
Theorem delegated_safety_candidates_exact `{!JsonLaws} trace n :
  ∃ r, delegated_safety_candidates trace n = Some r ∧
    ∀ C, r = Ok C → ∃ txs, as_array trace = Some txs ∧ length txs = n ∧
      ∀ i a, (i, a) ∈ C ↔ ∃ tx x, txs !! i = Some tx ∧ tc child (trace_root tx) x ∧ moves x a.
Proof.
  unfold delegated_safety_candidates. destruct (as_array trace) as [txs|]; [|by eexists].
  case_bool_decide as Hlen; [|by eexists].
  destruct (collect_transactions_total 0 txs ∅) as [r Hr]. exists r. split; [done|].
  intros C ->. exists txs. split; [done|]. split; [done|]. intros i a.
  rewrite (collect_transactions_Ok _ _ _ _ Hr), Nat.sub_0_r. unfold contributes. split.
  - intros [?%not_elem_of_empty|(tx & _ & Htx & x & ? & ?)]; [done|]. by exists tx, x.
  - intros (tx & x & ? & ? & ?). right. exists tx. split; [lia|]. split; [done|]. by exists x.
Qed.

End traces.

(** ** Authorizations *)

Section authorizations.
Context (authority : SignedAuthorization → option Address).

(** The transaction carries a recoverable authorization of [a] that does not clear. *)
Definition authorizes (tx : TxFixture) (a : Address) : Prop :=
  ∃ auth, auth ∈ tf_authorization_list tx ∧ au_address auth ≠ 0%Z ∧ authority (to_signed auth) = Some a.

Lemma note_authorizations_Some i tx earliest a j :
  note_authorizations authority i tx earliest !! a = Some j ↔
  earliest !! a = Some j ∨ earliest !! a = None ∧ j = i ∧ authorizes tx a.
Proof.
  unfold note_authorizations, authorizes, to_tx_env. cbn [te_authorization_list]. revert earliest.
  induction (tf_authorization_list tx) as [|auth l IH]; intros earliest; simpl.
  { split; [by left|]. by intros [?|(_ & _ & auth & ?%elem_of_nil & _)]. }
  rewrite IH. setoid_rewrite elem_of_cons. change (sa_address (to_signed auth)) with (au_address auth).
  destruct (decide (au_address auth = 0%Z)) as [Hz|Hz].
  - rewrite bool_decide_eq_true_2 by done. simpl. naive_solver.
  - rewrite bool_decide_eq_false_2 by done. simpl. destruct (authority (to_signed auth)) as [b|] eqn:Hb; [|naive_solver].
    rewrite lookup_or_insert. destruct (decide (b = a)) as [->|]; [|naive_solver].
    destruct (earliest !! a) as [k|] eqn:He; simpl; naive_solver.
Qed.

Lemma note_authorizations_None i tx earliest a :
  note_authorizations authority i tx earliest !! a = None ↔ earliest !! a = None ∧ ¬ authorizes tx a.
Proof.
  pose proof (note_authorizations_Some i tx earliest a) as Hs. rewrite !eq_None_not_Some. split.
  - intros Hn. split; [intros [j Hj]; apply Hn; exists j; apply Hs; by left|].
    intros Ha. destruct (earliest !! a) as [k|] eqn:He; apply Hn.
    + exists k. apply Hs. by left.
    + exists i. apply Hs. by right.
  - intros [Hn Ha] [j [?|(_ & _ & ?)]%Hs]; [apply Hn; by exists j|done].
Qed.

Lemma earliest_loop_Some k txs earliest a j :
  earliest_loop authority k txs earliest !! a = Some j ↔
  earliest !! a = Some j ∨
  earliest !! a = None ∧ k ≤ j ∧ (∃ tx, txs !! (j - k) = Some tx ∧ authorizes tx a) ∧
  ∀ i tx, k + i < j → txs !! i = Some tx → ¬ authorizes tx a.
Proof.
  revert k earliest. induction txs as [|tx txs IH]; intros k earliest; cbn [earliest_loop].
  { split; [by left|]. by intros [?|(_ & _ & (tx & ? & _) & _)]. }
  rewrite IH, note_authorizations_Some, note_authorizations_None. split.
  - intros [[?|(? & -> & Ha)]|([? Hn] & Hj & (tx' & Htx & Ha) & Hfirst)]; [by left|right|right].
    + split; [done|]. split; [lia|]. split; [exists tx; by rewrite Nat.sub_diag|lia].
    + split; [done|]. split; [lia|]. split; [exists tx'; by replace (j - k) with (S (j - S k)) by lia|].
      intros [|i] tx'' Hi Htx''; simplify_eq/=; [done|]. apply (Hfirst i); [lia|done].
  - intros [?|(Hn & Hj & (tx' & Htx & Ha) & Hfirst)]; [by left; left|].
    destruct (decide (j = k)) as [->|].
    + rewrite Nat.sub_diag in Htx. simplify_eq/=. left. by right.
    + right. split; [split; [done|]; apply (Hfirst 0); [lia|done]|]. split; [lia|].
      replace (j - k) with (S (j - S k)) in Htx by lia. split; [by exists tx'|].
      intros i tx'' Hi. apply (Hfirst (S i)). lia.
Qed.

(** The index maps an account to the first transaction that authorizes it, and to nothing when
    none does. *)
Lemma earliest_authorizations_exact txs a j :
  earliest_non_clearing_authorizations authority txs !! a = Some j ↔
  (∃ tx, txs !! j = Some tx ∧ authorizes tx a) ∧ ∀ i tx, i < j → txs !! i = Some tx → ¬ authorizes tx a.
Proof.
  unfold earliest_non_clearing_authorizations. rewrite earliest_loop_Some, lookup_empty, Nat.sub_0_r.
  split; [intros [?|(_ & _ & ? & ?)]; [done|by split]|]. intros [? ?]. right. split_and!; [done|lia|done|done].
Qed.

End authorizations.

(** ** Built blocks *)

Section blocks.
Context {J : Json} {H : Http} `{!Alloy} `{!Specs}.
Context (authority : SignedAuthorization → option Address).
Context (save : option (BlockFixture → list TxFixture → gmap Address AccountFixture → result string unit)).

Lemma bind_Ok {S A B} (m : M S A) (f : A → M S B) s b s' :
  (m ≫= f) s = Done (Ok b, s') ↔ ∃ a s1, m s = Done (Ok a, s1) ∧ f a s1 = Done (Ok b, s').
Proof.
  unfold mbind, M_bind. destruct (m s) as [[[a|e] s1]|]; simpl; naive_solver.
Qed.

Lemma lift_string_Ok {S A} (r : result string A) (s : S) a s' : lift_string r s = Done (Ok a, s') ↔ r = Ok a ∧ s = s'.
Proof. unfold lift_string, lift. destruct r; simpl; naive_solver. Qed.

(** Every cached hash was reported by the node. *)
Definition trusted (hs : gmap Z B256) : Prop := ∀ n h, hs !! n = Some h → answered n h.

Lemma fetch_hashes_Ok lo hi c cs u c' cs' :
  with_hashes (fetch_block_hashes_into lo hi) (c, cs) = Done (Ok u, (c', cs')) →
  trusted (hashes cs) → trusted (hashes cs') ∧ ∀ n, (lo ≤ n ≤ hi)%Z → is_Some (hashes cs' !! n).
Proof.
  unfold with_hashes.
  pose proof (fetch_into_run lo hi (hashes cs) c) as Hrun. unfold run in Hrun.
  destruct (fetch_block_hashes_into lo hi (c, hashes cs)) as [[r [c1 h]]|]; [|done]. simpl.
  destruct Hrun as (_ & [_ Hnew] & Hall). intros [= -> <- <-] Ht. simpl. destruct u. split.
  - intros n x [?|[_ ?]]%Hnew; [by apply Ht|done].
  - intros n Hn. by apply elem_of_dom, Hall.
Qed.

Lemma with_delegates_hashes txs parent pre c cs pre' c' cs' :
  with_delegates txs parent pre (c, cs) = Done (Ok pre', (c', cs')) → hashes cs' = hashes cs.
Proof.
  unfold with_delegates. destruct (supplement_delegations_cached _ _ _) as [[r [c1 [p d]]]|]; [|done].
  simpl. by intros [= _ _ <-].
Qed.

Lemma zoom_Ok {X A} (m : M Client A) c (x : X) a c' x' : zoom m (c, x) = Done (Ok a, (c', x')) → x' = x.
Proof. unfold zoom. destruct (m c) as [[r c1]|]; [|done]. simpl. by intros [= _ _ <-]. Qed.

Lemma from_fixtures_hashes label bf txs pre b :
  from_fixtures label bf txs pre = Done b → mb_number b = bf_number bf ∧ im_block_hashes (mb_db b) = block_hashes bf.
Proof.
  unfold from_fixtures. rewrite outcome_bind_Done. intros (db & _ & Hb).
  rewrite outcome_bind_Done in Hb. destruct Hb as (spec & _ & Hb).
  rewrite outcome_bind_Done in Hb. destruct Hb as (cfg & _ & Hb). simplify_eq. done.
Qed.

Lemma block_from_rpc_number number chain_id spec block bf :
  block_from_rpc number chain_id spec block = Ok bf → bf_number bf = number.
Proof.
  unfold block_from_rpc. intros Hb.
  repeat match type of Hb with result_bind ?x _ = _ => destruct x; [|discriminate Hb]; cbn [result_bind] in Hb end.
  by simplify_eq.
Qed.

(** A built block: its hashes are the window of the fetched ones. *)
Lemma build_block_Ok number chain_id block c cs b c' cs' :
  build_block save number chain_id block (c, cs) = Done (Ok b, (c', cs')) →
  let '(lo, hi) := hash_window number in
  ∃ u c2 cs2, with_hashes (fetch_block_hashes_into lo hi) (c, cs) = Done (Ok u, (c2, cs2)) ∧
    mb_number b = number ∧ im_block_hashes (mb_db b) = filter (λ kv, (lo ≤ kv.1 ≤ hi)%Z) (hashes cs2) ∧
    hashes cs' = filter (λ kv, (lo ≤ kv.1)%Z) (hashes cs2).
Proof.
  unfold build_block. destruct (hash_window number) as [lo hi]. rewrite bind_Ok.
  intros (bf & s1 & [Hbf <-]%lift_string_Ok & Hb). apply block_from_rpc_number in Hbf.
  apply bind_Ok in Hb as (u & [c2 cs2] & Hh & Hb). exists u, c2, cs2. split; [done|].
  apply bind_Ok in Hb as (w & [c3 cs3] & [= <- <- <-] & Hb). apply bind_Ok in Hb as (txs & s4 & [_ <-]%lift_string_Ok & Hb).
  apply bind_Ok in Hb as (trace & [c5 cs5] & ->%zoom_Ok & Hb).
  destruct (accumulate_prestate ∅ trace txs) as [r pre]. apply bind_Ok in Hb as (u' & s6 & [_ <-]%lift_string_Ok & Hb).
  apply bind_Ok in Hb as (pre' & [c7 cs7] & Hd%with_delegates_hashes & Hb).
  apply bind_Ok in Hb as (u'' & s8 & [_ <-]%lift_string_Ok & Hb). unfold finish in Hb.
  apply outcome_bind_Done in Hb as (b' & [Hn Him]%from_fixtures_hashes & [= <- <- <-]).
  rewrite Hn, Him, Hd. done.
Qed.

(** A block built for replay answers BLOCKHASH like the chain: starting from a cache of
    hashes the node reported, the database of a built block returns, for each of the 256
    preceding blocks, a hash the node reported for exactly that block and never the fallback of the test
    database; the cache stays trusted and keeps nothing older than the window. *)
Theorem built_block_serves_ancestors number chain_id block c cs b c' cs' :
  build_block save number chain_id block (c, cs) = Done (Ok b, (c', cs')) → trusted (hashes cs) →
  mb_number b = number ∧
  (∀ n, (Z.max 0 (number - 256) ≤ n ≤ Z.max 0 (number - 1))%Z → ∃ h,
    block_hash_ref (mb_db b) n = (Ok h, mb_db b) ∧ answered n h) ∧
  trusted (hashes cs') ∧ ∀ n, is_Some (hashes cs' !! n) → (Z.max 0 (number - 256) ≤ n)%Z.
Proof.
  intros Hb Ht. destruct (build_block_Ok _ _ _ _ _ _ _ _ Hb) as (u & c2 & cs2 & Hh & Hn & Him & Hcs).
  destruct (fetch_hashes_Ok _ _ _ _ _ _ _ Hh Ht) as [Ht2 Hall]. rewrite Hcs. split_and!; [done|..].
  - intros n Hr. destruct (Hall n Hr) as [h Hh']. exists h. split; [|by apply Ht2].
    cbn. unfold im_block_hash_ref. rewrite Him. rewrite (proj2 (map_lookup_filter_Some _ _ n h)); done.
  - intros n h [Hh' _]%map_lookup_filter_Some. by apply Ht2.
  - by intros n [h [_ Hlo]%map_lookup_filter_Some].
Qed.

(** ** The prefetch loop *)

Lemma block_scan_spec remaining f bn head chain_id st :
  (0 ≤ bn)%Z → (head < U64_MAX)%Z → Z.to_nat (head - bn + 1) ≤ remaining →
  ∃ r, scan authority save remaining f bn head chain_id st = Some r ∧
    ∀ b st', r = Done (Ok (Some b), st') → (bn ≤ mb_number b ≤ head)%Z.
Proof.
  intros Hbn Hhead. revert bn st Hbn. induction remaining as [|remaining IH]; intros bn st Hbn Hr; cbn [scan].
  { destruct (Z.leb_spec bn head); [lia|]. by eexists. }
  destruct (Z.leb_spec bn head) as [Hle|]; [|by eexists].
  match goal with |- context [match ?m st with Done _ => _ | Panic => _ end] => destruct (m st) as [[r st1]|] eqn:Hm end;
    [|by eexists].
  destruct r as [[b|]|e]; [|  |by eexists].
  - eexists. split; [done|]. intros b' st' [= <- <-].
    apply bind_Ok in Hm as (block & [c1 cs1] & Hcall & Hm). destruct (is_null block); [done|].
    apply bind_Ok in Hm as (found & [c2 cs2] & _ & Hm). destruct found; [|done].
    apply bind_Ok in Hm as (b' & [c3 cs3] & Hb & [= -> <-]).
    apply build_block_Ok in Hb as (_ & _ & _ & _ & -> & _). done.
  - rewrite Z.mod_small by (unfold U64_MAX in *; lia). destruct (IH (bn + 1)%Z st1) as (r & Hs & Hb); [lia|lia|].
    exists r. split; [done|]. intros b st' Hr'. apply Hb in Hr'. lia.
Qed.

Definition ascending (l : list Z) : Prop := ∀ i j x y, i < j → l !! i = Some x → l !! j = Some y → (x < y)%Z.

Lemma ascending_snoc l x : ascending l → (∀ y, y ∈ l → (y < x)%Z) → ascending (l ++ [x]).
Proof.
  intros Hl Hx i j y z Hij Hi Hj. assert (j < length (l ++ [x])) by by eapply lookup_lt_Some.
  rewrite length_app in *. simpl in *. rewrite lookup_app_l in Hi by lia.
  destruct (decide (j < length l)).
  - rewrite lookup_app_l in Hj by done. exact (Hl i j y z Hij Hi Hj).
  - rewrite lookup_app_r in Hj by lia. assert (j - length l = 0) as Hz by lia. rewrite Hz in Hj. simplify_eq/=.
    eapply Hx, list_elem_of_lookup_2, Hi.
Qed.

(** The blocks sent so far lie below the next one to look at. *)
Definition sent_ok (start head : Z) (count : option nat) (sent : list MainnetBlock) : Prop :=
  ascending (mb_number <$> sent) ∧ (∀ b, b ∈ sent → (start ≤ mb_number b ≤ head)%Z) ∧
  ∀ n, count = Some n → length sent ≤ n.

Lemma fetch_loop_spec accepts fuel f count start from head chain_id sent st :
  (0 ≤ start ≤ from)%Z → (head < U64_MAX)%Z → Z.to_nat (head - from + 1) < fuel →
  sent_ok start head count sent → (∀ b, b ∈ sent → (mb_number b < from)%Z) →
  ∃ r, fetch_loop authority save accepts fuel f count from head chain_id (length sent) sent st = Some r ∧
    ∀ l st', r = Done (Ok l, st') → sent_ok start head count l.
Proof.
  intros Hs Hhead. revert from sent st Hs. induction fuel as [|fuel IH]; intros from sent st Hs Hf Hok Hbelow; [lia|].
  cbn [fetch_loop]. assert (Hstop : ∃ r, Some (Done (Ok sent, st)) = Some r ∧ ∀ l st', r = Done (Ok l : result RpcError _, st') → sent_ok start head count l).
  { eexists. split; [done|]. by intros l st' [= <- <-]. }
  destruct (fetch_done count (length sent)) eqn:Hdone; [done|].
  destruct (block_scan_spec (Z.to_nat (head - from + 1)) f from head chain_id st) as (r & Hr & Hb); [lia|done|lia|].
  unfold next_match. rewrite Hr. destruct r as [[[[b|]|e] st1]|]; [|by eexists; split; [done|intros l st' [= <- <-]]|by eexists..].
  specialize (Hb b st1 eq_refl). destruct (accepts (length sent)); [|by eexists; split; [done|intros l st' [= <- <-]]].
  rewrite Z.mod_small by (unfold U64_MAX in *; lia).
  replace (length sent + 1) with (length (sent ++ [b])) by (rewrite length_app; simpl; lia).
  apply IH; [lia|lia| |].
  - destruct Hok as (Hasc & Hin & Hlen). split_and!.
    + rewrite fmap_app. apply ascending_snoc; [done|]. intros y (b' & -> & Hb')%list_elem_of_fmap.
      specialize (Hbelow _ Hb'). lia.
    + intros b' [?|Hb'%list_elem_of_singleton]%elem_of_app; [auto|subst; lia].
    + intros n ->. rewrite length_app. simpl. unfold fetch_done in Hdone. apply Nat.leb_gt in Hdone. lia.
  - intros b' [Hb'|Hb'%list_elem_of_singleton]%elem_of_app; [specialize (Hbelow _ Hb'); lia|subst; lia].
Qed.

(** The prefetch loop of the replay tool ends: a scan from the start block to the head,
    whatever the node answers and whenever the consumer goes away, needs at most one round per
    block of the range, and the blocks it sends are distinct, in ascending order, inside the range and
    no more than the requested number. *)
Theorem prefetch_terminates accepts f count start head chain_id st :
  in_range U64_MAX start → (head < U64_MAX)%Z →
  ∃ r, fetch_loop authority save accepts (S (Z.to_nat (head - start + 1))) f count start head chain_id 0 [] st = Some r ∧
    ∀ l st', r = Done (Ok l, st') →
      ascending (mb_number <$> l) ∧ (∀ b, b ∈ l → (start ≤ mb_number b ≤ head)%Z) ∧ ∀ n, count = Some n → length l ≤ n.
Proof.
  intros [Hs _] Hhead. apply (fetch_loop_spec accepts _ f count start start head chain_id []); [lia|done|lia| |].
  - split_and!; [by intros ????|by intros b ?%elem_of_nil|]. intros. simpl. lia.
  - by intros b ?%elem_of_nil.
Qed.

End blocks.

(** ** Examples *)

Section examples.
#[local] Existing Instance tree_json.
#[local] Existing Instance tree_json_laws.
#[local] Existing Instance alloy_example.

(** One transaction whose root call makes a value transfer, a self transfer, and a delegate call
    that creates a contract. *)
Definition ex_frame (ty from to value : string) (children : list Value) : Value :=
  JObject [("type", JString ty); ("from", JString from); ("to", JString to); ("value", JString value); ("calls", JArray children)].
Definition ex_trace : Value :=
  JArray [JObject [("result", ex_frame "CALL" "0xaa" "0xbb" "0x10"
    [ex_frame "CALL" "0xbb" "0xcc" "0x1" [];
     ex_frame "CALL" "0xdd" "0xDD" "0x1" [];
     ex_frame "DELEGATECALL" "0xbb" "0xee" "0x0" [ex_frame "CREATE2" "0xee" "0xff" "0x0" []]])]].

Definition ex_candidates : gset Candidate := {[(0, 187%Z); (0, 238%Z)]}.

Lemma delegated_safety_candidates_exact_witness :
  delegated_safety_candidates ex_trace 1 = Some (Ok ex_candidates) ∧
  ∃ txs, as_array ex_trace = Some txs ∧ length txs = 1 ∧
    ∀ i a, (i, a) ∈ ex_candidates ↔ ∃ tx x, txs !! i = Some tx ∧ tc child (trace_root tx) x ∧ moves x a.
Proof.
  assert (Hc : delegated_safety_candidates ex_trace 1 = Some (Ok ex_candidates)).
  { assert (Hb : match delegated_safety_candidates ex_trace 1 with Some (Ok C) => bool_decide (C = ex_candidates) | _ => false end = true)
      by (vm_compute; reflexivity).
    destruct (delegated_safety_candidates ex_trace 1) as [[C|]|]; [|discriminate Hb..].
    apply bool_decide_eq_true in Hb. by rewrite Hb. }
  split; [exact Hc|]. destruct (delegated_safety_candidates_exact ex_trace 1) as (r & Hr & Hspec).
  apply Hspec. rewrite Hc in Hr. by injection Hr.
Defined.

(** A node that knows the hash of every block, has no code anywhere and traces nothing. *)
Definition node_item (item : Value) : option Value :=
  n ← get item "id" ≫= as_u64;
  Some (JObject [("id", JNumber n); ("result", JObject [("hash", JString (block_tag (n + 1000)))])]).
Definition ex_block : Value :=
  JObject [("miner", JString "0x7"); ("timestamp", JString "0x5"); ("gasLimit", JString "0x64");
           ("transactions", JArray [JObject [("from", JString "0x1"); ("to", JString "0x2"); ("nonce", JString "0x0");
             ("value", JString "0x3"); ("input", JString "0x0"); ("gas", JString "0x5208")]])].
Definition node_post (body : Value) (count : nat) : (Z + result unit (result unit Value)) * nat :=
  (inr (Ok (Ok match as_array body with
               | Some items => JArray (omap node_item items)
               | None =>
                 let result :=
                   if bool_decide (get_str body "method" = Some "eth_getBlockByNumber") then ex_block
                   else if bool_decide (get_str body "method" = Some "eth_chainId") then JString "0x1"
                   else JArray [JObject [("result", JObject [("0x1", JObject [("balance", JString "0x9")])])]] in
                 JObject [("result", result)]
               end)), S count).
#[local] Instance node_http : Http := {| Net := nat; HttpError := unit; post := node_post |}.
#[local] Instance specs_example : Specs := {|
  SpecId := string;
  spec_from_str s := if bool_decide (s ∈ hardforks) then Some s else None;
  MERGE := "Merge"
|}.

Definition ex_client : Client := @mkClient tree_json node_http (0 : nat) [].

Lemma built_block_serves_ancestors_witness :
  trusted (hashes Caches_default) ∧ ∃ b c' cs',
    build_block None 2 1 ex_block (ex_client, Caches_default) = Done (Ok b, (c', cs')) ∧
    ∀ n, (0 ≤ n ≤ 1)%Z → ∃ h, block_hash_ref (mb_db b) n = (Ok h, mb_db b) ∧ answered n h.
Proof.
  assert (Ht : trusted (hashes Caches_default)) by (by intros n h).
  split; [exact Ht|].
  assert (Hok : match build_block None 2 1 ex_block (ex_client, Caches_default) with Done (Ok _, _) => true | _ => false end = true)
    by (vm_compute; reflexivity).
  destruct (build_block None 2 1 ex_block (ex_client, Caches_default)) as [[[b|] [c' cs']]|] eqn:Hb; [|discriminate Hok..].
  exists b, c', cs'. split; [reflexivity|].
  exact (proj1 (proj2 (built_block_serves_ancestors None 2 1 ex_block _ _ _ _ _ Hb Ht))).
Defined.

Definition prefetch_example :=
  fetch_loop (λ _, None) None (λ _, true) (S (Z.to_nat (4 - 2 + 1))) FAll (Some 2) 2 4 1 0 [] (ex_client, Caches_default).

Lemma prefetch_terminates_witness :
  in_range U64_MAX 2 ∧ (4 < U64_MAX)%Z ∧
  match prefetch_example with
  | Some (Done (Ok l, _)) => bool_decide (mb_number <$> l = [2; 3]%Z)
  | _ => false
  end = true ∧
  ∃ r, prefetch_example = Some r ∧
    ∀ l st', r = Done (Ok l, st') →
      ascending (mb_number <$> l) ∧ (∀ b, b ∈ l → (2 ≤ mb_number b ≤ 4)%Z) ∧ ∀ n, Some 2 = Some n → length l ≤ n.
Proof.
  split; [done|]. split; [done|]. split; [vm_compute; reflexivity|].
  apply (prefetch_terminates (λ _, None) None (λ _, true) FAll (Some 2) 2 4 1 (ex_client, Caches_default)); done.
Defined.

End examples.
