(* ===== verification/ReplayMain.v ===== *)
(** The main program of the replay tool: [main] of src/src/bin/replay_mainnet.rs.

    The arguments and the environment; the fetcher thread, which sends blocks over a channel of
    capacity one; and the main thread, which replays what it receives, exits on the first
    failure and joins the fetcher at the end. The two threads are a step relation, in which the
    fetcher sends the blocks of [fetcher], its body, which ends whatever the node answers. The
    comparison of a block (src/src/test_utils/common/execute.rs, modelled over the scheduler's
    view of a transaction in Reference.v) is the parameter [compare]; printing and timing are
    left out. *)

From S2P Require Import Prelude Model Reward World Executor Collections Text MemoryDb Mainnet Rpc RpcProps ReplayTool ReplayToolProps.

Open Scope string_scope.
Open Scope list_scope.
Open Scope nat_scope.

(** ** Arguments and environment *)

Definition PECTRA_BLOCK : Z := 22431084.

Record ReplayArgs := mkReplayArgs {
  rpc_url : string;
  ra_filter : Filter;
  start_arg : option string;
  ra_count : option nat;
  save_dir : option string
}.

Inductive ArgError := UsageExit | BadFilter (e : FilterError) | BadCount (s : string) | BadStart (s : string).

Definition parse_args (args : list string) : result ArgError ReplayArgs :=
  match args !! 1 with
  | None => Err UsageExit
  | Some url =>
    match (match args !! 2 with Some s => filter_parse s | None => Ok FAll end) with
    | Err e => Err (BadFilter e)
    | Ok f =>
      let start := args !! 3 in
      match args !! 4 with
      | None => Ok (mkReplayArgs url f start None (args !! 5))
      | Some s =>
        match parse_usize s with
        | Some n => Ok (mkReplayArgs url f start (Some n) (args !! 5))
        | None => Err (BadCount s)
        end
      end
    end
  end.

Definition start_block (a : ReplayArgs) : result ArgError Z :=
  match start_arg a with
  | Some s => match parse_block_number s with Some n => Ok n | None => Err (BadStart s) end
  | None => Ok PECTRA_BLOCK
  end.

(** The variables the program sets when they are not set. *)
Definition replay_env (env : string → option string) (name : string) : option string :=
  match env name with
  | Some v => Some v
  | None =>
    if decide (name = "GREVM_MIN_PARALLEL_TXS") then Some "0"
    else if decide (name = "GREVM_PRINT_METRICS") then Some "1"
    else None
  end.

(** ** The fetcher thread *)

Section main.
Context {J : Json} {H : Http} `{!Alloy} `{!Specs} (authority : SignedAuthorization → option Address).
Context (save : option (BlockFixture → list TxFixture → gmap Address AccountFixture → result string unit)).

Inductive FetchEnd := FetchOk | FetchErr (e : RpcError) | FetchPanic.

(** The blocks that the loop sends while the channel is open, and how it ends. *)
Fixpoint fetch_trace (fuel : nat) (f : Filter) (count : option nat) (from head chain_id : Z) (produced : nat)
    (st : Client * Caches) : option (list MainnetBlock * FetchEnd) :=
  match fuel with
  | 0 => None
  | S fuel =>
    if fetch_done count produced then Some ([], FetchOk)
    else
      match next_match authority save f from head chain_id st with
      | None => None
      | Some Panic => Some ([], FetchPanic)
      | Some (Done (Err e, st)) => Some ([], FetchErr e)
      | Some (Done (Ok None, st)) => Some ([], FetchOk)
      | Some (Done (Ok (Some block), st)) =>
        let next := ((mb_number block + 1) mod 2 ^ 64)%Z in
        match fetch_trace fuel f count next head chain_id (produced + 1) st with
        | Some (l, e) => Some (block :: l, e)
        | None => None
        end
      end
  end.

(** The body of the thread, with a client of its own. *)
Definition fetcher (fuel : nat) (f : Filter) (count : option nat) (start head : Z) (rpc : Client) :
    option (list MainnetBlock * FetchEnd) :=
  match rpc_chain_id rpc with
  | Panic => Some ([], FetchPanic)
  | Done (Err e, _) => Some ([], FetchErr e)
  | Done (Ok chain_id, rpc) => fetch_trace fuel f count start head chain_id 0 (rpc, Caches_default)
  end.

(** The loop of ReplayTool.v with an open channel. *)
Lemma fetch_trace_loop fuel f count from head chain_id produced sent st :
  match fetch_trace fuel f count from head chain_id produced st with
  | None => fetch_loop authority save (λ _, true) fuel f count from head chain_id produced sent st = None
  | Some (l, FetchOk) => ∃ st', fetch_loop authority save (λ _, true) fuel f count from head chain_id produced sent st = Some (Done (Ok (sent ++ l), st'))
  | Some (_, FetchErr e) => ∃ st', fetch_loop authority save (λ _, true) fuel f count from head chain_id produced sent st = Some (Done (Err e, st'))
  | Some (_, FetchPanic) => fetch_loop authority save (λ _, true) fuel f count from head chain_id produced sent st = Some Panic
  end.
Proof.
  revert from produced sent st. induction fuel as [|fuel IH]; intros from produced sent st; simpl; [done|].
  destruct (fetch_done count produced); [rewrite app_nil_r; eauto|].
  destruct (next_match authority save f from head chain_id st) as [[[[[block|]|e] st1]|]|]; [|rewrite app_nil_r; eauto|eauto..].
  specialize (IH ((mb_number block + 1) mod 2 ^ 64)%Z (produced + 1) (sent ++ [block]) st1).
  destruct (fetch_trace fuel f count _ head chain_id (produced + 1) st1) as [[l []]|]; [|done..].
  destruct IH as [st' IH]. exists st'. rewrite IH. by rewrite <-app_assoc.
Qed.

(** The loop ends, with at most one block per number of the range and no more than asked for. *)
Lemma fetch_trace_ends fuel f count from head chain_id produced st :
  (0 ≤ from)%Z → (head < U64_MAX)%Z → Z.to_nat (head - from + 1) < fuel →
  ∃ l e, fetch_trace fuel f count from head chain_id produced st = Some (l, e) ∧
    length l ≤ Z.to_nat (head - from + 1) ∧ ∀ n, count = Some n → length l ≤ n - produced.
Proof.
  intros Hfrom Hhead. revert from produced st Hfrom.
  induction fuel as [|fuel IH]; intros from produced st Hfrom Hf; [lia|]. cbn [fetch_trace].
  assert (Hstop : ∀ e : FetchEnd, ∃ l e', Some ([] : list MainnetBlock, e) = Some (l, e') ∧
    length l ≤ Z.to_nat (head - from + 1) ∧ ∀ n, count = Some n → length l ≤ n - produced).
  { intros e. exists [], e. split_and!; [done|simpl; lia|]. intros. simpl. lia. }
  destruct (fetch_done count produced) eqn:Hdone; [apply Hstop|].
  destruct (block_scan_spec authority save (Z.to_nat (head - from + 1)) f from head chain_id st) as (r & Hr & Hb); [lia|done|lia|].
  unfold next_match. rewrite Hr. destruct r as [[[[b|]|e] st1]|]; [|apply Hstop..].
  specialize (Hb b st1 eq_refl). rewrite Z.mod_small by (unfold U64_MAX in *; lia).
  destruct (IH (mb_number b + 1)%Z (produced + 1) st1) as (l & e & -> & Hl & Hc); [lia|lia|].
  exists (b :: l), e. split_and!; [done|simpl; lia|]. intros n Hn. specialize (Hc n Hn).
  rewrite Hn in Hdone. unfold fetch_done in Hdone. apply Nat.leb_gt in Hdone. simpl. lia.
Qed.

(** The thread ends, whatever the node answers. *)
Lemma fetcher_ends f count start head rpc :
  (0 ≤ start)%Z → (head < U64_MAX)%Z →
  ∃ l e, fetcher (S (Z.to_nat (head - start + 1))) f count start head rpc = Some (l, e) ∧
    length l ≤ Z.to_nat (head - start + 1) ∧ ∀ n, count = Some n → length l ≤ n.
Proof.
  intros Hs Hh. unfold fetcher.
  assert (Hstop : ∀ e : FetchEnd, ∃ l e', Some ([] : list MainnetBlock, e) = Some (l, e') ∧
    length l ≤ Z.to_nat (head - start + 1) ∧ ∀ n, count = Some n → length l ≤ n).
  { intros e. exists [], e. split_and!; [done|simpl; lia|]. intros. simpl. lia. }
  destruct (rpc_chain_id rpc) as [[[chain_id|e] rpc']|]; [|apply Hstop..].
  destruct (fetch_trace_ends (S (Z.to_nat (head - start + 1))) f count start head chain_id 0 (rpc', Caches_default))
    as (l & e & Hl & Hlen & Hc); [lia|done|lia|]. exists l, e. split_and!; [done|done|]. intros n Hn. specialize (Hc n Hn). lia.
Qed.

(** What joining the thread gives: [None] when it panicked. *)
Definition thread_result (e : FetchEnd) : option (result RpcError unit) :=
  match e with FetchOk => Some (Ok tt) | FetchErr e => Some (Err e) | FetchPanic => None end.

End main.

(** ** The two threads *)

Section threads.
Context {B RpcErr : Type} (compare : B → outcome unit).

(** What the fetcher will do: the blocks it sends, and the result of the thread; [None] when it
    panics. *)
Context (blocks : list B) (fetched : option (result RpcErr unit)).

(** How the process ends. *)
Inductive Verdict := AllPassed (replayed : nat) | FailedAt (replayed : nat) (b : B) | FetchFailed (e : RpcErr) | FetcherPanicked.

(** The main thread: waiting for a block, replaying one, joining the fetcher, exited. *)
Inductive MainPc := Receiving (replayed : nat) | Replaying (replayed : nat) (b : B) | Joining (replayed : nat) | Exited (v : Verdict).

Record ReplaySys := mkReplaySys {
  unsent : list B;
  fetcher_done : bool;
  channel : option B;
  main_pc : MainPc
}.
Definition replay_init : ReplaySys := mkReplaySys blocks false None (Receiving 0).

Definition alive (p : MainPc) : Prop := match p with Exited _ => False | _ => True end.

(** [catch_unwind] of the comparison. *)
Definition replay_block (replayed : nat) (b : B) : MainPc :=
  match compare b with Done _ => Receiving (S replayed) | Panic => Exited (FailedAt replayed b) end.

(** [fetcher.join()]. *)
Definition join_fetcher (replayed : nat) : Verdict :=
  match fetched with
  | None => FetcherPanicked
  | Some (Err e) => FetchFailed e
  | Some (Ok _) => AllPassed replayed
  end.

Inductive replay_step : ReplaySys → ReplaySys → Prop :=
| rp_send b l p : alive p → replay_step (mkReplaySys (b :: l) false None p) (mkReplaySys l false (Some b) p)
| rp_end ch p : alive p → replay_step (mkReplaySys [] false ch p) (mkReplaySys [] true ch p)
| rp_receive l d b n : replay_step (mkReplaySys l d (Some b) (Receiving n)) (mkReplaySys l d None (Replaying n b))
| rp_closed l n : replay_step (mkReplaySys l true None (Receiving n)) (mkReplaySys l true None (Joining n))
| rp_replay l d ch n b : replay_step (mkReplaySys l d ch (Replaying n b)) (mkReplaySys l d ch (replay_block n b))
| rp_join l ch n : replay_step (mkReplaySys l true ch (Joining n)) (mkReplaySys l true ch (Exited (join_fetcher n))).

(** ** What the program reports *)

Definition passes (b : B) : bool := match compare b with Done _ => true | Panic => false end.

(** The verdict of the blocks in order: the first whose comparison fails, after the ones before
    it passed; when all pass, the panic or the error of the fetcher, or the number of blocks. *)
Definition verdict : Verdict :=
  match list_find (λ b, passes b = false) blocks with
  | Some (replayed, b) => FailedAt replayed b
  | None =>
    match fetched with
    | None => FetcherPanicked
    | Some (Err e) => FetchFailed e
    | Some (Ok _) => AllPassed (length blocks)
    end
  end.

(** The same, one block after the other, from a number of blocks that passed. *)
Fixpoint expected (replayed : nat) (l : list B) : Verdict :=
  match l with
  | [] => join_fetcher replayed
  | b :: l => if passes b then expected (S replayed) l else FailedAt replayed b
  end.

Lemma expected_find n l :
  expected n l =
  match list_find (λ b, passes b = false) l with
  | Some (i, b) => FailedAt (n + i) b
  | None => join_fetcher (n + length l)
  end.
Proof.
  revert n. induction l as [|b l IH]; intros n; simpl; [by rewrite Nat.add_0_r|].
  destruct (passes b) eqn:Hp; simpl; [|by rewrite Nat.add_0_r].
  rewrite IH. destruct (list_find _ l) as [[i b']|]; simpl; f_equal; lia.
Qed.

Lemma expected_verdict : expected 0 blocks = verdict.
Proof. rewrite expected_find. unfold verdict, join_fetcher. by destruct (list_find _ blocks) as [[i b]|]. Qed.

(** What is left to replay. *)
Definition in_flight (x : ReplaySys) : list B := option_list (channel x) ++ unsent x.

Definition on_track (x : ReplaySys) : Prop :=
  (fetcher_done x = true → unsent x = []) ∧
  match main_pc x with
  | Receiving n => expected n (in_flight x) = expected 0 blocks
  | Replaying n b => expected n (b :: in_flight x) = expected 0 blocks
  | Joining n => fetcher_done x = true ∧ channel x = None ∧ join_fetcher n = expected 0 blocks
  | Exited v => v = expected 0 blocks
  end.

Lemma on_track_step x y : replay_step x y → on_track x → on_track y.
Proof.
  intros Hs [Hd Ht]. destruct Hs as [b l p Hp|ch p Hp|l d b n|l n|l d ch n b|l ch n]; unfold on_track, in_flight in *; simpl in *.
  - split; [done|]. destruct p; simpl in *; try done. by destruct Ht.
  - split; [done|]. destruct p; simpl in *; try done. by destruct Ht.
  - done.
  - split; [done|]. rewrite (Hd eq_refl) in Ht. done.
  - split; [done|]. unfold replay_block, passes in *. by destruct (compare b).
  - destruct Ht as (_ & _ & Ht). done.
Qed.

(** Every step consumes. *)
Definition pc_work (p : MainPc) : nat :=
  match p with Receiving _ => 2 | Replaying _ _ => 3 | Joining _ => 1 | Exited _ => 0 end.
Definition work (x : ReplaySys) : nat :=
  3 * length (unsent x) + 2 * length (option_list (channel x)) + (if fetcher_done x then 0 else 1) + pc_work (main_pc x).

Lemma work_step x y : replay_step x y → work y < work x.
Proof.
  intros Hs. destruct Hs as [b l p Hp|ch p Hp|l d b n|l n|l d ch n b|l ch n]; unfold work; simpl; try lia.
  - unfold replay_block. destruct (compare b); simpl; lia.
Qed.

Lemma replay_progress x : on_track x → (∃ v, main_pc x = Exited v) ∨ ∃ y, replay_step x y.
Proof.
  destruct x as [l d ch p]. intros [Hd Ht]. simpl in *. destruct p as [n|n b|n|v]; [|right; eexists; constructor| |left; eauto].
  - right. destruct ch as [b|]; [eexists; constructor|]. destruct d; [eexists; constructor|].
    destruct l; eexists; by constructor.
  - destruct Ht as (-> & _). right. eexists. constructor.
Qed.

(** Every run is finite, stops only when the process has exited, and then has the verdict. *)
Lemma threads_verdict x n :
  nsteps replay_step n replay_init x →
  n ≤ 3 * length blocks + 3 ∧
  ((∃ y, replay_step x y) ∨ main_pc x = Exited verdict).
Proof.
  intros Hn.
  assert (Hgen : ∀ n a b, nsteps replay_step n a b → on_track a → on_track b ∧ n + work b ≤ work a).
  { clear. intros n a b. induction 1 as [a|n a b c Hab Hbc IH]; intros Ha; [split; [done|lia]|].
    destruct (IH (on_track_step _ _ Hab Ha)) as [Hc Hw]. apply work_step in Hab. split; [done|lia]. }
  destruct (Hgen _ _ _ Hn) as [Hx Hw]; [by split|]. split; [unfold work in Hw; simpl in Hw; lia|].
  destruct (replay_progress _ Hx) as [[v Hv]|Hs]; [right|by left]. destruct Hx as [_ Hx]. rewrite Hv in Hx.
  by rewrite Hv, Hx, expected_verdict.
Qed.

End threads.

(** ** The program *)

Section program.
Context {J : Json} {H : Http} `{!Alloy} `{!Specs} (authority : SignedAuthorization → option Address).
Context (save : option (BlockFixture → list TxFixture → gmap Address AccountFixture → result string unit)).

(** C37. The replay tool ends, and its verdict does not depend on how its threads interleave.
    Whatever the node answers, the fetcher of a start block and a head below the last number
    sends finitely many blocks, at most one per number of the range and no more than asked for,
    and ends with a result, an error or a panic. Every run of the fetcher and the main thread is then finite (at most
    three steps per block and three more) and stops only when the process has exited, with the
    verdict of the fetched blocks in order: failure at the first block whose comparison fails,
    with the number of blocks that passed before it; when all pass, the panic or the error of
    the fetcher, and success with the number of blocks only when the fetcher ended well. *)
Theorem replay_verdict (compare : MainnetBlock → outcome unit) f count start head rpc :
  (0 ≤ start)%Z → (head < U64_MAX)%Z →
  ∃ blocks fin, fetcher authority save (S (Z.to_nat (head - start + 1))) f count start head rpc = Some (blocks, fin) ∧
    length blocks ≤ Z.to_nat (head - start + 1) ∧ (∀ n, count = Some n → length blocks ≤ n) ∧
    ∀ x n, nsteps (replay_step compare (thread_result fin)) n (replay_init blocks) x →
      n ≤ 3 * length blocks + 3 ∧
      ((∃ y, replay_step compare (thread_result fin) x y) ∨ main_pc x = Exited (verdict compare blocks (thread_result fin))).
Proof.
  intros Hs Hh. destruct (fetcher_ends authority save f count start head rpc Hs Hh) as (blocks & fin & Hf & Hl & Hc).
  exists blocks, fin. split_and!; [done..|]. intros x n. apply threads_verdict.
Qed.

End program.

(** ** Example *)

Section examples.
#[local] Existing Instance tree_json.
#[local] Existing Instance alloy_example.
#[local] Existing Instance node_http.
#[local] Existing Instance specs_example.

(** Two blocks are fetched from the example node; the comparison fails on number 3. *)
Definition rv_compare (b : MainnetBlock) : outcome unit := if decide (mb_number b = 3%Z) then Panic else Done tt.

Definition rv_fetcher := fetcher (λ _, None) None (S (Z.to_nat (4 - 2 + 1))) FAll (Some 2) 2 4 ex_client.

Lemma replay_verdict_witness : ∃ blocks fin x v,
  rv_fetcher = Some (blocks, fin) ∧ (mb_number <$> blocks) = [2; 3]%Z ∧
  rtc (replay_step rv_compare (thread_result fin)) (replay_init blocks) x ∧
  main_pc x = Exited (FailedAt 1 v) ∧ mb_number v = 3%Z.
Proof.
  destruct (replay_verdict (λ _, None) None rv_compare FAll (Some 2) 2 4 ex_client) as (blocks & fin & Hf & _ & _ & Hrun);
    [done|done|].
  assert (Hb : match rv_fetcher with Some (l, _) => bool_decide (mb_number <$> l = [2; 3]%Z) | None => false end = true)
    by (vm_compute; reflexivity).
  unfold rv_fetcher in *. rewrite Hf in Hb. apply bool_decide_eq_true in Hb.
  destruct blocks as [|b2 [|b3 [|]]]; [done|done| |done]. simpl in Hb.
  assert (H2 : mb_number b2 = 2%Z) by congruence. assert (H3 : mb_number b3 = 3%Z) by congruence.
  assert (P2 : rv_compare b2 = Done tt) by (unfold rv_compare; by rewrite H2).
  assert (P3 : rv_compare b3 = Panic) by (unfold rv_compare; by rewrite H3).
  assert (Hr : nsteps (replay_step rv_compare (thread_result fin)) 6 (replay_init [b2; b3])
    (mkReplaySys [] false None (Exited (FailedAt 1 b3)))).
  { eapply nsteps_l; [by apply rp_send|]. eapply nsteps_l; [apply rp_receive|]. eapply nsteps_l; [by apply rp_send|].
    eapply nsteps_l; [apply rp_replay|]. unfold replay_block at 1. rewrite P2.
    eapply nsteps_l; [apply rp_receive|]. eapply nsteps_l; [apply rp_replay|]. unfold replay_block at 1. rewrite P3. apply nsteps_O. }
  destruct (Hrun _ _ Hr) as [_ [[y Hy]|Hv]]; [exfalso; clear Hrun Hf Hr; inversion Hy; done|].
  exists [b2; b3], fin, (mkReplaySys [] false None (Exited (FailedAt 1 b3))), b3.
  split_and!; [exact Hf|simpl; by rewrite H2, H3|by eapply rtc_nsteps_2|exact eq_refl|exact H3].
Defined.
End examples.
