(* ===== verification/FetchTools.v ===== *)
(** The fixture fetchers: src/src/bin/fetch_block.rs and src/src/bin/fetch_continuous.rs.

    The arguments of the two programs and their bodies. Writing the fixture is the
    parameter [write]; the filter of merged transactions (src/src/test_utils/common/execute.rs, modelled over the
    scheduler's view of a transaction in Reference.v) is the parameter [filter_txs]. *)

From S2P Require Import Prelude Model Collections Text MemoryDb Mainnet Rpc RpcProps ReplayTool ReplayToolProps FixtureFiles.
From stdpp Require Import sorting.
From Stdlib Require Import Ascii.

Open Scope string_scope.
Open Scope list_scope.
Open Scope nat_scope.

(** ** Arguments *)

(** [PathBuf::from]: the components between slashes. *)
Fixpoint path_loop (s acc : string) : list string :=
  match s with
  | EmptyString => if decide (acc = "") then [] else [acc]
  | String c s =>
    if decide (c = "/"%char) then (if decide (acc = "") then [] else [acc]) ++ path_loop s ""
    else path_loop s (acc +:+ String c "")
  end.
Definition path_from (s : string) : list string := path_loop s "".

Record FetchBlockArgs := mkFetchBlockArgs {
  fb_number : Z; fb_url : string; fb_spec : option string; fb_out_dir : list string
}.

(** [None] is the usage message and exit status 1. *)
Definition fetch_block_args (env : string → option (list string)) (args : list string) : option (result string FetchBlockArgs) :=
  match args !! 1, args !! 2 with
  | Some number, Some url =>
    Some (match parse_block_number number with
          | None => Err "invalid number"
          | Some n =>
            let out_dir := match args !! 4 with Some d => path_from d | None => mainnet_blocks_root env end in
            Ok (mkFetchBlockArgs n url (args !! 3) out_dir)
          end)
  | _, _ => None
  end.

Record FetchContinuousArgs := mkFetchContinuousArgs { fc_start : Z; fc_count : Z; fc_url : string; fc_out_dir : list string }.

Definition fetch_continuous_args (env : string → option (list string)) (args : list string) :
    option (result string FetchContinuousArgs) :=
  match args !! 1, args !! 2, args !! 3 with
  | Some start, Some count, Some url =>
    Some (match parse_block_number start, from_str_radix 10 U64_MAX count with
          | Some start, Some count =>
            if decide (count = 0%Z) then Err "count must be >= 1"
            else
              let out_dir := match args !! 4 with Some d => path_from d | None => continuous_blocks_root env end in
              Ok (mkFetchContinuousArgs start count url out_dir)
          | _, _ => Err "invalid number"
          end)
  | _, _, _ => None
  end.

(** Accepted arguments are the ones asked for: 64-bit numbers, at least one block. *)
Lemma fetch_continuous_args_exact env args a :
  fetch_continuous_args env args = Some (Ok a) →
  args !! 3 = Some (fc_url a) ∧ in_range U64_MAX (fc_count a) ∧ (0 < fc_count a)%Z ∧
  fc_out_dir a = match args !! 4 with Some d => path_from d | None => continuous_blocks_root env end.
Proof.
  unfold fetch_continuous_args. destruct (args !! 1) as [start|], (args !! 2) as [count|], (args !! 3) as [url|]; try done.
  destruct (parse_block_number start); [|done]. destruct (from_str_radix 10 U64_MAX count) as [n|] eqn:Hn; [|done].
  case_decide; [done|]. intros [= <-]. simpl. apply from_str_radix_range in Hn; [|lia]. unfold in_range, U64_MAX in *. split_and!; try done; lia.
Qed.

Section fetchers.
Context {J : Json} {H : Http} `{!Alloy} `{!Specs}.
Context (write : BlockFixture → list TxFixture → gmap Address AccountFixture → result string unit).

(** The hardfork by the number and the timestamp field of a block. *)
Definition inferred_spec (number : Z) (block : Value) : string :=
  let ts := default "0x0" (get_str block "timestamp") in
  spec_for_mainnet_block number (default 0%Z (from_str_radix 16 U64_MAX (trim_start_matches "0x" ts))).

Definition block_txs (block : Value) : result string (list TxFixture) :=
  match get_array block "transactions" with Some v => collect tx_from_rpc v | None => Ok [] end.

Definition prestate_trace (number : Z) : M Client Value :=
  call "debug_traceBlockByNumber" (JArray [JString (block_tag number); JObject [("tracer", JString "prestateTracer")]]).

(** Supplement a local prestate. *)
Definition supplemented_prestate (txs : list TxFixture) (at_block : string) (pre_state : gmap Address AccountFixture) :
    M Client (gmap Address AccountFixture) := λ c,
  let! (r, (c, pre_state)) := supplement_delegations txs at_block (c, pre_state) in
  Done (result_map (λ _, pre_state) r, c).

(** ** fetch_block *)

Definition fetch_block (block_number : Z) (spec_override : option string) : M Client unit :=
  chain_id ← rpc_chain_id;
  block ← call "eth_getBlockByNumber" (JArray [JString (block_tag block_number); JBool true]);
  if is_null block then raise (OtherError ("block " +:+ block_tag block_number +:+ " not found"))
  else
    let spec_id := match spec_override with Some s => s | None => inferred_spec block_number block end in
    block_fixture ← lift_string (block_from_rpc block_number chain_id spec_id block);
    hashes ← fetch_block_hashes (saturating_sub block_number 256) (saturating_sub block_number 1);
    let block_fixture := set_block_hashes hashes block_fixture in
    txs ← lift_string (block_txs block);
    trace ← prestate_trace block_number;
    let '(r, pre_state) := accumulate_prestate ∅ trace txs in
    _ ← lift_string r;
    pre_state ← supplemented_prestate txs (block_tag (saturating_sub block_number 1)) pre_state;
    lift_string (write block_fixture txs pre_state).

(** ** fetch_continuous *)

(** The locals of the loop over the blocks. *)
Record Merged := mkMerged {
  all_txs : list TxFixture;
  mg_pre_state : gmap Address AccountFixture;
  env_block : option BlockFixture
}.

(** The environment of a merged block is the first one with the lowest base fee. *)
Definition lower_env (env : option BlockFixture) (bf : BlockFixture) : option BlockFixture :=
  match env with
  | None => Some bf
  | Some m => if (basefee bf <? basefee m)%Z then Some bf else Some m
  end.

Definition merge_block (chain_id bn : Z) (m : Merged) : M Client Merged :=
  block ← call "eth_getBlockByNumber" (JArray [JString (block_tag bn); JBool true]);
  if is_null block then raise (OtherError ("block " +:+ block_tag bn +:+ " not found"))
  else
    bf ← lift_string (block_from_rpc bn chain_id (inferred_spec bn block) block);
    txs ← lift_string (block_txs block);
    trace ← prestate_trace bn;
    let '(r, pre_state) := accumulate_prestate (mg_pre_state m) trace txs in
    _ ← lift_string r;
    mret (mkMerged (all_txs m ++ txs) pre_state (lower_env (env_block m) bf)).

Fixpoint merge_blocks (chain_id : Z) (range : list Z) (m : Merged) : M Client Merged :=
  match range with
  | [] => mret m
  | bn :: range => m ← merge_block chain_id bn m; merge_blocks chain_id range m
  end.

(** [all_txs[i].clone()] for every kept index. *)
Fixpoint select_txs (txs : list TxFixture) (kept : list nat) : outcome (list TxFixture) :=
  match kept with
  | [] => Done []
  | i :: kept => let! tx := index txs i in let! rest := select_txs txs kept in Done (tx :: rest)
  end.

Context (filter_txs : InMemoryDB → CfgEnv → BlockEnv → list FullTxEnv → Z → list nat).

(** Drop what cannot execute under the merged environment. *)
Definition filtered_txs (env : BlockFixture) (txs : list TxFixture) (pre_state : gmap Address AccountFixture) :
    outcome (list TxFixture) :=
  let! db := pre_state_to_db pre_state in
  let db := mkInMemoryDB (im_accounts db) (im_bytecodes db) (block_hashes env) (latency_us db) in
  let! cfg := to_cfg env in
  select_txs txs (filter_txs db cfg (to_block_env env) (to_tx_env <$> txs) U64_MAX).

Definition write_filtered (env : BlockFixture) (txs : list TxFixture) (pre_state : gmap Address AccountFixture) : M Client unit := λ c,
  let! filtered := filtered_txs env txs pre_state in lift_string (write env filtered pre_state) c.

Definition fetch_continuous (start count : Z) : M Client unit :=
  if bool_decide (count = 0%Z) then raise (OtherError "count must be >= 1")
  else
    let end_ := ((start + count - 1) mod 2 ^ 64)%Z in
    chain_id ← rpc_chain_id;
    m ← merge_blocks chain_id (range_inclusive start end_) (mkMerged [] ∅ None);
    match env_block m with
    | None => unreachable
    | Some env =>
      hashes ← fetch_block_hashes (saturating_sub (bf_number env) 256) (saturating_sub (bf_number env) 1);
      let env := set_block_hashes hashes env in
      pre_state ← supplemented_prestate (all_txs m) (block_tag (saturating_sub start 1)) (mg_pre_state m);
      write_filtered env (all_txs m) pre_state
    end.

(** ** Properties *)

(** Every block of the range contributes its transactions in order, and the shared environment
    is a block of the range with the lowest base fee. *)
Lemma merge_blocks_Ok chain_id range m c m' c' :
  merge_blocks chain_id range m c = Done (Ok m', c') →
  ∃ fetched : list (BlockFixture * list TxFixture),
    (bf_number ∘ fst) <$> fetched = range ∧
    all_txs m' = all_txs m ++ concat (fetched.*2) ∧
    env_block m' = foldl lower_env (env_block m) (fetched.*1).
Proof.
  revert m c. induction range as [|bn range IH]; intros m c; cbn [merge_blocks].
  { intros [= <- <-]. exists []. simpl. by rewrite app_nil_r. }
  intros (m1 & c1 & Hm1 & (fetched & Hn & Ht & He)%IH)%bind_Ok. unfold merge_block in Hm1.
  apply bind_Ok in Hm1 as (block & c2 & _ & Hm1). destruct (is_null block); [done|].
  apply bind_Ok in Hm1 as (bf & c3 & [Hbf _]%lift_string_Ok & Hm1). apply block_from_rpc_number in Hbf.
  apply bind_Ok in Hm1 as (txs & c4 & _ & Hm1). apply bind_Ok in Hm1 as (trace & c5 & _ & Hm1).
  destruct (accumulate_prestate (mg_pre_state m) trace txs) as [r pre].
  apply bind_Ok in Hm1 as (u & c6 & _ & [= <- <-]). simpl in *.
  exists ((bf, txs) :: fetched). simpl. rewrite Ht, He, <-app_assoc. split_and!; [by f_equal|done|done].
Qed.

Lemma lower_env_min fixtures env :
  ∀ m, foldl lower_env env fixtures = Some m →
  (env = Some m ∨ m ∈ fixtures) ∧ (∀ e, env = Some e → (basefee m ≤ basefee e)%Z) ∧ ∀ b, b ∈ fixtures → (basefee m ≤ basefee b)%Z.
Proof.
  revert env. induction fixtures as [|b fixtures IH]; intros env m; simpl.
  { intros ->. split; [by left|]. split; [by intros e [= <-]|by intros b ?%elem_of_nil]. }
  intros (Hin & Hle & Hall)%IH.
  assert (Hstep : ∃ e, lower_env env b = Some e ∧ (e = b ∨ env = Some e) ∧ (basefee e ≤ basefee b)%Z ∧
    ∀ e', env = Some e' → (basefee e ≤ basefee e')%Z).
  { destruct env as [e|]; simpl.
    - destruct (Z.ltb_spec (basefee b) (basefee e)); eexists; split_and!; [done|auto|lia|intros ? [= <-]; lia|done|auto|lia|intros ? [= <-]; lia].
    - eexists. split_and!; [done|auto|lia|done]. }
  destruct Hstep as (e & Hl & Hsrc & Hb & Henv). specialize (Hle e Hl). split_and!.
  - destruct Hin as [Hin|Hin]; [|right; by right]. rewrite Hl in Hin. injection Hin as ->.
    destruct Hsrc as [->|?]; [right; by left|by left].
  - intros e' He'. specialize (Henv e' He'). lia.
  - intros b' [->|?]%elem_of_cons; [lia|auto].
Qed.

Lemma merged_environment_lowest chain_id range c m' c' env :
  merge_blocks chain_id range (mkMerged [] ∅ None) c = Done (Ok m', c') → env_block m' = Some env →
  bf_number env ∈ range ∧ ∃ fetched : list (BlockFixture * list TxFixture),
    (bf_number ∘ fst) <$> fetched = range ∧ all_txs m' = concat (fetched.*2) ∧
    ∀ b, b ∈ fetched.*1 → (basefee env ≤ basefee b)%Z.
Proof.
  intros (fetched & Hn & Ht & He)%merge_blocks_Ok Henv. simpl in *. rewrite Henv in He. symmetry in He.
  destruct (lower_env_min _ _ _ He) as ([?|Hin] & _ & Hall); [done|]. split; [|by exists fetched].
  rewrite <-Hn. apply list_elem_of_fmap in Hin as (p & -> & Hp). apply list_elem_of_fmap. by exists p.
Qed.

(** A fetched range is never empty, so the shared environment exists. *)
Lemma merged_environment_exists chain_id bn range c m' c' :
  merge_blocks chain_id (bn :: range) (mkMerged [] ∅ None) c = Done (Ok m', c') → is_Some (env_block m').
Proof.
  intros (fetched & Hn & _ & He)%merge_blocks_Ok. rewrite He. simpl. destruct fetched as [|[b t] fetched]; [done|]. simpl.
  assert (Hgen : ∀ l e, is_Some (foldl lower_env (Some e) l)).
  { intros l. induction l as [|x l IH]; intros e; simpl; [done|]. destruct (basefee x <? basefee e)%Z; apply IH. }
  apply Hgen.
Qed.

End fetchers.
