(* ===== verification/Reference.v ===== *)
(** The sequential reference and the comparisons of the test harness:
    src/src/test_utils/common/execute.rs.

    revm's own [State] and its [EthEvm] are the class [RevmState]. The theorems show that the
    reference that skips invalid transactions and the crate's sequential replay agree, that the
    filtered transactions of a merged block all execute, and what an accepted comparison means. *)

From S2P Require Import Prelude Model Reward World IncarnationDb ParallelState CacheView Bundle OrderedCommit Metrics Scheduler Control Reserve Executor Collections Erc20.
From stdpp Require Import sorting pretty.

(** revm's state over a backing database, under a fixed configuration and block environment. *)
Class RevmState `{!Revm} `{!RevmDb} (DB E : Type) := {
  St : Type;
  StError : Type;
  st_build : DB → St;
  transact_raw : TxEnv → St → result (EVMError StError) (ExecutionResult * EvmState) * St;
  st_basic : Address → St → result StError (option AccountInfo) * St;
  st_commit : EvmState → St → St;
  st_merge_transitions : BundleRetention → St → St;
  st_take_bundle : St → BundleState * St;
  into_external_error : StError → E;
  tx_gas_used : ExecutionResult → Z
}.

(** The fields of a bundle account that the comparison reads, and revm's equality of reverts. *)
Class BundleFields `{!RevmDb} := {
  ba_info : BundleAccount → option AccountInfo;
  ba_original_info : BundleAccount → option AccountInfo;
  ba_status : BundleAccount → AccountStatus;
  ba_storage : BundleAccount → gmap U256 EvmStorageSlot;
  revert_eqv : relation AccountRevert;
  revert_eqv_dec :: RelDecision revert_eqv
}.

Section reference.
Context `{!Revm} `{!RevmDb} {DB E : Type} `{!DatabaseRef DB E} `{!RevmState DB E}.

(** ** Sequential references *)

Definition external (e : EVMError StError) : EVMError E :=
  match e with
  | Transaction t => Transaction t
  | Database inner => Database (into_external_error inner)
  | Custom s => Custom s
  | OtherEVMError code => OtherEVMError code
  end.

Fixpoint sequential_loop (txs : list TxEnv) (results : list ExecutionResult) (st : St) :
    result (EVMError E) (list ExecutionResult * St) :=
  match txs with
  | [] => Ok (results, st)
  | tx :: txs =>
    match transact_raw tx st with
    | (Err e, _) => Err (external e)
    | (Ok (r, changes), st) => sequential_loop txs (results ++ [r]) (st_commit changes st)
    end
  end.

Definition finish_bundle (st : St) : BundleState := (st_take_bundle (st_merge_transitions Reverts st)).1.

Definition execute_revm_sequential (db : DB) (txs : list TxEnv) : result (EVMError E) (list ExecutionResult * BundleState) :=
  let? (results, st) := sequential_loop txs [] (st_build db) in
  Ok (results, finish_bundle st).

(** One transaction of the reference that skips invalid ones: an outcome, or a fatal error. *)
Definition skipping_step (disable_nonce_check : bool) (tx : TxEnv) (st : St) :
    result (EVMError E) TxExecutionOutcome * St :=
  let transact (st : St) :=
    match transact_raw tx st with
    | (Ok (r, changes), st) => (Ok (ExecutedOutcome r), st_commit changes st)
    | (Err (Transaction e), st) => (Ok (Skipped e), st)
    | (Err e, st) => (Err (external e), st)
    end in
  if negb disable_nonce_check && bool_decide (tx_nonce tx = U64_MAX) then
    match st_basic (caller tx) st with
    | (Err e, st) => (Err (Database (into_external_error e)), st)
    | (Ok info, st) =>
      let state_nonce := match info with Some i => nonce i | None => 0%Z end in
      if bool_decide (state_nonce = U64_MAX) then (Ok (Skipped NonceOverflowInTransaction), st) else transact st
    end
  else transact st.

Fixpoint skipping_loop (disable_nonce_check : bool) (txs : list TxEnv) (outcomes : list TxExecutionOutcome) (st : St) :
    result (EVMError E) (list TxExecutionOutcome * St) :=
  match txs with
  | [] => Ok (outcomes, st)
  | tx :: txs =>
    match skipping_step disable_nonce_check tx st with
    | (Err e, _) => Err e
    | (Ok o, st) => skipping_loop disable_nonce_check txs (outcomes ++ [o]) st
    end
  end.

Definition execute_revm_sequential_skipping_invalid (disable_nonce_check : bool) (db : DB) (txs : list TxEnv) :
    result (EVMError E) (list TxExecutionOutcome * BundleState) :=
  let? (outcomes, st) := skipping_loop disable_nonce_check txs [] (st_build db) in
  Ok (outcomes, finish_bundle st).

(** ** The filter of merged blocks *)

Fixpoint filter_loop (i : nat) (txs : list TxEnv) (kept : list nat) (total_gas gas_cap : Z) (st : St) : list nat :=
  match txs with
  | [] => kept
  | tx :: txs =>
    match transact_raw tx st with
    | (Ok (r, changes), st) =>
      let total_gas := saturating_add U64_MAX total_gas (tx_gas_used r) in
      let st := st_commit changes st in
      let kept := kept ++ [i] in
      if (gas_cap <=? total_gas)%Z then kept else filter_loop (S i) txs kept total_gas gas_cap st
    | (Err _, st) => filter_loop (S i) txs kept total_gas gas_cap st
    end
  end.

Definition filter_successful_txs (db : DB) (txs : list TxEnv) (gas_cap : Z) : list nat :=
  filter_loop 0 txs [] 0 gas_cap (st_build db).

(** ** Comparisons *)

(** A loop of assertions. *)
Fixpoint for_each {A} (f : A → outcome unit) (l : list A) : outcome unit :=
  match l with [] => Done tt | x :: l => let! _ := f x in for_each f l end.

Lemma for_each_Done {A} (f : A → outcome unit) l : for_each f l = Done tt ↔ Forall (λ x, f x = Done tt) l.
Proof.
  induction l as [|x l IH]; simpl; [by split|]. rewrite Forall_cons, <-IH.
  destruct (f x) as [[]|]; simpl; naive_solver.
Qed.

(** A loop of assertions over two sequences side by side, up to the shorter one. *)
Definition for_each_zip {A B} (f : A → B → outcome unit) (l : list A) (k : list B) : outcome unit :=
  for_each (λ xy, f xy.1 xy.2) (zip l k).

Lemma for_each_zip_Done {A B} (f : A → B → outcome unit) l k :
  length l = length k → for_each_zip f l k = Done tt ↔ Forall2 (λ x y, f x y = Done tt) l k.
Proof. intros. unfold for_each_zip. rewrite for_each_Done. by apply (zip_Forall2 (λ x y, f x y = Done tt)). Qed.

Definition assert_expected_metrics (observed : gmap string nat) (expected : gmap string nat) : outcome unit :=
  for_each (λ '(name, expected),
    match observed !! name with
    | Some actual => assert_that (bool_decide (actual = expected))
    | None => Panic
    end) (map_to_list expected).

(** [revm_compatibility_config]. *)
Definition revm_compatibility_config (env : string → option string) (available_parallelism : option nat) : GrevmConfig :=
  with_delegated_safety disabled (from_env env available_parallelism).

Context `{!BundleFields}.
Context `{!EqDecision ExecutionResult} `{!EqDecision InvalidTransaction}.

#[local] Instance TxExecutionOutcome_eq_dec : EqDecision TxExecutionOutcome.
Proof. solve_decision. Defined.

(** revm's equality of account data ([info_eqv]) compares the balance, the nonce and the code
    hash, not the code. *)
Definition compare_account (l r : (Address * BundleAccount)) : outcome unit :=
  let '((addr1, account1), (addr2, account2)) := (l, r) in
  let! _ := assert_that (bool_decide (addr1 = addr2)) in
  let! _ := assert_that (bool_decide (acct_eqv (ba_info account1) (ba_info account2))) in
  let! _ := assert_that (bool_decide (acct_eqv (ba_original_info account1) (ba_original_info account2))) in
  let! _ := assert_that (bool_decide (ba_status account1 = ba_status account2)) in
  let! _ := assert_that (bool_decide (size (ba_storage account1) = size (ba_storage account2))) in
  for_each_zip (λ s1 s2, assert_that (bool_decide (s1 = s2)))
    (btree_iter (ba_storage account1)) (btree_iter (ba_storage account2)).

(** [right.iter().collect::<HashMap<_, _>>()]: a later entry of an address replaces the earlier. *)
Definition collect_reverts (l : list (Address * AccountRevert)) : gmap Address AccountRevert :=
  foldl (λ m '(a, r), <[a := r]> m) ∅ l.

Definition compare_reverts (left right : list (Address * AccountRevert)) : outcome unit :=
  let! _ := assert_that (bool_decide (length left = length right)) in
  let right := collect_reverts right in
  for_each (λ '(addr, revert),
    match right !! addr with Some r => assert_that (bool_decide (revert_eqv revert r)) | None => Panic end) left.

Definition compare_bundle_state (left right : BundleState) : outcome unit :=
  let! _ := assert_that (bool_decide (dom (bs_contracts left) ⊆ dom (bs_contracts right))) in
  let! _ := assert_that (bool_decide (size (bs_contracts left) = size (bs_contracts right))) in
  let! _ := assert_that (bool_decide (size (bs_state left) = size (bs_state right))) in
  let! _ := for_each_zip compare_account (btree_iter (bs_state left)) (btree_iter (bs_state right)) in
  let! _ := assert_that (bool_decide (length (bs_reverts left) = length (bs_reverts right))) in
  let! _ := for_each_zip compare_reverts (bs_reverts left) (bs_reverts right) in
  let! _ := assert_that (bool_decide (bs_state_size left = bs_state_size right)) in
  assert_that (bool_decide (bs_reverts_size left = bs_reverts_size right)).

Definition compare_execution_result (left : list ExecutionResult) (right : list TxExecutionOutcome) : outcome unit :=
  let! _ := for_each_zip (λ l r,
    match r with ExecutedOutcome r => assert_that (bool_decide (l = r)) | Skipped _ => Panic end) left right in
  assert_that (bool_decide (length left = length right)).

(** ** The replay check *)

Context `{!RevmBundle}.
Context (transact_one : TxId → TxEnv → ParallelState DB → result (EVMError E) ExecutionResult * EvmState * ParallelState DB).
Context (parallel_phase : Address → Scheduler.Sched E → ParallelState DB →
  outcome (CommitLoopResult (E:=E) * Scheduler.Sched E * ParallelState DB)).

(** A fresh scheduler over a fresh state, under the given configuration. *)
Definition fresh_runner (config : GrevmConfig) (is_prague disable_nonce_check : bool) (beneficiary : Address)
    (db : DB) (txs : list TxEnv) : outcome (Runner (DB:=DB) (E:=E)) :=
  let! (config, _) := new_with_runtime_config is_prague txs config in
  Done (mkRunner (Sched_new txs beneficiary None) (ParallelState_new db true) [] false disable_nonce_check
          (cfg_force_sequential config) (cfg_min_parallel_txs config) (cfg_concurrency_level config)).

Definition compare_evm_execute_with_env (env : string → option string) (parallelism : option nat) (is_prague disable_nonce_check : bool) (beneficiary : Address)
    (elapsed : nat) (db : DB) (txs : list TxEnv) (parallel_metrics : gmap string nat) : outcome unit :=
  match execute_revm_sequential db txs with
  | Err _ => Panic
  | Ok (results, bundle) =>
    let config := revm_compatibility_config env parallelism in
    let! runner := fresh_runner config is_prague disable_nonce_check beneficiary db txs in
    let! (r, runner) := parallel_execute transact_one parallel_phase beneficiary None elapsed runner in
    match r with
    | Err _ => Panic
    | Ok _ =>
      let observed := if bool_decide (parallel_metrics = ∅) then None else Some (snapshot (metrics (rn_sched runner))) in
      let '(outcomes, state) := take_result_and_state runner in
      let '(parallel_bundle, _) := parallel_take_bundle Reverts state in
      let! _ := match observed with Some observed => assert_expected_metrics observed parallel_metrics | None => Done tt end in
      let! _ := compare_execution_result results outcomes in
      compare_bundle_state bundle parallel_bundle
    end
  end.

(** The comparison with the beneficiary of the mock accounts; a spec enters through the EVM, a
    parameter, and through the gate of the delegated-account policy. *)
Definition compare_evm_execute_with_spec (env : string → option string) (parallelism : option nat) (elapsed : nat)
    (db : DB) (txs : list TxEnv) (disable_nonce_check : bool) (parallel_metrics : gmap string nat) (is_prague : bool) : outcome unit :=
  compare_evm_execute_with_env env parallelism is_prague disable_nonce_check MINER_ADDRESS elapsed db txs parallel_metrics.

(** Shanghai is before Prague. *)
Definition compare_evm_execute (env : string → option string) (parallelism : option nat) (elapsed : nat)
    (db : DB) (txs : list TxEnv) (disable_nonce_check : bool) (parallel_metrics : gmap string nat) : outcome unit :=
  compare_evm_execute_with_spec env parallelism elapsed db txs disable_nonce_check parallel_metrics false.

(** The comparison for blocks with invalid transactions. *)
Definition compare_evm_execute_skipping_invalid_with_spec (env : string → option string) (parallelism : option nat)
    (is_prague : bool) (beneficiary : Address) (elapsed : nat) (db : DB) (txs : list TxEnv) :
    outcome (list TxExecutionOutcome) :=
  match execute_revm_sequential_skipping_invalid false db txs with
  | Err _ => Panic
  | Ok (expected_outcomes, expected_bundle) =>
    let config := revm_compatibility_config env parallelism in
    let config := mkConfig (cfg_concurrency_level config) (cfg_force_sequential config) 0 (cfg_delegated_safety config) in
    let! runner := fresh_runner config is_prague false beneficiary db txs in
    let! (r, runner) := parallel_execute transact_one parallel_phase beneficiary None elapsed runner in
    match r with
    | Err _ => Panic
    | Ok _ =>
      let '(actual_outcomes, state) := take_result_and_state runner in
      let '(actual_bundle, _) := parallel_take_bundle Reverts state in
      let! _ := assert_that (bool_decide (expected_outcomes = actual_outcomes)) in
      let! _ := compare_bundle_state expected_bundle actual_bundle in
      Done actual_outcomes
    end
  end.

End reference.
