(* ===== verification/ReferenceProps.v ===== *)
(** Correctness of the reference harness of src/src/test_utils/common/execute.rs against the
    crate's own sequential replay, and the meaning of its comparisons. *)

From S2P Require Import Prelude Model Reward World IncarnationDb ParallelState CacheView Bundle OrderedCommit Metrics Scheduler Control Reserve Executor Collections Reference.
From stdpp Require Import sorting.

Section fallback.
Context `{!Revm} `{!RevmDb} {DB E : Type} `{!DatabaseRef DB E} `{!RevmState DB E}.
Context (transact_one : TxId → TxEnv → ParallelState DB → result (EVMError E) ExecutionResult * EvmState * ParallelState DB).

(** ** The reference and the sequential replay *)

(** revm answers alike over both states: an account read returns the same account or the same
    error, a transaction has the same result, and its changes keep the states related. *)
Record simulation (R : St → ParallelState DB → Prop) : Prop := {
  sim_basic s p a : R s p →
    match st_basic a s, db_basic p a with
    | (Ok i, s'), (Ok j, p') => acct_eqv i j ∧ R s' p'
    | (Err e, _), (Err e', _) => into_external_error e = e'
    | _, _ => False
    end;
  sim_transact s p t tx : R s p →
    match transact_raw tx s, transact_one t tx p with
    | (Ok (r, changes), s'), (Ok r', changes', p') =>
      r = r' ∧ ∃ p'', commit changes' p' = Done p'' ∧ R (st_commit changes s') p''
    | (Err e, s'), (Err e', _, p') => external e = e' ∧ R s' p'
    | _, _ => False
    end
}.

Context (R : St → ParallelState DB → Prop) (Hsim : simulation R).

(** The result of a transaction that an outcome records. *)
Definition outcome_result (o : TxExecutionOutcome) : result (EVMError E) ExecutionResult :=
  match o with ExecutedOutcome r => Ok r | Skipped e => Err (Transaction e) end.

Definition fatal (e : EVMError E) : Prop := ∀ i, e ≠ Transaction i.

(** What one step of the reference says of one step of the replay. *)
Definition step_matches (ref : result (EVMError E) TxExecutionOutcome * St)
    (replay : outcome (result (EVMError E) ExecutionResult * ParallelState DB)) : Prop :=
  match ref with
  | (Ok o, s') => ∃ p', replay = Done (outcome_result o, p') ∧ R s' p'
  | (Err e, _) => fatal e ∧ ∃ p', replay = Done (Err e, p')
  end.

Lemma transact_matches s p t tx :
  R s p →
  step_matches
    (match transact_raw tx s with
     | (Ok (r, changes), st) => (Ok (ExecutedOutcome r), st_commit changes st)
     | (Err (Transaction e), st) => (Ok (Skipped e), st)
     | (Err e, st) => (Err (external e), st)
     end)
    (let '(output, state, st) := transact_one t tx p in
     match output with
     | Ok result => let! st := commit state st in Done (Ok result, st)
     | Err e => Done (Err e, st)
     end).
Proof.
  intros HR. pose proof (sim_transact R Hsim s p t tx HR) as Ht.
  destruct (transact_raw tx s) as [[[r ch]|e] s'], (transact_one t tx p) as [[[r'|e'] ch'] p']; try done.
  - destruct Ht as (-> & p'' & Hc & HR'). rewrite Hc. exists p''. done.
  - destruct Ht as [<- HR']. destruct e; simpl; [by exists p'|split; [by intros i|by exists p']..].
Qed.

Lemma skipping_step_matches d s p t tx :
  R s p → step_matches (skipping_step d tx s) (replay_transact transact_one d t tx p).
Proof.
  intros HR. unfold skipping_step, replay_transact, reject_nonce_overflow.
  destruct (negb d && bool_decide (tx_nonce tx = U64_MAX)); [|by apply transact_matches].
  pose proof (sim_basic R Hsim s p (caller tx) HR) as Hb.
  destruct (st_basic (caller tx) s) as [[i|e] s'], (db_basic p (caller tx)) as [[j|e'] p']; try done.
  - destruct Hb as [Hij HR'].
    assert (Hn : nonce_of j = match i with Some i => nonce i | None => 0%Z end).
    { destruct Hij as [i j (_ & Hn & _)|]; [|done]. unfold nonce_of. by rewrite Hn. }
    rewrite Hn. case_bool_decide; [by exists p'|by apply transact_matches].
  - subst. split; [by intros i|by exists p'].
Qed.

Lemma skipping_loop_matches d rest pre acc attempts s p :
  R s p →
  let replay := execute_sequential_loop (replay_transact transact_one d) (pre ++ rest) (length rest) (length pre) acc attempts p in
  match skipping_loop d rest acc s with
  | Ok (outs, s') => ∃ p', replay = Done (mkReplay outs None, attempts + length rest, p') ∧ R s' p'
  | Err e => ∃ outs n p', replay = Done (mkReplay (acc ++ outs) (Some (mkGrevmError (length pre + length outs) e)), n, p')
  end.
Proof.
  revert pre acc attempts s p. induction rest as [|tx rest IH]; intros pre acc attempts s p HR; simpl.
  { exists p. by rewrite Nat.add_0_r. }
  assert (Htx : index (pre ++ tx :: rest) (length pre) = Done tx) by (apply index_Done; by rewrite list_lookup_middle).
  rewrite Htx. simpl. pose proof (skipping_step_matches d s p (length pre) tx HR) as Hstep.
  destruct (skipping_step d tx s) as [[o|e] s1]; simpl in Hstep.
  - destruct Hstep as (p1 & Hr & HR1). rewrite Hr. simpl.
    specialize (IH (pre ++ [tx]) (acc ++ [o]) (attempts + 1) s1 p1 HR1).
    rewrite length_app, <-app_assoc in IH. simpl in IH.
    assert (Hnext : (match outcome_result o with
      | Ok result => execute_sequential_loop (replay_transact transact_one d) (pre ++ tx :: rest) (length rest) (length pre + 1) (acc ++ [ExecutedOutcome result]) (attempts + 1) p1
      | Err (Transaction error) => execute_sequential_loop (replay_transact transact_one d) (pre ++ tx :: rest) (length rest) (length pre + 1) (acc ++ [Skipped error]) (attempts + 1) p1
      | Err error => Done (mkReplay acc (Some (mkGrevmError (length pre) error)), attempts, p1)
      end) = execute_sequential_loop (replay_transact transact_one d) (pre ++ tx :: rest) (length rest) (length pre + 1) (acc ++ [o]) (attempts + 1) p1)
      by (by destruct o).
    rewrite Hnext. destruct (skipping_loop d rest (acc ++ [o]) s1) as [[outs s']|e].
    + destruct IH as (p' & -> & ?). exists p'. by replace (attempts + S (length rest)) with (attempts + 1 + length rest) by lia.
    + destruct IH as (outs & n & p' & ->). exists (o :: outs), n, p'. rewrite <-app_assoc. simpl.
      by replace (length pre + S (length outs)) with (length pre + 1 + length outs) by lia.
  - destruct Hstep as [Hf (p1 & Hr)]. rewrite Hr. simpl. exists [], attempts, p1. rewrite app_nil_r. simpl. rewrite Nat.add_0_r.
    destruct e as [i| | |]; [by destruct (Hf i)|done..].
Qed.

(** C19. The fallback agrees with the independent reference: when revm answers alike over its
    own state and over the crate's state cache, replaying a block from its start gives, for
    every block and every mixture of valid and invalid transactions, exactly the outcomes of the strictly
    sequential revm execution that skips invalid transactions, including transactions refused
    because the nonce overflows, and leaves a related state; when the reference stops with a
    fatal error, the replay stops with that error at the transaction after its last outcome. *)
Theorem replay_matches_reference s r :
  R s (rn_state r) → block_size (rn_sched r) = length (txs (rn_sched r)) → rn_results r = [] →
  match skipping_loop (rn_disable_nonce_check r) (txs (rn_sched r)) [] s with
  | Ok (outs, s') => ∃ r', replay_uncommitted_suffix transact_one CommittedPrefixEnd_ZERO r = Done (Ok tt, r') ∧
      rn_results r' = outs ∧ R s' (rn_state r')
  | Err e => ∃ r', replay_uncommitted_suffix transact_one CommittedPrefixEnd_ZERO r =
      Done (Err (mkGrevmError (length (rn_results r')) e), r')
  end.
Proof.
  intros HR Hn Hres. unfold replay_uncommitted_suffix, CommittedPrefixEnd_ZERO. rewrite Hres, Hn. cbn [prefix_index length].
  rewrite decide_False by lia. case_decide as Hz.
  { symmetry in Hz. apply nil_length_inv in Hz. rewrite Hz. simpl. by exists r. }
  unfold execute_sequential_suffix. rewrite Nat.sub_0_r.
  pose proof (skipping_loop_matches (rn_disable_nonce_check r) (txs (rn_sched r)) [] [] 0 s (rn_state r) HR) as Hloop.
  cbv zeta in Hloop. cbn [length app] in Hloop. destruct (skipping_loop _ _ _ _) as [[outs s']|e].
  - destruct Hloop as (p' & Hr & HR'). rewrite Hr. eexists. split; [reflexivity|]. done.
  - destruct Hloop as (outs & n & p' & Hr). rewrite Hr. cbn [outcome_bind sro_error sro_outcomes].
    match goal with |- ∃ _, Done (_, ?x) = _ => exists x end. reflexivity.
Qed.

End fallback.

(** ** The filter of merged blocks *)

Section merged.
Context `{!Revm} `{!RevmDb} {DB E : Type} `{!RevmState DB E}.

(** States with the same content: revm answers alike over them, and a transaction it refuses
    does not change the content. *)
Record same_content (same : relation St) : Prop := {
  same_trans : Transitive same;
  same_transact tx s s' : same s s' →
    (transact_raw tx s).1 = (transact_raw tx s').1 ∧ same (transact_raw tx s).2 (transact_raw tx s').2;
  same_commit changes s s' : same s s' → same (st_commit changes s) (st_commit changes s');
  same_refused tx s e s' : transact_raw tx s = (Err e, s') → same s' s
}.

(** The gas counter after a sequence of results. *)
Definition gas_after (gas : Z) (results : list ExecutionResult) : Z :=
  foldl (λ gas r, saturating_add U64_MAX gas (tx_gas_used r)) gas results.

Context (same : relation St) (Hsame : same_content same).

(** [kept] indexes of [all], from [i] on, execute one after the other from [st]. *)
Definition replays (all : list TxEnv) (i : nat) (kept : list nat) (gas gas_cap : Z) (st : St) : Prop :=
  ∃ results st', (∀ acc, sequential_loop (omap (λ k, all !! k) kept) acc st = Ok (acc ++ results, st')) ∧
    length results = length kept ∧ (∀ k, k ∈ kept → i ≤ k < length all) ∧ StronglySorted lt kept ∧
    ∀ n, 0 < n < length results → (gas_after gas (take n results) < gas_cap)%Z.

Lemma replays_nil all i gas gas_cap st : replays all i [] gas gas_cap st.
Proof.
  exists [], st. split_and!; [intros; by rewrite app_nil_r|done|by intros k ?%elem_of_nil|constructor|simpl; lia].
Qed.

(** A transaction that executes, and what follows it. *)
Lemma replays_cons all i tx r changes s s1 kept gas gas_cap :
  all !! i = Some tx → transact_raw tx s = (Ok (r, changes), s1) →
  (kept ≠ [] → saturating_add U64_MAX gas (tx_gas_used r) < gas_cap)%Z →
  replays all (S i) kept (saturating_add U64_MAX gas (tx_gas_used r)) gas_cap (st_commit changes s1) →
  replays all i (i :: kept) gas gas_cap s.
Proof.
  intros Htx Hr Hgas (results & st' & Hrun & Hlen & Hin & Hsorted & Hcap). exists (r :: results), st'. split_and!.
  - intros acc. simpl. rewrite Htx. simpl. rewrite Hr, Hrun, <-app_assoc. done.
  - simpl. lia.
  - intros k [->|Hk]%elem_of_cons; [apply lookup_lt_Some in Htx; lia|]. specialize (Hin k Hk). lia.
  - constructor; [done|]. apply Forall_forall. intros k Hk. specialize (Hin k Hk). lia.
  - intros [|[|n]] Hn; simpl in *; [lia| |].
    + apply Hgas. intros ->. simpl in *. lia.
    + apply (Hcap (S n)). lia.
Qed.

(** A refused transaction is passed over. *)
Lemma replays_weaken all i kept gas gas_cap s : replays all (S i) kept gas gas_cap s → replays all i kept gas gas_cap s.
Proof.
  intros (results & st' & ? & ? & Hin & ? & ?). exists results, st'. split_and!; [done|done| |done|done].
  intros k Hk. specialize (Hin k Hk). lia.
Qed.

Lemma filter_loop_replays pre rest acc gas gas_cap st s :
  same st s →
  ∃ kept, filter_loop (length pre) rest acc gas gas_cap st = acc ++ kept ∧
    replays (pre ++ rest) (length pre) kept gas gas_cap s.
Proof.
  revert pre acc gas st s. induction rest as [|tx rest IH]; intros pre acc gas st s Hs; cbn [filter_loop].
  { exists []. split; [by rewrite app_nil_r|apply replays_nil]. }
  assert (Htx : (pre ++ tx :: rest) !! length pre = Some tx) by by rewrite list_lookup_middle.
  assert (Hnext : ∀ acc gas st s, same st s → ∃ kept, filter_loop (S (length pre)) rest acc gas gas_cap st = acc ++ kept ∧
    replays (pre ++ tx :: rest) (S (length pre)) kept gas gas_cap s).
  { intros acc' gas' st' s' Hs'. specialize (IH (pre ++ [tx]) acc' gas' st' s' Hs').
    rewrite length_app, <-app_assoc in IH. simpl in IH. by rewrite Nat.add_1_r in IH. }
  destruct (same_transact _ Hsame tx st s Hs) as [Hr Hs1].
  destruct (transact_raw tx st) as [[[r ch]|e] st1] eqn:Ht; destruct (transact_raw tx s) as [r' s1] eqn:Ht'; simpl in Hr, Hs1; subst r'.
  - destruct (Z.leb_spec gas_cap (saturating_add U64_MAX gas (tx_gas_used r))) as [Hcap|Hcap].
    + exists [length pre]. split; [done|]. eapply replays_cons; [done|done|done|]. apply replays_nil.
    + destruct (Hnext (acc ++ [length pre]) (saturating_add U64_MAX gas (tx_gas_used r)) (st_commit ch st1) (st_commit ch s1)) as (kept & Hk & Hrep).
      { by apply (same_commit _ Hsame). }
      exists (length pre :: kept). rewrite Hk, <-app_assoc. split; [done|]. by eapply replays_cons.
  - destruct (Hnext acc gas st1 s) as (kept & Hk & Hrep).
    { eapply (same_trans _ Hsame); [exact (same_refused _ Hsame _ _ _ _ Ht)|done]. }
    exists kept. split; [done|]. by apply replays_weaken.
Qed.

(** The transactions that survive the merge filter replay end to end: executed in order as
    a block of their own from the same database, every one of them executes and none is refused,
    they are indices of the block in ascending order, and the gas counter reaches the cap only
    with the last one. *)
Theorem filtered_block_executes db txs gas_cap :
  same (st_build db) (st_build db) →
  let kept := filter_successful_txs db txs gas_cap in
  ∃ results bundle,
    execute_revm_sequential db (omap (λ k, txs !! k) kept) = Ok (results, bundle) ∧ length results = length kept ∧
    (∀ k, k ∈ kept → k < length txs) ∧ StronglySorted lt kept ∧
    ∀ n, 0 < n < length results → (gas_after 0 (take n results) < gas_cap)%Z.
Proof.
  intros Hrefl. destruct (filter_loop_replays [] txs [] 0 gas_cap _ _ Hrefl) as (kept & Hk & results & st' & Hrun & Hlen & Hin & Hs & Hcap).
  unfold filter_successful_txs. cbn [length app] in Hk. rewrite Hk. cbn [app]. exists results. eexists. split_and!.
  - unfold execute_revm_sequential. rewrite Hrun. reflexivity.
  - done.
  - intros k Hkk. by apply Hin.
  - done.
  - done.
Qed.

End merged.

(** ** Comparisons *)

Section comparisons.
Context `{!Revm} `{!RevmDb} `{!BundleFields}.

(** Two bundle accounts that agree on every compared field; of the account data the balance, the
    nonce and the code hash. *)
Definition same_account (a b : BundleAccount) : Prop :=
  acct_eqv (ba_info a) (ba_info b) ∧ acct_eqv (ba_original_info a) (ba_original_info b) ∧
  ba_status a = ba_status b ∧ ba_storage a = ba_storage b.

Lemma assert_bind (P : Prop) `{!Decision P} (k : outcome unit) :
  (let! _ := assert_that (bool_decide P) in k) = Done tt ↔ P ∧ k = Done tt.
Proof. case_bool_decide; simpl; naive_solver. Qed.

Lemma done_bind (x k : outcome unit) : (let! _ := x in k) = Done tt ↔ x = Done tt ∧ k = Done tt.
Proof. destruct x as [[]|]; simpl; naive_solver. Qed.

(** Equal lengths and an accepted loop over the pairs. *)
Lemma checked_zip {A B} (f : A → B → outcome unit) (P : A → B → Prop) l k :
  (∀ x y, f x y = Done tt ↔ P x y) → length l = length k ∧ for_each_zip f l k = Done tt ↔ Forall2 P l k.
Proof.
  intros Hf. split.
  - intros [Hlen HF%for_each_zip_Done]; [|done]. eapply Forall2_impl; [exact HF|]. intros x y. apply Hf.
  - intros HF. pose proof (Forall2_length _ _ _ HF) as Hlen. split; [done|]. apply for_each_zip_Done; [done|].
    eapply Forall2_impl; [exact HF|]. intros x y. apply Hf.
Qed.

Lemma compare_account_Done (l r : Address * BundleAccount) :
  compare_account l r = Done tt ↔ l.1 = r.1 ∧ same_account l.2 r.2.
Proof.
  destruct l as [a x], r as [b y]. unfold compare_account, same_account. rewrite !assert_bind. simpl.
  rewrite <-!(btree_iter_length (ba_storage _)), (checked_zip _ eq), <-list_eq_Forall2.
  - split; intros; destruct_and!; split_and!; try done; [by apply btree_iter_inj|by f_equal].
  - intros s1 s2. by rewrite assert_that_Done, bool_decide_eq_true.
Qed.

(** The comparison of the reverts of one transaction. *)
Definition reverts_agree (l r : list (Address * AccountRevert)) : Prop :=
  length l = length r ∧ ∀ a v, (a, v) ∈ l → ∃ v', collect_reverts r !! a = Some v' ∧ revert_eqv v v'.

Lemma compare_reverts_Done l r : compare_reverts l r = Done tt ↔ reverts_agree l r.
Proof.
  unfold compare_reverts, reverts_agree. rewrite assert_bind, for_each_Done, Forall_forall.
  apply and_iff_compat_l. split.
  - intros HF a v Hav. specialize (HF _ Hav). simpl in HF. case_match; [|done].
    apply assert_that_Done, bool_decide_eq_true in HF. by eexists.
  - intros HF [a v] Hav. destruct (HF _ _ Hav) as (v' & -> & Hv). by rewrite bool_decide_eq_true_2.
Qed.

(** What an accepted comparison of two bundles says. *)
Definition bundles_agree (l r : BundleState) : Prop :=
  dom (bs_contracts l) = dom (bs_contracts r) ∧
  (∀ a, option_Forall2 same_account (bs_state l !! a) (bs_state r !! a)) ∧
  Forall2 reverts_agree (bs_reverts l) (bs_reverts r) ∧
  bs_state_size l = bs_state_size r ∧ bs_reverts_size l = bs_reverts_size r.

Lemma contracts_agree (m n : gmap B256 Bytecode) : dom m ⊆ dom n ∧ size m = size n ↔ dom m = dom n.
Proof.
  rewrite <-!size_dom. split; [|by intros ->]. intros [Hsub Hsz]. apply set_eq, set_subseteq_antisymm; [done|].
  intros x Hx. destruct (decide (x ∈ dom m)) as [|Hn]; [done|].
  assert (size (dom m) < size (dom n)); [|lia]. apply subset_size. split; [done|]. intros Hcontra. by apply Hn, Hcontra.
Qed.

Lemma compare_bundle_state_Done l r : compare_bundle_state l r = Done tt ↔ bundles_agree l r.
Proof.
  unfold compare_bundle_state, bundles_agree. repeat rewrite ?assert_bind, ?done_bind.
  rewrite !assert_that_Done, !bool_decide_eq_true, <-contracts_agree, <-(btree_iter_Forall2 same_account).
  rewrite <-!(btree_iter_length (bs_state _)), <-(checked_zip _ _ _ _ compare_account_Done), <-(checked_zip _ _ _ _ compare_reverts_Done).
  tauto.
Qed.

Lemma compare_execution_result_Done `{!EqDecision ExecutionResult} (l : list ExecutionResult) (r : list TxExecutionOutcome) :
  compare_execution_result l r = Done tt ↔ r = ExecutedOutcome <$> l.
Proof.
  unfold compare_execution_result. rewrite done_bind, assert_that_Done, bool_decide_eq_true, (comm and).
  rewrite (checked_zip _ (λ x y, y = ExecutedOutcome x)).
  - rewrite list_eq_Forall2, Forall2_fmap_r. split; intros HF; by apply Forall2_flip in HF.
  - intros x [y|e]; [|done]. rewrite assert_that_Done, bool_decide_eq_true. split; [by intros ->|by intros [= ->]].
Qed.

End comparisons.

(** ** The replay check *)

Section check.
Context `{!Revm} `{!RevmDb} `{!RevmBundle} `{!BundleFields} {DB E : Type} `{!DatabaseRef DB E} `{!RevmState DB E}.
Context `{!EqDecision ExecutionResult}.
Context (transact_one : TxId → TxEnv → ParallelState DB → result (EVMError E) ExecutionResult * EvmState * ParallelState DB).
Context (parallel_phase : Address → Scheduler.Sched E → ParallelState DB →
  outcome (CommitLoopResult (E:=E) * Scheduler.Sched E * ParallelState DB)).

(** C36. What a passed replay check certifies: without expected metrics, the check ends without
    a panic exactly when the sequential reference executes every transaction, Grevm reports
    success, it has one executed outcome per transaction equal to the reference's result and none
    skipped, and its bundle has the same accounts (balance, nonce and code hash, now and originally),
    storage, statuses, contract hashes, reverts and sizes as the reference's. *)
Theorem replay_check_exact env parallelism is_prague nonce_off beneficiary elapsed db txs :
  compare_evm_execute_with_env transact_one parallel_phase env parallelism is_prague nonce_off beneficiary elapsed db txs ∅ = Done tt ↔
  ∃ results bundle runner runner',
    execute_revm_sequential db txs = Ok (results, bundle) ∧
    fresh_runner (revm_compatibility_config env parallelism) is_prague nonce_off beneficiary db txs = Done runner ∧
    parallel_execute transact_one parallel_phase beneficiary None elapsed runner = Done (Ok tt, runner') ∧
    rn_results runner' = ExecutedOutcome <$> results ∧
    bundles_agree bundle (parallel_take_bundle Reverts (rn_state runner')).1.
Proof.
  unfold compare_evm_execute_with_env. destruct (execute_revm_sequential db txs) as [[results bundle]|]; [|split; [done|by intros (? & ? & ? & ? & ? & _)]].
  split.
  - intros (runner & Hrun & ([r runner'] & Hpar & Hcmp)%outcome_bind_Done)%outcome_bind_Done. destruct r as [[]|]; [|done].
    unfold take_result_and_state in Hcmp. destruct (parallel_take_bundle Reverts (rn_state runner')) as [b s'] eqn:Hb.
    rewrite bool_decide_eq_true_2, !done_bind, compare_execution_result_Done, compare_bundle_state_Done in Hcmp by done.
    destruct Hcmp as (_ & ? & ?). exists results, bundle, runner, runner'. rewrite Hb. by split_and!.
  - intros (res & bun & runner & runner' & [= <- <-] & Hrun & Hpar & Hres & Hbun).
    apply outcome_bind_Done. exists runner. split; [done|].
    apply outcome_bind_Done. exists (Ok tt, runner'). split; [done|].
    unfold take_result_and_state. cbv beta iota.
    destruct (parallel_take_bundle Reverts (rn_state runner')) as [b s'] eqn:Hb.
    rewrite bool_decide_eq_true_2, !done_bind by done.
    by rewrite compare_execution_result_Done, compare_bundle_state_Done.
Qed.

End check.

(** ** Examples *)

Section examples.
#[local] Existing Instance revm_example.
#[local] Existing Instance revmdb_example.
#[local] Existing Instance cv_db.

(** revm over the crate's own state: a transaction with gas executes and changes nothing, one
    without is refused. *)
Definition rf_transact (tx : TxEnv) : result (EVMError unit) ExecutionResult :=
  if bool_decide (0 < gas_limit tx)%Z then Ok (5%Z : ExecutionResult) else Err (Transaction (3%Z : InvalidTransaction)).
Definition rf_one (_ : TxId) (tx : TxEnv) (p : ParallelState unit) :
    result (EVMError unit) ExecutionResult * EvmState * ParallelState unit := (rf_transact tx, ∅, p).
#[local] Instance rf_state : RevmState unit unit := {|
  St := ParallelState unit;
  StError := unit;
  st_build _ := cv_state;
  transact_raw tx s := (result_map (λ r, (r, ∅)) (rf_transact tx), s);
  st_basic a s := db_basic s a;
  st_commit changes s := match commit changes s with Done s => s | Panic => s end;
  st_merge_transitions _ s := s;
  st_take_bundle s := (BundleState_default, s);
  into_external_error e := e;
  tx_gas_used r := r
|}.

Lemma rf_simulation : simulation rf_one (λ s p, s = p).
Proof.
  split.
  - intros s ? a <-. simpl. destruct (db_basic s a) as [[i|e] s']; [|done]. split; [reflexivity|done].
  - intros s ? t tx <-. unfold rf_one. simpl. unfold rf_transact. case_bool_decide; simpl; [|done].
    split; [done|]. destruct (commit ∅ s) as [s'|] eqn:Hc; [by exists s'|]. done.
Qed.

(** A valid transaction, an invalid one, and one whose nonce overflows. *)
Definition rf_txs : list TxEnv :=
  [mkTxEnv 1 0 10 (Call 2) 21000 1; mkTxEnv 1 0 10 (Call 2) 0 1; mkTxEnv 1 U64_MAX 10 (Call 2) 21000 1].
Definition rf_runner : Runner (DB:=unit) (E:=unit) :=
  mkRunner (Sched_new rf_txs 77 None) cv_state [] false false true 0 4.

Definition rf_start : @St _ _ unit unit rf_state := cv_state.

Lemma replay_matches_reference_witness :
  simulation rf_one (λ s p, s = p) ∧ ∃ outs s' r',
    skipping_loop false rf_txs [] rf_start = Ok (outs, s') ∧
    replay_uncommitted_suffix rf_one CommittedPrefixEnd_ZERO rf_runner = Done (Ok tt, r') ∧ rn_results r' = outs.
Proof.
  split; [exact rf_simulation|].
  pose proof (replay_matches_reference rf_one (λ s p, s = p) rf_simulation rf_start rf_runner eq_refl eq_refl eq_refl) as Hm.
  change (txs (rn_sched rf_runner)) with rf_txs in Hm. change (rn_disable_nonce_check rf_runner) with false in Hm.
  assert (Hok : is_ok (skipping_loop false rf_txs [] rf_start) = true) by (vm_compute; reflexivity).
  destruct (skipping_loop false rf_txs [] rf_start) as [[outs s']|e]; [|discriminate Hok].
  destruct Hm as (r' & Hr & Ho & _). exists outs, s', r'. split; [reflexivity|]. split; [exact Hr|exact Ho].
Defined.

(** A sender whose nonce is the state: only the next transaction executes. *)
Definition fl_state : RevmState unit unit := {|
  St := Z;
  StError := unit;
  st_build _ := 0%Z;
  transact_raw tx s :=
    (if bool_decide (tx_nonce tx = s) then Ok (21000%Z : ExecutionResult, ∅) else Err (Transaction (3%Z : InvalidTransaction)), s);
  st_basic a s := (Ok None, s);
  st_commit changes s := (s + 1)%Z;
  st_merge_transitions _ s := s;
  st_take_bundle s := (BundleState_default, s);
  into_external_error e := e;
  tx_gas_used r := r
|}.
Definition fl_txs : list TxEnv := (λ n, mkTxEnv 1 n 10 (Call 2) 21000 1) <$> [0; 5; 1; 0; 2]%Z.

Lemma fl_same : same_content (RevmState0 := fl_state) eq.
Proof.
  split.
  - intros x y z -> ->. done.
  - by intros tx s s' ->.
  - by intros ch s s' ->.
  - intros tx s e s'. simpl. by case_bool_decide; intros [= <-].
Qed.

Lemma filtered_block_executes_witness :
  same_content (RevmState0 := fl_state) eq ∧
  filter_successful_txs (RevmState0 := fl_state) tt fl_txs 50000 = [0; 2; 4] ∧
  ∃ results bundle, execute_revm_sequential (RevmState0 := fl_state) tt (omap (λ k, fl_txs !! k) [0; 2; 4]) = Ok (results, bundle) ∧
    length results = 3.
Proof.
  split; [exact fl_same|].
  assert (Hk : filter_successful_txs (RevmState0 := fl_state) tt fl_txs 50000 = [0; 2; 4]) by (vm_compute; reflexivity).
  split; [exact Hk|].
  destruct (filtered_block_executes (RevmState0 := fl_state) eq fl_same tt fl_txs 50000 eq_refl) as (results & bundle & Hr & Hl & _).
  rewrite Hk in Hr, Hl. exists results, bundle. split; [exact Hr|exact Hl].
Defined.

End examples.
