(* ===== verification/Testing.v ===== *)
(** The vocabulary of the repository's unit tests.

    The inline tests of the source are translated in TestsBeneficiary, TestsScheduling,
    TestsState, TestsSafety, TestsRun and TestsTools: each test is a computation over the
    definitions of this development that panics when an assertion of the test fails, and it is
    evaluated. They show that the definitions behave on the inputs of the source's own tests as
    the source is expected to; the theorems speak about all inputs. *)

From S2P Require Import Prelude.

(** [assert_eq!]. *)
Definition assert_eq {A} `{EqDecision A} (x y : A) : outcome unit := assert_that (bool_decide (x = y)).

(** [Option::unwrap], [Result::unwrap] and [Result::expect_err]. *)
Definition unwrap {A} (o : option A) : outcome A := match o with Some a => Done a | None => Panic end.
Definition unwrap_ok {E A} (r : result E A) : outcome A := match r with Ok a => Done a | Err _ => Panic end.
Definition unwrap_err {E A} (r : result E A) : outcome E := match r with Ok _ => Panic | Err e => Done e end.

Definition is_some {A} (o : option A) : bool := match o with Some _ => true | None => false end.
Definition is_none {A} (o : option A) : bool := negb (is_some o).

(** A statement of a test whose value is not used. *)
Notation "'run!' e 'in' k" := (outcome_bind e (λ _, k)) (at level 10, e at level 200, k at level 200) : grevm_scope.

(** [#[should_panic]]. *)
Definition panics {A} (o : outcome A) : bool := match o with Panic => true | Done _ => false end.

#[export] Instance result_eq_dec {E A} `{EqDecision E, EqDecision A} : EqDecision (result E A).
Proof. solve_decision. Defined.

(** ** Exhaustive exploration

    Tests that run threads under a model checker explore every interleaving: [moves] lists the
    states after one atomic access of each thread that can go on, and [ok] is the assertion in a
    state in which every thread has ended. *)

Fixpoint explore {S} (moves : S → list S) (ok : S → bool) (fuel : nat) (s : S) : bool :=
  match fuel with
  | 0 => false
  | S fuel => match moves s with [] => ok s | l => forallb (explore moves ok fuel) l end
  end.

(** Every run to the end was explored. *)
Lemma explore_sound {S} (moves : S → list S) ok fuel s s' :
  explore moves ok fuel s = true → rtc (λ x y, y ∈ moves x) s s' → moves s' = [] → ok s' = true.
Proof.
  intros He Hr. revert fuel He. induction Hr as [s|s1 s2 s3 Hs _ IH]; intros [|fuel] He Hend; try done; simpl in He.
  - by rewrite Hend in He.
  - destruct (moves s1) as [|m l] eqn:Hm; [by apply not_elem_of_nil in Hs|]. change (forallb (explore moves ok fuel) (m :: l) = true) in He.
    apply Is_true_true_2, forallb_True in He. eapply IH; [|done]. rewrite Forall_forall in He. by apply Is_true_true, He.
Qed.
