(* ===== verification/TestsBeneficiary.v ===== *)
(** The unit tests of src/src/beneficiary.rs, src/src/beneficiary/reward.rs and
    src/src/beneficiary/history.rs. *)

From S2P Require Import Prelude Model Reward History Testing.

#[local] Existing Instance revm_example.

(** ** src/src/beneficiary/reward.rs *)

Module RewardTests.

Definition deferred_for_test (amount : U256) : outcome DeferredBeneficiaryReward :=
  run! assert_that (negb (bool_decide (amount = 0%Z))) in Done (mkDeferred amount).

Definition deferred_reward_materializes_an_absent_account : outcome unit :=
  let! r := deferred_for_test 7 in
  let account := apply_to r None in
  assert_eq (balance account) 7%Z.

Definition deferred_reward_preserves_balance_on_overflow : outcome unit :=
  let original := mkInfo U256_MAX 0 0 None in
  let! r := deferred_for_test 1 in
  assert_eq (apply_to r (Some original)) original.

Example materializes_an_absent_account_passes : deferred_reward_materializes_an_absent_account = Done tt.
Proof. by vm_compute. Qed.

Example preserves_balance_on_overflow_passes : deferred_reward_preserves_balance_on_overflow = Done tt.
Proof. by vm_compute. Qed.

End RewardTests.

(** ** src/src/beneficiary/history.rs *)

Module HistoryTests.

Definition version (t inc : nat) : TxVersion := mkTxVersion t inc.
Definition account (balance : U256) : AccountInfo := mkInfo balance 0 0 None.

Definition record_reward (h : BeneficiaryHistory) (v : TxVersion) (amount : U256) : outcome (bool * BeneficiaryHistory) :=
  let! r := RewardTests.deferred_for_test amount in record_execution v (Some r) None h.
Definition record_snapshot (h : BeneficiaryHistory) (v : TxVersion) (account : option AccountInfo) :=
  record_effect v (EffSnapshot account) h.

(** A publication that has to be accepted, or refused. *)
Definition accepted (o : outcome (bool * BeneficiaryHistory)) : outcome BeneficiaryHistory :=
  let! (ok, h) := o in run! assert_that ok in Done h.
Definition refused (o : outcome (bool * BeneficiaryHistory)) : outcome BeneficiaryHistory :=
  let! (ok, h) := o in run! assert_that (negb ok) in Done h.

(** The account and the version of a read that is not blocked. *)
Definition resolved (o : outcome (result TxId BeneficiaryRead)) : outcome (option AccountInfo * BeneficiaryReadVersion) :=
  let! r := o in let! read := unwrap_ok r in Done (br_account read, br_version read).

Definition blocked_by (t : TxId) (o : outcome (result TxId BeneficiaryRead)) : outcome unit :=
  let! r := o in match r with Err b => assert_eq b t | Ok _ => Panic end.

Definition balance_is (a : option AccountInfo) (b : U256) : outcome unit := let! i := unwrap a in assert_eq (balance i) b.

Definition estimates_are_preseeded_and_nearest_relevant_writer_blocks : outcome unit :=
  let history := BeneficiaryHistory_new (Some (account 10)) 4 in
  let! (resolved_account, read_version) := resolved (resolve_before history 0) in
  run! balance_is resolved_account 10 in
  run! assert_eq (origins read_version) [] in
  run! blocked_by 2 (resolve_before history 3) in
  let! history := accepted (record_snapshot history (version 2 1) (Some (account 20))) in
  let! (account, read_version) := resolved (resolve_before history 3) in
  run! balance_is account 20 in
  assert_eq (origins read_version) [version 2 1].

Definition reward_chain_resolves_from_anchor_and_records_every_origin : outcome unit :=
  let history := BeneficiaryHistory_new (Some (account 10)) 3 in
  let! history := accepted (record_reward history (version 0 1) 2) in
  let! history := accepted (record_reward history (version 1 1) 3) in
  let! (account, read_version) := resolved (resolve_before history 2) in
  run! balance_is account 15 in
  run! assert_eq (origins read_version) [version 1 1; version 0 1] in
  assert_eq (latest_dependency read_version) (Some 1).

Definition snapshot_none_cuts_older_estimates_and_later_reward_recreates_account : outcome unit :=
  let history := BeneficiaryHistory_new (Some (account 99)) 4 in
  let! history := accepted (record_snapshot history (version 1 1) None) in
  let! history := accepted (record_reward history (version 2 1) 7) in
  let! (account, read_version) := resolved (resolve_before history 3) in
  run! balance_is account 7 in
  assert_eq (origins read_version) [version 2 1; version 1 1].

Definition retry_replaces_write_and_stale_record_or_invalidation_cannot_win : outcome unit :=
  let history := BeneficiaryHistory_new (Some (account 10)) 1 in
  let! history := accepted (record_reward history (version 0 1) 4) in
  let! history := accepted (invalidate (version 0 1) history) in
  run! blocked_by 0 (resolve_before history 1) in
  let! history := accepted (record_reward history (version 0 2) 7) in
  let! history := refused (record_reward history (version 0 1) 100) in
  let! history := refused (invalidate (version 0 1) history) in
  let! (account, read_version) := resolved (resolve_before history 1) in
  run! balance_is account 17 in
  assert_eq (origins read_version) [version 0 2].

Definition execution_conflict_keeps_predeclared_writer_as_estimate : outcome unit :=
  let history := BeneficiaryHistory_new None 1 in
  let! history := accepted (record_estimate (version 0 1) history) in
  run! blocked_by 0 (resolve_before history 1) in
  run! accepted (invalidate (version 0 1) history) in Done tt.

(** The history with the rewards of two transactions, and the version of a read after them. *)
Definition two_rewards : outcome (BeneficiaryHistory * BeneficiaryReadVersion) :=
  let history := BeneficiaryHistory_new (Some (account 10)) 2 in
  let! history := accepted (record_reward history (version 0 1) 1) in
  let! history := accepted (record_reward history (version 1 1) 2) in
  let! (_, expected) := resolved (resolve_before history 2) in
  Done (history, expected).

Definition validates_as (b : bool) (dependency : option TxId) (v : outcome BeneficiaryValidation) : outcome unit :=
  let! validation := v in
  run! assert_eq (valid validation) b in
  assert_eq (bv_dependency validation) dependency.

Definition validation_checks_older_reward_incarnations_not_only_latest_writer : outcome unit :=
  let! (history, expected) := two_rewards in
  let! history := accepted (record_reward history (version 0 2) 9) in
  validates_as false (Some 1) (validate history 2 expected).

Definition validation_reports_estimate_as_actionable_dependency : outcome unit :=
  let! (history, expected) := two_rewards in
  let! history := accepted (invalidate (version 0 1) history) in
  validates_as false (Some 0) (validate history 2 expected).

Definition reward_overflow_is_evaluated_in_transaction_order : outcome unit :=
  let history := BeneficiaryHistory_new (Some (account (U256_MAX - 1))) 2 in
  let! history := accepted (record_reward history (version 0 1) 2) in
  let! history := accepted (record_reward history (version 1 1) 1) in
  let! (account, _) := resolved (resolve_before history 2) in
  balance_is account U256_MAX.

Definition unchanged_effect_is_an_exact_noop_for_an_absent_anchor : outcome unit :=
  let history := BeneficiaryHistory_new None 1 in
  let! history := accepted (record_execution (version 0 1) None None history) in
  let! (account, read_version) := resolved (resolve_before history 1) in
  run! assert_eq account None in
  assert_eq (origins read_version) [version 0 1].

Definition same_incarnation_estimate_cannot_be_completed_later : outcome unit :=
  let history := BeneficiaryHistory_new None 1 in
  let tx_version := version 0 1 in
  let! history := accepted (record_estimate tx_version history) in
  let! history := refused (record_reward history tx_version 1) in
  blocked_by 0 (resolve_before history 1).

Definition stale_estimate_cannot_hide_a_newer_exact_effect : outcome unit :=
  let history := BeneficiaryHistory_new (Some (account 10)) 1 in
  let! history := accepted (record_reward history (version 0 2) 7) in
  let! history := refused (record_estimate (version 0 1) history) in
  let! (account, read_version) := resolved (resolve_before history 1) in
  run! balance_is account 17 in
  assert_eq (origins read_version) [version 0 2].

Definition valid_validation_reports_the_latest_exact_dependency : outcome unit :=
  let! (history, expected) := two_rewards in
  validates_as true (Some 1) (validate history 2 expected).

Definition snapshot_keeps_read_valid_when_an_older_entry_changes : outcome unit :=
  let history := BeneficiaryHistory_new (Some (account 10)) 2 in
  let! history := accepted (record_reward history (version 0 1) 1) in
  let! history := accepted (record_snapshot history (version 1 1) (Some (account 20))) in
  let! (_, expected) := resolved (resolve_before history 2) in
  let! history := accepted (record_reward history (version 0 2) 9) in
  validates_as true (Some 1) (validate history 2 expected).

Definition finalized_account_is_recorded_as_an_absolute_snapshot : outcome unit :=
  let history := BeneficiaryHistory_new (Some (account 10)) 1 in
  let updated := mkAccount true false false (account 25) ∅ in
  let! history := accepted (record_execution (version 0 1) None (Some updated) history) in
  let! (account, read_version) := resolved (resolve_before history 1) in
  run! balance_is account 25 in
  assert_eq (origins read_version) [version 0 1].

Definition finalized_deletion_is_recorded_as_an_absent_snapshot : outcome unit :=
  let history := BeneficiaryHistory_new (Some (account 10)) 1 in
  let deleted := mkAccount true true false (account 25) ∅ in
  let! history := accepted (record_execution (version 0 1) None (Some deleted) history) in
  let! (account, read_version) := resolved (resolve_before history 1) in
  run! assert_eq account None in
  assert_eq (origins read_version) [version 0 1].

Definition history_tests : list (outcome unit) :=
  [estimates_are_preseeded_and_nearest_relevant_writer_blocks;
   reward_chain_resolves_from_anchor_and_records_every_origin;
   snapshot_none_cuts_older_estimates_and_later_reward_recreates_account;
   retry_replaces_write_and_stale_record_or_invalidation_cannot_win;
   execution_conflict_keeps_predeclared_writer_as_estimate;
   validation_checks_older_reward_incarnations_not_only_latest_writer;
   validation_reports_estimate_as_actionable_dependency;
   reward_overflow_is_evaluated_in_transaction_order;
   unchanged_effect_is_an_exact_noop_for_an_absent_anchor;
   same_incarnation_estimate_cannot_be_completed_later;
   stale_estimate_cannot_hide_a_newer_exact_effect;
   valid_validation_reports_the_latest_exact_dependency;
   snapshot_keeps_read_valid_when_an_older_entry_changes;
   finalized_account_is_recorded_as_an_absolute_snapshot;
   finalized_deletion_is_recorded_as_an_absent_snapshot].

Example history_tests_pass : Forall (λ t, t = Done tt) history_tests.
Proof. by repeat constructor. Qed.

End HistoryTests.

(** ** src/src/beneficiary.rs *)

Module BeneficiaryTests.

Definition beneficiary_rejects_deferred_reward_with_state_write : outcome (bool * BeneficiaryAccount) :=
  let beneficiary := 203%Z in
  let state : EvmState := {[beneficiary := mkAccount false false false info_default ∅]} in
  let! reward := RewardTests.deferred_for_test 1 in
  let result := deferred (0%Z : ExecutionResult) state reward in
  let beneficiary := Beneficiary_new beneficiary None 1 in
  b_record_execution (mkTxVersion 0 0) result beneficiary.

Example rejects_deferred_reward_with_state_write_panics :
  panics beneficiary_rejects_deferred_reward_with_state_write = true.
Proof. by vm_compute. Qed.

End BeneficiaryTests.
