(* ===== verification/TestsScheduling.v ===== *)
(** The unit tests of src/src/tx_dependency.rs, src/src/scheduler/context.rs,
    src/src/scheduler/cursor.rs, src/src/scheduler/wait.rs and src/src/scheduler/metrics.rs.

    Tests with threads run the threads at the granularity of the shared accesses. The two tests
    that the source runs under a model checker explore every interleaving here as well. *)

From S2P Require Import Prelude Model TxDependency Context Cursor Metrics Testing.

(** ** src/src/tx_dependency.rs *)

Module DependencyTests.

(** [assert_eq!(dependencies.next(), ...)]. *)
Definition next_is (expected : option TxId) (d : TxDependency) : outcome TxDependency :=
  let! (r, d) := next d in run! assert_eq r expected in Done d.

Definition replacing_a_blocker_ignores_the_stale_reverse_edge : outcome unit :=
  let d := TxDependency_new 3 in
  let! d := next_is (Some 0) d in
  let! d := next_is (Some 1) d in
  let! d := next_is (Some 2) d in
  let! d := add 2 (Some 0) d in
  let! d := add 2 (Some 1) d in
  let! d := next_is (Some 0) d in
  let! (_, d) := remove 0 false d in
  let! d := next_is (Some 1) d in
  let! d := next_is None d in
  let! (_, d) := remove 1 false d in
  let! d := next_is (Some 2) d in
  run! next_is None d in Done tt.

Definition direct_handoff_is_not_claimed_again_by_the_cursor : outcome unit :=
  let d := TxDependency_new 2 in
  let! d := next_is (Some 0) d in
  let! d := next_is (Some 1) d in
  let! d := add 1 (Some 0) d in
  let! d := next_is (Some 0) d in
  let! d := next_is None d in
  let! (handoff, d) := remove 0 true d in
  run! assert_eq handoff (Some 1) in
  run! next_is None d in Done tt.

Definition claimed_pair : outcome TxDependency :=
  let d := TxDependency_new 2 in
  let! d := next_is (Some 0) d in
  next_is (Some 1) d.

Definition committed_prefix_barrier_is_released_in_either_order : outcome unit :=
  let! d := claimed_pair in
  let! d := key_tx 1 0 d in
  let! d := next_is None d in
  let! d := dep_commit 0 d in
  run! next_is (Some 1) d in
  let! d := claimed_pair in
  let! d := dep_commit 0 d in
  let! d := key_tx 1 1 d in
  run! next_is (Some 1) d in Done tt.

(** The two threads of the next test: the graph, the committed cursor, whether the committer has
    published and committed, and whether the barrier is installed. *)
Definition barrier_moves (s : outcome TxDependency * nat * nat * bool) : list (outcome TxDependency * nat * nat * bool) :=
  let '(d, cursor, committer, installed) := s in
  match committer with
  | 0 => [(d, 1, 1, installed)]
  | 1 => [(let! d := d in dep_commit 0 d, cursor, 2, installed)]
  | _ => []
  end ++
  (if installed : bool then [] else [(let! d := d in key_tx 1 cursor d, cursor, committer, true)]).

Definition barrier_ok (s : outcome TxDependency * nat * nat * bool) : bool :=
  negb (panics (let! d := s.1.1.1 in let! d := next_is (Some 1) d in next_is None d)).

Definition concurrent_commit_and_barrier_installation_do_not_lose_the_retry : bool :=
  explore barrier_moves barrier_ok 4 (claimed_pair, 0, 0, false).

Definition dependency_must_be_a_strict_predecessor : outcome TxDependency := add 0 (Some 0) (TxDependency_new 1).

Example dependency_tests_pass : Forall (λ t, t = Done tt)
  [replacing_a_blocker_ignores_the_stale_reverse_edge; direct_handoff_is_not_claimed_again_by_the_cursor;
   committed_prefix_barrier_is_released_in_either_order].
Proof. by repeat constructor. Qed.

Example concurrent_commit_passes : concurrent_commit_and_barrier_installation_do_not_lose_the_retry = true.
Proof. by vm_compute. Qed.

Example strict_predecessor_panics : panics dependency_must_be_a_strict_predecessor = true.
Proof. by vm_compute. Qed.

End DependencyTests.

(** ** src/src/scheduler/context.rs *)

Module ContextTests.

Definition execution_frontier_advances_over_out_of_order_completions : outcome unit :=
  let frontier := ExecutionFrontier_new 5 in
  let! frontier := publish frontier 4 in
  let! frontier := publish frontier 2 in
  let! frontier := publish frontier 1 in
  let '(c, frontier) := current frontier in
  run! assert_eq c 0 in
  let! frontier := publish frontier 0 in
  let '(c, frontier) := current frontier in
  run! assert_eq c 3 in
  let! frontier := publish frontier 3 in
  let '(c, frontier) := current frontier in
  assert_eq c 5.

Definition reader_helps_a_delayed_frontier_publisher : outcome unit :=
  let frontier := ExecutionFrontier_new 2 in
  let! frontier := store_executed frontier 0 in
  assert_eq (current frontier).1 1.

Fixpoint publish_all (f : ExecutionFrontier) (idxs : list nat) : outcome ExecutionFrontier :=
  match idxs with [] => Done f | i :: idxs => let! f := publish f i in publish_all f idxs end.

(** The eight threads publish their indices from the highest down; here they take turns. *)
Definition execution_frontier_handles_concurrent_publishers : outcome unit :=
  let! frontier := publish_all (ExecutionFrontier_new 1000)
    (flat_map (λ round, (λ offset, 8 * (124 - round) + offset) <$> seq 0 8) (seq 0 125)) in
  assert_eq (current frontier).1 1000.

(** A claim is one atomic operation: the threads are told apart only by who makes it. *)
Fixpoint claim_all (fuel executing_idx : nat) (c : SchedulerContext) : list nat * SchedulerContext :=
  match fuel with
  | 0 => ([], c)
  | S fuel =>
    match next_validation_idx executing_idx c with
    | (Some i, c) => let '(l, c) := claim_all fuel executing_idx c in (i :: l, c)
    | (None, c) => ([], c)
    end
  end.

Fixpoint execute_all (idxs : list nat) (c : SchedulerContext) : outcome SchedulerContext :=
  match idxs with [] => Done c | i :: idxs => let! c := ctx_executed i c in execute_all idxs c end.

Definition concurrent_validation_claims_do_not_cross_execution_limit : outcome unit :=
  let! context := execute_all (seq 0 8) (SchedulerContext_new 32) in
  let '(claimed, context) := claim_all 32 5 context in
  run! assert_eq claimed (seq 0 5) in
  assert_eq (validation context) 5.

Example context_tests_pass : Forall (λ t, t = Done tt)
  [execution_frontier_advances_over_out_of_order_completions; reader_helps_a_delayed_frontier_publisher;
   concurrent_validation_claims_do_not_cross_execution_limit].
Proof. by repeat constructor. Qed.

Example concurrent_publishers_pass : execution_frontier_handles_concurrent_publishers = Done tt.
Proof. by vm_compute. Qed.

End ContextTests.

(** ** src/src/scheduler/cursor.rs *)

Module CursorTests.

(** Claims until the limit. *)
Fixpoint drain (fuel limit word : nat) : list nat :=
  match fuel with
  | 0 => []
  | S fuel => match claim_before word limit with (Some i, word) => i :: drain fuel limit word | (None, _) => [] end
  end.

(** The claim thread, one access at a time; it stores a successful claim. *)
Inductive Claimer := Claiming (pc : ClaimPc) | Storing (i : nat) | Ended.

Definition claimer_step (c : Claimer) (word : nat) (stored : option nat) : list (Claimer * nat * option nat) :=
  match c with
  | Claiming pc =>
    let '(pc, word) := claim_access false pc word in
    [(match pc with CReturned _ (Some i) => Storing i | CReturned _ None => Ended | _ => Claiming pc end, word, stored)]
  | Storing i => [(Ended, word, Some i)]
  | Ended => []
  end.

(** The word, the claimer, what it stored, and whether the rewind to 0 has happened. *)
Definition rewind_moves (s : nat * Claimer * option nat * bool) : list (nat * Claimer * option nat * bool) :=
  let '(word, claimer, stored, rewound) := s in
  ((λ x, (x.1.2, x.1.1, x.2, rewound)) <$> claimer_step claimer word stored) ++
  (if rewound : bool then [] else [((rewind word 0).2, claimer, stored, true)]).

Definition rewind_ok (s : nat * Claimer * option nat * bool) : bool :=
  let '(word, _, stored, _) := s in
  let claims := option_list stored ++ drain 3 2 word in
  forallb (λ i, i <? 2) claims && bool_decide (0 ∈ claims) && bool_decide (1 ∈ claims).

Definition rewind_concurrent_with_claim_reissues_every_rewound_index : bool :=
  explore rewind_moves rewind_ok 12 (1, Claiming (CLoad 2), None, false).

(** The second test has a transaction state of its own, under a lock. Loads of words that only the
    holder of the lock writes are part of the step that takes or releases it. *)
Inductive Status := TestExecuted | TestUnconfirmed | TestFinality.

Record Shared := mkShared {
  sh_validation : nat; sh_lower : nat; sh_clock : nat; sh_cursor : nat; sh_locked : bool;
  sh_status : Status; sh_rewind : nat; sh_finality : nat; sh_claimed : bool
}.

(** The rewinding thread: the lock with the status, the clock, the lower timestamp, the cursor. *)
Inductive Rewinder := RLock | RClock | RLower (ts : nat) | RCursor (ts : nat) | RDone.

Definition rewinder_step (r : Rewinder) (s : Shared) : list (Rewinder * Shared) :=
  let '(mkShared va lo cl cu lk st rw fi vc) := s in
  match r with
  | RLock =>
    if lk then []
    else match st with
         | TestFinality => [(RDone, s)]
         | _ => [(RClock, mkShared va lo cl cu true TestExecuted rw fi vc)]
         end
  | RClock => [(RLower cl, mkShared va lo (S cl) cu lk st rw fi vc)]
  | RLower ts => [(RCursor ts, mkShared va (Nat.max lo ts) cl cu lk st rw fi vc)]
  | RCursor ts => [(RDone, mkShared va lo cl (Nat.min cu 0) false st ts fi vc)]
  | RDone => []
  end.

(** The consumer: the claim, its validation under the lock, the check of the cursor, and the
    finality decision under the lock. *)
Inductive Consumer :=
| KClaim (pc : ClaimPc) | KLock | KClock | KValidate (ts : nat) | KCursor | KFinalLock | KFinal (lower : nat) | KDone.

Definition consumer_step (k : Consumer) (s : Shared) : list (Consumer * Shared) :=
  let '(mkShared va lo cl cu lk st rw fi vc) := s in
  match k with
  | KClaim pc =>
    let '(pc, cu) := claim_access false pc cu in
    [(match pc with CReturned _ (Some 0) => KLock | CReturned _ _ => KCursor | _ => KClaim pc end,
      mkShared va lo cl cu lk st rw fi vc)]
  | KLock =>
    if lk then []
    else match st with
         | TestFinality => [(KCursor, mkShared va lo cl cu false st rw fi true)]
         | _ => [(KClock, mkShared va lo cl cu true st rw fi true)]
         end
  | KClock => [(KValidate cl, mkShared va lo (S cl) cu lk st rw fi vc)]
  | KValidate ts => [(KCursor, mkShared (Nat.max va ts) lo cl cu false TestUnconfirmed rw fi vc)]
  | KCursor => [(if decide (cu = 0) then KDone else KFinalLock, s)]
  | KFinalLock =>
    if lk then []
    else match st with
         | TestUnconfirmed => [(KFinal lo, mkShared va lo cl cu true st rw fi vc)]
         | _ => [(KDone, s)]
         end
  | KFinal lower =>
    [(KDone, if decide (lower < va) then mkShared va lo cl cu false TestFinality rw va vc
             else mkShared va lo cl cu false st rw fi vc)]
  | KDone => []
  end.

Definition finality_moves (x : Rewinder * Consumer * Shared) : list (Rewinder * Consumer * Shared) :=
  let '(r, k, s) := x in
  ((λ y, (y.1, k, y.2)) <$> rewinder_step r s) ++ ((λ y, (r, y.1, y.2)) <$> consumer_step k s).

Definition finality_ok (x : Rewinder * Consumer * Shared) : bool :=
  let s := x.2 in
  match x.1 with (RDone, KDone) => true | _ => false end &&
  (bool_decide (sh_rewind s = 0) || bool_decide (sh_finality s = 0) || (sh_rewind s <? sh_finality s)) &&
  (bool_decide (sh_rewind s = 0) || sh_claimed s || bool_decide ((claim_before (sh_cursor s) 1).1 = Some 0)).

Definition rewind_requires_newer_validation_before_finality : bool :=
  explore finality_moves finality_ok 20
    (RLock, KClaim (CLoad 1), mkShared 1 0 2 1 false TestUnconfirmed 0 0 false).

Example rewind_concurrent_passes : rewind_concurrent_with_claim_reissues_every_rewound_index = true.
Proof. by vm_compute. Qed.

Example rewind_finality_passes : rewind_requires_newer_validation_before_finality = true.
Proof. by vm_compute. Qed.

End CursorTests.

(** ** src/src/scheduler/wait.rs *)

Module WaitTests.

(** A predicate on a flag that nobody changes. *)
Definition not_ready (s : WaitSlot * bool) : bool * (WaitSlot * bool) := (negb s.2, s).

Definition ends {S} (expected : WaitEnd → bool) (r : WaitEnd * (WaitSlot * S)) : outcome (WaitSlot * S) :=
  run! assert_that (expected r.1) in Done r.2.

Definition unparked (e : WaitEnd) : bool := match e with Unparked => true | _ => false end.

Definition notification_before_registration_is_covered_by_the_predicate : outcome unit :=
  let slot := notify WaitSlot_new in
  let! slot := register_current_thread slot in
  run! ends (λ e, match e with NotBlocked => true | _ => false end) (wait_while not_ready (slot, true)) in Done tt.

(** The state of the predicate: the number of checks and the flag. *)
Definition notifies_at_second_check (s : WaitSlot * (nat * bool)) : bool * (WaitSlot * (nat * bool)) :=
  let '(slot, (checks, ready)) := s in
  let checks := S checks in
  if decide (checks = 2) then (true, (notify slot, (checks, true))) else (true, (slot, (checks, ready))).

Definition notification_between_check_and_park_is_not_lost : outcome unit :=
  let! slot := register_current_thread WaitSlot_new in
  let! s := ends unparked (wait_while notifies_at_second_check (slot, (0, false))) in
  assert_that s.2.2.

(** The producer runs once the consumer has announced its second check. *)
Definition produced_after_second_check (s : WaitSlot * (nat * bool)) : bool * (WaitSlot * (nat * bool)) :=
  let '(slot, (checks, ready)) := s in
  let checks := S checks in
  let blocked := negb ready in
  if decide (checks = 2) then (blocked, (notify slot, (checks, true))) else (blocked, (slot, (checks, ready))).

Definition notification_wakes_a_parked_consumer : outcome unit :=
  let! slot := register_current_thread WaitSlot_new in
  run! ends unparked (wait_while produced_after_second_check (slot, (0, false))) in Done tt.

Definition timeout_does_not_prevent_slot_reuse : outcome unit :=
  let! slot := register_current_thread WaitSlot_new in
  let! s := ends (λ e, match e with TimedOut => true | _ => false end) (wait_while (λ s, (true, s)) (slot, false)) in
  run! ends (λ e, match e with NotBlocked => true | _ => false end) (wait_while not_ready (s.1, true)) in Done tt.

Example wait_tests_pass : Forall (λ t, t = Done tt)
  [notification_before_registration_is_covered_by_the_predicate; notification_between_check_and_park_is_not_lost;
   notification_wakes_a_parked_consumer; timeout_does_not_prevent_slot_reuse].
Proof. by repeat constructor. Qed.

End WaitTests.

(** ** src/src/scheduler/metrics.rs *)

Module MetricsTests.

Definition value_is (s : gmap string nat) (name : string) (n : nat) : outcome unit :=
  let! v := unwrap (s !! name) in assert_eq v n.

Definition snapshot_schema_matches_reported_metrics : outcome unit :=
  let collector := record_execution_time 1 (record_block_start 7 Collector_default) in
  let reported_names : gset string := list_to_set (metric_name <$> (report collector).*1) in
  let snapshot := snapshot collector in
  run! assert_eq reported_names (dom snapshot) in
  value_is snapshot "grevm.total_tx_cnt" 7.

Definition conflict_methods_update_total_and_exactly_one_cause : outcome unit :=
  let collector := record_version_conflict (record_evm_error_conflict
    (record_beneficiary_conflict (record_estimate_conflict Collector_default))) in
  let snapshot := snapshot collector in
  run! value_is snapshot "grevm.conflict_cnt" 4 in
  run! value_is snapshot "grevm.conflict_by_miner" 1 in
  run! value_is snapshot "grevm.conflict_by_estimate" 1 in
  run! value_is snapshot "grevm.conflict_by_error" 1 in
  value_is snapshot "grevm.conflict_by_version" 1.

Definition timing_methods_record_nanoseconds : outcome unit :=
  let collector := record_total_time 7 (record_execution_time 5 (record_commit_time 3 Collector_default)) in
  let snapshot := snapshot collector in
  run! value_is snapshot "grevm.commit_time" 3 in
  run! value_is snapshot "grevm.execution_time" 5 in
  value_is snapshot "grevm.total_time" 7.

Example schema_passes : snapshot_schema_matches_reported_metrics = Done tt.
Proof. by vm_compute. Qed.

Example conflict_methods_pass : conflict_methods_update_total_and_exactly_one_cause = Done tt.
Proof. by vm_compute. Qed.

Example timing_methods_pass : timing_methods_record_nanoseconds = Done tt.
Proof. by vm_compute. Qed.

End MetricsTests.
