(* ===== verification/TestsState.v ===== *)
(** The unit tests of src/src/incarnation_db.rs, src/src/parallel_state.rs, src/src/bundle.rs and
    src/src/scheduler/ordered_commit.rs. *)

From S2P Require Import Prelude Model Reward History World IncarnationDb ParallelState StateSplit CacheView Bundle OrderedCommit Testing TestsBeneficiary.

#[local] Existing Instance revm_example.
#[local] Existing Instance revmdb_example.

(** [Address::from([byte; 20])] and [B256::from([byte; 32])]. *)
Definition repeated (byte : Z) (n : nat) : Z := foldl (λ acc _, acc * 256 + byte)%Z 0%Z (seq 0 n).

(** revm's empty database: no accounts, and empty code and slots. *)
Inductive EmptyDB := empty_db.
#[export] Instance EmptyDB_ref : DatabaseRef EmptyDB Empty_set := {|
  basic_ref db _ := (Ok None, db);
  code_by_hash_ref db _ := (Ok [], db);
  storage_ref db _ _ := (Ok 0%Z, db);
  block_hash_ref db _ := (Ok 0%Z, db)
|}.

Definition ParallelState_of {DB} (db : DB) : ParallelState DB := ParallelState_new db true.

(** [ParallelState::insert_account] and [insert_account_with_storage]. *)
Definition ps_insert_account {DB} (a : Address) (i : AccountInfo) (s : ParallelState DB) : ParallelState DB :=
  set_cache (insert_account a i (cache s)) s.
Definition ps_insert_account_with_storage {DB} (a : Address) (i : AccountInfo) (slots : gmap U256 U256)
    (s : ParallelState DB) : ParallelState DB :=
  set_cache (insert_account_with_storage a i slots (cache s)) s.

(** ** src/src/incarnation_db.rs *)

Module IncarnationDbTests.

Definition address (last : Z) : Address := last.

Definition publish (memory : MVMemory) (location : LocationAndType) (t : TxId) (value : MemoryValue) : MVMemory :=
  <[location := <[t := mkMemoryEntry 1 value false]> (default ∅ (memory !! location))]> memory.

Definition raw_beneficiary_storage_resolution_does_not_require_reward_history : outcome unit :=
  let beneficiary := address 1 in
  let memory := publish ∅ (LStorage beneficiary 0) 0 (MVStorage 7) in
  let beneficiary_state := Beneficiary_new beneficiary None 2 in
  let db := begin_incarnation (mkTxVersion 1 1) IncarnationDb_new in
  let '(r, db, _) := storage memory beneficiary 0 db empty_db in
  let! value := unwrap_ok r in
  run! assert_eq value 7%Z in
  let '(accesses, db, memory) := finish_incarnation beneficiary_state ∅ db memory in
  run! assert_that (negb (is_blocked accesses)) in
  assert_that (negb (ia_blocked_by_beneficiary accesses)).

Definition beneficiary_changed_storage_is_published_without_a_basic_mv_write : outcome unit :=
  let beneficiary := address 1 in
  let info := mkInfo 0 1 0 None in
  let beneficiary_state := Beneficiary_new beneficiary (Some info) 1 in
  let db := begin_incarnation (mkTxVersion 0 1) IncarnationDb_new in
  let account := mkAccount true false false info {[0%Z := mkSlot 0 7]} in
  let changes : EvmState := {[beneficiary := account]} in
  let '(accesses, db, memory) := finish_incarnation beneficiary_state changes db ∅ in
  let storage := LStorage beneficiary 0 in
  run! assert_that (bool_decide (storage ∈ ia_write_set accesses)) in
  run! assert_that (negb (bool_decide (LBasic beneficiary ∈ ia_write_set accesses))) in
  let! writes := unwrap (memory !! storage) in
  assert_eq (data <$> writes !! 0) (Some (MVStorage 7)).

(** The memory of the next two tests: an estimate of transaction 0. *)
Definition estimated (account : Address) : MVMemory :=
  {[LBasic account := {[0 := mkMemoryEntry 1 (MVBasic (Some info_default)) true]}]}.

Definition finish_incarnation_derives_estimate_from_blockers : outcome unit :=
  let beneficiary := address 1 in
  let account := address 2 in
  let memory := estimated account in
  let beneficiary_state := Beneficiary_new beneficiary None 2 in
  let db := begin_incarnation (mkTxVersion 1 1) IncarnationDb_new in
  let! (r, db, _) := basic beneficiary_state memory account db empty_db in
  let! info := let! o := unwrap_ok r in unwrap o in
  let info := mkInfo 1 (nonce info) (code_hash info) (code info) in
  let changes : EvmState := {[account := mkAccount true false false info ∅]} in
  let '(accesses, db, memory) := finish_incarnation beneficiary_state changes db memory in
  run! assert_that (is_blocked accesses) in
  run! assert_that (bool_decide (0 ∈ ia_blocking_txs accesses)) in
  run! assert_that (bool_decide (LBasic account ∈ ia_write_set accesses)) in
  let! writes := unwrap (memory !! LBasic account) in
  let! entry := unwrap (writes !! 1) in
  assert_that (estimate entry).

Definition discard_incarnation_returns_dependencies_without_publishing_writes : outcome unit :=
  let beneficiary := address 1 in
  let account := address 2 in
  let memory := estimated account in
  let beneficiary_state := Beneficiary_new beneficiary None 2 in
  let db := begin_incarnation (mkTxVersion 1 1) IncarnationDb_new in
  let! (r, db, _) := basic beneficiary_state memory account db empty_db in
  run! unwrap_ok r in
  let '(accesses, db) := discard_incarnation db in
  run! assert_that (is_blocked accesses) in
  run! assert_eq (ia_read_set accesses) ∅ in
  run! assert_eq (ia_write_set accesses) ∅ in
  let! writes := unwrap (memory !! LBasic account) in
  run! assert_that (negb (bool_decide (is_Some (writes !! 1)))) in
  let db := begin_incarnation (mkTxVersion 1 2) db in
  let '(accesses, _, memory') := finish_incarnation beneficiary_state ∅ db memory in
  assert_eq memory' memory.

Definition raw_beneficiary_storage_uses_the_preloaded_base_view : outcome unit :=
  let beneficiary := address 1 in
  let state := ps_insert_account_with_storage beneficiary info_default {[0%Z := 9%Z]} (ParallelState_of empty_db) in
  let '(state_view, _) := split_for_parallel state in
  let '(anchor, state_view) := basic_ref state_view beneficiary in
  let! anchor := unwrap_ok anchor in
  let beneficiary_state := Beneficiary_new beneficiary anchor 1 in
  let db := begin_incarnation (mkTxVersion 0 1) IncarnationDb_new in
  let '(r, db, _) := storage ∅ beneficiary 0 db state_view in
  let! value := unwrap_ok r in
  run! assert_eq value 9%Z in
  let '(_, _, _) := finish_incarnation beneficiary_state ∅ db ∅ in Done tt.

Definition storage_reset_masks_older_slots_without_waiting_for_commit : outcome unit :=
  let beneficiary := address 1 in
  let account := address 2 in
  let memory := publish ∅ (LStorage account 0) 0 (MVStorage 7) in
  let memory := publish memory (LStorageReset account) 1 MVStorageReset in
  let beneficiary_state := Beneficiary_new beneficiary None 3 in
  let db := begin_incarnation (mkTxVersion 2 1) IncarnationDb_new in
  let '(r, db, _) := storage memory account 0 db empty_db in
  let! value := unwrap_ok r in
  run! assert_eq value 0%Z in
  let '(accesses, _, _) := finish_incarnation beneficiary_state ∅ db memory in
  assert_eq (ia_read_set accesses !! LStorageReset account) (Some (MvMemory (mkTxVersion 1 1))).

Definition same_transaction_created_storage_wins_over_its_reset_marker : outcome unit :=
  let beneficiary := address 1 in
  let account := address 2 in
  let memory := publish ∅ (LStorageReset account) 0 MVStorageReset in
  let memory := publish memory (LStorage account 0) 0 (MVStorage 9) in
  let beneficiary_state := Beneficiary_new beneficiary None 2 in
  let db := begin_incarnation (mkTxVersion 1 1) IncarnationDb_new in
  let '(r, db, _) := storage memory account 0 db empty_db in
  let! value := unwrap_ok r in
  run! assert_eq value 9%Z in
  let '(_, _, _) := finish_incarnation beneficiary_state ∅ db memory in Done tt.

Definition record_reward_for_test (v : TxVersion) (amount : U256) (b : BeneficiaryAccount) :
    outcome (bool * BeneficiaryAccount) :=
  let! r := RewardTests.deferred_for_test amount in
  let! (ok, h) := record_execution v (Some r) None (b_history b) in
  Done (ok, mkBeneficiary (b_address b) h).

Definition beneficiary_basic_folds_reward_history_from_immutable_anchor : outcome unit :=
  let beneficiary := address 1 in
  let beneficiary_state := Beneficiary_new beneficiary (Some (mkInfo 10 0 0 None)) 2 in
  let! (ok, beneficiary_state) := record_reward_for_test (mkTxVersion 0 1) 3 beneficiary_state in
  run! assert_that ok in
  let db := begin_incarnation (mkTxVersion 1 1) IncarnationDb_new in
  let! (r, db, _) := basic beneficiary_state ∅ beneficiary db empty_db in
  let! info := let! o := unwrap_ok r in unwrap o in
  run! assert_eq (balance info) 13%Z in
  let '(accesses, _, _) := finish_incarnation beneficiary_state ∅ db ∅ in
  assert_that (match ia_read_set accesses !! LBasic beneficiary with Some (RVBeneficiary _) => true | _ => false end).

Definition incarnation_db_tests : list (outcome unit) :=
  [raw_beneficiary_storage_resolution_does_not_require_reward_history;
   beneficiary_changed_storage_is_published_without_a_basic_mv_write;
   finish_incarnation_derives_estimate_from_blockers;
   discard_incarnation_returns_dependencies_without_publishing_writes;
   raw_beneficiary_storage_uses_the_preloaded_base_view;
   storage_reset_masks_older_slots_without_waiting_for_commit;
   same_transaction_created_storage_wins_over_its_reset_marker;
   beneficiary_basic_folds_reward_history_from_immutable_anchor].

Example incarnation_db_tests_pass : Forall (λ t, t = Done tt) incarnation_db_tests.
Proof. repeat constructor; by vm_compute. Qed.

End IncarnationDbTests.

(** ** src/src/parallel_state.rs *)

Module ParallelStateTests.

(** A database with the accounts and slots it was given. *)
Record CacheDB := mkCacheDB { cdb_accounts : gmap Address AccountInfo; cdb_storage : gmap (Address * U256) U256 }.
#[export] Instance CacheDB_ref : DatabaseRef CacheDB Empty_set := {|
  basic_ref db a := (Ok (cdb_accounts db !! a), db);
  code_by_hash_ref db _ := (Ok [], db);
  storage_ref db a k := (Ok (default 0%Z (cdb_storage db !! (a, k))), db);
  block_hash_ref db _ := (Ok 0%Z, db)
|}.

Definition storage_ref_reads_uncached_existing_account : outcome unit :=
  let address := 1%Z in
  let index := 2%Z in
  let expected := 3%Z in
  let database := mkCacheDB {[address := mkInfo 0 1 0 None]} {[(address, index) := expected]} in
  let state := ParallelState_new database false in
  let '(r, state) := db_storage state address index in
  let! value := unwrap_ok r in
  run! assert_eq value expected in
  run! assert_that (is_none (accounts (cache state) !! address)) in
  let! slots := unwrap (cstorage (cache state) !! address) in
  let! cached := unwrap (slots !! index) in
  assert_eq cached expected.

Definition storage_ref_reads_uncached_nonexistent_account : outcome unit :=
  let address := 1%Z in
  let state := ParallelState_new empty_db false in
  let '(r, state) := db_storage state address 0 in
  let! value := unwrap_ok r in
  run! assert_eq value 0%Z in
  assert_that (is_none (accounts (cache state) !! address)).

Example parallel_state_tests_pass : Forall (λ t, t = Done tt)
  [storage_ref_reads_uncached_existing_account; storage_ref_reads_uncached_nonexistent_account].
Proof. repeat constructor; by vm_compute. Qed.

End ParallelStateTests.

(** ** src/src/bundle.rs *)

Module BundleTests.
#[local] Existing Instance revmbundle_example.

Definition transitions (count : nat) : gmap Address TransitionAccount :=
  list_to_map ((λ i, (repeated (Z.of_nat i) 20,
    mkTransition (Some (mkInfo 0 (Z.of_nat i) 0 None)) InMemoryChange None LoadedNotExisting ∅ false)) <$> seq 0 count).

#[local] Instance test_transition_eq_dec : EqDecision TransitionAccount.
Proof. solve_decision. Defined.
#[local] Instance test_bundle_account_eq_dec : EqDecision BundleAccount := test_transition_eq_dec.
#[local] Instance test_revert_eq_dec : EqDecision AccountRevert := test_transition_eq_dec.
#[local] Instance test_bundle_eq_dec : EqDecision BundleState.
Proof. solve_decision. Defined.

Definition parallel_bundle_matches_revm_for_empty_bundle (include_reverts : bool) : outcome unit :=
  let retention := if include_reverts then Reverts else PlainState in
  let transitions := transitions 128 in
  let expected := apply_transitions_and_create_reverts transitions retention BundleState_default in
  let actual := parallel_apply_transitions_and_create_reverts transitions retention BundleState_default in
  assert_eq actual expected.

Definition existing_bundle_data_uses_revm_merge_semantics : outcome unit :=
  let existing := mkBundleState ∅ {[repeated 66 32 := [0%Z]]} [] 0 0 in
  let transitions := transitions 32 in
  let expected := apply_transitions_and_create_reverts transitions Reverts existing in
  let actual := parallel_apply_transitions_and_create_reverts transitions Reverts existing in
  assert_eq actual expected.

Example bundle_tests_pass : Forall (λ t, t = Done tt)
  [parallel_bundle_matches_revm_for_empty_bundle false; parallel_bundle_matches_revm_for_empty_bundle true;
   existing_bundle_data_uses_revm_merge_semantics].
Proof. repeat constructor; by vm_compute. Qed.

End BundleTests.

(** ** src/src/scheduler/ordered_commit.rs *)

Module OrderedCommitTests.

Inductive TestDbError := test_db_error.
Inductive FailingDb := failing_db.
#[export] Instance FailingDb_ref : DatabaseRef FailingDb TestDbError := {|
  basic_ref db _ := (Err test_db_error, db);
  code_by_hash_ref db _ := (Err test_db_error, db);
  storage_ref db _ _ := (Err test_db_error, db);
  block_hash_ref db _ := (Err test_db_error, db)
|}.

Definition make_account_info (nonce : Z) : AccountInfo := mkInfo (10 ^ 18) nonce 0 None.
Definition make_account (info : AccountInfo) : Account := mkAccount true false false info ∅.

(** The result of a call that stopped after 21000 gas; the model does not look inside. *)
Definition stopped : ExecutionResult := 21000%Z.

Definition make_state (caller : Address) (post_nonce : Z) : EvmState :=
  {[caller := make_account (make_account_info post_nonce)]}.
Definition make_speculative_result (caller : Address) (post_nonce : Z) : SpeculativeResult :=
  settled stopped (make_state caller post_nonce).

Definition tx_env (caller : Address) (nonce : Z) : TxEnv := mkTxEnv caller nonce 0 (Call 0) 0 0.
Definition tx_env_default : TxEnv := tx_env 0 0.

(** [OrderedCommitter::new] over the commit half of the state, and [OrderedCommitOutput::default]. *)
Definition OrderedCommitter_new {DB} (beneficiary : Address) (state : ParallelState DB) (disable_nonce_check : bool) :=
  mkCommitter beneficiary state disable_nonce_check.
Definition output_default : OrderedCommitOutput := mkOutput [].

Definition committed_to (expected : nat) (o : OrderedCommitOutput) : outcome unit :=
  assert_eq (prefix_index (output_end o)) expected.

Definition nonce_of_account {DB E} `{!DatabaseRef DB E} (s : ParallelState DB) (a : Address) : outcome Z :=
  let! r := unwrap_ok (db_basic s a).1 in let! i := unwrap r in Done (nonce i).
Definition balance_of_account {DB E} `{!DatabaseRef DB E} (s : ParallelState DB) (a : Address) : outcome Z :=
  let! r := unwrap_ok (db_basic s a).1 in let! i := unwrap r in Done (balance i).

(** The authorization list of the tests is not read by ordered commit. *)
Definition run_commit (state : ParallelState EmptyDB) (tx : TxEnv) (post_nonce : Z) : outcome unit :=
  let commit := OrderedCommitter_new 0 state false in
  let! (r, output, commit) := ordered_commit 0 tx (make_speculative_result (caller tx) post_nonce) output_default commit in
  let! r := unwrap_ok r in
  run! assert_that (match r with Committed _ => true | NeedsSequentialFallback => false end) in
  run! committed_to 1 output in
  let! n := nonce_of_account (oc_state commit) (caller tx) in
  assert_eq n post_nonce.

Definition commit_deferred_reward (state : ParallelState EmptyDB) (beneficiary : Address) (reward : U256) (t : TxId) :
    outcome (ParallelState EmptyDB) :=
  let commit := OrderedCommitter_new beneficiary state true in
  let! reward := RewardTests.deferred_for_test reward in
  let! (r, _, commit) := ordered_commit t tx_env_default (deferred stopped ∅ reward) output_default commit in
  run! unwrap_ok r in Done (oc_state commit).

Definition commit_applies_single_eip7702_authority_nonce_bump : outcome unit :=
  let caller := repeated 202 20 in
  let pre_nonce := 15%Z in
  let state := ps_insert_account caller (make_account_info pre_nonce) (ParallelState_of empty_db) in
  run_commit state (tx_env caller pre_nonce) (pre_nonce + 2).

Definition commit_applies_multiple_eip7702_authority_nonce_bumps : outcome unit :=
  let caller := repeated 203 20 in
  let pre_nonce := 7%Z in
  let state := ps_insert_account caller (make_account_info pre_nonce) (ParallelState_of empty_db) in
  run_commit state (tx_env caller pre_nonce) (pre_nonce + 3).

Definition commit_applies_post_state_when_eip7702_authorization_is_skipped : outcome unit :=
  let caller := repeated 206 20 in
  let pre_nonce := 42%Z in
  let state := ps_insert_account caller (make_account_info pre_nonce) (ParallelState_of empty_db) in
  run_commit state (tx_env caller pre_nonce) (pre_nonce + 1).

Definition commit_applies_deferred_reward_without_double_crediting_immediate_state : outcome unit :=
  let beneficiary := 187%Z in
  let! state := commit_deferred_reward (ParallelState_of empty_db) beneficiary 7 0 in
  let! b := balance_of_account state beneficiary in
  run! assert_eq b 7%Z in
  let commit := OrderedCommitter_new beneficiary state true in
  let changes : EvmState := {[beneficiary := make_account (mkInfo 18 0 0 None)]} in
  let! (r, _, commit) := ordered_commit 1 tx_env_default (settled stopped changes) output_default commit in
  run! unwrap_ok r in
  let! b := balance_of_account (oc_state commit) beneficiary in
  assert_eq b 18%Z.

Definition commit_rejects_deferred_reward_with_beneficiary_state_write : outcome unit :=
  let beneficiary := 187%Z in
  let commit := OrderedCommitter_new beneficiary (ParallelState_of empty_db) true in
  let changes : EvmState := {[beneficiary := mkAccount false false false info_default ∅]} in
  let! reward := RewardTests.deferred_for_test 1 in
  run! ordered_commit 0 tx_env_default (deferred stopped changes reward) output_default commit in Done tt.

Definition deferred_reward_preserves_account_fields_and_checked_add_overflow : outcome unit :=
  let beneficiary := 188%Z in
  let hash := repeated 17 32 in
  let state := ps_insert_account beneficiary (mkInfo (U256_MAX - 1) 7 hash None) (ParallelState_of empty_db) in
  let! state := commit_deferred_reward state beneficiary 1 0 in
  let! state := commit_deferred_reward state beneficiary 1 1 in
  let! info := let! r := unwrap_ok (db_basic state beneficiary).1 in unwrap r in
  run! assert_eq (balance info) U256_MAX in
  run! assert_eq (nonce info) 7%Z in
  assert_eq (code_hash info) hash.

Definition is_database_error (t : TxId) (e : GrevmError TestDbError) : outcome unit :=
  run! assert_eq (ge_txid e) t in
  assert_that (match error e with Database test_db_error => true | _ => false end).

Definition deferred_reward_database_error_is_returned_before_commit : outcome unit :=
  let beneficiary := repeated 203 20 in
  let sentinel := repeated 204 20 in
  let state := ps_insert_account sentinel (make_account_info 0) (ParallelState_of failing_db) in
  let commit := OrderedCommitter_new beneficiary state true in
  let! reward := RewardTests.deferred_for_test 1 in
  let! (r, output, commit) := ordered_commit 7 tx_env_default (deferred stopped (make_state sentinel 1) reward) output_default commit in
  let! error := unwrap_err r in
  run! committed_to 0 output in
  run! is_database_error 7 error in
  let! n := nonce_of_account (oc_state commit) sentinel in
  assert_eq n 0%Z.

Definition nonce_database_error_is_returned_with_txid : outcome unit :=
  let caller := repeated 204 20 in
  let commit := OrderedCommitter_new 0 (ParallelState_of failing_db) false in
  let! (r, output, commit) := ordered_commit 11 (tx_env caller 0) (make_speculative_result caller 1) output_default commit in
  let! error := unwrap_err r in
  is_database_error 11 error.

Definition nonce_mismatch_is_left_uncommitted_for_sequential_revalidation : outcome unit :=
  let caller := repeated 204 20 in
  let commit := OrderedCommitter_new 0 (ParallelState_of empty_db) false in
  let! (r, output, commit) := ordered_commit 0 (tx_env caller 1) (make_speculative_result caller 1) output_default commit in
  let! r := unwrap_ok r in
  run! assert_that (match r with NeedsSequentialFallback => true | _ => false end) in
  committed_to 0 output.

Definition max_nonce_requests_sequential_fallback : outcome unit :=
  let caller := repeated 205 20 in
  let state := ps_insert_account caller (make_account_info U64_MAX) (ParallelState_of empty_db) in
  let commit := OrderedCommitter_new 0 state false in
  let! (r, output, commit) := ordered_commit 9 (tx_env caller U64_MAX) (make_speculative_result caller U64_MAX) output_default commit in
  let! r := unwrap_ok r in
  run! assert_that (match r with NeedsSequentialFallback => true | _ => false end) in
  committed_to 0 output.

Definition ordered_output_tracks_a_contiguous_committed_prefix : outcome unit :=
  let output := output_default in
  run! committed_to 0 output in
  let '(committed, output) := push stopped output in
  run! assert_eq (prefix_index committed) 1 in
  assert_eq (length (outcomes output)) 1.

Definition ordered_commit_tests : list (outcome unit) :=
  [commit_applies_single_eip7702_authority_nonce_bump;
   commit_applies_multiple_eip7702_authority_nonce_bumps;
   commit_applies_post_state_when_eip7702_authorization_is_skipped;
   commit_applies_deferred_reward_without_double_crediting_immediate_state;
   deferred_reward_preserves_account_fields_and_checked_add_overflow;
   deferred_reward_database_error_is_returned_before_commit;
   nonce_database_error_is_returned_with_txid;
   nonce_mismatch_is_left_uncommitted_for_sequential_revalidation;
   max_nonce_requests_sequential_fallback;
   ordered_output_tracks_a_contiguous_committed_prefix].

Example ordered_commit_tests_pass : Forall (λ t, t = Done tt) ordered_commit_tests.
Proof. repeat constructor; by vm_compute. Qed.

Example commit_rejects_deferred_reward_panics :
  panics commit_rejects_deferred_reward_with_beneficiary_state_write = true.
Proof. by vm_compute. Qed.

End OrderedCommitTests.
