(* ===== verification/TestsSafety.v ===== *)
(** The unit tests of src/src/delegated_safety/reserve.rs, src/src/delegated_safety/config.rs,
    src/src/config.rs and src/src/precompile.rs. *)

From S2P Require Import Prelude Model Reserve Precompile Executor Text Testing.

(** ** src/src/delegated_safety/reserve.rs *)

Module ReserveTests.

(** revm computes the gas part of the maximum cost in 128 bits. *)
#[local] Instance revm_u128_costs : Revm := {|
  ExecutionResult := Z;
  InvalidTransaction := Z;
  NonceOverflowInTransaction := 7%Z;
  info_default := mkInfo 0 0 0 None;
  is_empty_code_hash i := bool_decide (code_hash i = 0%Z);
  info_is_empty i :=
    bool_decide (code_hash i = 0%Z) && bool_decide (balance i = 0%Z) && bool_decide (nonce i = 0%Z);
  has_no_code_and_nonce i := bool_decide (code_hash i = 0%Z) && bool_decide (nonce i = 0%Z);
  is_eip7702 c := bool_decide (take 3 c = [239; 1; 0]%Z);
  max_balance_spending t :=
    let gas := (gas_limit t * gas_price t)%Z in
    if decide (gas ≤ U128_MAX)%Z then checked_add U256_MAX gas (tx_value t) else None;
  effective_gas_price t _ := gas_price t
|}.

Definition tx (caller : Address) (value gas_limit gas_price : Z) : TxEnv := mkTxEnv caller 0 value (Call 0) gas_limit gas_price.

Definition is_initialized (p : ReservePlanner) : bool := is_some (rp_index p).
Definition initialized_accounts (p : ReservePlanner) : nat := size (rp_schedules p).

(** [assert_eq!(planner.required_after(...), ...)]. *)
Definition requires (t : TxId) (a : Address) (expected : U256) (p : ReservePlanner) : outcome ReservePlanner :=
  let! (r, p) := required_after t a p in run! assert_eq r expected in Done p.

Definition planner_is_lazy_and_builds_only_queried_accounts : outcome unit :=
  let a := 170%Z in
  let b := 187%Z in
  let planner := ReservePlanner_new [tx a 0 10 2; tx b 0 20 3; tx a 0 30 4] in
  run! assert_that (negb (is_initialized planner)) in
  let! planner := requires 0 a 120 planner in
  run! assert_that (is_initialized planner) in
  run! assert_eq (initialized_accounts planner) 1 in
  let! planner := requires 0 b 60 planner in
  assert_eq (initialized_accounts planner) 2.

Definition suffix_accumulates_every_future_maximum_cost : outcome unit :=
  let caller := 170%Z in
  let planner := ReservePlanner_new [tx caller 100 10 20; tx caller 7 5 20] in
  let! planner := requires 0 caller 107 planner in
  let! schedule := unwrap (rp_schedules planner !! caller) in
  let! schedule := unwrap schedule in
  let! cost := index (cost_from schedule) 0 in
  assert_eq cost 407%Z.

Definition queries_use_logical_txid_not_first_query_order : outcome unit :=
  let caller := 170%Z in
  let planner := ReservePlanner_new (replicate 9 (tx caller 0 1 1)) in
  let! planner := requires 7 caller 1 planner in
  let! planner := requires 2 caller 6 planner in
  run! requires 8 caller 0 planner in Done tt.

Definition planner_saturates_malformed_or_oversized_suffixes : outcome unit :=
  let caller := 170%Z in
  let planner := ReservePlanner_new [tx 0 0 1 1; tx caller 0 U64_MAX U128_MAX; tx caller 0 1 1] in
  run! requires 0 caller U256_MAX planner in Done tt.

(** An account with a balance, and a delegated one. *)
Definition ordinary_account (balance : U256) : Account := mkAccount false false false (mkInfo balance 0 0 None) ∅.
Definition delegated_account (balance : U256) : Account :=
  mkAccount false false false (mkInfo balance 0 1 (Some [239; 1; 0]%Z)) ∅.

#[local] Instance DelegatedDebit_eq_dec : EqDecision DelegatedDebit.
Proof. solve_decision. Defined.

Definition tx_default : TxEnv := tx 0 0 0 0.

(** The state is the one at the end of the entries. *)
Definition journal_selects_only_delegated_debits_and_excludes_root_value : outcome unit :=
  let delegated := 170%Z in
  let ordinary := 187%Z in
  let receiver := 204%Z in
  let state : EvmState :=
    <[delegated := delegated_account 60]> (<[ordinary := ordinary_account 90]> {[receiver := ordinary_account 50]}) in
  let entries := [BalanceTransfer delegated ordinary 10; BalanceTransfer ordinary receiver 20;
                  BalanceTransfer delegated receiver 30] in
  let root_tx := mkTxEnv delegated 0 10 (Call ordinary) 0 0 in
  assert_eq (delegated_debits_since state entries 0 root_tx) [mkDebit delegated 90 60].

Definition selfdestruct_and_later_credit_restore_the_pre_debit_balance : outcome unit :=
  let delegated := 170%Z in
  let receiver := 187%Z in
  let state : EvmState := <[delegated := delegated_account 2]> {[receiver := ordinary_account 3]} in
  let entries := [AccountDestroyed delegated receiver 5; BalanceTransfer receiver delegated 2] in
  assert_eq (delegated_debits_since state entries 0 tx_default) [mkDebit delegated 5 2].

Definition credit_before_first_debit_is_included_in_the_protected_balance : outcome unit :=
  let delegated := 170%Z in
  let funder := 187%Z in
  let receiver := 204%Z in
  let state : EvmState :=
    <[delegated := delegated_account 100]> (<[funder := ordinary_account 0]> {[receiver := ordinary_account 0]}) in
  let entries := [BalanceTransfer funder delegated 1000; BalanceTransfer delegated receiver 1000] in
  assert_eq (delegated_debits_since state entries 0 tx_default) [mkDebit delegated 1100 100].

(** A journal with its state: a transfer appends its entry, and the revert of a checkpoint drops
    the entries after it and restores the balances. *)
Definition reverted_native_entries_need_no_second_undo_stack : outcome unit :=
  let delegated := 170%Z in
  let receiver := 187%Z in
  let state : EvmState := <[delegated := delegated_account 1]> {[receiver := ordinary_account 0]} in
  let entries : list JournalEntry := [] in
  let execution := length entries in
  let inner := length entries in
  let transferred := entries ++ [BalanceTransfer delegated receiver 1] in
  let reverted := take inner transferred in
  assert_eq (delegated_debits_since state reverted execution tx_default) [].

Definition reserve_tests : list (outcome unit) :=
  [planner_is_lazy_and_builds_only_queried_accounts; suffix_accumulates_every_future_maximum_cost;
   queries_use_logical_txid_not_first_query_order; planner_saturates_malformed_or_oversized_suffixes;
   journal_selects_only_delegated_debits_and_excludes_root_value;
   selfdestruct_and_later_credit_restore_the_pre_debit_balance;
   credit_before_first_debit_is_included_in_the_protected_balance;
   reverted_native_entries_need_no_second_undo_stack].

Example reserve_tests_pass : Forall (λ t, t = Done tt) reserve_tests.
Proof. repeat constructor; by vm_compute. Qed.

End ReserveTests.

(** ** src/src/config.rs and src/src/delegated_safety/config.rs *)

Module ConfigTests.

Definition default_configuration_is_safe_and_bounded (available_parallelism : option nat) : outcome unit :=
  let config := GrevmConfig_default available_parallelism in
  run! assert_that (0 <? cfg_concurrency_level config) in
  run! assert_eq (cfg_min_parallel_txs config) 64 in
  run! assert_that (negb (cfg_force_sequential config)) in
  run! assert_that (negb (forbid_delegated_create (cfg_delegated_safety config))) in
  assert_that (negb (reserve_delegated_balance (cfg_delegated_safety config))).

Definition delegated_policy_builder_preserves_scheduler_settings : outcome unit :=
  let config := with_delegated_safety enabled (mkConfig 3 true 7 disabled) in
  run! assert_eq (cfg_concurrency_level config) 3 in
  run! assert_that (cfg_force_sequential config) in
  run! assert_eq (cfg_min_parallel_txs config) 7 in
  run! assert_that (forbid_delegated_create (cfg_delegated_safety config)) in
  assert_that (reserve_delegated_balance (cfg_delegated_safety config)).

#[export] Instance DelegatedSafetyConfig_eq_dec : EqDecision DelegatedSafetyConfig.
Proof. solve_decision. Defined.

(** The forks of the test, by whether Prague is active in them. *)
Definition delegated_safety_is_inert_before_eip7702_activation : outcome unit :=
  let cancun := false in
  let prague := true in
  let amsterdam := true in
  run! assert_eq (for_spec cancun enabled) disabled in
  run! assert_eq (for_spec prague enabled) enabled in
  assert_eq (for_spec amsterdam reserve_only) reserve_only.

Example config_tests_pass : Forall (λ t, t = Done tt)
  [default_configuration_is_safe_and_bounded None; default_configuration_is_safe_and_bounded (Some 4);
   delegated_policy_builder_preserves_scheduler_settings; delegated_safety_is_inert_before_eip7702_activation].
Proof. repeat constructor; by vm_compute. Qed.

End ConfigTests.

(** ** src/src/precompile.rs *)

Module PrecompileTests.

(** A journal over an empty or a failing database: balances, slots and warm accounts. *)
Record TestJournal := mkJournal {
  tj_failing : bool;
  tj_balances : gmap Address U256;
  tj_slots : gmap (Address * U256) U256;
  tj_warm : gset Address
}.
Definition journal_new (failing : bool) : TestJournal := mkJournal failing ∅ ∅ ∅.

Definition journal_load (a : Address) (j : TestJournal) : result string (StateLoad unit) * TestJournal :=
  if tj_failing j then (Err "injected database failure", j)
  else (Ok (mkStateLoad tt (negb (bool_decide (a ∈ tj_warm j)))),
        mkJournal false (tj_balances j) (tj_slots j) ({[a]} ∪ tj_warm j)).

#[local] Instance TestJournal_internals : EvmInternals TestJournal string := {|
  SStoreResult := unit;
  load_account a j :=
    let '(r, j) := journal_load a j in
    (result_map (state_load_map (λ _, mkAccount false false false (mkInfo (default 0%Z (tj_balances j !! a)) 0 0 None) ∅)) r, j);
  internals_sload a k j :=
    let '(r, j) := journal_load a j in
    (result_map (state_load_map (λ _, default 0%Z (tj_slots j !! (a, k)))) r, j);
  load_account_set_balance a b j :=
    let '(r, j) := journal_load a j in
    (r, if is_ok r then mkJournal (tj_failing j) (<[a := b]> (tj_balances j)) (tj_slots j) (tj_warm j) else j);
  internals_sstore a k v j :=
    let '(r, j) := journal_load a j in
    (r, if is_ok r then mkJournal (tj_failing j) (tj_balances j) (<[(a, k) := v]> (tj_slots j)) (tj_warm j) else j);
  error_to_string e := e
|}.

Record PrecompileOutput := mkPrecompileOutput { po_gas_used : Z; po_bytes : list Z; po_reservoir : Z }.

Abbreviation DynParallelPrecompile :=
  (Precompile.DynParallelPrecompile (I:=TestJournal) (Output:=PrecompileOutput) (PrecompileId:=string)).
Abbreviation Program := (Precompile.Program (I:=TestJournal) (Output:=PrecompileOutput)).

Definition ADDRESS : Address := 66%Z.
Definition PRECOMPILE : Address := 254%Z.
Definition input_bytes : list Z := [105; 110; 112; 117; 116]%Z.

Definition call (j : TestJournal) (precompile : DynParallelPrecompile) (is_static : bool) :=
  alloy_call (to_alloy precompile)
    (mkAlloyInput input_bytes 100000 7 1 2 PRECOMPILE is_static PRECOMPILE j).

(** [call(...).unwrap()] of a call that succeeded or halted. *)
Definition output_of (r : AdapterResult (Output:=PrecompileOutput)) : outcome PrecompileOutput :=
  match r with AdapterOutput o => Done o | _ => Panic end.

(** The [?] operator inside an implementation. *)
Definition try_ {T} (k : T → Program) (r : result ParallelPrecompileError T) : Program :=
  match r with Ok v => k v | Err e => Return (Err e) end.

Definition expected_view (i : InputView) : bool :=
  bool_decide (v_data i = input_bytes) && bool_decide (v_gas i = 100000%Z) && bool_decide (v_reservoir i = 7%Z) &&
  bool_decide (v_caller i = 1%Z) && bool_decide (v_value i = 2%Z) && bool_decide (v_target_address i = PRECOMPILE) &&
  bool_decide (v_bytecode_address i = PRECOMPILE) && v_is_direct_call i && negb (v_is_static i).

(** A failed assertion of the closure ends in an error, which the test does not expect. *)
Definition adapter_forwards_metadata_and_disables_caching : outcome unit :=
  let precompile : DynParallelPrecompile := dyn_new "metadata" (λ input,
    if expected_view input then Return (Ok (mkPrecompileOutput 3 [] (v_reservoir input)))
    else Return (Err (Fatal (FatalError "assertion")))) in
  run! assert_that (negb (supports_caching (to_alloy precompile))) in
  let! output := output_of (call (journal_new false) precompile false).1 in
  run! assert_eq (po_gas_used output) 3%Z in
  assert_eq (po_reservoir output) 7%Z.

Record ConcretePrecompile := mkConcrete { concrete_id : string }.
#[local] Instance concrete_precompile : ParallelPrecompile (I:=TestJournal) (Output:=PrecompileOutput) ConcretePrecompile := {|
  precompile_id := concrete_id;
  precompile_call _ input := Return (Ok (mkPrecompileOutput 1 [99; 111; 110; 99; 114; 101; 116; 101]%Z (v_reservoir input)))
|}.

Definition concrete_trait_implementation_can_be_registered : outcome unit :=
  let precompile : DynParallelPrecompile := from_precompile (mkConcrete "concrete") in
  let! output := output_of (call (journal_new false) precompile false).1 in
  run! assert_eq (po_gas_used output) 1%Z in
  assert_eq (po_bytes output) [99; 111; 110; 99; 114; 101; 116; 101]%Z.

(** [word]: the value; its encoding in 32 bytes is not looked at. *)
Definition state_read_observes_an_earlier_journal_write : outcome unit :=
  let key := 3%Z in
  let value := 9%Z in
  let '(_, j) := load_account ADDRESS (journal_new false) in
  let '(_, j) := internals_sstore ADDRESS key value j in
  let precompile : DynParallelPrecompile := dyn_new "sload" (λ input,
    Sload ADDRESS key (try_ (λ loaded, Return (Ok (mkPrecompileOutput 0 [sl_data loaded] (v_reservoir input)))))) in
  let! output := output_of (call j precompile false).1 in
  assert_eq (po_bytes output) [value].

Definition slot_of (j : TestJournal) (key : U256) : outcome U256 :=
  let! l := unwrap_ok (internals_sload ADDRESS key j).1 in Done (sl_data l).

Definition ignored_static_mutation_is_forced_to_halt_without_writing : outcome unit :=
  let key := 4%Z in
  let precompile : DynParallelPrecompile := dyn_new "static-write" (λ input,
    Sstore ADDRESS key 11 (λ _, Return (Ok (mkPrecompileOutput 0 [] (v_reservoir input))))) in
  let '(_, j) := load_account ADDRESS (journal_new false) in
  let '(r, j) := call j precompile true in
  run! assert_that (match r with AdapterHalt _ _ => true | _ => false end) in
  let! v := slot_of j key in
  assert_eq v 0%Z.

(** The revert of the checkpoint restores the journal it was taken of. *)
Definition state_write_follows_enclosing_journal_checkpoint_revert : outcome unit :=
  let key := 5%Z in
  let value := 13%Z in
  let precompile : DynParallelPrecompile := dyn_new "sstore" (λ input,
    Sstore ADDRESS key value (try_ (λ _, Return (Ok (mkPrecompileOutput 0 [] (v_reservoir input)))))) in
  let checkpoint := journal_new false in
  let '(r, j) := call checkpoint precompile false in
  run! output_of r in
  let! v := slot_of j key in
  run! assert_eq v value in
  let! v := slot_of checkpoint key in
  assert_eq v 0%Z.

Definition set_balance_reports_cold_then_warm_without_exposing_the_account : outcome unit :=
  let precompile : DynParallelPrecompile := dyn_new "set-balance-access-status" (λ input,
    SetBalance ADDRESS 1 (try_ (λ first, SetBalance ADDRESS 2 (try_ (λ second,
      Return (Ok (mkPrecompileOutput 0 [Z.b2z (is_cold first); Z.b2z (is_cold second)] (v_reservoir input)))))))) in
  let '(r, j) := call (journal_new false) precompile false in
  let! output := output_of r in
  run! assert_eq (po_bytes output) [1; 0]%Z in
  let! account := unwrap_ok (load_account ADDRESS j).1 in
  assert_eq (balance (acc_info (sl_data account))) 2%Z.

Definition ignored_database_fault_is_forced_to_be_fatal : outcome unit :=
  let precompile : DynParallelPrecompile := dyn_new "ignored-database-error" (λ input,
    Balance ADDRESS (λ _, Return (Ok (mkPrecompileOutput 0 [] (v_reservoir input))))) in
  match (call (journal_new true) precompile false).1 with
  | AdapterFatal (FatalError message) => assert_that (contains message "injected database failure")
  | _ => Panic
  end.

Definition precompile_tests : list (outcome unit) :=
  [adapter_forwards_metadata_and_disables_caching; concrete_trait_implementation_can_be_registered;
   state_read_observes_an_earlier_journal_write; ignored_static_mutation_is_forced_to_halt_without_writing;
   state_write_follows_enclosing_journal_checkpoint_revert;
   set_balance_reports_cold_then_warm_without_exposing_the_account; ignored_database_fault_is_forced_to_be_fatal].

Example precompile_tests_pass : Forall (λ t, t = Done tt) precompile_tests.
Proof. repeat constructor; by vm_compute. Qed.

End PrecompileTests.
