(* ===== verification/TestsRun.v ===== *)
(** The unit tests of src/src/scheduler/tests.rs, src/src/scheduler/executor.rs and
    src/src/scheduler/fallback.rs.

    The tests that run threads against a live interpreter (a worker panic, the coordinated
    precompiles) have no counterpart here; where a test executes a transaction, revm's run of it
    is an argument of the test. *)

From S2P Require Import Prelude Model Reward History World IncarnationDb ParallelState CacheView TxDependency Context Metrics Scheduler OrderedCommit Control Reserve Executor Handler Precompile BuildEvm Testing TestsBeneficiary TestsState TestsSafety.

#[local] Existing Instance revm_example.
#[local] Existing Instance revmdb_example.

(** ** The commit loop by itself *)

Section commit_loop.
Context {DB E : Type} `{!DatabaseRef DB E}.
Abbreviation LoopState := (Scheduler.Sched E * OrderedCommitter (DB:=DB) * OrderedCommitOutput)%type (only parsing).

(** [run_commit_loop] while no other thread moves: every round commits up to the finality cursor
    or waits, and a wait that nobody ends times out. [None] when the rounds run out: the loop is
    still waiting for the finality loop. *)
Fixpoint commit_rounds (rounds : nat) (commit_idx : nat) (st : LoopState) :
    outcome (option (CommitLoopResult (E:=E)) * LoopState) :=
  let '(s, c, output) := st in
  if abort_flag s || bool_decide (block_size s ≤ commit_idx) then
    Done (Some (mkCommitLoopResult output None), st)
  else
    match rounds with
    | 0 => Done (None, st)
    | S rounds =>
      if decide (commit_idx < finality (scheduler_ctx s)) then
        let! (step, st) := commit_iteration 0 commit_idx st in
        match step with
        | CommitNext commit_idx => commit_rounds rounds commit_idx st
        | CommitReturn error => Done (Some (mkCommitLoopResult st.2 error), st)
        end
      else commit_rounds rounds commit_idx st
    end.

Definition register_commit (s : Scheduler.Sched E) : outcome (Scheduler.Sched E) :=
  let! w := register_current_thread (commit_wait s) in
  Done (mkSched (block_size s) (txs s) (tx_states s) (tx_results s) (tx_dependency s) (mv_memory s)
    (scheduler_ctx s) (beneficiary s) (abort_flag s) (abort_reason s) (finality_wait s) w (metrics s)).

Definition run_commit_loop (rounds : nat) (c : OrderedCommitter (DB:=DB)) (s : Scheduler.Sched E) :
    outcome (option (CommitLoopResult (E:=E)) * LoopState) :=
  let! s := register_commit s in
  commit_rounds rounds 0 (s, c, mkOutput []).

(** A block that is final when the loop starts needs one round per transaction: within
    [block_size] rounds the loop has returned. *)
Lemma commit_rounds_returns rounds i s c output res st' :
  block_size s ≤ finality (scheduler_ctx s) → block_size s ≤ i + rounds → length (outcomes output) = i →
  commit_rounds rounds i (s, c, output) = Done (res, st') → is_Some res.
Proof.
  revert i s c output. induction rounds as [|n IH]; intros i s c output Hf Hn Hl; simpl.
  { case_bool_decide; [|lia]. rewrite orb_true_r. intros [= <- _]. by eexists. }
  destruct (abort_flag s); simpl.
  { intros [= <- _]. by eexists. }
  case_bool_decide; simpl.
  { intros [= <- _]. by eexists. }
  rewrite decide_True by lia. intros ([step [[s1 c1] o1]] & Hit & Hrest)%outcome_bind_Done.
  destruct step as [j|e]; [|injection Hrest as <- _; by eexists].
  assert (block_size s1 = block_size s ∧ finality (scheduler_ctx s1) = finality (scheduler_ctx s) ∧
    j = S i ∧ length (outcomes o1) = S i) as (? & ? & -> & ?).
  { unfold commit_iteration in Hit. destruct (tx_results s !! i) as [r|] eqn:Hr.
    2: { unfold take_result, index in Hit. by rewrite Hr in Hit. }
    unfold take_result, index in Hit. rewrite Hr in Hit. simpl in Hit. destruct r as [r|]; [|done].
    destruct (execute_result r) as [sr|]; [|done].
    apply outcome_bind_Done in Hit as (tx & _ & Hit). apply outcome_bind_Done in Hit as ([[r' o'] c'] & Hoc & Hit).
    destruct r' as [[p|]|]; [|done|done]. apply outcome_bind_Done in Hit as (d & _ & [= <- <- _ <-]). simpl.
    unfold ordered_commit in Hoc. destruct (check_nonce tx c) as [[] c2]; try done.
    apply outcome_bind_Done in Hoc as ([[state|] c3] & _ & Hoc); [|done].
    apply outcome_bind_Done in Hoc as (x & _ & Hoc). injection Hoc as <- <- _. simpl.
    rewrite length_app, Hl. simpl. split_and!; (done || lia). }
  eapply IH; [| |done|exact Hrest]; lia.
Qed.

End commit_loop.

(** ** src/src/scheduler/tests.rs *)

Module SchedulerTests.
Import OrderedCommitTests ConfigTests.

Inductive CommitDbError := commit_db_error.
Record CommitFailDb := mkCommitFailDb { cfd_beneficiary : Address }.
#[export] Instance CommitFailDb_ref : DatabaseRef CommitFailDb CommitDbError := {|
  basic_ref db a := (if decide (a = cfd_beneficiary db) then Ok None else Err commit_db_error, db);
  code_by_hash_ref db _ := (Err commit_db_error, db);
  storage_ref db _ _ := (Err commit_db_error, db);
  block_hash_ref db _ := (Err commit_db_error, db)
|}.

(** [Scheduler::new] without environment variables: the default configuration, on one core. *)
Definition scheduler_of {DB E} (beneficiary : Address) (txs : list TxEnv) (state : ParallelState DB) :
    outcome (Runner (DB:=DB) (E:=E)) :=
  let! (config, _) := new_with_runtime_config false txs (from_env (λ _, None) (Some 1)) in
  Done (mkRunner (Sched_new txs beneficiary None) state [] false false
    (cfg_force_sequential config) (cfg_min_parallel_txs config) (cfg_concurrency_level config)).

Definition empty_scheduler (num_txs : nat) : outcome (Runner (DB:=EmptyDB) (E:=Empty_set)) :=
  scheduler_of 0 (replicate num_txs tx_env_default) (ParallelState_of empty_db).

Definition scheduler_activates_delegated_safety_only_from_prague : outcome unit :=
  let make_scheduler is_prague :=
    new_with_runtime_config is_prague [] (with_delegated_safety enabled (GrevmConfig_default (Some 1))) in
  let! (config, planner) := make_scheduler false in
  run! assert_eq (cfg_delegated_safety config) disabled in
  run! assert_that (is_none planner) in
  let! (config, planner) := make_scheduler true in
  run! assert_eq (cfg_delegated_safety config) enabled in
  assert_that (is_some planner).

(** [EVMError::Custom] with the message of [run_once]. *)
Definition rejected_as_second {E} (e : GrevmError E) : outcome unit :=
  match error e with Custom message => assert_that (bool_decide (message = run_once_message)) | _ => Panic end.

Section lifecycle.
Context (transact_one : TxId → TxEnv → ParallelState EmptyDB →
  result (EVMError Empty_set) ExecutionResult * EvmState * ParallelState EmptyDB).
Context (parallel_phase : Address → Scheduler.Sched Empty_set → ParallelState EmptyDB →
  outcome (CommitLoopResult (E:=Empty_set) * Scheduler.Sched Empty_set * ParallelState EmptyDB)).
Abbreviation parallel_execute := (parallel_execute transact_one parallel_phase).
Abbreviation fallback_sequential := (fallback_sequential transact_one).

Definition scheduler_returns_an_error_for_a_second_execution : outcome unit :=
  let! scheduler := empty_scheduler 0 in
  let! (first, scheduler) := parallel_execute 0 (Some 1) 1 scheduler in
  run! unwrap_ok first in
  let! (second, scheduler) := parallel_execute 0 (Some 1) 1 scheduler in
  let! error := unwrap_err second in
  rejected_as_second error.

Definition fallback_then_execute_is_rejected_without_replaying_results : outcome unit :=
  let! scheduler := empty_scheduler 1 in
  let! (r, scheduler) := fallback_sequential 1 scheduler in
  run! unwrap_ok r in
  run! assert_eq (length (rn_results scheduler)) 1 in
  let! (r, scheduler) := parallel_execute 0 None 1 scheduler in
  let! error := unwrap_err r in
  run! rejected_as_second error in
  assert_eq (length (rn_results scheduler)) 1.

(** Whichever thread claims the scheduler first. *)
Definition concurrent_fallback_and_execute_have_exactly_one_winner (fallback_first : bool) : outcome unit :=
  let! scheduler := empty_scheduler 0 in
  let! (fallback, execute) :=
    if fallback_first then
      let! (f, scheduler) := fallback_sequential 1 scheduler in
      let! (e, scheduler) := parallel_execute 0 None 1 scheduler in Done (f, e)
    else
      let! (e, scheduler) := parallel_execute 0 None 1 scheduler in
      let! (f, scheduler) := fallback_sequential 1 scheduler in Done (f, e) in
  run! assert_that (xorb (is_ok fallback) (is_ok execute)) in
  let! loser := match fallback with Err e => Done e | Ok _ => unwrap_err execute end in
  rejected_as_second loser.

Definition fatal_execution_abort_uses_recorded_txid_not_finality_idx : outcome unit :=
  let! scheduler := empty_scheduler 3 in
  let! s := set_result 2 (mkTransactionResult ∅ ∅ (Err (Custom "fatal execution error"))) (rn_sched scheduler) in
  let scheduler := set_rn_sched (abort (FatalEvmError 2) s) scheduler in
  let! (r, scheduler) := post_execute transact_one CommittedPrefixEnd_ZERO scheduler in
  let! error := unwrap_err r in
  run! assert_eq (finality (scheduler_ctx (rn_sched scheduler))) 0 in
  run! assert_eq (ge_txid error) 2 in
  match Model.error error with Custom m => assert_that (bool_decide (m = "fatal execution error")) | _ => Panic end.

Definition commit_abort_carries_error_without_using_tx_results : outcome unit :=
  let! scheduler := empty_scheduler 3 in
  let scheduler := set_rn_sched (abort (CommitError (mkGrevmError 1 (Custom "commit error"))) (rn_sched scheduler)) scheduler in
  let! (r, scheduler) := post_execute transact_one CommittedPrefixEnd_ZERO scheduler in
  let! error := unwrap_err r in
  run! assert_eq (ge_txid error) 1 in
  run! match Model.error error with Custom m => assert_that (bool_decide (m = "commit error")) | _ => Panic end in
  assert_that (forallb is_none (tx_results (rn_sched scheduler))).

Definition parallel_error_replays_suffix_from_committed_prefix : outcome unit :=
  let caller := repeated 202 20 in
  let receiver := repeated 203 20 in
  let state := ps_insert_account caller (mkInfo 1000000 1 0 None) (ParallelState_of empty_db) in
  let suffix_tx := mkTxEnv caller 1 1 (Call receiver) 21000 0 in
  let! scheduler := scheduler_of 0 [tx_env_default; suffix_tx] state in
  let scheduler := set_rn_results [Skipped 2%Z] scheduler in
  let scheduler := set_rn_sched (abort (ParallelError 0 "test parallel invariant failure") (rn_sched scheduler)) scheduler in
  let! (r, scheduler) := post_execute transact_one (mkPrefixEnd 1) scheduler in
  run! unwrap_ok r in
  run! assert_eq (length (rn_results scheduler)) 2 in
  match rn_results scheduler !! 1 with Some (ExecutedOutcome _) => Done tt | _ => Panic end.

End lifecycle.

Definition duplicate_claim_does_not_release_dependents_before_execution_starts : outcome unit :=
  let! scheduler := empty_scheduler 2 in
  let s := rn_sched scheduler in
  let! (t, d) := TxDependency.next (tx_dependency s) in
  run! assert_eq t (Some 0) in
  let! (task, s) := execution_task 0 (set_tx_dependency d s) in
  run! assert_that (match task with Some (Execution _) => true | _ => false end) in
  let! (t, d) := TxDependency.next (tx_dependency s) in
  run! assert_eq t (Some 1) in
  let! d := add 1 (Some 0) d in
  let! (t, d) := TxDependency.next d in
  run! assert_eq t (Some 0) in
  let! (task, s) := execution_task 0 (set_tx_dependency d s) in
  run! assert_that (is_none task) in
  let! (t, d) := TxDependency.next (tx_dependency s) in
  run! assert_eq t None in
  let! (_, d) := remove 0 false d in
  let! (t, d) := TxDependency.next d in
  assert_eq t (Some 1).

Definition finality_candidate_obeys_validation_rewinds_and_timestamps : outcome unit :=
  let! scheduler := empty_scheduler 1 in
  let s := rn_sched scheduler in
  let! c := ctx_executed 0 (scheduler_ctx s) in
  let '(i, c) := next_validation_idx 1 c in
  run! assert_eq i (Some 0) in
  let '(first_timestamp, c) := logical_timestamp c in
  let! c := unconfirmed 0 first_timestamp c in
  let! s := set_status 0 Unconfirmed (set_ctx c s) in
  let! candidate := lock_finality_candidate 0 0 s in
  run! assert_that (is_some candidate) in
  let! s := rewind_to 0 s in
  let! candidate := lock_finality_candidate 0 0 s in
  run! assert_that (is_none candidate) in
  let '(i, c) := next_validation_idx 1 (scheduler_ctx s) in
  run! assert_eq i (Some 0) in
  let! candidate := lock_finality_candidate 0 0 (set_ctx c s) in
  run! assert_that (is_none candidate) in
  let '(revalidated_timestamp, c) := logical_timestamp c in
  let! c := unconfirmed 0 revalidated_timestamp c in
  let! candidate := lock_finality_candidate 0 0 (set_ctx c s) in
  assert_that (is_some candidate).

Definition successful_speculative_result : SpeculativeResult := settled stopped ∅.
Definition successful_result {E} : TransactionResult E := mkTransactionResult ∅ ∅ (Ok successful_speculative_result).

Definition is_commit_database_error (t : TxId) (e : GrevmError CommitDbError) : outcome unit :=
  run! assert_eq (ge_txid e) t in
  match error e with Database commit_db_error => Done tt | _ => Panic end.

Definition ordered_commit_database_error_aborts_and_returns_exact_error : outcome unit :=
  let caller := repeated 202 20 in
  let beneficiary := repeated 203 20 in
  let! scheduler := scheduler_of beneficiary [tx_env caller 0] (ParallelState_of (mkCommitFailDb beneficiary)) in
  let! s := set_result 0 successful_result (rn_sched scheduler) in
  let s := set_ctx (publish_finality 1 (scheduler_ctx s)) s in
  let committer := OrderedCommitter_new beneficiary (rn_state scheduler) false in
  let! (run, (s, _, _)) := run_commit_loop 1 committer s in
  let! run := unwrap run in
  let! error := unwrap (clr_error run) in
  run! is_commit_database_error 0 error in
  run! assert_that (abort_flag s) in
  run! assert_eq (Context.committed (scheduler_ctx s)) 0 in
  run! match abort_reason s with Some (CommitError abort_error) => is_commit_database_error 0 abort_error | _ => Panic end in
  assert_eq (prefix_index (output_end (clr_committed run))) 0.

Definition ordered_commit_error_retains_the_successful_prefix : outcome unit :=
  let beneficiary := repeated 203 20 in
  let failing_caller := repeated 204 20 in
  let! scheduler := scheduler_of beneficiary [tx_env beneficiary 0; tx_env failing_caller 0]
    (ParallelState_of (mkCommitFailDb beneficiary)) in
  let! s := set_result 0 successful_result (rn_sched scheduler) in
  let! s := set_result 1 successful_result s in
  let s := set_ctx (publish_finality 2 (scheduler_ctx s)) s in
  let committer := OrderedCommitter_new beneficiary (rn_state scheduler) false in
  let! (run, (s, c, _)) := run_commit_loop 2 committer s in
  let! run := unwrap run in
  run! assert_eq (prefix_index (output_end (clr_committed run))) 1 in
  run! assert_eq (Context.committed (scheduler_ctx s)) 1 in
  let! (installed, scheduler) := install_commit_loop_result run (set_rn_state (oc_state c) (set_rn_sched s scheduler)) in
  let! error := unwrap_err installed in
  run! assert_eq (ge_txid error) 1 in
  assert_eq (length (rn_results scheduler)) 1.

Definition scheduler_tests : list (outcome unit) :=
  [scheduler_activates_delegated_safety_only_from_prague;
   duplicate_claim_does_not_release_dependents_before_execution_starts;
   finality_candidate_obeys_validation_rewinds_and_timestamps;
   ordered_commit_database_error_aborts_and_returns_exact_error;
   ordered_commit_error_retains_the_successful_prefix].

Example scheduler_tests_pass : Forall (λ t, t = Done tt) scheduler_tests.
Proof. repeat constructor; by vm_compute. Qed.

(** Whatever revm and the threads do: no transaction is reached. *)
Example lifecycle_tests_pass transact_one parallel_phase :
  scheduler_returns_an_error_for_a_second_execution transact_one parallel_phase = Done tt ∧
  (∀ first, concurrent_fallback_and_execute_have_exactly_one_winner transact_one parallel_phase first = Done tt) ∧
  fatal_execution_abort_uses_recorded_txid_not_finality_idx transact_one = Done tt ∧
  commit_abort_carries_error_without_using_tx_results transact_one = Done tt.
Proof. split_and!; [by vm_compute|by intros []; vm_compute|by vm_compute|by vm_compute]. Qed.

(** The replayed transactions succeed and leave the state as it is. *)
Definition succeed_all (t : TxId) (tx : TxEnv) (st : ParallelState EmptyDB) :
    result (EVMError Empty_set) ExecutionResult * EvmState * ParallelState EmptyDB := (Ok stopped, ∅, st).

Example replay_tests_pass parallel_phase :
  fallback_then_execute_is_rejected_without_replaying_results succeed_all parallel_phase = Done tt ∧
  parallel_error_replays_suffix_from_committed_prefix succeed_all = Done tt.
Proof. split; by vm_compute. Qed.

End SchedulerTests.

(** ** src/src/scheduler/fallback.rs *)

Module FallbackTests.
Import OrderedCommitTests SchedulerTests.

Definition success : ExecutionResult := stopped.
Definition scheduler (num_txs : nat) : outcome (Runner (DB:=EmptyDB) (E:=Empty_set)) := empty_scheduler num_txs.

Definition sequential_fatal_error_preserves_the_completed_prefix : outcome unit :=
  let! scheduler := scheduler 3 in
  let! (replay, _, _) := execute_sequential_suffix (E:=Empty_set) (λ txid _ st,
      Done (if decide (txid = 1) then Err (Custom "fatal") else Ok success, st))
    (txs (rn_sched scheduler)) 0 tt in
  run! assert_eq (length (sro_outcomes replay)) 1 in
  let! e := unwrap (sro_error replay) in
  run! assert_eq (ge_txid e) 1 in
  match error e with Custom m => assert_that (bool_decide (m = "fatal")) | _ => Panic end.

Definition skipped_transaction_still_advances_the_replay_prefix : outcome unit :=
  let! scheduler := scheduler 2 in
  let! (replay, _, _) := execute_sequential_suffix (E:=Empty_set) (λ txid _ st,
      Done (if decide (txid = 0) then Err (Transaction (2%Z : InvalidTransaction)) else Ok success, st))
    (txs (rn_sched scheduler)) 0 tt in
  run! assert_that (is_none (sro_error replay)) in
  run! assert_eq (length (sro_outcomes replay)) 2 in
  match sro_outcomes replay with
  | [Skipped _; ExecutedOutcome _] => Done tt
  | _ => Panic
  end.

Example fallback_tests_pass :
  sequential_fatal_error_preserves_the_completed_prefix = Done tt ∧
  skipped_transaction_still_advances_the_replay_prefix = Done tt.
Proof. split; by vm_compute. Qed.

End FallbackTests.

(** ** src/src/scheduler/executor.rs *)

Module ExecutorTests.
#[local] Existing Instance pc_internals.

(** The forks of the test as numbers in their order, and tables in which every opcode but
    the two creating ones has static gas that depends on the fork. *)
#[local] Instance fork_tables : RevmTables nat unit string := {|
  is_enabled_in a b := Nat.leb b a;
  PRAGUE := 18; CREATE := 240; CREATE2 := 245;
  mainnet_instruction _ _ := tt;
  mainnet_static_gas spec op :=
    if decide (op = 240%Z ∨ op = 245%Z) then 0%Z else (op + Z.of_nat spec)%Z;
  mainnet_precompile _ _ := None
|}.

Definition test_specs : list nat := [0; 5; 11; 18; 19; 20].

Definition delegated_create_guard_preserves_selected_spec_gas_table : outcome unit :=
  let each spec :=
    let standard := build_evm (Output:=unit) (PrecompileId:=string) (λ c : nat, c) tt spec tt [] false in
    let guarded := build_evm (Output:=unit) (PrecompileId:=string) (λ c : nat, c) tt spec tt [] true in
    forallb (λ op, bool_decide (gas_table (ge_instruction guarded) op = gas_table (ge_instruction standard) op))
      (Z.of_nat <$> seq 0 256) in
  assert_that (forallb each test_specs).

Definition executor_rejects_incarnation_db_for_another_beneficiary : outcome _ :=
  let beneficiary := Beneficiary_new 1 None 1 in
  GrevmExecutor_new (Output:=unit) (PrecompileId:=string) (λ c : nat, c) (λ b : Address, b) (λ _ : unit, beneficiary) tt 0 2%Z [] disabled None.

Example executor_tests_pass :
  delegated_create_guard_preserves_selected_spec_gas_table = Done tt ∧
  panics executor_rejects_incarnation_db_for_another_beneficiary = true.
Proof. split; by vm_compute. Qed.

End ExecutorTests.
