(* ===== verification/TestsTools.v ===== *)
(** The unit tests of the replay tools: src/src/bin/replay_mainnet.rs, src/src/bin/rpc.rs,
    src/src/test_utils/common/mainnet.rs and src/src/test_utils/common/execute.rs, and those of
    the error type, src/src/outcome.rs.

    JSON values are the trees of Text.v. What alloy computes (the address of a creation, the
    signer of an authorization) is instantiated: the tests do not depend on its values beyond the
    ones they quote. The strict replay of an invalid transaction needs an interpreter and is not
    translated. *)

From stdpp Require Import pretty.
From S2P Require Import Prelude Model Reward History World Metrics Executor Text MemoryDb Mainnet Rpc ReplayTool Reference Testing.
Open Scope string_scope.
Open Scope list_scope.
Open Scope nat_scope.

#[local] Existing Instance tree_json.

(** ** src/src/bin/rpc.rs *)

Module RpcTests.

Definition json_error (code : Z) (message : string) : Tree :=
  TObject [("code", TNumber code); ("message", TString message)].

Definition recognizes_http_and_json_rpc_rate_limits : outcome unit :=
  run! assert_that (is_rate_limit_error (json_error 429 "throttled")) in
  run! assert_that (is_rate_limit_error (json_error (-32007) "50/second request limit reached")) in
  run! assert_that (is_rate_limit_error (json_error (-1) "Too many requests")) in
  assert_that (negb (is_rate_limit_error (json_error (-32602) "invalid params"))).

Definition accepts_numeric_and_decimal_string_response_ids : outcome unit :=
  run! assert_eq (response_id (TObject [("id", TNumber 42)])) (Some 42%Z) in
  run! assert_eq (response_id (TObject [("id", TString "42")])) (Some 42%Z) in
  assert_eq (response_id (TObject [("id", TString "0x2a")])) None.

Example rpc_tests_pass :
  recognizes_http_and_json_rpc_rate_limits = Done tt ∧ accepts_numeric_and_decimal_string_response_ids = Done tt.
Proof. split; by vm_compute. Qed.

End RpcTests.

(** ** src/src/test_utils/common/mainnet.rs *)

Module MainnetTests.

(** Addresses of 20 bytes, printed and read in hexadecimal. *)
#[local] Instance test_alloy : Alloy := {|
  keccak256 := @keccak256 alloy_example;
  KECCAK_EMPTY := 0;
  new_raw_checked := @new_raw_checked alloy_example;
  hash_slow := @hash_slow alloy_example;
  parse_address := @parse_address alloy_example;
  parse_hash := @parse_hash alloy_example;
  parse_hex_bytes := @parse_hex_bytes alloy_example;
  u256_from_str_radix := @u256_from_str_radix alloy_example;
  u256_from_str := @u256_from_str alloy_example;
  create_address a n := ((a + n) mod 2 ^ 160)%Z;
  address_to_string a := "0x" +:+ hex_loop 40 a ""
|}.

(** The names the crate uses. *)
#[local] Instance test_specs : Specs := {|
  SpecId := string;
  spec_from_str s := (λ _, s) <$> fork_rank s;
  MERGE := "Merge"
|}.

Definition mainnet_hardfork_resolution_covers_historical_and_timestamp_boundaries : outcome unit :=
  run! assert_eq (spec_for_mainnet_block 1149999 0) "Frontier" in
  run! assert_eq (spec_for_mainnet_block 1150000 0) "Homestead" in
  run! assert_eq (spec_for_mainnet_block 2674999 0) "Tangerine" in
  run! assert_eq (spec_for_mainnet_block 2675000 0) "Spurious" in
  run! assert_eq (spec_for_mainnet_block 15537394 0) "Merge" in
  run! assert_eq (spec_for_mainnet_block 17034870 1681338455) "Shanghai" in
  assert_eq (spec_for_mainnet_block 23935694 1764798551) "Osaka".

Definition invalid_and_legacy_fixture_specs_are_resolved_from_block_metadata : outcome unit :=
  let fixture spec_id := mkBlockFixture 1124576 0 1457550778 0 0 0 None None 1 spec_id ∅ in
  let! spec := fixture_spec_id (fixture "Merge") in
  run! assert_eq spec "Frontier" in
  let! spec := fixture_spec_id (fixture "not-a-hardfork") in
  assert_eq spec "Frontier".

Definition top_level_create_is_seeded_empty_before_later_prestate_snapshot : outcome unit :=
  let! caller := unwrap_ok (parse_address "0x2301f65b3069f3c30daec6ccfd1969b541b627a7") in
  let nonce := 22%Z in
  let created := create_address caller nonce in
  let tx := mkTxFixture 2 caller None nonce 0 [] 100000 1 (Some 0%Z) (Some 1%Z) [] [] 0 [] in
  let trace := TArray [TObject [("result", TObject [(address_to_string created, TObject
    [("balance", TString "0x0"); ("nonce", TNumber 1); ("code", TString "0x6000");
     ("storage", TObject [("0x01", TString "0x02")])])])]] in
  let '(r, pre_state) := accumulate_prestate ∅ trace [tx] in
  run! unwrap_ok r in
  let! account := unwrap (pre_state !! created) in
  run! assert_eq (af_balance account) 0%Z in
  run! assert_eq (af_nonce account) 0%Z in
  run! assert_eq (af_code account) None in
  assert_eq (af_storage account !! 1%Z) (Some 2%Z).

Example mainnet_tests_pass :
  mainnet_hardfork_resolution_covers_historical_and_timestamp_boundaries = Done tt ∧
  invalid_and_legacy_fixture_specs_are_resolved_from_block_metadata = Done tt ∧
  top_level_create_is_seeded_empty_before_later_prestate_snapshot = Done tt.
Proof. split_and!; by vm_compute. Qed.

End MainnetTests.

(** ** src/src/bin/replay_mainnet.rs *)

Module ReplayTests.
#[local] Existing Instance alloy_example.

Definition Filter_eqb (a b : Filter) : bool :=
  match a, b with FAll, FAll | FEip7702, FEip7702 | FDelegatedSafety, FDelegatedSafety => true | _, _ => false end.

Definition parses_delegated_safety_filter : outcome unit :=
  let! f := unwrap_ok (filter_parse "delegated-safety") in
  run! assert_that (Filter_eqb f FDelegatedSafety) in
  run! unwrap_err (filter_parse "delegated_safety") in Done tt.

(** A frame with the members the test gives it. *)
Definition frame (type_ from : string) (to value : option string) (calls : option (list Tree)) : Tree :=
  TObject ([("type", TString type_); ("from", TString from)]
    ++ option_list ((λ s, ("to", TString s)) <$> to)
    ++ option_list ((λ s, ("value", TString s)) <$> value)
    ++ option_list ((λ l, ("calls", TArray l)) <$> calls)).

Definition to_ascii_uppercase (s : string) : string :=
  String.string_of_list_ascii ((λ c, let n := Ascii.nat_of_ascii c in
    if decide (97 ≤ n ≤ 122) then Ascii.ascii_of_nat (n - 32) else c) <$> String.list_ascii_of_string s).

Definition ok_candidates (r : option (result TraceError (gset (nat * Z)))) : outcome (gset (nat * Z)) :=
  let! r := unwrap r in unwrap_ok r.
Definition trace_rejected (r : option (result TraceError (gset (nat * Z)))) : outcome unit :=
  let! r := unwrap r in run! unwrap_err r in Done tt.

Definition extracts_delegated_safety_sources_from_internal_frames : outcome unit :=
  let authority := "0x1111111111111111111111111111111111111111" in
  let creator := "0x2222222222222222222222222222222222222222" in
  let selfdestruct := "0x3333333333333333333333333333333333333333" in
  let target := "0x4444444444444444444444444444444444444444" in
  let trace := TArray [
    TObject [("txHash", TString "0x01"); ("result",
      frame "CALL" authority (Some target) (Some "0x10") (Some [
        frame "CALL" authority (Some target) (Some "0x1") None;
        frame "CALL" authority (Some target) (Some "0x0") None;
        frame "CALL" authority (Some (to_ascii_uppercase authority)) (Some "0x1") None;
        frame "CREATE2" creator (Some target) (Some "0x0") None;
        frame "DELEGATECALL" authority (Some target) None (Some [
          frame "CALL" authority (Some target) (Some "0x2") None])]))];
    TObject [("txHash", TString "0x02"); ("result",
      frame "CALL" target (Some authority) None (Some [
        frame "SELFDESTRUCT" selfdestruct (Some target) (Some "0x0") None]))]] in
  let! candidates := ok_candidates (delegated_safety_candidates trace 2) in
  let! a := unwrap_ok (parse_address authority) in
  let! c := unwrap_ok (parse_address creator) in
  let! d := unwrap_ok (parse_address selfdestruct) in
  assert_eq candidates {[ (0, a); (0, c); (1, d) ]}.

Definition ignores_roots_and_irrelevant_call_types : outcome unit :=
  let one := "0x1111111111111111111111111111111111111111" in
  let two := "0x2222222222222222222222222222222222222222" in
  let trace := TArray [TObject [("result", frame "CREATE" one None (Some "0x1") (Some [
      frame "STATICCALL" one (Some two) None None;
      frame "CALLCODE" one (Some two) (Some "0x1") None]))]] in
  let! candidates := ok_candidates (delegated_safety_candidates trace 1) in
  assert_eq candidates ∅.

Definition reports_malformed_and_per_transaction_call_tracer_errors : outcome unit :=
  run! trace_rejected (delegated_safety_candidates TNull 0) in
  run! trace_rejected (delegated_safety_candidates (TArray []) 1) in
  run! trace_rejected (delegated_safety_candidates
    (TArray [TObject [("txHash", TString "0x01"); ("error", TString "tracer timed out")]]) 1) in
  trace_rejected (delegated_safety_candidates
    (TArray [TObject [("txHash", TString "0x01");
      ("result", TObject [("type", TString "CALL"); ("calls", TObject [])])]]) 1).

Definition recognizes_only_complete_eip7702_designators : outcome unit :=
  let designator := [239; 1; 0]%Z ++ replicate 20 17%Z in
  run! assert_that (is_eip7702_designator designator) in
  run! assert_that (negb (is_eip7702_designator (take 22 designator))) in
  assert_that (negb (is_eip7702_designator (designator ++ [0%Z]))).

(** The signer of the authorization is what the test says revm recovers. *)
Definition recovers_same_transaction_mainnet_delegation_authority : outcome unit :=
  let! address := unwrap_ok (parse_address "0x80296ff8d1ed46f8e3c7992664d13b833504c2bb") in
  let! r := unwrap_ok (u256_from_str "0x929f6cd0d7b45d3327876760190d01dc949ae1ad5d0118287c9fa303327199a2") in
  let! s := unwrap_ok (u256_from_str "0x1ec1a55dc4d3312c58d3d6590eca1c03032763a5c5f438548df8d49d1e725bcd") in
  let! signer := unwrap_ok (parse_address "0x8fcf555a7a664654af595a72e4e48676db8136cf") in
  let tx := mkTxFixture 4 0 (Some 0%Z) 0 0 [] 0 0 None (Some 1%Z) [] [] 0
    [mkAuthFixture 1 address 88 1 r s] in
  let authority (a : SignedAuthorization) :=
    if decide (sa_address a = address ∧ sa_r a = r ∧ sa_s a = s) then Some signer else None in
  assert_eq (earliest_non_clearing_authorizations authority [tx]) {[ signer := 0 ]}.

Definition replay_tests : list (outcome unit) :=
  [parses_delegated_safety_filter; extracts_delegated_safety_sources_from_internal_frames;
   ignores_roots_and_irrelevant_call_types; reports_malformed_and_per_transaction_call_tracer_errors;
   recognizes_only_complete_eip7702_designators; recovers_same_transaction_mainnet_delegation_authority].

Example replay_tool_tests_pass : Forall (λ t, t = Done tt) replay_tests.
Proof. repeat constructor; by vm_compute. Qed.

End ReplayTests.

(** ** src/src/test_utils/common/execute.rs *)

Module ExecuteTests.

Definition revm_compatibility_always_disables_delegated_safety (env : string → option string) (cores : option nat) : Prop :=
  cfg_delegated_safety (revm_compatibility_config env cores) = disabled.

Definition expected_metrics_reject_missing_keys : outcome unit :=
  assert_expected_metrics ∅ {[ "grevm.missing" := 1 ]}.

Definition expected_metrics_reject_wrong_values : outcome unit :=
  assert_expected_metrics {[ "grevm.total_tx_cnt" := 7 ]} {[ "grevm.total_tx_cnt" := 8 ]}.

Example execute_tests_pass :
  (∀ env cores, revm_compatibility_always_disables_delegated_safety env cores) ∧
  panics expected_metrics_reject_missing_keys = true ∧ panics expected_metrics_reject_wrong_values = true.
Proof. split_and!; [done|by vm_compute|by vm_compute]. Qed.

End ExecuteTests.

(** ** src/src/outcome.rs *)

Module OutcomeTests.
#[local] Existing Instance revm_example.

(** [Display] and [Error::source] of [GrevmError]; [evm_display] is revm's [Display] of its error. *)
Section error.
Context {DBError : Type} (evm_display : EVMError DBError → string).
Definition grevm_error_fmt (e : GrevmError DBError) : string :=
  "transaction " +:+ pretty (ge_txid e) +:+ " failed: " +:+ evm_display (error e).
Definition grevm_error_source (e : GrevmError DBError) : option (EVMError DBError) := Some (error e).
End error.

Inductive TestDbError := test_db_error.
Definition TestDbError_fmt (e : TestDbError) : string := "test database failure".

(** revm's message of a database error, and its source. *)
Definition evm_display (e : EVMError TestDbError) : string :=
  match e with Database e => "database error: " +:+ TestDbError_fmt e | _ => "" end.
Definition evm_source (e : EVMError TestDbError) : option TestDbError :=
  match e with Database e => Some e | _ => None end.

Definition grevm_error_displays_transaction_and_evm_error : outcome unit :=
  let error := mkGrevmError 42 (Database test_db_error) in
  assert_eq (grevm_error_fmt evm_display error) "transaction 42 failed: database error: test database failure".

Definition grevm_error_exposes_evm_error_as_source : outcome unit :=
  let error := mkGrevmError 7 (Database test_db_error) in
  let! source := unwrap (grevm_error_source error) in
  run! assert_that (match source with Database test_db_error => true | _ => false end) in
  assert_that (is_some (evm_source source)).

Example outcome_tests_pass :
  grevm_error_displays_transaction_and_evm_error = Done tt ∧ grevm_error_exposes_evm_error_as_source = Done tt.
Proof. split; by vm_compute. Qed.

End OutcomeTests.
